(** * discord-to-simplex: the schema-adaptive record synthesis engine

    A shallow embedding of the insertion engine of [main.go]
    ([calculateChunkSize], [getTemplateRow], the [bulkInsert...] family,
    [insertFileAttachment], [bulkInsertUniversalMessages],
    [ConvertDiscordMessage] and the import loop of [main]) together with
    the properties the specification states about it.

    Conventions.
    - A Go [string] and a Go [[]byte] are both sequences of bytes and are
      both embedded as [string]; the SQL value built from them remembers
      which one it was ([VText] or [VBlob]).
    - A Go [int] is a 64-bit integer: it is embedded in [Z] and every
      addition the program performs on one is followed by [wrap].
    - A Go [map[string]interface{}] is a [gmap string _]; the nil map is
      [None] of the option around it.
    - Everything the program obtains from outside itself (the clock, the
      file system, ffmpeg, the standard library's encoders, the constraint
      checks of the SQL engine, what the driver makes of a stored value) is
      a field of the record [World]. *)

From Stdlib Require Import ZArith String Ascii Bool Lia.
From stdpp Require Import base option gmap strings list sorting pretty.

Set Warnings "-register-all".
Open Scope Z_scope.

(** ** Go integers *)

Definition wrap (z : Z) : Z := (z + 2 ^ 63) mod 2 ^ 64 - 2 ^ 63.

Definition maxInt : Z := 2 ^ 63 - 1.

(** [a + b] on [int] *)
Definition addInt (a b : Z) : Z := wrap (a + b).

(** ** Results of fallible code

    [Err] is a returned [error] (its text), [Panic] a run-time panic, which
    no [if err != nil] of the program intercepts.  [OutOfFuel] is not a
    behaviour of the program: it is what a loop of the model returns when
    the bound on its iterations is used up. *)

Inductive result (A : Type) : Type :=
| Ok (a : A)
| Err (e : string)
| Panic (e : string)
| OutOfFuel.

Arguments Ok {A} a.
Arguments Err {A} e.
Arguments Panic {A} e.
Arguments OutOfFuel {A}.

Definition isOk {A} (r : result A) : bool :=
  match r with Ok _ => true | _ => false end.

Definition isErr {A} (r : result A) : bool :=
  match r with Err _ => true | _ => false end.

(** [fmt.Errorf("<prefix>: %w", err)] *)
Definition errorf (prefix e : string) : string := prefix +:+ ": " +:+ e.

(** ** SQL values, rows, tables *)

Inductive value : Type :=
| VNull
| VInt (n : Z)
| VText (s : string)
| VBlob (b : string).

Global Instance value_eq_dec : EqDecision value.
Proof. solve_decision. Defined.

(** A stored row maps column names to values.  The hidden [rowid] of a
    table is kept in the row under the key ["rowid"]. *)
Record table : Type := {
  t_columns : list string;
  t_rows : list (gmap string value)
}.

Definition intOf (v : value) : option Z :=
  match v with VInt n => Some n | _ => None end.

(** [MAX(col)] over the rows; [None] is SQL's NULL. *)
Definition colMax (col : string) (rows : list (gmap string value)) : option Z :=
  foldr (λ r acc,
         match r !! col ≫= intOf with
         | Some n => Some (match acc with Some m => Z.max n m | None => n end)
         | None => acc
         end) None rows.

(** Does the column hold nothing but integers and NULLs?  [MAX] ranks a
    text or a blob above every integer, so that the maximum of a column is
    an integer (or NULL) exactly when this holds. *)
Definition integerColumn (col : string) (rows : list (gmap string value))
  : bool :=
  forallb (λ r, match r !! col with
                | Some (VText _) | Some (VBlob _) => false
                | _ => true
                end) rows.

Definition hasColumn (t : table) (col : string) : bool :=
  bool_decide (col ∈ t_columns t) || bool_decide (col = "rowid"%string).

(** The row an [INSERT INTO t (cols) VALUES (vals)] stores: the supplied
    values under their columns, NULL in the other columns of the table, and
    a fresh [rowid] when the statement does not carry one. *)
Definition storedRow (t : table) (cols : list string) (vals : list value)
  : gmap string value :=
  let given : gmap string value := list_to_map (zip cols vals) in
  let full := given ∪ list_to_map ((λ c, (c, VNull)) <$> t_columns t) in
  match given !! "rowid"%string ≫= intOf with
  | Some _ => full
  | None => <["rowid"%string := VInt (default 0 (colMax "rowid" (t_rows t)) + 1)]> full
  end.

Definition insertRows (t : table) (cols : list string) (rows : list (list value))
  : table :=
  foldl (λ t' vals, {| t_columns := t_columns t';
                       t_rows := t_rows t' ++ [storedRow t' cols vals] |}) t rows.

(** ** Round trips to the database, as they appear on the wire *)

Inductive event : Type :=
| EvMax (tbl col : string)
| EvCoalesceMax (tbl col : string) (plus : Z)
| EvColumns (tbl : string)
| EvSelect (tbl col : string) (id : Z)
| EvInsert (tbl : string) (cols : list string) (rows : list (list value))
| EvBegin
| EvCommit
| EvRollback.

Global Instance event_eq_dec : EqDecision event.
Proof. solve_decision. Defined.

(** ** JSON documents handed to [json.Marshal] *)

Inductive json : Type :=
| JNull
| JBool (b : bool)
| JInt (n : Z)
| JString (s : string)
| JObject (fields : gmap string json).

Definition jfield (k : string) (j : json) : option json :=
  match j with JObject m => m !! k | _ => None end.

(** The member reached from [j] by the keys [keys], outermost first. *)
Definition jpath (keys : list string) (j : json) : option json :=
  foldl (λ (o : option json) k, o ≫= jfield k) (Some j) keys.

(** Values decoded by [json.Unmarshal] into [interface{}]; a number is kept
    by the integer [int64(...)] or [int(...)] makes of it. *)
Inductive raw : Type :=
| RNull
| RBool (b : bool)
| RNum (n : Z)
| RStr (s : string)
| RArr (items : list raw)
| RObj (fields : gmap string raw).

(** ** The world outside the program *)

Record World : Type := {
  (** [json.Marshal]: its error or the bytes *)
  w_jsonMarshal : json → string + string;
  (** [base64.StdEncoding.EncodeToString] *)
  w_base64 : string → string;
  (** [os.ReadFile]: its error or the contents *)
  w_readFile : string → string + string;
  (** [os.Stat] followed by [os.IsNotExist]: does the path exist? *)
  w_fileExists : string → bool;
  (** [filepath.Join], [filepath.Ext], [strings.ToLower] *)
  w_filepathJoin : string → string → string;
  w_filepathExt : string → string;
  w_toLower : string → string;
  (** [generateVideoThumbnail], which runs ffprobe and ffmpeg: its error or
      the thumbnail and the duration in seconds *)
  w_generateVideoThumbnail : string → string + (string * Z);
  (** [copyFileToSimplexDir sourcePath filename simplexFilesDir]: [Some e]
      is its error *)
  w_copyFileToSimplexDir : string → string → string → option string;
  (** [time.Time.Format layout t], [time.Parse(time.RFC3339, s)] ([None] when
      it fails); an instant is an integer and the zero [time.Time] is 0 *)
  w_timeFormat : string → Z → string;
  w_timeParse : string → option Z;
  (** [time.Now()]: every call reads the clock anew.  A call is told from
      the others by the statements issued on the connection before it and
      by its number among the calls made since the last of them. *)
  w_now : list event → nat → Z;
  (** [fmt.Sprintf("%v", m[key])] *)
  w_sprintV : option raw → string;
  (** the constraint checks of the engine on an insert statement, given the
      state of the transaction: [Some e] is the error of [tx.Exec] *)
  w_execError : gmap string table → string → list string → list (list value)
                → option string;
  (** the value a stored value of a column of a table comes back as when
      the driver has scanned it into an [interface{}] and binds it again as
      a parameter: by the declared type of the column a DATETIME text is
      turned into a [time.Time] and written in another layout, a BOOLEAN
      into true or false *)
  w_driverValue : string → string → value → value;
  (** [db.Begin] and [tx.Commit]: [Some e] is the error *)
  w_beginError : gmap string table → option string;
  w_commitError : gmap string table → option string
}.

(** ** The connection: the database it sees and the statements issued on it *)

Record dbstate : Type := {
  st_db : gmap string table;
  st_log : list event
}.

Definition M (A : Type) : Type := dbstate → result A * dbstate.

Global Instance M_ret : MRet M := λ A a s, (Ok a, s).

Global Instance M_bind : MBind M := λ A B f m s,
  match m s with
  | (Ok a, s') => f a s'
  | (Err e, s') => (Err e, s')
  | (Panic e, s') => (Panic e, s')
  | (OutOfFuel, s') => (OutOfFuel, s')
  end.

Definition fail {A} (e : string) : M A := λ s, (Err e, s).

Definition panic {A} (e : string) : M A := λ s, (Panic e, s).

Definition liftR {A} (r : result A) : M A := λ s, (r, s).

(** A [(value, err)] pair of the standard library *)
Definition ofSum {A} (r : string + A) : result A :=
  match r with inl e => Err e | inr a => Ok a end.

(** [if err != nil { return fmt.Errorf("<prefix>: %w", err) }] *)
Definition wrapErr {A} (prefix : string) (m : M A) : M A := λ s,
  match m s with
  | (Err e, s') => (Err (errorf prefix e), s')
  | r => r
  end.

(** [x, err := f(...)] with the error inspected by the caller, not returned *)
Definition attempt {A} (m : M A) : M (result A) := λ s,
  match m s with
  | (Ok a, s') => (Ok (Ok a), s')
  | (Err e, s') => (Ok (Err e), s')
  | (Panic e, s') => (Panic e, s')
  | (OutOfFuel, s') => (OutOfFuel, s')
  end.

Definition logEv (e : event) : M unit := λ s,
  (Ok tt, {| st_db := st_db s; st_log := st_log s ++ [e] |}).

Definition getDb : M (gmap string table) := λ s, (Ok (st_db s), s).

Definition putDb (d : gmap string table) : M unit := λ s,
  (Ok tt, {| st_db := d; st_log := st_log s |}).

(** [for _, x := range xs { body }], left to right, leaving at the first
    error *)
Fixpoint forEach {A} (xs : list A) (body : A → M unit) : M unit :=
  match xs with
  | [] => mret tt
  | x :: rest => body x;; forEach rest body
  end.

(** [for j, x := range xs], collecting what each iteration appends *)
Fixpoint forRows {A B} (j : Z) (xs : list A) (body : Z → A → M B) : M (list B) :=
  match xs with
  | [] => mret []
  | x :: rest => b ← body j x; bs ← forRows (j + 1) rest body; mret (b :: bs)
  end.

(** Same, threading a loop-carried local. *)
Fixpoint forEachAcc {A S} (xs : list A) (acc : S) (body : S → A → M S) : M S :=
  match xs with
  | [] => mret acc
  | x :: rest => acc' ← body acc x; forEachAcc rest acc' body
  end.

(** ** Slices and the chunking loop *)

Definition len {A} (l : list A) : Z := Z.of_nat (length l).

(** [l[i:j]]; out-of-range bounds panic. *)
Definition goSlice {A} (l : list A) (i j : Z) : result (list A) :=
  if (0 <=? i) && (i <=? j) && (j <=? len l)
  then Ok (take (Z.to_nat (j - i)) (drop (Z.to_nat i) l))
  else Panic "runtime error: slice bounds out of range".

(** Calculate safe chunk size based on number of columns and SQLite limit *)
Definition calculateChunkSize (numColumns maxParams : Z) : result Z :=
  let maxParams := if maxParams <=? 0 then 900 else maxParams in
  if numColumns =? 0 then Panic "runtime error: integer divide by zero"
  else
    let chunkSize := maxParams ÷ numColumns in
    let chunkSize := if chunkSize <? 1 then 1 else chunkSize in
    Ok chunkSize.

(** [for i := 0; i < len(data); i += chunkSize {
       end := i + chunkSize
       if end > len(data) { end = len(data) }
       chunk := data[i:end]
       body
    }] started at [i]. *)
Fixpoint chunkLoop {A} (fuel : nat) (data : list A) (chunkSize i : Z)
    (body : Z → Z → list A → M unit) : M unit :=
  if i <? len data then
    match fuel with
    | O => liftR OutOfFuel
    | S fuel' =>
        let end_ := wrap (i + chunkSize) in
        let end_ := if end_ >? len data then len data else end_ in
        chunk ← liftR (goSlice data i end_);
        body i end_ chunk;;
        chunkLoop fuel' data chunkSize (wrap (i + chunkSize)) body
    end
  else mret tt.

Definition forChunks {A} (data : list A) (chunkSize : Z)
    (body : Z → Z → list A → M unit) : M unit :=
  chunkLoop (S (length data)) data chunkSize 0 body.

(** ** Row values: override, else template, else NULL *)

(** [templateRow != nil && len(templateRow) > 0] *)
Definition templateUsable (templateRow : option (gmap string value)) : bool :=
  match templateRow with
  | Some m => 0 <? Z.of_nat (size m)
  | None => false
  end.

(** [templateRow[col]]: the zero value [nil] when the key is absent *)
Definition templateIndex (templateRow : option (gmap string value)) (col : string)
  : value :=
  match templateRow with
  | Some m => default VNull (m !! col)
  | None => VNull
  end.

Definition rowValueFor (overrideFields : gmap string value)
    (templateRow : option (gmap string value)) (col : string) : value :=
  match overrideFields !! col with
  | Some val => val
  | None =>
      if templateUsable templateRow then templateIndex templateRow col
      else VNull
  end.

(** [for k, col := range columns { rowValues[k] = ... }] from index [k] on *)
Fixpoint fillRowValues (overrideFields : gmap string value)
    (templateRow : option (gmap string value)) (k : nat) (columns : list string)
    (rowValues : list value) : list value :=
  match columns with
  | [] => rowValues
  | col :: rest =>
      fillRowValues overrideFields templateRow (S k) rest
        (<[k := rowValueFor overrideFields templateRow col]> rowValues)
  end.

(** [rowValues := make([]interface{}, len(columns))] and the loop over it *)
Definition buildRowValues (overrideFields : gmap string value)
    (templateRow : option (gmap string value)) (columns : list string)
  : list value :=
  fillRowValues overrideFields templateRow 0%nat columns
    (replicate (length columns) VNull).

(** ["(" + strings.Repeat("?,", len(columns)-1) + "?)"]: [Repeat] panics on
    a negative count. *)
Definition placeholderGroup (columns : list string) : result unit :=
  if len columns - 1 <? 0 then Panic "strings: negative Repeat count"
  else Ok tt.

(** ** Statements on the transaction *)

Definition scanError : string :=
  "sql: Scan error on column index 0: converting driver.Value type to a int: invalid syntax".

(** What the engine answers to [MAX(col)] over [tbl], scanned into an
    integer.  The model follows columns of integers and NULLs: where the
    column holds a text or a blob, that is the maximum, and the model
    answers with the error of a [Scan] that cannot convert it. *)
Definition selectMax (tbl col : string) : M (option Z) :=
  db ← getDb;
  match db !! tbl with
  | None => fail ("no such table: " +:+ tbl)
  | Some t =>
      if hasColumn t col then
        if integerColumn col (t_rows t) then mret (colMax col (t_rows t))
        else fail scanError
      else fail ("no such column: " +:+ col)
  end.

(** [SELECT MAX(col) FROM tbl] *)
Definition queryMax (tbl col : string) : M (option Z) :=
  logEv (EvMax tbl col);;
  selectMax tbl col.

(** [SELECT COALESCE(MAX(col), 0) FROM tbl] *)
Definition queryMaxOrZero (tbl col : string) : M Z :=
  logEv (EvCoalesceMax tbl col 0);;
  m ← selectMax tbl col; mret (default 0 m).

(** [SELECT COALESCE(MAX(col), 0) + 1 FROM tbl] scanned into an [int]: at
    the largest integer the sum of the engine is a floating-point number,
    which [Scan] does not convert. *)
Definition queryNextID (tbl col : string) : M Z :=
  logEv (EvCoalesceMax tbl col 1);;
  m ← selectMax tbl col;
  if default 0 m <? maxInt then mret (default 0 m + 1) else fail scanError.

(** [SELECT columns FROM tbl WHERE idColumn = id], first row, each value
    scanned into an [interface{}] *)
Definition querySelectRow (w : World) (tbl : string) (columns : list string)
    (idColumn : string) (id : Z) : M (list value) :=
  logEv (EvSelect tbl idColumn id);;
  db ← getDb;
  match db !! tbl with
  | None => fail ("no such table: " +:+ tbl)
  | Some t =>
      match filter (λ r, r !! idColumn = Some (VInt id)) (t_rows t) with
      | r :: _ =>
          mret ((λ c, w_driverValue w tbl c (default VNull (r !! c)))
                <$> columns)
      | [] => fail "sql: no rows in result set"
      end
  end.

(** [PRAGMA table_info(tbl)]: the ordered column names; no rows, and no
    error, for a table that does not exist. *)
Definition getTableColumns (tableName : string) : M (list string) :=
  logEv (EvColumns tableName);;
  db ← getDb;
  mret (from_option t_columns [] (db !! tableName)).

Definition getTemplateRow (w : World) (tableName idColumn : string)
  : M (option (gmap string value)) :=
  templateID ← wrapErr ("failed to get template " +:+ idColumn)
                 (queryMax tableName idColumn);
  match templateID with
  | None => mret (Some ∅)
  | Some id =>
      columns ← getTableColumns tableName;
      values ← querySelectRow w tableName columns idColumn id;
      mret (Some (foldl (λ (m : gmap string value) cv, <[cv.1 := cv.2]> m) ∅
                    (zip columns values)))
  end.

(** ** The message model

    Of [UniversalMessage] and [DiscordMessage] the fields below are the ones
    the engine reads; avatar URLs and the free-form [PlatformData] maps are
    written once by the converter and never read again, and are left out. *)

Record UniversalAttachment : Type := {
  att_ID : string;
  att_Filename : string;
  att_URL : string;
  att_MimeType : string;
  att_Size : Z
}.

Record UniversalMention : Type := {
  mn_UserID : string;
  mn_Username : string;
  mn_Start : Z;
  mn_Length : Z
}.

Record UniversalReaction : Type := {
  re_Emoji : string;
  re_Count : Z;
  re_UserIDs : list string
}.

Record UniversalAuthor : Type := {
  au_ID : string;
  au_Username : string;
  au_DisplayName : string;
  au_IsBot : bool
}.

Record QuotedMessage : Type := {
  q_SharedMsgID : string;
  q_SentAt : Z;
  q_Content : string;
  q_IsSent : bool
}.

Record UniversalMessage : Type := {
  m_ID : string;
  m_Content : string;
  m_Timestamp : Z;
  m_EditedAt : option Z;
  m_Author : UniversalAuthor;
  m_MessageType : string;
  m_Platform : string;
  m_Attachments : list UniversalAttachment;
  m_Mentions : list UniversalMention;
  m_Reactions : list UniversalReaction;
  m_ReplyToID : option string;
  m_QuotedMessage : option QuotedMessage;
  m_IsPinned : bool;
  m_IsSent : bool
}.

Record DiscordAuthor : Type := {
  da_ID : string;
  da_Name : string;
  da_Nickname : string;
  da_IsBot : bool
}.

Record DiscordReference : Type := {
  dr_MessageID : string;
  dr_ChannelID : string
}.

Record DiscordMessage : Type := {
  d_ID : string;
  d_Type : string;
  d_Timestamp : string;
  d_TimestampEdited : option string;
  d_IsPinned : bool;
  d_Content : string;
  d_Author : DiscordAuthor;
  d_Attachments : list raw;
  d_Reactions : list raw;
  d_Mentions : list DiscordAuthor;
  d_Reference : option DiscordReference
}.

Record MessageInsertData : Type := {
  MessageID : Z;
  ChatItemID : Z;
  SharedMsgID : string;
  Message : UniversalMessage
}.

Record BulkInsertData : Type := {
  Messages : list MessageInsertData;
  StartMessageID : Z;
  StartChatItemID : Z;
  StartDeliveryRowID : Z;
  DiscordToSharedMsgID : option (gmap string string);
  DiscordMessages : option (gmap string DiscordMessage)
}.

Definition newline : string := String "010"%char "".
Definition dquote : string := String "034"%char "".

Definition sqlTime : string := "2006-01-02 15:04:05".
Definition sqlTimeNanos : string := "2006-01-02 15:04:05.000000000".
Definition RFC3339 : string := "2006-01-02T15:04:05Z07:00".

Section Synthesis.
Context (w : World).

(** Helper function to read and encode image as base64 *)
Definition encodeImageToBase64 (imagePath : string) : string + string :=
  match w_readFile w imagePath with
  | inl e => inl ("failed to read image file " +:+ imagePath +:+ ": " +:+ e)
  | inr imageData =>
      let ext := w_toLower w (w_filepathExt w imagePath) in
      let mimeType :=
        if bool_decide (ext = ".jpg") then "image/jpg"
        else if bool_decide (ext = ".jpeg") then "image/jpeg"
        else if bool_decide (ext = ".png") then "image/png"
        else if bool_decide (ext = ".gif") then "image/gif"
        else "image/jpg" in
      inr ("data:" +:+ mimeType +:+ ";base64," +:+ w_base64 w imageData)
  end.

Definition fileInfoJSON (attachment : UniversalAttachment) : json :=
  JObject {[
    "fileDescr" := JObject {[
      "fileDescrComplete" := JBool false;
      "fileDescrPartNo" := JInt 0;
      "fileDescrText" := JString "" ]};
    "fileName" := JString (att_Filename attachment);
    "fileSize" := JInt (att_Size attachment) ]}.

Definition imageFallbackText (attachment : UniversalAttachment)
    (msg : UniversalMessage) : string :=
  "[Image: " +:+ att_Filename attachment +:+ "]" +:+
  (if bool_decide (m_Content msg ≠ "") then newline +:+ m_Content msg else "").

(** The [content] and [fileInfo] of [bulkInsertMessages]: a failure of the
    image encoder or of the thumbnail generator is answered with a fallback
    content, not with an error. *)
Definition messageContent (jsonDir : string) (msg : UniversalMessage)
  : json * option json :=
  match m_Attachments msg with
  | attachment :: _ =>
      if bool_decide (m_MessageType msg = "image") then
        let imagePath := w_filepathJoin w jsonDir (att_URL attachment) in
        match encodeImageToBase64 imagePath with
        | inl _ =>
            (JObject {[ "text" := JString (imageFallbackText attachment msg);
                        "type" := JString "text" ]}, None)
        | inr imageBase64 =>
            (JObject {[ "image" := JString imageBase64;
                        "text" := JString (m_Content msg);
                        "type" := JString "image" ]},
             Some (fileInfoJSON attachment))
        end
      else if bool_decide (m_MessageType msg = "video") then
        let videoPath := w_filepathJoin w jsonDir (att_URL attachment) in
        (match w_generateVideoThumbnail w videoPath with
         | inl _ =>
             JObject {[ "type" := JString "file";
                        "text" := JString (m_Content msg) ]}
         | inr (thumbnailBase64, duration) =>
             JObject {[ "type" := JString "video";
                        "text" := JString (m_Content msg);
                        "image" := JString thumbnailBase64;
                        "duration" := JInt duration ]}
         end, Some (fileInfoJSON attachment))
      else if bool_decide (m_MessageType msg = "voice") then
        (JObject {[ "text" := JString (m_Content msg);
                    "type" := JString "file" ]},
         Some (fileInfoJSON attachment))
      else
        (JObject {[ "text" := JString (m_Content msg);
                    "type" := JString "file" ]},
         Some (fileInfoJSON attachment))
  | [] =>
      (JObject {[ "text" := JString (m_Content msg);
                  "type" := JString "text" ]}, None)
  end.

Definition quoteJSON (q : QuotedMessage) : json :=
  JObject {[
    "content" := JObject {[ "text" := JString (q_Content q);
                            "type" := JString "text" ]};
    "msgRef" := JObject {[
      "msgId" := JString (w_base64 w (q_SharedMsgID q));
      "sent" := JBool false;
      "sentAt" := JString (w_timeFormat w RFC3339 (q_SentAt q)) ]} ]}.

Definition messageParams (jsonDir : string) (msg : UniversalMessage)
  : gmap string json :=
  let '(content, fileInfo) := messageContent jsonDir msg in
  let params : gmap string json := {[ "content" := content ]} in
  let params :=
    match fileInfo with
    | Some fi => <["file" := fi]> params
    | None => params
    end in
  match m_QuotedMessage msg with
  | Some q => <["quote" := quoteJSON q]> params
  | None => params
  end.

Definition msgBodyJSON (jsonDir : string) (msg : UniversalMessage) : json :=
  JObject {[
    "v" := JString "1-14";
    "msgId" := JString (w_base64 w (m_ID msg));
    "event" := JString "x.msg.new";
    "params" := JObject (messageParams jsonDir msg) ]}.

Definition messagesOverrides (msgData : MessageInsertData)
    (msgBodyBytes : string) : gmap string value :=
  let msg := Message msgData in
  let msgSent := if m_IsSent msg then 1 else 0 in
  let overrideFields : gmap string value := list_to_map [
    ("message_id", VInt (MessageID msgData));
    ("chat_msg_event", VText "x.msg.new");
    ("shared_msg_id", VBlob (SharedMsgID msgData));
    ("msg_body", VBlob msgBodyBytes);
    ("msg_sent", VInt msgSent);
    ("created_at", VText (w_timeFormat w sqlTime (m_Timestamp msg)));
    ("updated_at", VText (w_timeFormat w sqlTime (m_Timestamp msg))) ] in
  if msgSent =? 1 then <["shared_msg_id_user" := VInt 1]> overrideFields
  else <["shared_msg_id_user" := VNull]> overrideFields.

(** One iteration of the row loop of [bulkInsertMessages]. *)
Definition messagesRow (jsonDir : string) (columns : list string)
    (templateRow : option (gmap string value)) (msgData : MessageInsertData)
  : result (list value) :=
  match w_jsonMarshal w (msgBodyJSON jsonDir (Message msgData)) with
  | inl e => Err (errorf "failed to marshal message body" e)
  | inr msgBodyBytes =>
      Ok (buildRowValues (messagesOverrides msgData msgBodyBytes)
            templateRow columns)
  end.

(** [tx.Exec("INSERT INTO tbl (columns) VALUES ...", args...)] *)
Definition execInsert (tbl : string) (columns : list string)
    (rows : list (list value)) : M unit :=
  logEv (EvInsert tbl columns rows);;
  db ← getDb;
  match w_execError w db tbl columns rows with
  | Some e => fail e
  | None =>
      match db !! tbl with
      | None => fail ("no such table: " +:+ tbl)
      | Some t => putDb (<[tbl := insertRows t columns rows]> db)
      end
  end.

Definition chunkError (i end_ : Z) : string :=
  "failed to execute chunk " +:+ pretty i +:+ "-" +:+ pretty end_.

Definition bulkInsertMessages (data : BulkInsertData) (jsonDir : string)
    (contactID : Z) : M unit :=
  templateRow ← wrapErr "failed to get template row"
                  (getTemplateRow w "messages" "message_id");
  columns ← getTableColumns "messages";
  chunkSize ← liftR (calculateChunkSize (len columns) 900);
  forChunks (Messages data) chunkSize (λ i end_ chunk,
    rows ← forRows 0 chunk (λ _ msgData,
              liftR (messagesRow jsonDir columns templateRow msgData));
    wrapErr (chunkError i end_) (execInsert "messages" columns rows)).


(** *** File rows *)

(** [time.Now()], call number [k] since the last statement *)
Definition timeNow (k : nat) : M Z := λ s, (Ok (w_now w (st_log s) k), s).

Definition sndFilesOverrides (fileID nextDeliveryID createdAt updatedAt : Z)
  : gmap string value :=
  list_to_map [
    ("file_id", VInt fileID);
    ("connection_id", VInt 1);
    ("file_status", VText "complete");
    ("last_inline_msg_delivery_id", VInt nextDeliveryID);
    ("created_at", VText (w_timeFormat w sqlTime createdAt));
    ("updated_at", VText (w_timeFormat w sqlTime updatedAt)) ].

Definition insertSndFile (fileID : Z) : M unit :=
  templateRow ← getTemplateRow w "snd_files" "file_id";
  columns ← getTableColumns "snd_files";
  nextDeliveryID ← wrapErr "failed to get next delivery ID"
                     (queryNextID "snd_files" "last_inline_msg_delivery_id");
  createdAt ← timeNow 0;
  updatedAt ← timeNow 1;
  let rowValues :=
    buildRowValues
      (sndFilesOverrides fileID nextDeliveryID createdAt updatedAt)
      templateRow columns in
  liftR (placeholderGroup columns);;
  execInsert "snd_files" columns [rowValues].

Definition rcvFilesOverrides (fileID createdAt updatedAt : Z)
  : gmap string value :=
  list_to_map [
    ("file_id", VInt fileID);
    ("file_status", VText "complete");
    ("user_approved_relays", VInt 0);
    ("created_at", VText (w_timeFormat w sqlTime createdAt));
    ("updated_at", VText (w_timeFormat w sqlTime updatedAt)) ].

Definition insertRcvFile (fileID : Z) : M unit :=
  templateRow ← getTemplateRow w "rcv_files" "file_id";
  columns ← getTableColumns "rcv_files";
  createdAt ← timeNow 0;
  updatedAt ← timeNow 1;
  let rowValues :=
    buildRowValues (rcvFilesOverrides fileID createdAt updatedAt)
      templateRow columns in
  liftR (placeholderGroup columns);;
  execInsert "rcv_files" columns [rowValues].

(** Truncate filename if too long; the slice [name[:200-len(ext)]] panics
    when the extension alone is longer than 200 bytes. *)
Definition truncateFilename (filename : string) : result string :=
  if 200 <? Z.of_nat (String.length filename) then
    let ext := w_filepathExt w filename in
    let n := 200 - Z.of_nat (String.length ext) in
    if n <? 0 then Panic "runtime error: slice bounds out of range"
    else Ok (substring 0 (Z.to_nat n) filename +:+ ext)
  else Ok filename.

(** Set file status and protocol based on message type *)
Definition fileStatusProtocol (messageType : string) (isSent : bool)
  : string * string :=
  if bool_decide (messageType = "video") then ("snd_stored", "local")
  else if bool_decide (messageType = "image")
          || bool_decide (messageType = "voice") then
    (if isSent then "snd_complete" else "rcv_complete", "xftp")
  else
    (if isSent then "snd_complete" else "rcv_complete", "smp").

Definition filesOverrides (attachment : UniversalAttachment) (chatItemID : Z)
    (isSent : bool) (messageType : string) (contactID nextFileID : Z)
    (truncatedFilename : string) (createdAt updatedAt : Z)
  : gmap string value :=
  let '(fileStatus, protocol) := fileStatusProtocol messageType isSent in
  list_to_map [
    ("file_id", VInt nextFileID);
    ("contact_id", VInt contactID);
    ("file_name", VText truncatedFilename);
    ("file_path", VText truncatedFilename);
    ("file_size", VInt (att_Size attachment));
    ("chunk_size", VInt 16384);
    ("user_id", VInt 1);
    ("chat_item_id", VInt chatItemID);
    ("ci_file_status", VText fileStatus);
    ("protocol", VText protocol);
    ("created_at", VText (w_timeFormat w sqlTime createdAt));
    ("updated_at", VText (w_timeFormat w sqlTime updatedAt));
    ("file_crypto_key", VNull);
    ("file_crypto_nonce", VNull) ].

(** Helper function to insert file attachment and return file_id *)
Definition insertFileAttachment (attachment : UniversalAttachment)
    (chatItemID : Z) (isSent : bool) (jsonDir messageType : string)
    (contactID : Z) (simplexFilesDir : string) : M Z :=
  let filePath := w_filepathJoin w jsonDir (att_URL attachment) in
  if negb (w_fileExists w filePath) then fail ("file not found: " +:+ filePath)
  else
    templateRow ← wrapErr "failed to get template file row"
                    (getTemplateRow w "files" "file_id");
    nextFileID ← wrapErr "failed to get next file_id"
                   (queryNextID "files" "file_id");
    columns ← getTableColumns "files";
    truncatedFilename ← liftR (truncateFilename (att_Filename attachment));
    wrapErr "failed to copy file to SimpleX directory"
      (liftR (match w_copyFileToSimplexDir w filePath (att_Filename attachment)
                      simplexFilesDir with
              | Some e => Err e
              | None => Ok tt
              end));;
    createdAt ← timeNow 0;
    updatedAt ← timeNow 1;
    let rowValues :=
      buildRowValues
        (filesOverrides attachment chatItemID isSent messageType contactID
           nextFileID truncatedFilename createdAt updatedAt)
        templateRow columns in
    liftR (placeholderGroup columns);;
    wrapErr "failed to insert file" (execInsert "files" columns [rowValues]);;
    (if bool_decide (messageType ≠ "video") then
       wrapErr "failed to insert file transfer record"
         (if isSent then insertSndFile nextFileID else insertRcvFile nextFileID)
     else mret tt);;
    mret nextFileID.

(** *** Chat item rows *)

(** The [msgContent] of [bulkInsertChatItems]. *)
Definition chatItemContent (jsonDir : string) (msg : UniversalMessage) : json :=
  match m_Attachments msg with
  | attachment :: _ =>
      if bool_decide (m_MessageType msg = "image") then
        let imagePath := w_filepathJoin w jsonDir (att_URL attachment) in
        match encodeImageToBase64 imagePath with
        | inl _ =>
            JObject {[ "type" := JString "text";
                       "text" := JString (imageFallbackText attachment msg) ]}
        | inr imageBase64 =>
            JObject {[ "type" := JString "image";
                       "text" := JString (m_Content msg);
                       "image" := JString imageBase64 ]}
        end
      else if bool_decide (m_MessageType msg = "video") then
        let videoPath := w_filepathJoin w jsonDir (att_URL attachment) in
        match w_generateVideoThumbnail w videoPath with
        | inl _ =>
            JObject {[ "type" := JString "file";
                       "text" := JString (m_Content msg) ]}
        | inr (thumbnailBase64, duration) =>
            JObject {[ "type" := JString "video";
                       "text" := JString (m_Content msg);
                       "image" := JString thumbnailBase64;
                       "duration" := JInt duration ]}
        end
      else if bool_decide (m_MessageType msg = "voice") then
        JObject {[ "type" := JString "file"; "text" := JString (m_Content msg) ]}
      else
        JObject {[ "type" := JString "file"; "text" := JString (m_Content msg) ]}
  | [] =>
      JObject {[ "type" := JString "text"; "text" := JString (m_Content msg) ]}
  end.

Definition itemContentTag (msg : UniversalMessage) : string :=
  if m_IsSent msg then "sndMsgContent" else "rcvMsgContent".

Definition itemContentJSON (jsonDir : string) (msg : UniversalMessage) : json :=
  JObject {[ itemContentTag msg :=
               JObject {[ "msgContent" := chatItemContent jsonDir msg ]} ]}.

Definition quotedContentJSON (q : QuotedMessage) : json :=
  JObject {[ "type" := JString "text"; "text" := JString (q_Content q) ]}.

(** The quote columns of a chat item: the quote's fields when the message
    carries a [QuotedMessage] (with its marshalled content), NULLs if not. *)
Definition quoteOverrides (quoted : option (QuotedMessage * string))
    (overrideFields : gmap string value) : gmap string value :=
  match quoted with
  | Some (q, quotedContentBytes) =>
      let quotedSent := if q_IsSent q then 1 else 0 in
      <["quoted_sent" := VInt quotedSent]>
        (<["quoted_content" := VText quotedContentBytes]>
           (<["quoted_sent_at" := VText (w_timeFormat w sqlTime (q_SentAt q))]>
              (<["quoted_shared_msg_id" := VBlob (q_SharedMsgID q)]>
                 overrideFields)))
  | None =>
      <["quoted_sent" := VNull]>
        (<["quoted_content" := VNull]>
           (<["quoted_sent_at" := VNull]>
              (<["quoted_shared_msg_id" := VNull]> overrideFields)))
  end.

Definition chatItemsOverrides (msgData : MessageInsertData) (contactID : Z)
    (itemContentBytes : string) (quoted : option (QuotedMessage * string))
  : gmap string value :=
  let msg := Message msgData in
  let itemSent := if m_IsSent msg then 1 else 0 in
  let itemStatus :=
    if m_IsSent msg then "snd_rcvd ok complete" else "rcv_read" in
  quoteOverrides quoted (list_to_map [
    ("chat_item_id", VInt (ChatItemID msgData));
    ("user_id", VInt 1);
    ("contact_id", VInt contactID);
    ("created_by_msg_id", VInt (MessageID msgData));
    ("shared_msg_id", VBlob (SharedMsgID msgData));
    ("item_content", VText itemContentBytes);
    ("item_text", VText (m_Content msg));
    ("item_content_tag", VText (itemContentTag msg));
    ("item_sent", VInt itemSent);
    ("item_status", VText itemStatus);
    ("item_deleted", VInt 0);
    ("item_edited", VInt 0);
    ("include_in_history", VInt 1);
    ("user_mention", VInt 0);
    ("show_group_as_sender", VInt 0);
    ("item_ts", VText (w_timeFormat w sqlTime (m_Timestamp msg)));
    ("created_at", VText (w_timeFormat w sqlTime (m_Timestamp msg)));
    ("updated_at", VText (w_timeFormat w sqlTime (m_Timestamp msg))) ]).

(** The part of an iteration of the row loop of [bulkInsertChatItems] that
    follows the attachment: the payloads and the row. *)
Definition chatItemsRowValues (jsonDir : string) (contactID : Z)
    (columns : list string) (templateRow : option (gmap string value))
    (msgData : MessageInsertData) : result (list value) :=
  let msg := Message msgData in
  match w_jsonMarshal w (itemContentJSON jsonDir msg) with
  | inl e => Err (errorf "failed to marshal item_content" e)
  | inr itemContentBytes =>
      match m_QuotedMessage msg with
      | Some q =>
          match w_jsonMarshal w (quotedContentJSON q) with
          | inl e => Err (errorf "failed to marshal quoted_content" e)
          | inr quotedContentBytes =>
              Ok (buildRowValues
                    (chatItemsOverrides msgData contactID itemContentBytes
                       (Some (q, quotedContentBytes))) templateRow columns)
          end
      | None =>
          Ok (buildRowValues
                (chatItemsOverrides msgData contactID itemContentBytes None)
                templateRow columns)
      end
  end.

(** One iteration of the row loop of [bulkInsertChatItems]: the file
    attachment first, its error dropped, then the row. *)
Definition chatItemsRow (jsonDir : string) (contactID : Z)
    (simplexFilesDir : string) (columns : list string)
    (templateRow : option (gmap string value)) (msgData : MessageInsertData)
  : M (list value) :=
  let msg := Message msgData in
  match m_Attachments msg with
  | attachment :: _ =>
      _ ← attempt (insertFileAttachment attachment (ChatItemID msgData)
                     (m_IsSent msg) jsonDir (m_MessageType msg) contactID
                     simplexFilesDir);
      mret tt
  | [] => mret tt
  end;;
  liftR (chatItemsRowValues jsonDir contactID columns templateRow msgData).

Definition bulkInsertChatItems (data : BulkInsertData) (jsonDir : string)
    (contactID : Z) (simplexFilesDir : string) : M unit :=
  templateRow ← wrapErr "failed to get template row"
                  (getTemplateRow w "chat_items" "chat_item_id");
  columns ← getTableColumns "chat_items";
  chunkSize ← liftR (calculateChunkSize (len columns) 900);
  forChunks (Messages data) chunkSize (λ i end_ chunk,
    rows ← forRows 0 chunk (λ _ msgData,
              chatItemsRow jsonDir contactID simplexFilesDir columns
                templateRow msgData);
    wrapErr (chunkError i end_) (execInsert "chat_items" columns rows)).

(** *** Link rows *)

Definition chatItemMessagesOverrides (msgData : MessageInsertData)
    (nextRowID i j : Z) : gmap string value :=
  let msg := Message msgData in
  list_to_map [
    ("rowid", VInt (addInt (addInt nextRowID i) j));
    ("chat_item_id", VInt (ChatItemID msgData));
    ("message_id", VInt (MessageID msgData));
    ("created_at", VText (w_timeFormat w sqlTime (m_Timestamp msg)));
    ("updated_at", VText (w_timeFormat w sqlTime (m_Timestamp msg))) ].

Definition bulkInsertChatItemMessages (data : BulkInsertData) : M unit :=
  templateRow ← wrapErr "failed to get template row"
                  (getTemplateRow w "chat_item_messages" "rowid");
  columns ← getTableColumns "chat_item_messages";
  nextRowID ← wrapErr "failed to get next rowid"
                (queryNextID "chat_item_messages" "rowid");
  chunkSize ← liftR (calculateChunkSize (len columns) 900);
  forChunks (Messages data) chunkSize (λ i end_ chunk,
    rows ← forRows 0 chunk (λ j msgData,
              mret (buildRowValues
                      (chatItemMessagesOverrides msgData nextRowID i j)
                      templateRow columns));
    wrapErr (chunkError i end_)
      (execInsert "chat_item_messages" columns rows)).

(** *** Delivery rows *)

Definition msgDeliveriesOverrides (msgData : MessageInsertData)
    (maxAgentMsgID i j : Z) : gmap string value :=
  let msg := Message msgData in
  let itemStatus := if m_IsSent msg then "snd_rcvd ok" else "rcv_read" in
  list_to_map [
    ("msg_delivery_id", VInt (MessageID msgData));
    ("message_id", VInt (MessageID msgData));
    ("connection_id", VInt 1);
    ("agent_msg_id", VInt (addInt (addInt (addInt maxAgentMsgID 1) i) j));
    ("agent_msg_meta", VNull);
    ("delivery_status", VText itemStatus);
    ("chat_ts", VText (w_timeFormat w sqlTime (m_Timestamp msg)));
    ("created_at", VText (w_timeFormat w sqlTime (m_Timestamp msg)));
    ("updated_at", VText (w_timeFormat w sqlTime (m_Timestamp msg))) ].

Definition bulkInsertMsgDeliveries (data : BulkInsertData) : M unit :=
  templateRow ← wrapErr "failed to get template row"
                  (getTemplateRow w "msg_deliveries" "msg_delivery_id");
  columns ← getTableColumns "msg_deliveries";
  maxAgentMsgID ← wrapErr "failed to get max agent_msg_id"
                    (queryMaxOrZero "msg_deliveries" "agent_msg_id");
  chunkSize ← liftR (calculateChunkSize (len columns) 900);
  forChunks (Messages data) chunkSize (λ i end_ chunk,
    rows ← forRows 0 chunk (λ j msgData,
              mret (buildRowValues
                      (msgDeliveriesOverrides msgData maxAgentMsgID i j)
                      templateRow columns));
    wrapErr (chunkError i end_) (execInsert "msg_deliveries" columns rows)).

(** *** Reaction rows *)

(** Remove variation selectors (U+FE0E, U+FE0F): in a valid UTF-8 string
    these are exactly the byte triples EF B8 8E and EF B8 8F. *)
Definition isVariationSelector (a b c : ascii) : bool :=
  bool_decide (a = "239"%char) && bool_decide (b = "184"%char)
  && (bool_decide (c = "142"%char) || bool_decide (c = "143"%char)).

Fixpoint normalizeEmojiForSimpleX (emoji : string) : string :=
  match emoji with
  | EmptyString => EmptyString
  | String a tl =>
      match tl with
      | String b (String c rest) =>
          if isVariationSelector a b c then normalizeEmojiForSimpleX rest
          else String a (normalizeEmojiForSimpleX tl)
      | _ => String a (normalizeEmojiForSimpleX tl)
      end
  end.

Definition reactionColumns : list string :=
  [ "chat_item_reaction_id"; "shared_msg_id"; "contact_id";
    "created_by_msg_id"; "reaction"; "reaction_sent"; "reaction_ts";
    "created_at"; "updated_at" ]%string.

Definition reactionRow (msgData : MessageInsertData) (contactID : Z)
    (reaction : UniversalReaction) (reactionIDCounter : Z) : list value :=
  let msg := Message msgData in
  let normalizedEmoji := normalizeEmojiForSimpleX (re_Emoji reaction) in
  let reactionJSON :=
    "{" +:+ dquote +:+ "type" +:+ dquote +:+ ":" +:+ dquote +:+ "emoji"
    +:+ dquote +:+ "," +:+ dquote +:+ "emoji" +:+ dquote +:+ ":" +:+ dquote
    +:+ normalizedEmoji +:+ dquote +:+ "}" in
  let reactionSent := if m_IsSent msg then 0 else 1 in
  let actualContactID := contactID in
  [ VInt reactionIDCounter; VBlob (SharedMsgID msgData); VInt actualContactID;
    VNull; VText reactionJSON; VInt reactionSent;
    VText (w_timeFormat w sqlTimeNanos (m_Timestamp msg));
    VText (w_timeFormat w sqlTime (m_Timestamp msg));
    VText (w_timeFormat w sqlTime (m_Timestamp msg)) ].

Definition bulkInsertReactions (data : BulkInsertData) (contactID : Z) : M unit :=
  nextReactionID ← wrapErr "failed to get next reaction ID"
                     (queryNextID "chat_item_reactions" "chat_item_reaction_id");
  forEachAcc (Messages data) nextReactionID (λ reactionIDCounter msgData,
    forEachAcc (m_Reactions (Message msgData)) reactionIDCounter
      (λ reactionIDCounter reaction,
         wrapErr "failed to insert reaction"
           (execInsert "chat_item_reactions" reactionColumns
              [reactionRow msgData contactID reaction reactionIDCounter]);;
         mret (addInt reactionIDCounter 1)));;
  mret tt.

(** *** One batch, one transaction *)

(** Prepare bulk insert data: message [i] of the batch gets
    [startMessageID + i] and [maxChatItemID + 1 + i]. *)
Fixpoint prepareMessages (messages : list UniversalMessage)
    (startMessageID maxChatItemID i : Z) : list MessageInsertData :=
  match messages with
  | [] => []
  | msg :: rest =>
      {| MessageID := addInt startMessageID i;
         ChatItemID := addInt (addInt maxChatItemID 1) i;
         SharedMsgID := m_ID msg;
         Message := msg |}
      :: prepareMessages rest startMessageID maxChatItemID (i + 1)
  end.

Definition prepareBulkData (messages : list UniversalMessage)
    (startMessageID maxChatItemID : Z) : BulkInsertData :=
  {| Messages := prepareMessages messages startMessageID maxChatItemID 0;
     StartMessageID := startMessageID;
     StartChatItemID := addInt maxChatItemID 1;
     StartDeliveryRowID := 0;
     DiscordToSharedMsgID :=
       Some (foldl (λ (m : gmap string string) msg, <[m_ID msg := m_ID msg]> m)
               ∅ messages);
     DiscordMessages := None |}.

(** What [bulkInsertUniversalMessages] does between [db.Begin] and
    [tx.Commit]. *)
Definition batchSteps (messages : list UniversalMessage) (startMessageID : Z)
    (jsonDir : string) (contactID : Z) (simplexFilesDir : string) : M unit :=
  maxChatItemID ← wrapErr "failed to get max chat_item_id"
                    (queryMaxOrZero "chat_items" "chat_item_id");
  let bulkData := prepareBulkData messages startMessageID maxChatItemID in
  wrapErr "failed to bulk insert messages"
    (bulkInsertMessages bulkData jsonDir contactID);;
  wrapErr "failed to bulk insert chat items"
    (bulkInsertChatItems bulkData jsonDir contactID simplexFilesDir);;
  wrapErr "failed to bulk insert chat item messages"
    (bulkInsertChatItemMessages bulkData);;
  wrapErr "failed to bulk insert msg deliveries"
    (bulkInsertMsgDeliveries bulkData);;
  wrapErr "failed to bulk insert reactions"
    (bulkInsertReactions bulkData contactID).

(** The state of the connection is the committed database.  [db.Begin]
    gives the transaction a view of it; [tx.Commit] publishes that view;
    the deferred [tx.Rollback], and the rollback the driver performs when
    the commit itself fails, drop it. *)
Definition bulkInsertUniversalMessages (messages : list UniversalMessage)
    (startMessageID : Z) (jsonDir : string) (contactID : Z)
    (simplexFilesDir : string) : M unit := λ s,
  let tx := {| st_db := st_db s; st_log := st_log s ++ [EvBegin] |} in
  match w_beginError w (st_db s) with
  | Some e => (Err (errorf "failed to begin transaction" e), tx)
  | None =>
      match batchSteps messages startMessageID jsonDir contactID
              simplexFilesDir tx with
      | (Ok _, tx') =>
          match w_commitError w (st_db tx') with
          | None =>
              (Ok tt,
               {| st_db := st_db tx'; st_log := st_log tx' ++ [EvCommit] |})
          | Some e =>
              (Err (errorf "failed to commit transaction" e),
               {| st_db := st_db s;
                  st_log := st_log tx' ++ [EvCommit; EvRollback] |})
          end
      | (r, tx') =>
          (r, {| st_db := st_db s; st_log := st_log tx' ++ [EvRollback] |})
      end
  end.

(** ** From the export to universal messages *)

(** Determine message type based on file extension *)
Definition messageTypeOfExt (ext : string) : string :=
  if bool_decide (ext ∈ [".jpg"; ".jpeg"; ".png"; ".gif"; ".webp"]%string)
  then "image"
  else if bool_decide (ext ∈ [".mp4"; ".webm"; ".mov"; ".avi"]%string)
  then "video"
  else if bool_decide (ext ∈ [".mp3"; ".wav"; ".m4a"; ".ogg"]%string)
  then "voice"
  else "file".

(** The attachment loop; the assertion [.(float64)] on the size panics when
    the field is not a number. *)
Fixpoint convertAttachments (atts : list raw)
    (attachments : list UniversalAttachment) (messageType : string)
  : result (list UniversalAttachment * string) :=
  match atts with
  | [] => Ok (attachments, messageType)
  | RObj attMap :: rest =>
      let filename := w_sprintV w (attMap !! "fileName") in
      let ext := w_toLower w (w_filepathExt w filename) in
      let messageType := messageTypeOfExt ext in
      match attMap !! "fileSizeBytes" with
      | Some (RNum size) =>
          convertAttachments rest
            (attachments ++ [ {| att_ID := w_sprintV w (attMap !! "id");
                                 att_Filename := filename;
                                 att_URL := w_sprintV w (attMap !! "url");
                                 att_MimeType := "";
                                 att_Size := size |} ])
            messageType
      | _ => Panic "interface conversion: interface {} is not float64"
      end
  | _ :: rest => convertAttachments rest attachments messageType
  end.

Definition convertMentions (mentions : list DiscordAuthor)
  : list UniversalMention :=
  (λ mention, {| mn_UserID := da_ID mention;
                 mn_Username := da_Name mention;
                 mn_Start := 0;
                 mn_Length := Z.of_nat (String.length (da_Name mention)) |})
  <$> mentions.

Definition reactionUserIDs (users : option raw) : list string :=
  match users with
  | Some (RArr users) =>
      omap (λ user, match user with
                    | RObj userMap => Some (w_sprintV w (userMap !! "id"))
                    | _ => None
                    end) users
  | _ => []
  end.

Fixpoint convertReactions (reacts : list raw) (reactions : list UniversalReaction)
  : result (list UniversalReaction) :=
  match reacts with
  | [] => Ok reactions
  | RObj reactMap :: rest =>
      match reactMap !! "emoji" with
      | Some (RObj emojiMap) =>
          let emoji := w_sprintV w (emojiMap !! "name") in
          match reactMap !! "count" with
          | Some (RNum count) =>
              convertReactions rest
                (reactions ++ [ {| re_Emoji := emoji;
                                   re_Count := count;
                                   re_UserIDs :=
                                     reactionUserIDs (reactMap !! "users") |} ])
          | _ => Panic "interface conversion: interface {} is not float64"
          end
      | _ => convertReactions rest reactions
      end
  | _ :: rest => convertReactions rest reactions
  end.

(** Handle reply reference - use the mapping to get the correct
    shared_msg_id: the [replyToID] and the [quotedMessage]. *)
Definition resolveReply (discordMsg : DiscordMessage) (myUsername : string)
    (discordToSharedMsgID : gmap string string)
    (discordMessages : gmap string DiscordMessage)
  : option string * option QuotedMessage :=
  match d_Reference discordMsg with
  | Some reference =>
      let referencedDiscordID := dr_MessageID reference in
      match discordToSharedMsgID !! referencedDiscordID with
      | Some sharedMsgID =>
          (Some sharedMsgID,
           match discordMessages !! referencedDiscordID with
           | Some quotedDiscordMsg =>
               Some {| q_SharedMsgID := sharedMsgID;
                       q_SentAt :=
                         default 0 (w_timeParse w (d_Timestamp quotedDiscordMsg));
                       q_Content := d_Content quotedDiscordMsg;
                       q_IsSent :=
                         bool_decide
                           (da_Name (d_Author quotedDiscordMsg) = myUsername) |}
           | None => None
           end)
      | None => (Some referencedDiscordID, None)
      end
  | None => (None, None)
  end.

(** Platform-specific converters *)
Definition ConvertDiscordMessage (discordMsg : DiscordMessage)
    (myUsername : string) (discordToSharedMsgID : gmap string string)
    (discordMessages : gmap string DiscordMessage) (jsonDir : string)
  : result UniversalMessage :=
  let timestamp := default 0 (w_timeParse w (d_Timestamp discordMsg)) in
  let editedAt := d_TimestampEdited discordMsg ≫= w_timeParse w in
  match convertAttachments (d_Attachments discordMsg) [] "text" with
  | Ok (attachments, messageType) =>
      let messageType :=
        if bool_decide (messageType = "text") && (0 <? len attachments)
        then "file" else messageType in
      match convertReactions (d_Reactions discordMsg) [] with
      | Ok reactions =>
          let '(replyToID, quotedMessage) :=
            resolveReply discordMsg myUsername discordToSharedMsgID
              discordMessages in
          let displayName :=
            if bool_decide (da_Nickname (d_Author discordMsg) = "")
            then da_Name (d_Author discordMsg)
            else da_Nickname (d_Author discordMsg) in
          Ok {| m_ID := d_ID discordMsg;
                m_Content := d_Content discordMsg;
                m_Timestamp := timestamp;
                m_EditedAt := editedAt;
                m_Author := {| au_ID := da_ID (d_Author discordMsg);
                               au_Username := da_Name (d_Author discordMsg);
                               au_DisplayName := displayName;
                               au_IsBot := da_IsBot (d_Author discordMsg) |};
                m_MessageType := messageType;
                m_Platform := "discord";
                m_Attachments := attachments;
                m_Mentions := convertMentions (d_Mentions discordMsg);
                m_Reactions := reactions;
                m_ReplyToID := replyToID;
                m_QuotedMessage := quotedMessage;
                m_IsPinned := d_IsPinned discordMsg;
                m_IsSent :=
                  bool_decide (da_Name (d_Author discordMsg) = myUsername) |}
      | Err e => Err e
      | Panic e => Panic e
      | OutOfFuel => OutOfFuel
      end
  | Err e => Err e
  | Panic e => Panic e
  | OutOfFuel => OutOfFuel
  end.

(** First pass of [main]: Build Discord ID to shared_msg_id mapping for the
    entire dataset. *)
Definition buildMappings (messages : list DiscordMessage)
  : gmap string string * gmap string DiscordMessage :=
  foldl (λ (maps : gmap string string * gmap string DiscordMessage) discordMsg,
           (<[d_ID discordMsg := d_ID discordMsg]> maps.1,
            <[d_ID discordMsg := discordMsg]> maps.2))
        (∅, ∅) messages.

(** Second pass of [main]: Convert all messages to universal format with
    proper reply mapping; [todo] is what is left of the export. *)
Fixpoint convertMessages (todo : list DiscordMessage) (myUsername : string)
    (discordToSharedMsgID : gmap string string)
    (discordMessages : gmap string DiscordMessage) (jsonDir : string)
  : result (list UniversalMessage) :=
  match todo with
  | [] => Ok []
  | discordMsg :: rest =>
      match ConvertDiscordMessage discordMsg myUsername discordToSharedMsgID
              discordMessages jsonDir with
      | Ok universalMsg =>
          match convertMessages rest myUsername discordToSharedMsgID
                  discordMessages jsonDir with
          | Ok universalMessages => Ok (universalMsg :: universalMessages)
          | r => r
          end
      | Err e => Err e
      | Panic e => Panic e
      | OutOfFuel => OutOfFuel
      end
  end.

Definition convertExport (messages : list DiscordMessage)
    (myUsername jsonDir : string) : result (list UniversalMessage) :=
  let maps := buildMappings messages in
  convertMessages messages myUsername maps.1 maps.2 jsonDir.

Definition batchSize : Z := 500.

(** [main] from "Get starting message ID" to the end of the batch loop, on
    an open connection; [log.Fatalf] ends the run with the error. *)
Definition main (messages : list DiscordMessage)
    (myUsername jsonDir : string) (contactID : Z) (simplexFilesDir : string)
  : M unit :=
  startMessageID ← wrapErr "Failed to get starting message ID"
                     (queryNextID "messages" "message_id");
  universalMessages ← liftR (convertExport messages myUsername jsonDir);
  forChunks universalMessages batchSize (λ i end_ batch,
    let batchStartID := addInt startMessageID i in
    wrapErr ("Failed to insert batch " +:+ pretty (i + 1) +:+ "-" +:+ pretty end_)
      (bulkInsertUniversalMessages batch batchStartID jsonDir contactID
         simplexFilesDir)).

End Synthesis.

(** ** Vocabulary of the properties *)

(** Chunk number [k] of [data] cut every [cs] elements: its first index,
    the index after its last, its elements. *)
Definition chunkAt {A} (data : list A) (cs : Z) (k : nat) : Z * Z * list A :=
  let i := Z.of_nat k * cs in
  let e := Z.min (i + cs) (len data) in
  (i, e, take (Z.to_nat (e - i)) (drop (Z.to_nat i) data)).

(** [ceil(N / cs)] *)
Definition chunkCount (N cs : Z) : nat := Z.to_nat ((N + cs - 1) / cs).

Definition chunksOf {A} (data : list A) (cs : Z) : list (Z * Z * list A) :=
  chunkAt data cs <$> seq 0 (chunkCount (len data) cs).

(** [yields P Q m]: whatever the state, the events [m] adds to the log of
    the connection all satisfy [P], and a value [m] returns satisfies [Q]. *)
Definition yields {A} (P : event → Prop) (Q : A → Prop) (m : M A) : Prop :=
  ∀ s, (∃ evs, st_log (m s).2 = st_log s ++ evs ∧ Forall P evs)
       ∧ (∀ a, (m s).1 = Ok a → Q a).

Definition emits {A} (P : event → Prop) (m : M A) : Prop :=
  yields P (λ _, True) m.

(** A computation that leaves the database as it found it. *)
Definition preservesDb {A} (m : M A) : Prop :=
  ∀ s, st_db (m s).2 = st_db s.

(** The events of the template row sampler. *)
Definition templateRead (e : event) : Prop :=
  match e with
  | EvMax _ _ | EvColumns _ | EvSelect _ _ _ => True
  | _ => False
  end.

(** Any event but the query for the next [file_id]. *)
Definition notFileKeyQuery (e : event) : Prop :=
  e ≠ EvCoalesceMax "files" "file_id" 1.

(** A predicate on events that every query satisfies. *)
Definition allowsReads (P : event → Prop) : Prop :=
  (∀ tbl col, P (EvMax tbl col))
  ∧ (∀ tbl col plus, P (EvCoalesceMax tbl col plus))
  ∧ (∀ tbl, P (EvColumns tbl))
  ∧ (∀ tbl col id, P (EvSelect tbl col id)).

(** The value the rule of the specification gives a column: the override,
    else the value the template row holds for the column, else NULL. *)
Definition ruleValue (overrideFields : gmap string value)
    (templateRow : option (gmap string value)) (col : string) : value :=
  match overrideFields !! col with
  | Some v => v
  | None =>
      match templateRow ≫= (λ t, t !! col) with
      | Some v => v
      | None => VNull
      end
  end.

Definition followsRule (overrideFields : gmap string value)
    (templateRow : option (gmap string value)) (columns : list string)
    (row : list value) : Prop :=
  length row = length columns
  ∧ ∀ k col, columns !! k = Some col →
             row !! k = Some (ruleValue overrideFields templateRow col).

(** The tables populated by a log, in the order of the insert statements. *)
Definition populated (log : list event) : list string :=
  omap (λ e, match e with EvInsert tbl _ _ => Some tbl | _ => None end) log.

(** The rows the insert statements of a log put into [tbl], statement by
    statement. *)
Definition insertedInto (tbl : string) (log : list event)
  : list (list (list value)) :=
  omap (λ e, match e with
             | EvInsert tbl' _ rows =>
                 if bool_decide (tbl' = tbl) then Some rows else None
             | _ => None
             end) log.

(** The step of a batch in which a table is written. *)
Definition stepOf (tbl : string) : nat :=
  if bool_decide (tbl = "messages") then 0
  else if bool_decide (tbl ∈ ["chat_items"; "files"; "snd_files"; "rcv_files"]%string)
  then 1
  else if bool_decide (tbl = "chat_item_messages") then 2
  else if bool_decide (tbl = "msg_deliveries") then 3
  else 4.

(** The order of the specification: file rows after delivery rows. *)
Definition specStepOf (tbl : string) : nat :=
  if bool_decide (tbl = "messages") then 0
  else if bool_decide (tbl = "chat_items") then 1
  else if bool_decide (tbl = "chat_item_messages") then 2
  else if bool_decide (tbl = "msg_deliveries") then 3
  else if bool_decide (tbl ∈ ["files"; "snd_files"; "rcv_files"]%string) then 4
  else 5.

(** The override maps of the synthesizer, table by table: its explicit
    opinion about identity keys, content payload, status and timestamps. *)
Inductive opinion (w : World) : string → gmap string value → Prop :=
| op_messages msgData msgBodyBytes :
    opinion w "messages" (messagesOverrides w msgData msgBodyBytes)
| op_chat_items msgData contactID itemContentBytes quoted :
    opinion w "chat_items"
      (chatItemsOverrides w msgData contactID itemContentBytes quoted)
| op_chat_item_messages msgData nextRowID i j :
    opinion w "chat_item_messages"
      (chatItemMessagesOverrides w msgData nextRowID i j)
| op_msg_deliveries msgData maxAgentMsgID i j :
    opinion w "msg_deliveries"
      (msgDeliveriesOverrides w msgData maxAgentMsgID i j)
| op_files attachment chatItemID isSent messageType contactID nextFileID name
    createdAt updatedAt :
    opinion w "files"
      (filesOverrides w attachment chatItemID isSent messageType contactID
         nextFileID name createdAt updatedAt)
| op_snd_files fileID nextDeliveryID createdAt updatedAt :
    opinion w "snd_files"
      (sndFilesOverrides w fileID nextDeliveryID createdAt updatedAt)
| op_rcv_files fileID createdAt updatedAt :
    opinion w "rcv_files" (rcvFilesOverrides w fileID createdAt updatedAt).

(** A row that follows the rule for an opinion of the synthesizer about
    the table and for a template row. *)
Definition ruleRow (w : World) (tbl : string) (cols : list string)
    (row : list value) : Prop :=
  ∃ overrideFields templateRow,
    opinion w tbl overrideFields
    ∧ followsRule overrideFields templateRow cols row.

(** A row that follows the rule for an opinion of the synthesizer about
    the table and for the template row [templateRow]. *)
Definition ruleRowWith (w : World) (tbl : string) (cols : list string)
    (templateRow : option (gmap string value)) (row : list value) : Prop :=
  ∃ overrideFields,
    opinion w tbl overrideFields
    ∧ followsRule overrideFields templateRow cols row.

(** The statements by which the template row of [tbl] is sampled. *)
Definition tableRead (tbl idColumn : string) (e : event) : Prop :=
  match e with
  | EvMax tbl' col | EvSelect tbl' col _ => tbl' = tbl ∧ col = idColumn
  | EvColumns tbl' => tbl' = tbl
  | _ => False
  end.

(** A statement of a function that fills the table [tbl] with the columns
    [cols] and the template row [templateRow]: a statement that samples
    the template by [idColumn], a query for one of the keys [keys] (the
    column and what is added to its maximum), or an insert of rows that
    follow the rule. *)
Definition tableEvent (w : World) (tbl idColumn : string)
    (keys : list (string * Z)) (cols : list string)
    (templateRow : option (gmap string value)) (e : event) : Prop :=
  match e with
  | EvCoalesceMax tbl' col plus => tbl' = tbl ∧ (col, plus) ∈ keys
  | EvInsert tbl' cols' rows =>
      tbl' = tbl ∧ cols' = cols
      ∧ Forall (ruleRowWith w tbl cols templateRow) rows
  | _ => tableRead tbl idColumn e
  end.

(** An insert statement with one row, or no insert statement. *)
Definition oneRow (e : event) : Prop :=
  match e with EvInsert _ _ rows => length rows = 1%nat | _ => True end.

(** A statement of [insertSndFile] or of [insertRcvFile]. *)
Definition transferEvent (w : World) (e : event) : Prop :=
  ∃ cols templateRow,
    tableEvent w "snd_files" "file_id" [("last_inline_msg_delivery_id"%string, 1)]
      cols templateRow e
    ∨ tableEvent w "rcv_files" "file_id" [] cols templateRow e.

(** A statement of [insertFileAttachment]. *)
Definition fileEvent (w : World) (e : event) : Prop :=
  oneRow e
  ∧ ((∃ cols templateRow,
        tableEvent w "files" "file_id" [("file_id"%string, 1)] cols
          templateRow e)
     ∨ transferEvent w e).

(** A statement of [bulkInsertReactions]: the query for the next key, or
    the insert of one row, whose nine values are those of [reactionRow]. *)
Definition reactionEvent (w : World) (e : event) : Prop :=
  match e with
  | EvCoalesceMax tbl col plus =>
      tbl = "chat_item_reactions"%string
      ∧ col = "chat_item_reaction_id"%string ∧ plus = 1
  | EvInsert tbl cols rows =>
      tbl = "chat_item_reactions"%string ∧ cols = reactionColumns
      ∧ ∃ msgData contactID reaction reactionIDCounter,
          rows = [reactionRow w msgData contactID reaction reactionIDCounter]
  | _ => False
  end.

(** The tables whose rows are inserted one statement per row. *)
Definition singleRowTables : list string :=
  [ "files"; "snd_files"; "rcv_files"; "chat_item_reactions" ]%string.

(** An insert statement into one of those tables carries one row. *)
Definition singleRow (e : event) : Prop :=
  match e with
  | EvInsert tbl _ rows => tbl ∈ singleRowTables → length rows = 1%nat
  | _ => True
  end.

(** The queries of a log for the maximum of a key column: the table, the
    column and what the statement adds to the maximum. *)
Definition keyQueries (log : list event) : list (string * string * Z) :=
  omap (λ e, match e with
             | EvCoalesceMax tbl col plus => Some (tbl, col, plus)
             | _ => None
             end) log.

(** The rows the insert statements of a log put into [tbl], one by one in
    the order of insertion, each with the column list of its statement. *)
Definition insertedRows (tbl : string) (log : list event)
  : list (list string * list value) :=
  log ≫= (λ e, match e with
               | EvInsert tbl' cols rows =>
                   if bool_decide (tbl' = tbl)
                   then (λ row, (cols, row)) <$> rows
                   else []
               | _ => []
               end).

(** An event that is not an insert into [tbl]. *)
Definition notInsertInto (tbl : string) (e : event) : Prop :=
  match e with EvInsert tbl' _ _ => tbl' ≠ tbl | _ => True end.

(** The row [cr], inserted with its column list, has one value per column
    and the value [v] wherever the column list names [col]. *)
Definition holds (cr : list string * list value) (col : string) (v : value)
  : Prop :=
  length cr.2 = length cr.1
  ∧ ∀ idx, cr.1 !! idx = Some col → cr.2 !! idx = Some v.

(** The introspected columns of a table: none for a table that does not
    exist. *)
Definition columnsAt (tbl : string) (s : dbstate) : list string :=
  from_option t_columns [] (st_db s !! tbl).

(** [synthesizes w tbl idColumn m]: in every run of [m], every insert
    statement into [tbl] carries the introspected columns of the table,
    and each of its rows follows the rule for the template row that
    [getTemplateRow] returns for the table in the state in which [m] is
    started. *)
Definition synthesizes {A} (w : World) (tbl idColumn : string) (m : M A)
  : Prop :=
  ∀ s cols rows,
    EvInsert tbl cols rows ∈ drop (length (st_log s)) (st_log (m s).2) →
    ∃ templateRow,
      (getTemplateRow w tbl idColumn s).1 = Ok templateRow
      ∧ cols = columnsAt tbl s
      ∧ Forall (ruleRowWith w tbl cols templateRow) rows.

(** [chunked w tbl idColumn data intended m]: every run of [m] that returns
    without error has put the rows of [data] into [tbl] in chunks: with
    [chunkSize] computed from the introspected columns of the table and the
    ceiling 900, the statements into [tbl] are as many as the chunks of
    [data], statement [k] carries as many rows as chunk [k] holds elements
    (at least one, at most [chunkSize]), and the rows of the statements,
    one after the other, are the intended rows of the elements of [data],
    in order, for the template row sampled when [m] started. *)
Definition chunked (w : World) (tbl idColumn : string)
    (data : list MessageInsertData)
    (intended : option (gmap string value) → list string → dbstate → nat
                → MessageInsertData → list value → Prop)
    (m : M unit) : Prop :=
  ∀ s s',
    m s = (Ok tt, s') → len data < 2 ^ 62 →
    ∃ templateRow chunkSize evs,
      (getTemplateRow w tbl idColumn s).1 = Ok templateRow
      ∧ calculateChunkSize (len (columnsAt tbl s)) 900 = Ok chunkSize
      ∧ st_log s' = st_log s ++ evs
      ∧ length (insertedInto tbl evs) = chunkCount (len data) chunkSize
      ∧ length <$> insertedInto tbl evs
        = (λ c : Z * Z * list MessageInsertData, length c.2)
          <$> chunksOf data chunkSize
      ∧ Forall (λ rows, 1 ≤ len rows ≤ chunkSize) (insertedInto tbl evs)
      ∧ length (concat (insertedInto tbl evs)) = length data
      ∧ ∀ g d, data !! g = Some d →
          ∃ row, concat (insertedInto tbl evs) !! g = Some row
                 ∧ intended templateRow (columnsAt tbl s) s g d row.

(** An insert statement of the engine: into the reactions table, the fixed
    nine columns; into any other table, rows that follow the rule. *)
Definition engineInsert (w : World) (tbl : string) (cols : list string)
    (rows : list (list value)) : Prop :=
  if bool_decide (tbl = "chat_item_reactions")
  then cols = reactionColumns ∧ Forall (λ row, length row = 9%nat) rows
  else Forall (ruleRow w tbl cols) rows.

(** An event of a step of the batch that writes only the tables [tables]. *)
Definition stepEvent (w : World) (tables : list string) (e : event) : Prop :=
  match e with
  | EvInsert tbl cols rows => tbl ∈ tables ∧ engineInsert w tbl cols rows
  | EvBegin | EvCommit | EvRollback => False
  | _ => True
  end.

Definition fileTables : list string :=
  [ "chat_items"; "files"; "snd_files"; "rcv_files" ]%string.

Definition allTables : list string :=
  [ "messages"; "chat_items"; "files"; "snd_files"; "rcv_files";
    "chat_item_messages"; "msg_deliveries"; "chat_item_reactions" ]%string.

(** The events of the steps of a batch: no transaction control among them,
    and the tables populated in non-decreasing order of their step, all
    between the steps [lo] and [hi]. *)
Definition inOrder (lo hi : nat) (evs : list event) : Prop :=
  Forall (λ e, e ∉ [EvBegin; EvCommit; EvRollback]) evs
  ∧ Forall (λ tbl, (lo ≤ stepOf tbl ≤ hi)%nat) (populated evs)
  ∧ StronglySorted (λ t1 t2, (stepOf t1 ≤ stepOf t2)%nat) (populated evs).

Definition inSteps {A} (lo hi : nat) (m : M A) : Prop :=
  ∀ s, ∃ evs, st_log (m s).2 = st_log s ++ evs ∧ inOrder lo hi evs.

(** ** A small world, database and export to run the engine on *)

(** The extension of a file name: from its last dot on. *)
Fixpoint extOf (s : string) : option string :=
  match s with
  | EmptyString => None
  | String c rest =>
      match extOf rest with
      | Some e => Some e
      | None => if bool_decide (c = "."%char) then Some s else None
      end
  end.

(** A world in which no file can be read, ffmpeg is missing, and the
    database accepts every statement. *)
Definition exampleWorld : World := {|
  w_jsonMarshal := λ _, inr "{}"%string;
  w_base64 := λ s, s;
  w_readFile := λ _, inl "no such file or directory"%string;
  w_fileExists := λ _, true;
  w_filepathJoin := λ dir name, (dir +:+ "/" +:+ name)%string;
  w_filepathExt := λ s, default ""%string (extOf s);
  w_toLower := λ s, s;
  w_generateVideoThumbnail := λ _, inl "ffprobe: not found"%string;
  w_copyFileToSimplexDir := λ _ _ _, None;
  w_timeFormat := λ _ t, pretty t;
  w_timeParse := λ _, Some 0;
  w_now := λ log k, Z.of_nat (2 * length log + k);
  w_sprintV := λ x, match x with Some (RStr s) => s | _ => "<nil>"%string end;
  w_execError := λ _ _ _ _, None;
  w_driverValue := λ _ _ v, v;
  w_beginError := λ _, None;
  w_commitError := λ _, None
|}.

Definition emptyTable (columns : list string) : table :=
  {| t_columns := columns; t_rows := [] |}.

(** A database whose [msg_deliveries] holds a delivery numbered 10 and
    whose [chat_item_reactions] has a tenth column and one row. *)
Definition exampleDb : gmap string table := list_to_map [
  ("messages", emptyTable ["message_id"; "msg_sent"; "msg_body"]);
  ("chat_items", emptyTable ["chat_item_id"; "item_text"; "quoted_sent"]);
  ("chat_item_messages", emptyTable ["chat_item_id"; "message_id"]);
  ("msg_deliveries",
   {| t_columns := ["msg_delivery_id"; "message_id"; "agent_msg_id"];
      t_rows := [ {[ "msg_delivery_id" := VInt 10; "message_id" := VInt 0;
                     "agent_msg_id" := VInt 7 ]} ] |});
  ("files", emptyTable ["file_id"; "file_name"]);
  ("snd_files", emptyTable ["file_id"; "last_inline_msg_delivery_id"]);
  ("rcv_files", emptyTable ["file_id"]);
  ("chat_item_reactions",
   {| t_columns := reactionColumns ++ ["group_id"];
      t_rows := [ {[ "chat_item_reaction_id" := VInt 1;
                     "group_id" := VInt 7 ]} ] |}) ]%string.

Definition exampleAuthor (name : string) : DiscordAuthor :=
  {| da_ID := name; da_Name := name; da_Nickname := ""; da_IsBot := false |}.

Definition exampleAttachment (name : string) : raw :=
  RObj {[ "id" := RStr name; "fileName" := RStr name; "url" := RStr name;
          "fileSizeBytes" := RNum 3 ]}.

Definition exampleMessage (id author : string) (replyTo : option string)
    (attachments reactions : list raw) : DiscordMessage :=
  {| d_ID := id;
     d_Type := "Default";
     d_Timestamp := "2024-01-01T00:00:00Z";
     d_TimestampEdited := None;
     d_IsPinned := false;
     d_Content := "hello";
     d_Author := exampleAuthor author;
     d_Attachments := attachments;
     d_Reactions := reactions;
     d_Mentions := [];
     d_Reference :=
       (λ r, {| dr_MessageID := r; dr_ChannelID := "" |}) <$> replyTo |}.

(** Two messages: the first, ours, carries an image and a reaction and
    replies to the second, theirs, which carries a file. *)
Definition exampleExport : list DiscordMessage :=
  [ exampleMessage "1" "me" (Some "2"%string) [exampleAttachment "a.png"]
      [RObj {[ "emoji" := RObj {[ "name" := RStr "+" ]}; "count" := RNum 1 ]}];
    exampleMessage "2" "you" None [exampleAttachment "b.bin"] [] ].

Definition exampleStart : dbstate := {| st_db := exampleDb; st_log := [] |}.

Definition exampleRun : result unit * dbstate :=
  main exampleWorld exampleExport "me" "export" 5 "files" exampleStart.

(** The export converted: the batch the examples insert. *)
Definition exampleBatch : list UniversalMessage :=
  match convertExport exampleWorld exampleExport "me" "export" with
  | Ok universalMessages => universalMessages
  | _ => []
  end.

(** A world in which, moreover, no attachment exists on disk. *)
Definition exampleWorldNoFiles : World := {|
  w_jsonMarshal := w_jsonMarshal exampleWorld;
  w_base64 := w_base64 exampleWorld;
  w_readFile := w_readFile exampleWorld;
  w_fileExists := λ _, false;
  w_filepathJoin := w_filepathJoin exampleWorld;
  w_filepathExt := w_filepathExt exampleWorld;
  w_toLower := w_toLower exampleWorld;
  w_generateVideoThumbnail := w_generateVideoThumbnail exampleWorld;
  w_copyFileToSimplexDir := w_copyFileToSimplexDir exampleWorld;
  w_timeFormat := w_timeFormat exampleWorld;
  w_timeParse := w_timeParse exampleWorld;
  w_now := w_now exampleWorld;
  w_sprintV := w_sprintV exampleWorld;
  w_execError := w_execError exampleWorld;
  w_driverValue := w_driverValue exampleWorld;
  w_beginError := w_beginError exampleWorld;
  w_commitError := w_commitError exampleWorld
|}.

(** A world in which the engine refuses every row of [snd_files]. *)
Definition exampleWorldNoTransfer : World := {|
  w_jsonMarshal := w_jsonMarshal exampleWorld;
  w_base64 := w_base64 exampleWorld;
  w_readFile := w_readFile exampleWorld;
  w_fileExists := w_fileExists exampleWorld;
  w_filepathJoin := w_filepathJoin exampleWorld;
  w_filepathExt := w_filepathExt exampleWorld;
  w_toLower := w_toLower exampleWorld;
  w_generateVideoThumbnail := w_generateVideoThumbnail exampleWorld;
  w_copyFileToSimplexDir := w_copyFileToSimplexDir exampleWorld;
  w_timeFormat := w_timeFormat exampleWorld;
  w_timeParse := w_timeParse exampleWorld;
  w_now := w_now exampleWorld;
  w_sprintV := w_sprintV exampleWorld;
  w_execError := λ _ tbl _ _,
    if bool_decide (tbl = "snd_files"%string)
    then Some "FOREIGN KEY constraint failed"%string else None;
  w_driverValue := w_driverValue exampleWorld;
  w_beginError := w_beginError exampleWorld;
  w_commitError := w_commitError exampleWorld
|}.

(** A received message that quotes a message the importing user sent. *)
Definition exampleReply : MessageInsertData :=
  {| MessageID := 3;
     ChatItemID := 3;
     SharedMsgID := "3";
     Message :=
       {| m_ID := "3";
          m_Content := "hi back";
          m_Timestamp := 60;
          m_EditedAt := None;
          m_Author := {| au_ID := "you"; au_Username := "you";
                         au_DisplayName := "you"; au_IsBot := false |};
          m_MessageType := "text";
          m_Platform := "discord";
          m_Attachments := [];
          m_Mentions := [];
          m_Reactions := [];
          m_ReplyToID := Some "1"%string;
          m_QuotedMessage :=
            Some {| q_SharedMsgID := "1"; q_SentAt := 0;
                    q_Content := "hello"; q_IsSent := true |};
          m_IsPinned := false;
          m_IsSent := false |} |}.

(** The image of the first message of the example, as an attachment. *)
Definition exampleImage : UniversalAttachment :=
  {| att_ID := "a.png"; att_Filename := "a.png"; att_URL := "a.png";
     att_MimeType := ""; att_Size := 3 |}.

(** A world in which [json.Marshal] fails on every document. *)
Definition exampleWorldNoJson : World := {|
  w_jsonMarshal := λ _, inl "json: unsupported value"%string;
  w_base64 := w_base64 exampleWorld;
  w_readFile := w_readFile exampleWorld;
  w_fileExists := w_fileExists exampleWorld;
  w_filepathJoin := w_filepathJoin exampleWorld;
  w_filepathExt := w_filepathExt exampleWorld;
  w_toLower := w_toLower exampleWorld;
  w_generateVideoThumbnail := w_generateVideoThumbnail exampleWorld;
  w_copyFileToSimplexDir := w_copyFileToSimplexDir exampleWorld;
  w_timeFormat := w_timeFormat exampleWorld;
  w_timeParse := w_timeParse exampleWorld;
  w_now := w_now exampleWorld;
  w_sprintV := w_sprintV exampleWorld;
  w_execError := w_execError exampleWorld;
  w_driverValue := w_driverValue exampleWorld;
  w_beginError := w_beginError exampleWorld;
  w_commitError := w_commitError exampleWorld
|}.


(** ** Vocabulary of the properties of the converter *)

(** The entries of a decoded JSON array that are objects: the ones the
    assertion [.(map[string]interface{})] lets through. *)
Definition objectsOf (items : list raw) : list (gmap string raw) :=
  omap (λ item, match item with RObj fields => Some fields | _ => None end)
       items.

(** [fields[key].(float64)] does not panic. *)
Definition isNumber (key : string) (fields : gmap string raw) : bool :=
  match fields !! key with Some (RNum _) => true | _ => false end.

(** The reactions the converter keeps: the objects whose ["emoji"] is an
    object. *)
Definition hasEmoji (fields : gmap string raw) : bool :=
  match fields !! "emoji"%string with Some (RObj _) => true | _ => false end.

(** The export messages on which no type assertion of the converter
    panics. *)
Definition assertionsHold (discordMsg : DiscordMessage) : bool :=
  forallb (isNumber "fileSizeBytes") (objectsOf (d_Attachments discordMsg))
  && forallb (isNumber "count")
       (filter (λ fields, hasEmoji fields = true)
          (objectsOf (d_Reactions discordMsg))).

(** [fmt.Sprintf("%v", attMap["fileName"])] *)
Definition attachmentName (w : World) (fields : gmap string raw) : string :=
  w_sprintV w (fields !! "fileName"%string).

(** The attachment the loop of the converter appends for an attachment
    object; [None] when the assertion on the size panics. *)
Definition attachmentOf (w : World) (fields : gmap string raw)
  : option UniversalAttachment :=
  match fields !! "fileSizeBytes"%string with
  | Some (RNum size) =>
      Some {| att_ID := w_sprintV w (fields !! "id"%string);
              att_Filename := w_sprintV w (fields !! "fileName"%string);
              att_URL := w_sprintV w (fields !! "url"%string);
              att_MimeType := "";
              att_Size := size |}
  | _ => None
  end.

(** The message type the converter reads off a file name. *)
Definition messageTypeOfName (w : World) (filename : string) : string :=
  messageTypeOfExt (w_toLower w (w_filepathExt w filename)).

(** ** Vocabulary of the properties of the rows *)

(** The reactions of a batch, each with the message that carries it, in the
    order of the two loops of [bulkInsertReactions]. *)
Definition reactionsOf (data : BulkInsertData)
  : list (MessageInsertData * UniversalReaction) :=
  Messages data ≫= (λ msgData, (λ reaction, (msgData, reaction))
                                 <$> m_Reactions (Message msgData)).

(** ** The files on disk

    What [copyFileToSimplexDir] sees of the file system: a map from cleaned
    paths to what is there, a regular file with its contents or a
    directory; a path outside the map does not exist.  What the operating
    system may refuse for reasons outside the map (permissions, a full
    disk, a missing parent directory) is in the record [Os]. *)

Inductive node : Type :=
| RegularFile (content : string)
| Directory.

Record Os : Type := {
  (** [os.MkdirAll(path, 0755)], [os.Open(path)] and [os.Create(path)]:
      [Some e] is an error of the system *)
  os_mkdirAllError : string → option string;
  os_openError : string → option string;
  os_createError : string → option string;
  (** the directories above a path, the nearest first: what [filepath.Dir]
      gives when it is taken again and again *)
  os_parents : string → list string;
  (** how many directories [os.MkdirAll(path, 0755)] had made when the
      system refused the next *)
  os_mkdirAllMade : string → nat;
  (** [io.Copy(dst, src)] from the file at the first path to the file at
      the second: [Some (e, n)] is an error after [n] bytes were written *)
  os_copyError : string → string → option (string * nat)
}.

(** The directories [os.MkdirAll] has to make for a path, given the path
    and the directories above it, the nearest first: those up to the
    nearest that exists, the outermost first; [None] when the nearest that
    exists is a regular file. *)
Fixpoint missingDirs (disk : gmap string node) (chain : list string)
  : option (list string) :=
  match chain with
  | [] => Some []
  | path :: above =>
      match disk !! path with
      | Some Directory => Some []
      | Some (RegularFile _) => None
      | None => (λ dirs, dirs ++ [path]) <$> missingDirs disk above
      end
  end.

Definition mkdirs (dirs : list string) (disk : gmap string node)
  : gmap string node :=
  foldl (λ disk path, <[path := Directory]> disk) disk dirs.

(** [os.MkdirAll(path, 0755)]: the path and every missing directory above
    it are made, the outermost first. *)
Definition MkdirAll (os : Os) (path : string) (disk : gmap string node)
  : option string * gmap string node :=
  match os_mkdirAllError os path, missingDirs disk (path :: os_parents os path)
  with
  | Some e, Some dirs =>
      (Some e, mkdirs (take (os_mkdirAllMade os path) dirs) disk)
  | Some e, None => (Some e, disk)
  | None, None => (Some ("mkdir " +:+ path +:+ ": not a directory"), disk)
  | None, Some dirs => (None, mkdirs dirs disk)
  end.

(** Helper function to copy video file to SimpleX files directory *)
Definition copyFileToSimplexDir (w : World) (os : Os)
    (sourcePath filename simplexFilesDir : string) (disk : gmap string node)
  : result unit * gmap string node :=
  (* Ensure SimpleX files directory exists *)
  match MkdirAll os simplexFilesDir disk with
  | (Some e, disk) =>
      (Err (errorf "failed to create SimpleX files directory" e), disk)
  | (None, disk) =>
      (* Truncate filename if too long *)
      let truncated :=
        if 200 <? Z.of_nat (String.length filename) then
          let ext := w_filepathExt w filename in
          let n := 200 - Z.of_nat (String.length ext) in
          if n <? 0 then Panic "runtime error: slice bounds out of range"
          else Ok (substring 0 (Z.to_nat n) filename +:+ ext)
        else Ok filename in
      match truncated with
      | Ok filename =>
          (* Copy file *)
          match disk !! sourcePath, os_openError os sourcePath with
          | None, _ =>
              (Err (errorf "failed to open source file"
                      ("open " +:+ sourcePath
                       +:+ ": no such file or directory")), disk)
          | Some _, Some e =>
              (Err (errorf "failed to open source file" e), disk)
          | Some _, None =>
              let destPath := w_filepathJoin w simplexFilesDir filename in
              match disk !! destPath, os_createError os destPath with
              | Some Directory, _ =>
                  (Err (errorf "failed to create destination file"
                          ("open " +:+ destPath +:+ ": is a directory")),
                   disk)
              | _, Some e =>
                  (Err (errorf "failed to create destination file" e), disk)
              | _, None =>
                  let disk := <[destPath := RegularFile ""]> disk in
                  match disk !! sourcePath with
                  | Some (RegularFile content) =>
                      match os_copyError os sourcePath destPath with
                      | Some (e, n) =>
                          (Err (errorf "failed to copy file" e),
                           <[destPath := RegularFile (substring 0 n content)]>
                             disk)
                      | None =>
                          (Ok tt, <[destPath := RegularFile content]> disk)
                      end
                  | _ =>
                      (Err (errorf "failed to copy file"
                              ("read " +:+ sourcePath
                               +:+ ": is a directory")), disk)
                  end
              end
          end
      | Err e => (Err e, disk)
      | Panic e => (Panic e, disk)
      | OutOfFuel => (OutOfFuel, disk)
      end
  end.

(** An operating system that refuses nothing, and a disk that holds the
    image of the example export. *)
Definition exampleOs : Os := {|
  os_mkdirAllError := λ _, None;
  os_openError := λ _, None;
  os_createError := λ _, None;
  os_parents := λ path,
    if bool_decide (path = "simplex/files"%string) then ["simplex"%string]
    else [];
  os_mkdirAllMade := λ _, 0%nat;
  os_copyError := λ _ _, None
|}.

Definition exampleDisk : gmap string node :=
  {[ "export/a.png"%string := RegularFile "PNG" ]}.

(** ** The contact lookup

    [getContactIDByName] sends one query; its answer is a function of the
    tables [contacts] and [contact_profiles].  Values are compared as they
    are stored, and the engine is taken to enumerate the joined rows in the
    order of the rows of [contacts]. *)

(** The value of a column in a stored row; NULL when the row has none. *)
Definition cell (row : gmap string value) (col : string) : value :=
  default VNull (row !! col).

(** [a = b] in SQL: no value equals NULL, and NULL equals nothing. *)
Definition sqlEq (a b : value) : bool :=
  match a, b with
  | VNull, _ | _, VNull => false
  | _, _ => bool_decide (a = b)
  end.

(** [contacts c LEFT JOIN contact_profiles cp
     ON c.contact_profile_id = cp.contact_profile_id]: every contact with
    each of the profiles that carry its profile key, or once with no
    profile when there is none. *)
Definition joinProfiles (contacts profiles : list (gmap string value))
  : list (gmap string value * option (gmap string value)) :=
  contacts ≫= (λ c,
    match filter (λ cp, sqlEq (cell c "contact_profile_id")
                          (cell cp "contact_profile_id") = true) profiles with
    | [] => [(c, None)]
    | cps => (λ cp, (c, Some cp)) <$> cps
    end).

(** [WHERE c.deleted = 0
     AND (c.local_display_name = ? OR cp.display_name = ?)] *)
Definition contactMatches (contactName : string)
    (row : gmap string value * option (gmap string value)) : bool :=
  sqlEq (cell row.1 "deleted") (VInt 0)
  && (sqlEq (cell row.1 "local_display_name") (VText contactName)
      || match row.2 with
         | Some cp => sqlEq (cell cp "display_name") (VText contactName)
         | None => false
         end).

(** [Scan(&contactID)] into an [int]: an integer is taken as it is, NULL is
    refused, and a text or a blob goes through [strconv.ParseInt], which is
    [parseInt]. *)
Definition scanInt (parseInt : string → string + Z) (v : value) : string + Z :=
  match v with
  | VInt n => inr n
  | VNull => inl "converting NULL to int is unsupported"%string
  | VText s | VBlob s => parseInt s
  end.

(** The first column among [cols] that the table lacks. *)
Definition missingColumn (t : table) (cols : list string) : option string :=
  head (filter (λ col, col ∉ t_columns t) cols).

Definition getContactIDByName (parseInt : string → string + Z)
    (db : gmap string table) (contactName : string) : result Z :=
  match db !! "contacts"%string, db !! "contact_profiles"%string with
  | None, _ =>
      Err (errorf "failed to lookup contact" "no such table: contacts")
  | _, None =>
      Err (errorf "failed to lookup contact" "no such table: contact_profiles")
  | Some contacts, Some profiles =>
      match missingColumn contacts
              ["contact_id"; "contact_profile_id"; "deleted";
               "local_display_name"]%string,
            missingColumn profiles
              ["contact_profile_id"; "display_name"]%string with
      | Some col, _ | None, Some col =>
          Err (errorf "failed to lookup contact" ("no such column: " +:+ col))
      | None, None =>
          match filter (λ row, contactMatches contactName row = true)
                  (joinProfiles (t_rows contacts) (t_rows profiles)) with
          | [] => Err ("contact '" +:+ contactName +:+ "' not found")
          | row :: _ =>
              match scanInt parseInt (cell row.1 "contact_id") with
              | inr contactID => Ok contactID
              | inl e => Err (errorf "failed to lookup contact" e)
              end
          end
      end
  end.

(** A contact is live and answers to a name: it is not deleted, and the
    name is its local display name or the display name of a profile that
    carries its profile key. *)
Definition answersTo (profiles : list (gmap string value))
    (contactName : string) (c : gmap string value) : Prop :=
  c !! "deleted"%string = Some (VInt 0)
  ∧ (c !! "local_display_name"%string = Some (VText contactName)
     ∨ ∃ cp, cp ∈ profiles
             ∧ sqlEq (cell c "contact_profile_id")
                 (cell cp "contact_profile_id") = true
             ∧ cp !! "display_name"%string = Some (VText contactName)).

(** Contacts and profiles to look a name up in: Alice by her local name,
    Bob by his profile, and a deleted contact that was also called Bob. *)
Definition exampleContacts : gmap string table := list_to_map [
  ("contacts"%string,
   {| t_columns := ["contact_id"; "contact_profile_id"; "deleted";
                    "local_display_name"]%string;
      t_rows := [ {[ "contact_id"%string := VInt 3;
                     "contact_profile_id"%string := VInt 30;
                     "deleted"%string := VInt 1;
                     "local_display_name"%string := VText "bob" ]};
                  {[ "contact_id"%string := VInt 4;
                     "contact_profile_id"%string := VInt 40;
                     "deleted"%string := VInt 0;
                     "local_display_name"%string := VText "alice" ]};
                  {[ "contact_id"%string := VInt 5;
                     "contact_profile_id"%string := VInt 50;
                     "deleted"%string := VInt 0;
                     "local_display_name"%string := VText "bob_1" ]} ] |});
  ("contact_profiles"%string,
   {| t_columns := ["contact_profile_id"; "display_name"]%string;
      t_rows := [ {[ "contact_profile_id"%string := VInt 50;
                     "display_name"%string := VText "bob" ]} ] |}) ].

(** ** The walk over the extracted archive

    What [filepath.Walk] finds below a root: regular files, directories
    with their entries in lexical order (the order in which [Walk] visits
    them), directories that cannot be listed, and entries whose [Lstat]
    fails.  The path of an entry is [filepath.Join] of the path of its
    directory and its name. *)

Inductive entry : Type :=
| FileEntry (name : string)
| DirEntry (name : string) (children : list entry)
| UnreadableDir (name : string) (err : string)
| BrokenEntry (name : string) (err : string).

Definition entryName (e : entry) : string :=
  match e with
  | FileEntry name | DirEntry name _ | UnreadableDir name _
  | BrokenEntry name _ => name
  end.

Definition entryIsDir (e : entry) : bool :=
  match e with DirEntry _ _ | UnreadableDir _ _ => true | _ => false end.

(** What a [WalkFunc] returns besides [nil]. *)
Inductive walkError : Type :=
| SkipDir
| WalkFailure (e : string).

(** What a [WalkFunc] is called with: the [os.FileInfo] (the name and
    whether it is a directory; [nil] when [Lstat] failed) and the error of
    [Lstat] or of the listing. *)
Definition WalkFunc (S : Type) : Type :=
  string → option (string * bool) → option string → S → option walkError * S.

Section Walk.
Context {S : Type} (join : string → string → string) (walkFn : WalkFunc S).

(** The loop of [walk] over the names of a directory: the error of a
    directory that is [SkipDir] is dropped, any other error ends the loop,
    among them the [SkipDir] a file returns. *)
Definition walkNames (walk : string → entry → S → option walkError * S)
    (path : string) : list entry → S → option walkError * S :=
  fix loop (children : list entry) (st : S) : option walkError * S :=
    match children with
    | [] => (None, st)
    | child :: rest =>
        let filename := join path (entryName child) in
        match child with
        | BrokenEntry _ err =>
            match walkFn filename None (Some err) st with
            | (Some (WalkFailure e), st') => (Some (WalkFailure e), st')
            | (_, st') => loop rest st'
            end
        | _ =>
            match walk filename child st with
            | (None, st') => loop rest st'
            | (Some SkipDir, st') =>
                if entryIsDir child then loop rest st'
                else (Some SkipDir, st')
            | (Some (WalkFailure e), st') => (Some (WalkFailure e), st')
            end
        end
    end.

(** [walk] recursively descends path, calling walkFn. *)
Fixpoint walk (path : string) (e : entry) (st : S) : option walkError * S :=
  match e with
  | FileEntry name => walkFn path (Some (name, false)) None st
  | BrokenEntry name err => walkFn path None (Some err) st
  | UnreadableDir name err => walkFn path (Some (name, true)) (Some err) st
  | DirEntry name children =>
      match walkFn path (Some (name, true)) None st with
      | (Some err1, st') => (Some err1, st')
      | (None, st') => walkNames walk path children st'
      end
  end.

(** [filepath.Walk(root, fn)]: [SkipDir] at the top is no error. *)
Definition Walk (root : string) (e : entry) (st : S) : option string * S :=
  match walk root e st with
  | (Some (WalkFailure err), st') => (Some err, st')
  | (_, st') => (None, st')
  end.

End Walk.

(** [strings.Contains(s, substr)] *)
Fixpoint contains (s substr : string) : bool :=
  String.prefix substr s
  || match s with
     | EmptyString => false
     | String _ rest => contains rest substr
     end.

(** The [WalkFunc] of [findSimplexDB]; its state is the variable [dbPath]
    it closes over.  [info] is [nil] only together with an error. *)
Definition findSimplexDBFn : WalkFunc string :=
  λ path info err dbPath,
    match err, info with
    | Some e, _ => (Some (WalkFailure e), dbPath)
    | None, Some (name, isDir) =>
        if negb isDir
           && (contains name "simplex_v1_chat.db" || contains name "chat.db")
        then (Some SkipDir, path)
        else (None, dbPath)
    | None, None => (None, dbPath)
    end.

(** Find SimpleX database file in extracted directory *)
Definition findSimplexDB (w : World) (extractedDir : string) (root : entry)
  : result string :=
  match Walk (w_filepathJoin w) findSimplexDBFn extractedDir root ""%string with
  | (Some e, _) => Err (errorf "failed to search for database" e)
  | (None, dbPath) =>
      if bool_decide (dbPath = ""%string)
      then Err "no SimpleX database found in ZIP"
      else Ok dbPath
  end.

(** The [WalkFunc] of [findOrCreateSimplexFilesDir], with [filesDir]. *)
Definition findSimplexFilesDirFn : WalkFunc string :=
  λ path info err filesDir,
    match err, info with
    | Some e, _ => (Some (WalkFailure e), filesDir)
    | None, Some (name, isDir) =>
        if isDir && (contains name "simplex_v1_files" || contains name "files")
        then (Some SkipDir, path)
        else (None, filesDir)
    | None, None => (None, filesDir)
    end.

(** Find or create SimpleX files directory in extracted directory; the
    second component tells whether [os.MkdirAll] was called, and on which
    path. *)
Definition findOrCreateSimplexFilesDir (w : World) (os : Os)
    (extractedDir : string) (root : entry) : result string * option string :=
  match Walk (w_filepathJoin w) findSimplexFilesDirFn extractedDir root
          ""%string with
  | (Some e, _) =>
      (Err (errorf "failed to search for files directory" e), None)
  | (None, filesDir) =>
      (* If not found, create it *)
      if bool_decide (filesDir = ""%string) then
        let filesDir := w_filepathJoin w extractedDir "simplex_v1_files" in
        match os_mkdirAllError os filesDir with
        | Some e =>
            (Err (errorf "failed to create files directory" e), Some filesDir)
        | None => (Ok filesDir, Some filesDir)
        end
      else (Ok filesDir, None)
  end.

(** *** Vocabulary of the properties of the walk *)

(** The [WalkFunc] of a search: an error ends the walk; at an entry that
    is wanted, the path is noted and [SkipDir] returned. *)
Definition searchFn (wanted : string → bool → bool) : WalkFunc string :=
  λ path info err found,
    match err, info with
    | Some e, _ => (Some (WalkFailure e), found)
    | None, Some (name, isDir) =>
        if wanted name isDir then (Some SkipDir, path) else (None, found)
    | None, None => (None, found)
    end.

(** An entry, with its path, that a search wants. *)
Definition wantedEntry (wanted : string → bool → bool) (x : string * entry)
  : Prop :=
  match x.2 with
  | FileEntry name => wanted name false = true
  | DirEntry name _ => wanted name true = true
  | _ => False
  end.

(** The entries below a root, each with its path. *)
Fixpoint entriesOf (join : string → string → string) (path : string)
    (e : entry) : list (string * entry) :=
  (path, e)
  :: match e with
     | DirEntry _ children =>
         (fix go (children : list entry) : list (string * entry) :=
            match children with
            | [] => []
            | child :: rest =>
                entriesOf join (join path (entryName child)) child ++ go rest
            end) children
     | _ => []
     end.

(** A tree every part of which can be read. *)
Definition readable (join : string → string → string) (path : string)
    (e : entry) : Prop :=
  ∀ p x, (p, x) ∈ entriesOf join path e →
         match x with
         | UnreadableDir _ _ | BrokenEntry _ _ => False
         | _ => True
         end.

Definition isDatabaseFile (x : string * entry) : Prop :=
  match x.2 with
  | FileEntry name => contains name "chat.db" = true
  | _ => False
  end.

Definition isFilesDir (x : string * entry) : Prop :=
  match x.2 with
  | DirEntry name _ => contains name "files" = true
  | _ => False
  end.

(** An extracted archive with two chat databases, one at the top and one
    in a directory that sorts before it. *)
Definition exampleArchive : entry :=
  DirEntry "simplex_import_1"
    [ DirEntry "backup" [ FileEntry "simplex_v1_chat.db" ];
      FileEntry "simplex_v1_agent.db";
      FileEntry "simplex_v1_chat.db";
      DirEntry "simplex_v1_files" [ FileEntry "a.png" ] ].

(** ** Runes

    [normalizeEmojiForSimpleX] ranges over the runes of its argument and
    appends the ones it keeps.  A rune is a Unicode scalar value; a string
    of valid UTF-8 is the concatenation of the encodings of its runes. *)

Definition validRune (r : N) : Prop :=
  (r < 0xD800 ∨ 0xE000 ≤ r ≤ 0x10FFFF)%N.

(** [utf8.AppendRune] on a valid rune. *)
Definition encodeRune (r : N) : string :=
  if (r <? 0x80)%N then String (ascii_of_N r) EmptyString
  else if (r <? 0x800)%N then
    String (ascii_of_N (0xC0 + r / 64))
      (String (ascii_of_N (0x80 + r mod 64)) EmptyString)
  else if (r <? 0x10000)%N then
    String (ascii_of_N (0xE0 + r / 4096))
      (String (ascii_of_N (0x80 + (r / 64) mod 64))
         (String (ascii_of_N (0x80 + r mod 64)) EmptyString))
  else
    String (ascii_of_N (0xF0 + r / 262144))
      (String (ascii_of_N (0x80 + (r / 4096) mod 64))
         (String (ascii_of_N (0x80 + (r / 64) mod 64))
            (String (ascii_of_N (0x80 + r mod 64)) EmptyString))).

(** The string with the given runes. *)
Definition stringOfRunes (runes : list N) : string :=
  foldr (λ r s, encodeRune r +:+ s) EmptyString runes.

(** The loop of [normalizeEmojiForSimpleX] on the runes of its argument. *)
Definition normalizeRunes (emoji : list N) : list N :=
  List.filter (λ r, negb (r =? 0xFE0E)%N && negb (r =? 0xFE0F)%N) emoji.

(** * Properties *)


(** ** Go integers *)

Lemma wrap_small z : - 2 ^ 63 ≤ z < 2 ^ 63 → wrap z = z.
Proof.
  intros Hz. unfold wrap.
  rewrite Z.mod_small by lia. lia.
Qed.

Lemma wrap_wrap_add a b : wrap (wrap a + b) = wrap (a + b).
Proof.
  unfold wrap.
  replace (((a + 2 ^ 63) mod 2 ^ 64 - 2 ^ 63 + b + 2 ^ 63))
    with ((a + 2 ^ 63) mod 2 ^ 64 + b) by lia.
  rewrite Zplus_mod_idemp_l. f_equal. f_equal. lia.
Qed.

Lemma addInt_assoc2 a b c : addInt (addInt a b) c = wrap (a + b + c).
Proof. unfold addInt. by rewrite wrap_wrap_add. Qed.

Lemma addInt_assoc3 a b c d :
  addInt (addInt (addInt a b) c) d = wrap (a + b + c + d).
Proof.
  unfold addInt. rewrite wrap_wrap_add, <- Z.add_assoc, wrap_wrap_add.
  f_equal. lia.
Qed.

(** ** The monad *)

Lemma bind_run {A B} (m : M A) (f : A → M B) s :
  (m ≫= f) s =
  match m s with
  | (Ok a, s') => f a s'
  | (Err e, s') => (Err e, s')
  | (Panic e, s') => (Panic e, s')
  | (OutOfFuel, s') => (OutOfFuel, s')
  end.
Proof. reflexivity. Qed.

Lemma bind_ok_inv {A B} (m : M A) (f : A → M B) s b s' :
  (m ≫= f) s = (Ok b, s') →
  ∃ a s1, m s = (Ok a, s1) ∧ f a s1 = (Ok b, s').
Proof.
  rewrite bind_run. destruct (m s) as [[a| | |] s1]; try discriminate.
  eauto.
Qed.

Lemma wrapErr_ok_inv {A} prefix (m : M A) s a s' :
  wrapErr prefix m s = (Ok a, s') → m s = (Ok a, s').
Proof.
  unfold wrapErr. destruct (m s) as [[| | |] ?]; congruence.
Qed.

Lemma liftR_ok_inv {A} (r : result A) s a s' :
  liftR r s = (Ok a, s') → r = Ok a ∧ s' = s.
Proof. unfold liftR. intros [= -> ->]. done. Qed.

(** ** The chunk size *)

Lemma calculateChunkSize_eq numColumns maxParams :
  1 ≤ numColumns →
  calculateChunkSize numColumns maxParams =
  Ok (Z.max 1 ((if maxParams <=? 0 then 900 else maxParams) ÷ numColumns)).
Proof.
  intros Hn. unfold calculateChunkSize.
  destruct (numColumns =? 0) eqn:E; [lia|].
  f_equal. destruct (_ <? 1) eqn:E'; lia.
Qed.

Lemma effective_quot_le numColumns maxParams :
  1 ≤ numColumns → maxParams ≤ maxInt →
  (if maxParams <=? 0 then 900 else maxParams) ÷ numColumns ≤ maxInt.
Proof.
  intros Hn Hp.
  assert (0 < (if maxParams <=? 0 then 900 else maxParams) ≤ maxInt) as HP.
  { unfold maxInt in *. destruct (maxParams <=? 0) eqn:E; lia. }
  revert HP. generalize (if maxParams <=? 0 then 900 else maxParams). intros P HP.
  rewrite Z.quot_div_nonneg by lia.
  transitivity P; [|lia]. apply Z.div_le_upper_bound; nia.
Qed.

(** ** The chunking loop *)

Lemma chunkLoop_done {A} fuel (data : list A) cs i body s :
  len data ≤ i → chunkLoop fuel data cs i body s = (Ok tt, s).
Proof.
  intros Hi. destruct fuel; simpl; destruct (i <? len data) eqn:E; try lia; done.
Qed.

Lemma chunk_step_count N cs k n :
  1 ≤ cs →
  Z.to_nat ((N - Z.of_nat k * cs + cs - 1) / cs) = S n →
  Z.of_nat k * cs < N ∧
  Z.to_nat ((N - Z.of_nat (S k) * cs + cs - 1) / cs) = n.
Proof.
  intros Hcs Hn.
  assert (0 < (N - Z.of_nat k * cs + cs - 1) / cs) as Hpos by lia.
  split.
  - destruct (Z_lt_le_dec (Z.of_nat k * cs) N) as [|Hge]; [done|].
    assert ((N - Z.of_nat k * cs + cs - 1) / cs < 1); [|lia].
    apply Z.div_lt_upper_bound; lia.
  - replace (N - Z.of_nat (S k) * cs + cs - 1)
      with ((N - Z.of_nat k * cs + cs - 1) + (-1) * cs) by lia.
    rewrite Z.div_add by lia. lia.
Qed.

Lemma chunk_count_zero N cs k :
  1 ≤ cs →
  Z.to_nat ((N - Z.of_nat k * cs + cs - 1) / cs) = 0%nat →
  N ≤ Z.of_nat k * cs.
Proof.
  intros Hcs Hn.
  destruct (Z_lt_le_dec (Z.of_nat k * cs) N) as [Hlt|]; [|done].
  assert (1 ≤ (N - Z.of_nat k * cs + cs - 1) / cs); [|lia].
  apply Z.div_le_lower_bound; lia.
Qed.

Lemma chunkLoop_chunks {A} (data : list A) cs body :
  1 ≤ cs ≤ maxInt → len data < 2 ^ 62 →
  ∀ n k fuel s,
    Z.to_nat ((len data - Z.of_nat k * cs + cs - 1) / cs) = n →
    (n ≤ fuel)%nat →
    chunkLoop fuel data cs (Z.of_nat k * cs) body s =
    forEach (chunkAt data cs <$> seq k n) (λ c, body c.1.1 c.1.2 c.2) s.
Proof.
  intros Hcs Hlen. induction n as [|n IH]; intros k fuel s Hn Hfuel.
  - simpl. apply chunkLoop_done. apply chunk_count_zero; [lia|done].
  - destruct (chunk_step_count _ _ _ _ (proj1 Hcs) Hn) as [Hlt Hn'].
    destruct fuel as [|fuel]; [lia|].
    cbn [seq fmap list_fmap forEach chunkLoop].
    assert ((Z.of_nat k * cs <? len data) = true) as -> by lia.
    assert (wrap (Z.of_nat k * cs + cs) = Z.of_nat (S k) * cs) as ->.
    { rewrite wrap_small; [lia|].
      unfold maxInt in Hcs. destruct k; [lia|]. nia. }
    rewrite !bind_run.
    assert ((if Z.of_nat (S k) * cs >? len data then len data
             else Z.of_nat (S k) * cs)
            = Z.min (Z.of_nat k * cs + cs) (len data)) as -> .
    { destruct (Z.gtb_spec (Z.of_nat (S k) * cs) (len data)); lia. }
    unfold liftR at 1, goSlice.
    assert ((0 <=? Z.of_nat k * cs)
            && (Z.of_nat k * cs <=? Z.min (Z.of_nat k * cs + cs) (len data))
            && (Z.min (Z.of_nat k * cs + cs) (len data) <=? len data) = true)
      as ->.
    { rewrite !andb_true_iff. repeat split; lia. }
    cbv iota beta. unfold chunkAt at 1. cbn [fst snd]. rewrite !bind_run.
    destruct (body _ _ _ s) as [[[]| | |] s1]; try reflexivity.
    apply IH; [done|lia].
Qed.

Lemma forChunks_chunks {A} (data : list A) cs body s :
  1 ≤ cs ≤ maxInt → len data < 2 ^ 62 →
  forChunks data cs body s =
  forEach (chunksOf data cs) (λ c, body c.1.1 c.1.2 c.2) s.
Proof.
  intros Hcs Hlen. unfold forChunks, chunksOf, chunkCount.
  change 0 with (Z.of_nat 0 * cs) at 1.
  apply chunkLoop_chunks; try done.
  - f_equal. f_equal. lia.
  - assert ((len data + cs - 1) / cs ≤ len data) as Hq.
    { destruct (decide (len data = 0)) as [->|Hne].
      - rewrite Z.div_small; lia.
      - apply Z.div_le_upper_bound; [lia|]. unfold len in *. nia. }
    revert Hq. generalize ((len data + cs - 1) / cs).
    unfold len. lia.
Qed.

Lemma wrapErr_state {A} prefix (m : M A) s :
  (wrapErr prefix m s).2 = (m s).2.
Proof. unfold wrapErr. by destruct (m s) as [[] ?]. Qed.


Lemma forEach_not_out_of_fuel {A} (xs : list A) (body : A → M unit) :
  (∀ x s, (body x s).1 ≠ OutOfFuel) →
  ∀ s, (forEach xs body s).1 ≠ OutOfFuel.
Proof.
  intros Hbody. induction xs as [|x xs IH]; intros s; [done|].
  cbn [forEach]. rewrite bind_run.
  specialize (Hbody x s).
  destruct (body x s) as [[[]| | |] s1]; first [done | apply IH].
Qed.

Lemma chunkLoop_terminates {A} (data : list A) cs body :
  1 ≤ cs ≤ maxInt → len data ≤ maxInt →
  (∀ i e c s, (body i e c s).1 ≠ OutOfFuel) →
  ∀ fuel i s,
    0 ≤ i → (Z.to_nat (len data - i) ≤ fuel)%nat →
    (chunkLoop fuel data cs i body s).1 ≠ OutOfFuel.
Proof.
  intros Hcs Hlen Hbody. unfold maxInt in *.
  induction fuel as [|fuel IH]; intros i s Hi Hfuel.
  - rewrite chunkLoop_done by lia. done.
  - cbn [chunkLoop]. destruct (Z.ltb_spec i (len data)) as [Hlt|]; [|done].
    rewrite bind_run. unfold liftR at 1, goSlice.
    set (w := wrap (i + cs)).
    set (e := if w >? len data then len data else w).
    destruct ((0 <=? i) && (i <=? e) && (e <=? len data)) eqn:Hin; [|done].
    rewrite bind_run.
    specialize (Hbody i e (take (Z.to_nat (e - i)) (drop (Z.to_nat i) data)) s).
    destruct (body _ _ _ s) as [[[]| | |] s1]; try done.
    assert (i + 1 ≤ w) as Hw.
    { apply andb_true_iff in Hin as [Hin _].
      apply andb_true_iff in Hin as [_ Hie].
      subst e w. unfold wrap in *.
      destruct (Z.gtb_spec ((i + cs + 2 ^ 63) mod 2 ^ 64 - 2 ^ 63) (len data));
        [lia|].
      destruct (Z_lt_le_dec (i + cs) (2 ^ 63)).
      - rewrite Z.mod_small by lia. lia.
      - exfalso.
        replace (i + cs + 2 ^ 63) with ((i + cs - 2 ^ 63) + 1 * 2 ^ 64) in Hie
          by lia.
        rewrite Z.mod_add, Z.mod_small in Hie by lia. lia. }
    apply IH; lia.
Qed.

(** ** Chunks of a list *)

Lemma chunksOf_length {A} (data : list A) cs :
  length (chunksOf data cs) = chunkCount (len data) cs.
Proof. unfold chunksOf. by rewrite length_fmap, length_seq. Qed.

Lemma chunkAt_rows_length {A} (data : list A) cs k :
  1 ≤ cs → Z.of_nat k * cs < len data →
  1 ≤ len (chunkAt data cs k).2 ≤ cs.
Proof.
  intros Hcs Hk. unfold chunkAt, len in *. cbn [snd].
  rewrite length_take, length_drop.
  assert (0 ≤ Z.of_nat k * cs) by lia.
  lia.
Qed.

Lemma chunkCount_bound N cs k :
  1 ≤ cs → (k < chunkCount N cs)%nat → Z.of_nat k * cs < N.
Proof.
  intros Hcs Hk. unfold chunkCount in Hk.
  destruct (Z_lt_le_dec (Z.of_nat k * cs) N) as [|Hge]; [done|exfalso].
  assert ((N + cs - 1) / cs < Z.of_nat k + 1); [|lia].
  apply Z.div_lt_upper_bound; lia.
Qed.

Lemma chunkCount_covers N cs :
  1 ≤ cs → 0 ≤ N → N ≤ Z.of_nat (chunkCount N cs) * cs.
Proof.
  intros Hcs HN. unfold chunkCount.
  rewrite Z2Nat.id by (apply Z.div_pos; lia).
  pose proof (Z.mul_succ_div_gt (N + cs - 1) cs ltac:(lia)). lia.
Qed.

Lemma chunksOf_sizes {A} (data : list A) cs :
  1 ≤ cs → Forall (λ c, 1 ≤ len c.2 ≤ cs) (chunksOf data cs).
Proof.
  intros Hcs. unfold chunksOf. apply Forall_fmap, Forall_forall.
  intros k Hk%elem_of_seq. apply chunkAt_rows_length; [done|].
  apply chunkCount_bound; [done|lia].
Qed.

Lemma concat_chunks_take {A} (data : list A) cs n :
  1 ≤ cs →
  concat (snd <$> (chunkAt data cs <$> seq 0 n))
  = take (Z.to_nat (Z.of_nat n * cs)) data.
Proof.
  intros Hcs. induction n as [|n IH]; [done|].
  rewrite seq_S, !fmap_app, concat_app, IH. cbn [fmap list_fmap concat].
  rewrite app_nil_r. unfold chunkAt. cbn [snd plus].
  rewrite take_take_drop.
  destruct (Z_lt_le_dec (Z.of_nat n * cs + cs) (len data)).
  - f_equal. lia.
  - rewrite (take_ge data (Z.to_nat (Z.of_nat (S n) * cs)))
      by (unfold len in *; lia).
    destruct (Z_lt_le_dec (Z.of_nat n * cs) (len data)).
    + apply take_ge. unfold len in *. lia.
    + apply take_ge. unfold len in *. lia.
Qed.

Lemma chunksOf_concat {A} (data : list A) cs :
  1 ≤ cs → concat (snd <$> chunksOf data cs) = data.
Proof.
  intros Hcs. unfold chunksOf. rewrite concat_chunks_take by done.
  apply take_ge. pose proof (chunkCount_covers (len data) cs Hcs).
  unfold len in *. lia.
Qed.

(** Row [j] of chunk [k] is row [k * cs + j] of the batch. *)
Lemma chunkAt_lookup {A} (data : list A) cs k j x :
  1 ≤ cs → (chunkAt data cs k).2 !! j = Some x →
  data !! (Z.to_nat (Z.of_nat k * cs + Z.of_nat j)) = Some x
  ∧ Z.of_nat j < cs.
Proof.
  intros Hcs. unfold chunkAt. cbn [snd]. intros Hx.
  apply lookup_take_Some in Hx as [Hx Hj]. rewrite lookup_drop in Hx.
  split; [|lia]. rewrite <- Hx. f_equal. lia.
Qed.


(** Membership in, and inclusion between, lists given by their elements. *)
Ltac list_mem :=
  solve [ repeat first [ apply list_elem_of_here | apply list_elem_of_further ] ].

Ltac list_incl :=
  let x := fresh "x" in
  let Hx := fresh "Hx" in
  intros x Hx;
  repeat (apply elem_of_cons in Hx as [->|Hx]; [list_mem|]);
  by apply elem_of_nil in Hx.

(** ** What a computation adds to the log and returns *)

Lemma yields_mono {A} (P P' : event → Prop) (Q Q' : A → Prop) m :
  (∀ e, P e → P' e) → (∀ a, Q a → Q' a) → yields P Q m → yields P' Q' m.
Proof.
  intros HP HQ Hm s. destruct (Hm s) as [(evs & Hlog & Hevs) Hret]. split.
  - exists evs. split; [done|]. eapply Forall_impl; eauto.
  - eauto.
Qed.

Lemma yields_ret {A} P (Q : A → Prop) a : Q a → yields P Q (mret a).
Proof.
  intros Ha s. split.
  - exists []. by rewrite app_nil_r.
  - by intros a' [= <-].
Qed.

Lemma yields_fail {A} P (Q : A → Prop) e : yields P Q (fail e).
Proof. intros s. split; [exists []; by rewrite app_nil_r|done]. Qed.

Lemma yields_liftR {A} P (Q : A → Prop) r :
  (∀ a, r = Ok a → Q a) → yields P Q (liftR r).
Proof.
  intros Hr s. split; [exists []; by rewrite app_nil_r|]. apply Hr.
Qed.

Lemma yields_getDb P : yields P (λ _, True) getDb.
Proof. intros s. split; [exists []; by rewrite app_nil_r|done]. Qed.

Lemma yields_putDb P d : yields P (λ _, True) (putDb d).
Proof. intros s. split; [exists []; by rewrite app_nil_r|done]. Qed.

Lemma yields_logEv (P : event → Prop) e : P e → yields P (λ _, True) (logEv e).
Proof.
  intros He s. split; [|done]. exists [e]. split; [done|]. by constructor.
Qed.

Lemma yields_bind {A B} P (Q : A → Prop) (R : B → Prop) m f :
  yields P Q m → (∀ a, Q a → yields P R (f a)) → yields P R (m ≫= f).
Proof.
  intros Hm Hf s. rewrite bind_run.
  destruct (Hm s) as [(evs & Hlog & Hevs) Hret].
  destruct (m s) as [[a| | |] s1]; cbn [fst snd] in *;
    try (split; [by eauto|done]).
  destruct (Hf a (Hret a eq_refl) s1) as [(evs' & Hlog' & Hevs') Hret'].
  split; [|done].
  exists (evs ++ evs'). rewrite Hlog', Hlog, app_assoc. split; [done|].
  by apply Forall_app.
Qed.

Lemma yields_wrapErr {A} P (Q : A → Prop) prefix m :
  yields P Q m → yields P Q (wrapErr prefix m).
Proof.
  intros Hm s. unfold wrapErr. specialize (Hm s).
  destruct (m s) as [[a| | |] s1]; cbn [fst snd] in *; try done.
  split; [tauto|done].
Qed.

Lemma yields_attempt {A} P (m : M A) :
  emits P m → emits P (attempt m).
Proof.
  intros Hm s. unfold attempt. destruct (Hm s) as [Hlog _].
  destruct (m s) as [[a| | |] s1]; cbn [fst snd] in *; done.
Qed.

Lemma yields_forEach {A} P (xs : list A) body :
  (∀ x, x ∈ xs → emits P (body x)) → emits P (forEach xs body).
Proof.
  induction xs as [|x xs IH]; intros Hbody; cbn [forEach].
  - by apply yields_ret.
  - eapply yields_bind; [apply Hbody; left|].
    intros _ _. apply IH. intros y Hy. apply Hbody. by right.
Qed.

Lemma yields_forRows {A B} P (Q : B → Prop) (xs : list A) body :
  (∀ j x, x ∈ xs → yields P Q (body j x)) →
  ∀ j, yields P (Forall Q) (forRows j xs body).
Proof.
  induction xs as [|x xs IH]; intros Hbody j; cbn [forRows].
  - by apply yields_ret.
  - eapply yields_bind; [apply Hbody; left|].
    intros b Hb. eapply yields_bind.
    + apply IH. intros j' y Hy. apply Hbody. by right.
    + intros bs Hbs. apply yields_ret. by constructor.
Qed.

Lemma yields_forEachAcc {A S} P (xs : list A) body :
  (∀ acc x, x ∈ xs → emits P (body acc x)) →
  ∀ acc : S, emits P (forEachAcc xs acc body).
Proof.
  induction xs as [|x xs IH]; intros Hbody acc; cbn [forEachAcc].
  - by apply yields_ret.
  - eapply yields_bind; [apply Hbody; left|].
    intros acc' _. apply IH. intros ? y Hy. apply Hbody. by right.
Qed.

Lemma elem_of_goSlice {A} (data : list A) i j chunk x :
  goSlice data i j = Ok chunk → x ∈ chunk → x ∈ data.
Proof.
  unfold goSlice. case_match; [|done]. intros [= <-] Hx.
  by apply subseteq_take, subseteq_drop in Hx.
Qed.

Lemma yields_chunkLoop {A} P (data : list A) cs body :
  (∀ i e chunk, chunk ⊆ data → emits P (body i e chunk)) →
  ∀ fuel i, emits P (chunkLoop fuel data cs i body).
Proof.
  intros Hbody. induction fuel as [|fuel IH]; intros i; cbn [chunkLoop].
  - case_match; [by apply yields_liftR|by apply yields_ret].
  - case_match; [|by apply yields_ret].
    eapply yields_bind with (Q := λ chunk, chunk ⊆ data).
    + apply yields_liftR. intros chunk Hc x. by eapply elem_of_goSlice.
    + intros chunk Hsub. eapply yields_bind; [by apply Hbody|].
      intros _ _. apply IH.
Qed.

Lemma yields_forChunks {A} P (data : list A) cs body :
  (∀ i e chunk, chunk ⊆ data → emits P (body i e chunk)) →
  emits P (forChunks data cs body).
Proof. intros. by apply yields_chunkLoop. Qed.

(** ** Queries *)

Lemma yields_selectMax P tbl col : emits P (selectMax tbl col).
Proof.
  unfold selectMax. eapply yields_bind; [apply yields_getDb|].
  intros db _. repeat case_match;
    first [by apply yields_ret | apply yields_fail].
Qed.

Lemma yields_queryMax P tbl col : allowsReads P → emits P (queryMax tbl col).
Proof.
  intros (HP & _). unfold queryMax.
  eapply yields_bind; [by apply yields_logEv|]. intros _ _.
  apply yields_selectMax.
Qed.

Lemma yields_queryMaxOrZero P tbl col :
  allowsReads P → emits P (queryMaxOrZero tbl col).
Proof.
  intros (_ & HP & _). unfold queryMaxOrZero.
  eapply yields_bind; [by apply yields_logEv|]. intros _ _.
  eapply yields_bind; [apply yields_selectMax|]. intros; by apply yields_ret.
Qed.

Lemma yields_queryNextID P tbl col :
  allowsReads P → emits P (queryNextID tbl col).
Proof.
  intros (_ & HP & _). unfold queryNextID.
  eapply yields_bind; [by apply yields_logEv|]. intros _ _.
  eapply yields_bind; [apply yields_selectMax|]. intros m _.
  case_match; [by apply yields_ret|apply yields_fail].
Qed.

Lemma yields_getTableColumns P tbl :
  allowsReads P → emits P (getTableColumns tbl).
Proof.
  intros (_ & _ & HP & _). unfold getTableColumns.
  eapply yields_bind; [by apply yields_logEv|]. intros _ _.
  eapply yields_bind; [apply yields_getDb|]. intros; by apply yields_ret.
Qed.

Lemma yields_querySelectRow w P tbl columns idColumn id :
  allowsReads P → emits P (querySelectRow w tbl columns idColumn id).
Proof.
  intros (_ & _ & _ & HP). unfold querySelectRow.
  eapply yields_bind; [by apply yields_logEv|]. intros _ _.
  eapply yields_bind; [apply yields_getDb|]. intros db _.
  repeat case_match; first [by apply yields_ret | apply yields_fail].
Qed.

Lemma yields_getTemplateRow w P tbl idColumn :
  allowsReads P → emits P (getTemplateRow w tbl idColumn).
Proof.
  intros HP. unfold getTemplateRow.
  eapply yields_bind; [by apply yields_wrapErr, yields_queryMax|].
  intros [id|] _; [|by apply yields_ret].
  eapply yields_bind; [by apply yields_getTableColumns|]. intros columns _.
  eapply yields_bind; [by apply yields_querySelectRow|]. intros values _.
  by apply yields_ret.
Qed.

Lemma yields_execInsert w P tbl columns rows :
  P (EvInsert tbl columns rows) → emits P (execInsert w tbl columns rows).
Proof.
  intros HP. unfold execInsert.
  eapply yields_bind; [by apply yields_logEv|]. intros _ _.
  eapply yields_bind; [apply yields_getDb|]. intros db _.
  repeat case_match; first [apply yields_putDb | apply yields_fail].
Qed.

Lemma emits_bind {A B} P (m : M A) (f : A → M B) :
  emits P m → (∀ a, emits P (f a)) → emits P (m ≫= f).
Proof. intros Hm Hf. eapply yields_bind; [exact Hm|]. intros a _. apply Hf. Qed.

Lemma emits_ret {A} P (a : A) : emits P (mret a).
Proof. by apply yields_ret. Qed.

Lemma emits_liftR {A} P (r : result A) : emits P (liftR r).
Proof. by apply yields_liftR. Qed.

Lemma yields_queryNextID_ev P tbl col :
  P (EvCoalesceMax tbl col 1) → emits P (queryNextID tbl col).
Proof.
  intros HP. unfold queryNextID.
  apply emits_bind; [by apply yields_logEv|]. intros _.
  apply emits_bind; [apply yields_selectMax|]. intros m.
  case_match; [apply emits_ret|apply yields_fail].
Qed.

Lemma yields_getTableColumns_ev P tbl :
  P (EvColumns tbl) → emits P (getTableColumns tbl).
Proof.
  intros HP. unfold getTableColumns.
  apply emits_bind; [by apply yields_logEv|]. intros _.
  apply emits_bind; [apply yields_getDb|]. intros; apply emits_ret.
Qed.

Lemma yields_timeNow w P k : emits P (timeNow w k).
Proof.
  intros s. split; [|done]. exists []. by rewrite app_nil_r.
Qed.

Lemma yields_queryMax_ev P tbl col :
  P (EvMax tbl col) → emits P (queryMax tbl col).
Proof.
  intros HP. unfold queryMax.
  apply emits_bind; [by apply yields_logEv|]. intros _.
  apply yields_selectMax.
Qed.

Lemma yields_queryMaxOrZero_ev P tbl col :
  P (EvCoalesceMax tbl col 0) → emits P (queryMaxOrZero tbl col).
Proof.
  intros HP. unfold queryMaxOrZero.
  apply emits_bind; [by apply yields_logEv|]. intros _.
  apply emits_bind; [apply yields_selectMax|]. intros; apply emits_ret.
Qed.

Lemma yields_getTemplateRow_ev w P tbl idColumn :
  P (EvMax tbl idColumn) → P (EvColumns tbl) →
  (∀ id, P (EvSelect tbl idColumn id)) →
  emits P (getTemplateRow w tbl idColumn).
Proof.
  intros HM HC HS. unfold getTemplateRow.
  apply emits_bind; [by apply yields_wrapErr, yields_queryMax_ev|].
  intros [id|]; [|apply emits_ret].
  apply emits_bind; [by apply yields_getTableColumns_ev|]. intros columns.
  apply emits_bind; [|intros; apply emits_ret].
  unfold querySelectRow.
  apply emits_bind; [by apply yields_logEv|]. intros _.
  apply emits_bind; [apply yields_getDb|]. intros db.
  repeat case_match; first [apply emits_ret | apply yields_fail].
Qed.


(** ** Row values *)

Lemma rowValueFor_rule overrideFields templateRow col :
  rowValueFor overrideFields templateRow col
  = ruleValue overrideFields templateRow col.
Proof.
  unfold rowValueFor, ruleValue. destruct (overrideFields !! col); [done|].
  destruct templateRow as [m|]; cbn; [|done].
  destruct (Z.ltb_spec 0 (Z.of_nat (size m))) as [|Hsz].
  - by destruct (m !! col).
  - assert (m = ∅) as -> by (apply map_size_empty_inv; lia).
    by rewrite lookup_empty.
Qed.

Lemma fillRowValues_length overrideFields templateRow columns :
  ∀ k rowValues,
    length (fillRowValues overrideFields templateRow k columns rowValues)
    = length rowValues.
Proof.
  induction columns as [|col columns IH]; intros k rowValues; cbn; [done|].
  by rewrite IH, length_insert.
Qed.

Lemma fillRowValues_before overrideFields templateRow columns :
  ∀ k rowValues j,
    (j < k)%nat →
    fillRowValues overrideFields templateRow k columns rowValues !! j
    = rowValues !! j.
Proof.
  induction columns as [|col columns IH]; intros k rowValues j Hj; cbn;
    [done|].
  rewrite IH by lia. apply list_lookup_insert_ne. lia.
Qed.

Lemma fillRowValues_lookup overrideFields templateRow columns :
  ∀ k rowValues j col,
    (k + length columns ≤ length rowValues)%nat →
    columns !! j = Some col →
    fillRowValues overrideFields templateRow k columns rowValues !! (k + j)%nat
    = Some (rowValueFor overrideFields templateRow col).
Proof.
  induction columns as [|c columns IH]; intros k rowValues j col Hlen Hj;
    [done|].
  cbn [fillRowValues]. destruct j as [|j]; cbn in Hj, Hlen.
  - injection Hj as ->. rewrite Nat.add_0_r, fillRowValues_before by lia.
    apply list_lookup_insert_eq. lia.
  - replace (k + S j)%nat with (S k + j)%nat by lia.
    apply IH; [|done]. rewrite length_insert. lia.
Qed.

Lemma buildRowValues_followsRule overrideFields templateRow columns :
  followsRule overrideFields templateRow columns
    (buildRowValues overrideFields templateRow columns).
Proof.
  unfold followsRule, buildRowValues. split.
  - by rewrite fillRowValues_length, length_replicate.
  - intros k col Hk. rewrite <- rowValueFor_rule.
    apply (fillRowValues_lookup _ _ _ 0%nat); [|done].
    rewrite length_replicate. lia.
Qed.

(** ** The statements of each step *)

Section Steps.
Context (w : World).

Lemma stepEvent_reads tables : allowsReads (stepEvent w tables).
Proof. by repeat split. Qed.

Lemma stepEvent_mono tables tables' e :
  tables ⊆ tables' → stepEvent w tables e → stepEvent w tables' e.
Proof.
  intros Hsub. destruct e; cbn; try done. intros [Hin ?]. split; [|done].
  by apply Hsub.
Qed.

Lemma stepEvent_rule tables tbl columns rows :
  tbl ∈ tables → tbl ≠ "chat_item_reactions"%string →
  Forall (ruleRow w tbl columns) rows →
  stepEvent w tables (EvInsert tbl columns rows).
Proof.
  intros Hin Hne Hrows. split; [done|]. unfold engineInsert.
  by rewrite bool_decide_false.
Qed.

Lemma messagesRow_rule jsonDir columns templateRow msgData row :
  messagesRow w jsonDir columns templateRow msgData = Ok row →
  ruleRow w "messages" columns row.
Proof.
  unfold messagesRow. destruct (w_jsonMarshal w _) as [e|bytes]; [done|].
  intros [= <-]. eexists _, _.
  split; [|apply buildRowValues_followsRule]. constructor.
Qed.

Lemma bulkInsertMessages_events data jsonDir contactID :
  emits (stepEvent w ["messages"%string])
    (bulkInsertMessages w data jsonDir contactID).
Proof.
  pose proof (stepEvent_reads ["messages"%string]) as HR.
  unfold bulkInsertMessages.
  apply emits_bind; [by apply yields_wrapErr, yields_getTemplateRow|].
  intros templateRow.
  apply emits_bind; [by apply yields_getTableColumns|]. intros columns.
  apply emits_bind; [apply emits_liftR|]. intros chunkSize.
  apply yields_forChunks. intros i e chunk _.
  eapply yields_bind.
  - apply yields_forRows. intros _ msgData _.
    apply yields_liftR. intros row. apply messagesRow_rule.
  - intros rows Hrows. apply yields_wrapErr, yields_execInsert.
    apply stepEvent_rule; [list_mem|done|done].
Qed.

Lemma insertSndFile_events fileID :
  emits (stepEvent w fileTables) (insertSndFile w fileID).
Proof.
  pose proof (stepEvent_reads fileTables) as HR. unfold insertSndFile.
  apply emits_bind; [by apply yields_getTemplateRow|]. intros templateRow.
  apply emits_bind; [by apply yields_getTableColumns|]. intros columns.
  apply emits_bind; [by apply yields_wrapErr, yields_queryNextID|].
  intros nextDeliveryID.
  apply emits_bind; [apply yields_timeNow|]. intros createdAt.
  apply emits_bind; [apply yields_timeNow|]. intros updatedAt.
  apply emits_bind; [apply emits_liftR|]. intros _.
  apply yields_execInsert.
  apply stepEvent_rule; [unfold fileTables; list_mem|done|].
  constructor; [|done]. eexists _, _.
  split; [|apply buildRowValues_followsRule]. constructor.
Qed.

Lemma insertRcvFile_events fileID :
  emits (stepEvent w fileTables) (insertRcvFile w fileID).
Proof.
  pose proof (stepEvent_reads fileTables) as HR. unfold insertRcvFile.
  apply emits_bind; [by apply yields_getTemplateRow|]. intros templateRow.
  apply emits_bind; [by apply yields_getTableColumns|]. intros columns.
  apply emits_bind; [apply yields_timeNow|]. intros createdAt.
  apply emits_bind; [apply yields_timeNow|]. intros updatedAt.
  apply emits_bind; [apply emits_liftR|]. intros _.
  apply yields_execInsert.
  apply stepEvent_rule; [unfold fileTables; list_mem|done|].
  constructor; [|done]. eexists _, _.
  split; [|apply buildRowValues_followsRule]. constructor.
Qed.

Lemma insertFileAttachment_events attachment chatItemID isSent jsonDir
    messageType contactID simplexFilesDir :
  emits (stepEvent w fileTables)
    (insertFileAttachment w attachment chatItemID isSent jsonDir messageType
       contactID simplexFilesDir).
Proof.
  pose proof (stepEvent_reads fileTables) as HR. unfold insertFileAttachment.
  case_match; [apply yields_fail|].
  apply emits_bind; [by apply yields_wrapErr, yields_getTemplateRow|].
  intros templateRow.
  apply emits_bind; [by apply yields_wrapErr, yields_queryNextID|].
  intros nextFileID.
  apply emits_bind; [by apply yields_getTableColumns|]. intros columns.
  apply emits_bind; [apply emits_liftR|]. intros truncatedFilename.
  apply emits_bind; [apply yields_wrapErr, emits_liftR|]. intros _.
  apply emits_bind; [apply yields_timeNow|]. intros createdAt.
  apply emits_bind; [apply yields_timeNow|]. intros updatedAt.
  apply emits_bind; [apply emits_liftR|]. intros _.
  eapply yields_bind.
  { apply yields_wrapErr, yields_execInsert.
    apply stepEvent_rule; [unfold fileTables; list_mem|done|].
    constructor; [|done]. eexists _, _.
    split; [|apply buildRowValues_followsRule]. constructor. }
  intros _ _. apply emits_bind; [|intros; apply emits_ret].
  case_match; [|apply emits_ret].
  apply yields_wrapErr. destruct isSent;
    [apply insertSndFile_events|apply insertRcvFile_events].
Qed.

Lemma chatItemsRowValues_rule jsonDir contactID columns templateRow msgData row :
  chatItemsRowValues w jsonDir contactID columns templateRow msgData = Ok row →
  ruleRow w "chat_items" columns row.
Proof.
  unfold chatItemsRowValues.
  destruct (w_jsonMarshal w (itemContentJSON _ _ _)) as [|bytes]; [done|].
  destruct (m_QuotedMessage _) as [q|].
  - destruct (w_jsonMarshal w (quotedContentJSON q)) as [|qbytes]; [done|].
    intros Hrow.
    assert (row = buildRowValues
                    (chatItemsOverrides w msgData contactID bytes
                       (Some (q, qbytes))) templateRow columns) as ->
      by congruence.
    eexists (chatItemsOverrides w msgData contactID bytes (Some (q, qbytes))), _.
    split; [apply op_chat_items|apply buildRowValues_followsRule].
  - intros Hrow.
    assert (row = buildRowValues
                    (chatItemsOverrides w msgData contactID bytes None)
                    templateRow columns) as -> by congruence.
    eexists (chatItemsOverrides w msgData contactID bytes None), _.
    split; [apply op_chat_items|apply buildRowValues_followsRule].
Qed.

Lemma bulkInsertChatItems_events data jsonDir contactID simplexFilesDir :
  emits (stepEvent w fileTables)
    (bulkInsertChatItems w data jsonDir contactID simplexFilesDir).
Proof.
  pose proof (stepEvent_reads fileTables) as HR. unfold bulkInsertChatItems.
  apply emits_bind; [by apply yields_wrapErr, yields_getTemplateRow|].
  intros templateRow.
  apply emits_bind; [by apply yields_getTableColumns|]. intros columns.
  apply emits_bind; [apply emits_liftR|]. intros chunkSize.
  apply yields_forChunks. intros i e chunk _.
  eapply yields_bind.
  - apply yields_forRows. intros _ msgData _. unfold chatItemsRow.
    eapply yields_bind with (Q := λ _, True).
    + case_match; [apply emits_ret|].
      apply emits_bind; [|intros; apply emits_ret].
      apply yields_attempt, insertFileAttachment_events.
    + intros _ _. apply yields_liftR. intros row.
      apply chatItemsRowValues_rule.
  - intros rows Hrows. apply yields_wrapErr, yields_execInsert.
    apply stepEvent_rule; [unfold fileTables; list_mem|done|done].
Qed.

Lemma bulkInsertChatItemMessages_events data :
  emits (stepEvent w ["chat_item_messages"%string])
    (bulkInsertChatItemMessages w data).
Proof.
  pose proof (stepEvent_reads ["chat_item_messages"%string]) as HR.
  unfold bulkInsertChatItemMessages.
  apply emits_bind; [by apply yields_wrapErr, yields_getTemplateRow|].
  intros templateRow.
  apply emits_bind; [by apply yields_getTableColumns|]. intros columns.
  apply emits_bind; [by apply yields_wrapErr, yields_queryNextID|].
  intros nextRowID.
  apply emits_bind; [apply emits_liftR|]. intros chunkSize.
  apply yields_forChunks. intros i e chunk _.
  eapply yields_bind
    with (Q := Forall (ruleRow w "chat_item_messages" columns)).
  - apply yields_forRows. intros j msgData _. apply yields_ret.
    eexists _, _. split; [|apply buildRowValues_followsRule]. constructor.
  - intros rows Hrows. apply yields_wrapErr, yields_execInsert.
    apply stepEvent_rule; [list_mem|done|done].
Qed.

Lemma bulkInsertMsgDeliveries_events data :
  emits (stepEvent w ["msg_deliveries"%string])
    (bulkInsertMsgDeliveries w data).
Proof.
  pose proof (stepEvent_reads ["msg_deliveries"%string]) as HR.
  unfold bulkInsertMsgDeliveries.
  apply emits_bind; [by apply yields_wrapErr, yields_getTemplateRow|].
  intros templateRow.
  apply emits_bind; [by apply yields_getTableColumns|]. intros columns.
  apply emits_bind; [by apply yields_wrapErr, yields_queryMaxOrZero|].
  intros maxAgentMsgID.
  apply emits_bind; [apply emits_liftR|]. intros chunkSize.
  apply yields_forChunks. intros i e chunk _.
  eapply yields_bind
    with (Q := Forall (ruleRow w "msg_deliveries" columns)).
  - apply yields_forRows. intros j msgData _. apply yields_ret.
    eexists _, _. split; [|apply buildRowValues_followsRule]. constructor.
  - intros rows Hrows. apply yields_wrapErr, yields_execInsert.
    apply stepEvent_rule; [list_mem|done|done].
Qed.

Lemma bulkInsertReactions_events data contactID :
  emits (stepEvent w ["chat_item_reactions"%string])
    (bulkInsertReactions w data contactID).
Proof.
  pose proof (stepEvent_reads ["chat_item_reactions"%string]) as HR.
  unfold bulkInsertReactions.
  apply emits_bind; [by apply yields_wrapErr, yields_queryNextID|].
  intros nextReactionID.
  apply emits_bind; [|intros; apply emits_ret].
  apply yields_forEachAcc. intros counter msgData _.
  apply yields_forEachAcc. intros counter' reaction _.
  apply emits_bind; [|intros; apply emits_ret].
  apply yields_wrapErr, yields_execInsert. split; [list_mem|].
  unfold engineInsert. rewrite bool_decide_true by done.
  split; [done|]. by constructor.
Qed.

End Steps.


(** ** The order of the steps *)

Lemma populated_app evs evs' :
  populated (evs ++ evs') = populated evs ++ populated evs'.
Proof. apply omap_app. Qed.

Lemma inOrder_nil lo hi : inOrder lo hi [].
Proof. repeat split; constructor. Qed.

Lemma inOrder_app lo mid hi evs evs' :
  (lo ≤ mid ≤ hi)%nat →
  inOrder lo mid evs → inOrder mid hi evs' → inOrder lo hi (evs ++ evs').
Proof.
  intros Hmid (Hctl & Hrange & Hsorted) (Hctl' & Hrange' & Hsorted').
  rewrite Forall_forall in Hrange, Hrange'. repeat split.
  - by apply Forall_app.
  - rewrite populated_app. apply Forall_app. split; apply Forall_forall.
    + intros t Ht. specialize (Hrange t Ht). cbn in *. lia.
    + intros t Ht. specialize (Hrange' t Ht). cbn in *. lia.
  - rewrite populated_app. apply StronglySorted_app. split_and!; [|done..].
    intros t1 t2 Ht1 Ht2. specialize (Hrange t1 Ht1).
    specialize (Hrange' t2 Ht2). cbn in *. lia.
Qed.

Lemma inOrder_weaken lo hi lo' hi' evs :
  (lo' ≤ lo)%nat → (hi ≤ hi')%nat → inOrder lo hi evs → inOrder lo' hi' evs.
Proof.
  intros Hlo Hhi (Hctl & Hrange & Hsorted). repeat split; [done| |done].
  eapply Forall_impl; [done|]. intros tbl ?; cbn in *. lia.
Qed.

Lemma stepEvent_inOrder w tables k evs :
  (∀ tbl, tbl ∈ tables → stepOf tbl = k) →
  Forall (stepEvent w tables) evs → inOrder k k evs.
Proof.
  intros Hk Hevs.
  assert (Forall (λ tbl, stepOf tbl = k) (populated evs)) as Hpop.
  { apply Forall_forall. intros tbl Htbl.
    apply list_elem_of_omap in Htbl as (e & He & Hpop).
    rewrite Forall_forall in Hevs. specialize (Hevs e He).
    destruct e; try done. injection Hpop as <-. apply Hk, Hevs. }
  repeat split.
  - eapply Forall_impl; [done|]. intros e He.
    destruct e; try done; rewrite !not_elem_of_cons;
      split_and!; first [done | apply not_elem_of_nil].
  - eapply Forall_impl; [done|]. intros tbl ?; cbn in *. lia.
  - induction Hpop as [|t l Ht Hl IH]; constructor; [done|].
    eapply Forall_impl; [done|]. intros t' ?; cbn in *. lia.
Qed.

Lemma inSteps_of_emits {A} w tables k (m : M A) :
  (∀ tbl, tbl ∈ tables → stepOf tbl = k) →
  emits (stepEvent w tables) m → inSteps k k m.
Proof.
  intros Hk Hm s. destruct (Hm s) as [(evs & Hlog & Hevs) _].
  exists evs. split; [done|]. by eapply stepEvent_inOrder.
Qed.

Lemma inSteps_bind {A B} lo mid hi (m : M A) (f : A → M B) :
  (lo ≤ mid ≤ hi)%nat →
  inSteps lo mid m → (∀ a, inSteps mid hi (f a)) → inSteps lo hi (m ≫= f).
Proof.
  intros Hmid Hm Hf s. rewrite bind_run.
  destruct (Hm s) as (evs & Hlog & Hevs).
  destruct (m s) as [[a| | |] s1]; cbn [fst snd] in *;
    try (exists evs; split; [done|]; eapply inOrder_weaken; [| |done]; lia).
  destruct (Hf a s1) as (evs' & Hlog' & Hevs').
  exists (evs ++ evs'). rewrite Hlog', Hlog, app_assoc. split; [done|].
  by eapply inOrder_app.
Qed.

Lemma inSteps_wrapErr {A} lo hi prefix (m : M A) :
  inSteps lo hi m → inSteps lo hi (wrapErr prefix m).
Proof.
  intros Hm s. unfold wrapErr. specialize (Hm s).
  by destruct (m s) as [[a| | |] s1].
Qed.

Section Batch.
Context (w : World).

Lemma batchSteps_inSteps messages startMessageID jsonDir contactID
    simplexFilesDir :
  inSteps 0 4
    (batchSteps w messages startMessageID jsonDir contactID simplexFilesDir).
Proof.
  unfold batchSteps.
  apply (inSteps_bind 0 0 4); [lia| |intros maxChatItemID].
  { apply inSteps_wrapErr, (inSteps_of_emits w []);
      [by intros tbl ?%elem_of_nil|].
    apply yields_queryMaxOrZero, stepEvent_reads. }
  apply (inSteps_bind 0 0 4); [lia| |intros _].
  { apply inSteps_wrapErr.
    eapply inSteps_of_emits; [|apply bulkInsertMessages_events].
    by intros tbl ->%list_elem_of_singleton. }
  apply (inSteps_bind 0 1 4); [lia| |intros _].
  { apply inSteps_wrapErr. intros s.
    destruct (inSteps_of_emits w fileTables 1
                (bulkInsertChatItems w
                   (prepareBulkData messages startMessageID maxChatItemID)
                   jsonDir contactID simplexFilesDir)) with (s := s)
      as (evs & Hlog & Hevs).
    - unfold fileTables. intros tbl Htbl.
      repeat (apply elem_of_cons in Htbl as [->|Htbl]; [done|]).
      by apply elem_of_nil in Htbl.
    - apply bulkInsertChatItems_events.
    - exists evs. split; [done|]. eapply inOrder_weaken; [| |done]; lia. }
  apply (inSteps_bind 1 2 4); [lia| |intros _].
  { apply inSteps_wrapErr. intros s.
    destruct (inSteps_of_emits w ["chat_item_messages"%string] 2
                (bulkInsertChatItemMessages w
                   (prepareBulkData messages startMessageID maxChatItemID)))
      with (s := s) as (evs & Hlog & Hevs).
    - by intros tbl ->%list_elem_of_singleton.
    - apply bulkInsertChatItemMessages_events.
    - exists evs. split; [done|]. eapply inOrder_weaken; [| |done]; lia. }
  apply (inSteps_bind 2 3 4); [lia| |intros _].
  { apply inSteps_wrapErr. intros s.
    destruct (inSteps_of_emits w ["msg_deliveries"%string] 3
                (bulkInsertMsgDeliveries w
                   (prepareBulkData messages startMessageID maxChatItemID)))
      with (s := s) as (evs & Hlog & Hevs).
    - by intros tbl ->%list_elem_of_singleton.
    - apply bulkInsertMsgDeliveries_events.
    - exists evs. split; [done|]. eapply inOrder_weaken; [| |done]; lia. }
  apply inSteps_wrapErr. intros s.
  destruct (inSteps_of_emits w ["chat_item_reactions"%string] 4
              (bulkInsertReactions w
                 (prepareBulkData messages startMessageID maxChatItemID)
                 contactID))
    with (s := s) as (evs & Hlog & Hevs).
  - by intros tbl ->%list_elem_of_singleton.
  - apply bulkInsertReactions_events.
  - exists evs. split; [done|]. eapply inOrder_weaken; [| |done]; lia.
Qed.

Lemma batchSteps_events messages startMessageID jsonDir contactID
    simplexFilesDir :
  emits (stepEvent w allTables)
    (batchSteps w messages startMessageID jsonDir contactID simplexFilesDir).
Proof.
  pose proof (stepEvent_reads w allTables) as HR. unfold batchSteps.
  apply emits_bind; [by apply yields_wrapErr, yields_queryMaxOrZero|].
  intros maxChatItemID.
  repeat (apply emits_bind; [|intros _]); apply yields_wrapErr.
  - eapply yields_mono; [| |apply bulkInsertMessages_events]; [|done].
    intros e. apply stepEvent_mono. unfold allTables. list_incl.
  - eapply yields_mono; [| |apply bulkInsertChatItems_events]; [|done].
    intros e. apply stepEvent_mono. unfold allTables, fileTables. list_incl.
  - eapply yields_mono; [| |apply bulkInsertChatItemMessages_events]; [|done].
    intros e. apply stepEvent_mono. unfold allTables. list_incl.
  - eapply yields_mono; [| |apply bulkInsertMsgDeliveries_events]; [|done].
    intros e. apply stepEvent_mono. unfold allTables. list_incl.
  - eapply yields_mono; [| |apply bulkInsertReactions_events]; [|done].
    intros e. apply stepEvent_mono. unfold allTables. list_incl.
Qed.

End Batch.


(** ** What the queries read and leave behind *)

Lemma selectMax_run tbl col s :
  (selectMax tbl col s).2 = s
  ∧ ∀ m, (selectMax tbl col s).1 = Ok m →
         ∃ t, st_db s !! tbl = Some t ∧ m = colMax col (t_rows t).
Proof.
  unfold selectMax. rewrite bind_run. unfold getDb. cbv beta iota.
  destruct (st_db s !! tbl) as [t|]; [|done].
  destruct (hasColumn t col); [|done].
  destruct (integerColumn col (t_rows t)); [|done]. split; [done|].
  intros m [= <-]. by exists t.
Qed.

(** A maximum that was read is the maximum of a column of integers. *)
Lemma selectMax_integer tbl col s m :
  (selectMax tbl col s).1 = Ok m →
  ∃ t, st_db s !! tbl = Some t ∧ hasColumn t col = true
       ∧ integerColumn col (t_rows t) = true ∧ m = colMax col (t_rows t).
Proof.
  unfold selectMax. rewrite bind_run. unfold getDb. cbv beta iota.
  destruct (st_db s !! tbl) as [t|]; [|done].
  destruct (hasColumn t col) eqn:Hc; [|done].
  destruct (integerColumn col (t_rows t)) eqn:Hi; [|done].
  intros [= <-]. by exists t.
Qed.

Lemma selectMax_ok tbl col s t :
  st_db s !! tbl = Some t → hasColumn t col = true →
  integerColumn col (t_rows t) = true →
  selectMax tbl col s = (Ok (colMax col (t_rows t)), s).
Proof.
  intros Ht Hc Hi. unfold selectMax. rewrite bind_run. unfold getDb.
  cbv beta iota. by rewrite Ht, Hc, Hi.
Qed.

Lemma queryMax_run tbl col s :
  st_db (queryMax tbl col s).2 = st_db s
  ∧ st_log (queryMax tbl col s).2 = st_log s ++ [EvMax tbl col].
Proof.
  unfold queryMax. rewrite bind_run. unfold logEv. cbv beta iota.
  destruct (selectMax_run tbl col
              {| st_db := st_db s; st_log := st_log s ++ [EvMax tbl col] |})
    as [Hs _].
  destruct (selectMax _ _ _) as [[] s']; cbn [snd] in *; by subst s'.
Qed.

Lemma queryMaxOrZero_run tbl col s :
  st_db (queryMaxOrZero tbl col s).2 = st_db s
  ∧ st_log (queryMaxOrZero tbl col s).2
    = st_log s ++ [EvCoalesceMax tbl col 0]
  ∧ ∀ n, (queryMaxOrZero tbl col s).1 = Ok n →
         ∃ t, st_db s !! tbl = Some t ∧ n = default 0 (colMax col (t_rows t)).
Proof.
  unfold queryMaxOrZero. rewrite bind_run. unfold logEv. cbv beta iota.
  rewrite bind_run.
  destruct (selectMax_run tbl col
              {| st_db := st_db s;
                 st_log := st_log s ++ [EvCoalesceMax tbl col 0] |})
    as [Hs Hm].
  destruct (selectMax _ _ _) as [[m| | |] s']; cbn [fst snd] in *; subst s';
    try done.
  split_and!; [done..|]. intros n [= <-].
  destruct (Hm m eq_refl) as (t & Ht & ->). by exists t.
Qed.

Lemma queryNextID_run tbl col s :
  st_db (queryNextID tbl col s).2 = st_db s
  ∧ st_log (queryNextID tbl col s).2 = st_log s ++ [EvCoalesceMax tbl col 1]
  ∧ ∀ n, (queryNextID tbl col s).1 = Ok n →
         ∃ t, st_db s !! tbl = Some t
              ∧ n = default 0 (colMax col (t_rows t)) + 1.
Proof.
  unfold queryNextID. rewrite bind_run. unfold logEv. cbv beta iota.
  rewrite bind_run.
  destruct (selectMax_run tbl col
              {| st_db := st_db s;
                 st_log := st_log s ++ [EvCoalesceMax tbl col 1] |})
    as [Hs Hm].
  destruct (selectMax _ _ _) as [[m| | |] s']; cbn [fst snd] in *; subst s';
    try done.
  destruct (default 0 m <? maxInt) eqn:Hlt; [|done].
  split_and!; [done..|]. intros n [= <-].
  destruct (Hm m eq_refl) as (t & Ht & ->). by exists t.
Qed.

(** The next key that was read is below the largest integer. *)
Lemma queryNextID_bound tbl col s n :
  (queryNextID tbl col s).1 = Ok n → n ≤ maxInt.
Proof.
  unfold queryNextID. rewrite bind_run. unfold logEv. cbv beta iota.
  rewrite bind_run.
  destruct (selectMax _ _ _) as [[m| | |] s']; try done.
  destruct (Z.ltb_spec (default 0 m) maxInt); [|done].
  intros [= <-]. lia.
Qed.

Lemma getTableColumns_run tbl s :
  getTableColumns tbl s
  = (Ok (from_option t_columns [] (st_db s !! tbl)),
     {| st_db := st_db s; st_log := st_log s ++ [EvColumns tbl] |}).
Proof. reflexivity. Qed.

Lemma preservesDb_ret {A} (a : A) : preservesDb (mret a).
Proof. done. Qed.

Lemma preservesDb_fail {A} e : preservesDb (@fail A e).
Proof. done. Qed.

Lemma preservesDb_logEv e : preservesDb (logEv e).
Proof. done. Qed.

Lemma preservesDb_getDb : preservesDb getDb.
Proof. done. Qed.

Lemma preservesDb_liftR {A} (r : result A) : preservesDb (liftR r).
Proof. done. Qed.

Lemma preservesDb_bind {A B} (m : M A) (f : A → M B) :
  preservesDb m → (∀ a, preservesDb (f a)) → preservesDb (m ≫= f).
Proof.
  intros Hm Hf s. rewrite bind_run. specialize (Hm s).
  destruct (m s) as [[a| | |] s1]; cbn [snd] in *; try done.
  by rewrite Hf.
Qed.

Lemma preservesDb_wrapErr {A} prefix (m : M A) :
  preservesDb m → preservesDb (wrapErr prefix m).
Proof.
  intros Hm s. unfold wrapErr. specialize (Hm s).
  by destruct (m s) as [[] ?].
Qed.

Lemma preservesDb_selectMax tbl col : preservesDb (selectMax tbl col).
Proof.
  apply preservesDb_bind; [apply preservesDb_getDb|]. intros db.
  repeat case_match; first [apply preservesDb_ret | apply preservesDb_fail].
Qed.

Lemma preservesDb_queryMax tbl col : preservesDb (queryMax tbl col).
Proof.
  apply preservesDb_bind; [apply preservesDb_logEv|]. intros _.
  apply preservesDb_selectMax.
Qed.

Lemma preservesDb_getTableColumns tbl : preservesDb (getTableColumns tbl).
Proof. done. Qed.

Lemma preservesDb_querySelectRow w tbl columns idColumn id :
  preservesDb (querySelectRow w tbl columns idColumn id).
Proof.
  apply preservesDb_bind; [apply preservesDb_logEv|]. intros _.
  apply preservesDb_bind; [apply preservesDb_getDb|]. intros db.
  repeat case_match; first [apply preservesDb_ret | apply preservesDb_fail].
Qed.

Lemma preservesDb_getTemplateRow w tbl idColumn :
  preservesDb (getTemplateRow w tbl idColumn).
Proof.
  apply preservesDb_bind;
    [apply preservesDb_wrapErr, preservesDb_queryMax|].
  intros [id|]; [|apply preservesDb_ret].
  apply preservesDb_bind; [apply preservesDb_getTableColumns|]. intros columns.
  apply preservesDb_bind; [apply preservesDb_querySelectRow|]. intros values.
  apply preservesDb_ret.
Qed.

Lemma getTemplateRow_reads w tbl idColumn :
  emits templateRead (getTemplateRow w tbl idColumn).
Proof.
  unfold getTemplateRow.
  apply emits_bind.
  { apply yields_wrapErr. unfold queryMax.
    apply emits_bind; [by apply yields_logEv|]. intros _.
    apply yields_selectMax. }
  intros [id|]; [|apply emits_ret].
  apply emits_bind.
  { unfold getTableColumns.
    apply emits_bind; [by apply yields_logEv|]. intros _.
    apply emits_bind; [apply yields_getDb|]. intros; apply emits_ret. }
  intros columns. apply emits_bind; [|intros; apply emits_ret].
  unfold querySelectRow.
  apply emits_bind; [by apply yields_logEv|]. intros _.
  apply emits_bind; [apply yields_getDb|]. intros db.
  repeat case_match; first [apply emits_ret | apply yields_fail].
Qed.


(** ** Runs that succeed *)

Lemma run_log {A} P (m : M A) s r s' :
  emits P m → m s = (r, s') →
  ∃ evs, st_log s' = st_log s ++ evs ∧ Forall P evs.
Proof. intros Hm Hrun. destruct (Hm s) as [Hlog _]. by rewrite Hrun in Hlog. Qed.

Lemma run_db {A} (m : M A) s r s' :
  preservesDb m → m s = (r, s') → st_db s' = st_db s.
Proof. intros Hm Hrun. specialize (Hm s). by rewrite Hrun in Hm. Qed.

Lemma forRows_pure {A B} (f : Z → A → B) (xs : list A) :
  ∀ j s,
    forRows j xs (λ j x, mret (f j x)) s
    = (Ok (imap (λ n x, f (j + Z.of_nat n) x) xs), s).
Proof.
  induction xs as [|x xs IH]; intros j s; [done|].
  cbn [forRows imap]. rewrite bind_run. cbn. rewrite bind_run, IH.
  unfold mret, M_ret.
  rewrite Z.add_0_r. do 3 f_equal. apply imap_ext. intros n y _. cbn.
  f_equal. lia.
Qed.

Lemma execInsert_log w tbl columns rows s :
  st_log (execInsert w tbl columns rows s).2
  = st_log s ++ [EvInsert tbl columns rows].
Proof.
  unfold execInsert. rewrite bind_run. unfold logEv. cbv beta iota.
  rewrite bind_run. unfold getDb. cbv beta iota. cbn [st_db].
  destruct (w_execError w _ _ _ _); [done|].
  by destruct (st_db s !! tbl).
Qed.

Lemma forEach_ok_log {A} (xs : list A) (body : A → M unit) (g : A → event) :
  (∀ x s, st_log (body x s).2 = st_log s ++ [g x]) →
  ∀ s s', forEach xs body s = (Ok tt, s') →
          st_log s' = st_log s ++ (g <$> xs).
Proof.
  intros Hbody. induction xs as [|x xs IH]; intros s s'; cbn [forEach].
  - intros [= <-]. by rewrite app_nil_r.
  - intros ([] & s1 & Hx & Hrest)%bind_ok_inv.
    rewrite (IH _ _ Hrest). specialize (Hbody x s). rewrite Hx in Hbody.
    cbn [snd] in Hbody. rewrite Hbody, <- app_assoc. done.
Qed.

Lemma forEach_ok_all {A} (xs : list A) (body : A → M unit) :
  ∀ s s', forEach xs body s = (Ok tt, s') →
          ∀ x, x ∈ xs → ∃ s1 s2, body x s1 = (Ok tt, s2).
Proof.
  induction xs as [|y xs IH]; intros s s' Hrun x Hx;
    [by apply elem_of_nil in Hx|].
  cbn [forEach] in Hrun.
  apply bind_ok_inv in Hrun as ([] & s1 & Hy & Hrest).
  apply elem_of_cons in Hx as [->|Hx]; [by eauto|by eapply IH].
Qed.

Lemma forRows_ok_all {A B} (xs : list A) (body : Z → A → M B) :
  ∀ j s bs s', forRows j xs body s = (Ok bs, s') →
               ∀ x, x ∈ xs → ∃ j' s1 b s2, body j' x s1 = (Ok b, s2).
Proof.
  induction xs as [|y xs IH]; intros j s bs s' Hrun x Hx;
    [by apply elem_of_nil in Hx|].
  cbn [forRows] in Hrun.
  apply bind_ok_inv in Hrun as (b & s1 & Hy & Hrest).
  apply bind_ok_inv in Hrest as (bs' & s2 & Hrest & _).
  apply elem_of_cons in Hx as [->|Hx]; [by eauto|by eapply IH].
Qed.

(** A loop over chunks that succeeds has run its body, successfully, on a
    chunk holding each element of the batch. *)
Lemma chunkLoop_ok_all {A} (data : list A) cs body :
  ∀ fuel i s s',
    chunkLoop fuel data cs i body s = (Ok tt, s') → 0 ≤ i →
    ∀ n x, i ≤ Z.of_nat n → data !! n = Some x →
           ∃ i0 e0 chunk s1 s2,
             x ∈ chunk ∧ body i0 e0 chunk s1 = (Ok tt, s2).
Proof.
  induction fuel as [|fuel IH]; intros i s s' Hrun Hi n x Hn Hx;
    cbn [chunkLoop] in Hrun;
    destruct (Z.ltb_spec i (len data)) as [Hlt|Hge];
    try done.
  - apply lookup_lt_Some in Hx. unfold len in *. lia.
  - apply bind_ok_inv in Hrun as (chunk & s0 & Hslice & Hrun).
    apply liftR_ok_inv in Hslice as [Hslice ->].
    apply bind_ok_inv in Hrun as ([] & s1 & Hbody & Hrest).
    unfold goSlice in Hslice.
    set (w := wrap (i + cs)) in *.
    set (e := if w >? len data then len data else w) in *.
    destruct ((0 <=? i) && (i <=? e) && (e <=? len data)) eqn:Hin; [|done].
    injection Hslice as <-.
    apply andb_true_iff in Hin as [Hin He].
    apply andb_true_iff in Hin as [_ Hie].
    destruct (Z_lt_le_dec (Z.of_nat n) e) as [Hne|Hne].
    + exists i, e, (take (Z.to_nat (e - i)) (drop (Z.to_nat i) data)), s, s1.
      split; [|done]. apply list_elem_of_lookup.
      exists (n - Z.to_nat i)%nat. rewrite lookup_take_lt by lia.
      rewrite lookup_drop, <- Hx. f_equal. lia.
    + assert (e = w) as Hew.
      { revert Hne. subst e. destruct (Z.gtb_spec w (len data)); [|done].
        intros Hne. apply lookup_lt_Some in Hx. unfold len in *. lia. }
      apply Z.leb_le in Hie. clearbody e w.
      apply (IH w s1 s' Hrest ltac:(lia) n x ltac:(lia) Hx).
  - apply lookup_lt_Some in Hx. unfold len in *. lia.
Qed.

Lemma forChunks_ok_all {A} (data : list A) cs body s s' :
  forChunks data cs body s = (Ok tt, s') →
  ∀ x, x ∈ data →
       ∃ i0 e0 chunk s1 s2, x ∈ chunk ∧ body i0 e0 chunk s1 = (Ok tt, s2).
Proof.
  intros Hrun x [n Hx]%list_elem_of_lookup.
  apply (chunkLoop_ok_all data cs body _ 0 s s' Hrun ltac:(lia) n x
           ltac:(lia) Hx).
Qed.

Lemma timeNow_ok_inv w k s a s' :
  timeNow w k s = (Ok a, s') → a = w_now w (st_log s) k ∧ s' = s.
Proof. by intros [= <- <-]. Qed.


(** ** The statements of each function, table by table *)

Lemma tableRead_event w tbl idColumn keys cols templateRow e :
  tableRead tbl idColumn e → tableEvent w tbl idColumn keys cols templateRow e.
Proof. by destruct e. Qed.

Lemma tableEvent_keys w tbl idColumn keys keys' cols templateRow e :
  keys ⊆ keys' →
  tableEvent w tbl idColumn keys cols templateRow e →
  tableEvent w tbl idColumn keys' cols templateRow e.
Proof.
  intros Hsub. destruct e; try done. cbn. intros [-> Hin]. split; [done|].
  by apply Hsub.
Qed.

(** The statements of [getTemplateRow]. *)
Lemma getTemplateRow_tableRead w tbl idColumn :
  emits (tableRead tbl idColumn) (getTemplateRow w tbl idColumn).
Proof. by apply yields_getTemplateRow_ev. Qed.

Section Traces.
Context (w : World).

(** A function that samples the template row of its table first: its
    statements are those of the sampling alone when the sampling fails,
    and otherwise these followed by the statements of the rest, run with
    the template row in a state with the same database. *)
Lemma template_first {A} (wrap : M (option (gmap string value)) →
                                 M (option (gmap string value)))
    tbl idColumn (rest : option (gmap string value) → M A)
    (P : option (gmap string value) → event → Prop) s :
  (∀ m s0, (wrap m s0).2 = (m s0).2
           ∧ (∀ a, (wrap m s0).1 = Ok a ↔ (m s0).1 = Ok a)
           ∧ ((wrap m s0).1 = OutOfFuel ↔ (m s0).1 = OutOfFuel)) →
  (∀ T e, tableRead tbl idColumn e → P T e) →
  (∀ T s1, st_db s1 = st_db s →
           ∃ evs, st_log (rest T s1).2 = st_log s1 ++ evs ∧ Forall (P T) evs) →
  ∃ evs,
    st_log ((wrap (getTemplateRow w tbl idColumn) ≫= rest) s).2
    = st_log s ++ evs
    ∧ ((∃ T, (getTemplateRow w tbl idColumn s).1 = Ok T ∧ Forall (P T) evs)
       ∨ Forall (tableRead tbl idColumn) evs).
Proof.
  intros Hwrap Hread Hrest. rewrite bind_run.
  destruct (Hwrap (getTemplateRow w tbl idColumn) s) as (Hst & Hok & _).
  destruct (getTemplateRow_tableRead w tbl idColumn s)
    as [(evs1 & Hlog1 & Hevs1) _].
  pose proof (preservesDb_getTemplateRow w tbl idColumn s) as Hdb1.
  destruct (wrap (getTemplateRow w tbl idColumn) s) as [r s1] eqn:Ew.
  cbn [fst snd] in *. subst s1.
  destruct r as [T| | |];
    try (exists evs1; split; [done|by right]).
  destruct (Hrest T _ Hdb1) as (evs2 & Hlog2 & Hevs2).
  exists (evs1 ++ evs2). split.
  - by rewrite Hlog2, Hlog1, app_assoc.
  - left. exists T. split; [by apply Hok|].
    apply Forall_app. split; [|done].
    eapply Forall_impl; [exact Hevs1|]. intros e. apply Hread.
Qed.

Lemma wrapErr_wrap {A} prefix (m : M A) s0 :
  (wrapErr prefix m s0).2 = (m s0).2
  ∧ (∀ a, (wrapErr prefix m s0).1 = Ok a ↔ (m s0).1 = Ok a)
  ∧ ((wrapErr prefix m s0).1 = OutOfFuel ↔ (m s0).1 = OutOfFuel).
Proof. unfold wrapErr. by destruct (m s0) as [[]]. Qed.

Lemma id_wrap {A} (m : M A) s0 :
  (m s0).2 = (m s0).2
  ∧ (∀ a, (m s0).1 = Ok a ↔ (m s0).1 = Ok a)
  ∧ ((m s0).1 = OutOfFuel ↔ (m s0).1 = OutOfFuel).
Proof. done. Qed.

(** From an [emits] to the statements of one run. *)
Lemma emits_from {A} P (m : M A) s :
  emits P m → ∃ evs, st_log (m s).2 = st_log s ++ evs ∧ Forall P evs.
Proof. intros Hm. by destruct (Hm s). Qed.

(** The statements of a computation that reads the columns first. *)
Lemma columns_first {A} tbl (rest : list string → M A) (P : event → Prop) s :
  P (EvColumns tbl) →
  emits P (rest (columnsAt tbl s)) →
  ∃ evs, st_log ((getTableColumns tbl ≫= rest) s).2 = st_log s ++ evs
         ∧ Forall P evs.
Proof.
  intros HP Hrest. rewrite bind_run, getTableColumns_run.
  fold (columnsAt tbl s). cbv beta iota.
  destruct (emits_from _ _
              {| st_db := st_db s; st_log := st_log s ++ [EvColumns tbl] |}
              Hrest) as (evs & Hlog & Hevs).
  exists (EvColumns tbl :: evs). split.
  - rewrite Hlog. cbn [st_log]. by rewrite <- app_assoc.
  - by constructor.
Qed.

Lemma columnsAt_db tbl s s' : st_db s' = st_db s → columnsAt tbl s' = columnsAt tbl s.
Proof. unfold columnsAt. by intros ->. Qed.

(** *** Message rows *)

Lemma messagesRow_ruleWith jsonDir cols T msgData row :
  messagesRow w jsonDir cols T msgData = Ok row →
  ruleRowWith w "messages" cols T row.
Proof.
  unfold messagesRow. destruct (w_jsonMarshal w _) as [e|bytes]; [done|].
  intros [= <-]. eexists. split; [|apply buildRowValues_followsRule].
  constructor.
Qed.

Lemma bulkInsertMessages_trace data jsonDir contactID s :
  ∃ evs,
    st_log (bulkInsertMessages w data jsonDir contactID s).2 = st_log s ++ evs
    ∧ ((∃ T, (getTemplateRow w "messages" "message_id" s).1 = Ok T
             ∧ Forall (tableEvent w "messages" "message_id" []
                         (columnsAt "messages" s) T) evs)
       ∨ Forall (tableRead "messages" "message_id") evs).
Proof.
  unfold bulkInsertMessages.
  apply (template_first (wrapErr "failed to get template row") _ _ _
           (λ T, tableEvent w "messages" "message_id" []
                   (columnsAt "messages" s) T)).
  - intros m s0. apply wrapErr_wrap.
  - intros T e. apply tableRead_event.
  - intros T s1 Hdb. apply columns_first; [done|].
    rewrite (columnsAt_db _ _ _ Hdb). set (cols := columnsAt "messages" s).
    apply emits_bind; [apply emits_liftR|]. intros chunkSize.
    apply yields_forChunks. intros i e chunk _.
    eapply yields_bind.
    + apply yields_forRows. intros _ msgData _.
      apply yields_liftR. intros row. apply messagesRow_ruleWith.
    + intros rows Hrows. apply yields_wrapErr, yields_execInsert. done.
Qed.

(** *** Transfer records *)

Lemma insertSndFile_trace fileID s :
  ∃ evs,
    st_log (insertSndFile w fileID s).2 = st_log s ++ evs
    ∧ Forall oneRow evs
    ∧ ((∃ T, (getTemplateRow w "snd_files" "file_id" s).1 = Ok T
             ∧ Forall (tableEvent w "snd_files" "file_id"
                         [("last_inline_msg_delivery_id"%string, 1)]
                         (columnsAt "snd_files" s) T) evs)
       ∨ Forall (tableRead "snd_files" "file_id") evs).
Proof.
  unfold insertSndFile.
  destruct (template_first (λ m, m) "snd_files" "file_id"
              (λ templateRow,
                 columns ← getTableColumns "snd_files";
                 nextDeliveryID ← wrapErr "failed to get next delivery ID"
                   (queryNextID "snd_files" "last_inline_msg_delivery_id");
                 createdAt ← timeNow w 0;
                 updatedAt ← timeNow w 1;
                 let rowValues :=
                   buildRowValues
                     (sndFilesOverrides w fileID nextDeliveryID createdAt
                        updatedAt) templateRow columns in
                 liftR (placeholderGroup columns);;
                 execInsert w "snd_files" columns [rowValues])
              (λ T e, oneRow e
                      ∧ tableEvent w "snd_files" "file_id"
                          [("last_inline_msg_delivery_id"%string, 1)]
                          (columnsAt "snd_files" s) T e) s)
    as (evs & Hlog & Hevs).
  - intros m s0. apply id_wrap.
  - intros T e He. split; [by destruct e|by apply tableRead_event].
  - intros T s1 Hdb. apply columns_first; [done|].
    rewrite (columnsAt_db _ _ _ Hdb). set (cols := columnsAt "snd_files" s).
    apply emits_bind.
    { apply yields_wrapErr, yields_queryNextID_ev. split; [done|].
      split; [done|list_mem]. }
    intros nextDeliveryID.
    apply emits_bind; [apply yields_timeNow|]. intros createdAt.
    apply emits_bind; [apply yields_timeNow|]. intros updatedAt.
    apply emits_bind; [apply emits_liftR|]. intros _.
    apply yields_execInsert. split; [done|]. split; [done|]. split; [done|].
    constructor; [|done]. eexists.
    split; [|apply buildRowValues_followsRule]. constructor.
  - exists evs. split; [done|]. destruct Hevs as [(T & HT & Hevs)|Hevs].
    + apply Forall_and in Hevs as [H1 H2]. split; [done|]. left. by exists T.
    + split; [|by right]. eapply Forall_impl; [exact Hevs|]. by intros [].
Qed.

Lemma insertRcvFile_trace fileID s :
  ∃ evs,
    st_log (insertRcvFile w fileID s).2 = st_log s ++ evs
    ∧ Forall oneRow evs
    ∧ ((∃ T, (getTemplateRow w "rcv_files" "file_id" s).1 = Ok T
             ∧ Forall (tableEvent w "rcv_files" "file_id" []
                         (columnsAt "rcv_files" s) T) evs)
       ∨ Forall (tableRead "rcv_files" "file_id") evs).
Proof.
  unfold insertRcvFile.
  destruct (template_first (λ m, m) "rcv_files" "file_id"
              (λ templateRow,
                 columns ← getTableColumns "rcv_files";
                 createdAt ← timeNow w 0;
                 updatedAt ← timeNow w 1;
                 let rowValues :=
                   buildRowValues
                     (rcvFilesOverrides w fileID createdAt updatedAt)
                     templateRow columns in
                 liftR (placeholderGroup columns);;
                 execInsert w "rcv_files" columns [rowValues])
              (λ T e, oneRow e
                      ∧ tableEvent w "rcv_files" "file_id" []
                          (columnsAt "rcv_files" s) T e) s)
    as (evs & Hlog & Hevs).
  - intros m s0. apply id_wrap.
  - intros T e He. split; [by destruct e|by apply tableRead_event].
  - intros T s1 Hdb. apply columns_first; [done|].
    rewrite (columnsAt_db _ _ _ Hdb). set (cols := columnsAt "rcv_files" s).
    apply emits_bind; [apply yields_timeNow|]. intros createdAt.
    apply emits_bind; [apply yields_timeNow|]. intros updatedAt.
    apply emits_bind; [apply emits_liftR|]. intros _.
    apply yields_execInsert. split; [done|]. split; [done|]. split; [done|].
    constructor; [|done]. eexists.
    split; [|apply buildRowValues_followsRule]. constructor.
  - exists evs. split; [done|]. destruct Hevs as [(T & HT & Hevs)|Hevs].
    + apply Forall_and in Hevs as [H1 H2]. split; [done|]. left. by exists T.
    + split; [|by right]. eapply Forall_impl; [exact Hevs|]. by intros [].
Qed.

Lemma emits_of_trace {A} P (m : M A) :
  (∀ s, ∃ evs, st_log (m s).2 = st_log s ++ evs ∧ Forall P evs) → emits P m.
Proof. intros H s. split; [apply H|done]. Qed.

Lemma insertSndFile_transfer fileID :
  emits (λ e, oneRow e ∧ transferEvent w e) (insertSndFile w fileID).
Proof.
  apply emits_of_trace. intros s.
  destruct (insertSndFile_trace fileID s) as (evs & Hlog & Hone & Hevs).
  exists evs. split; [done|]. apply Forall_and. split; [done|].
  destruct Hevs as [(T & _ & Hevs)|Hevs].
  - eapply Forall_impl; [exact Hevs|]. intros e He. eexists _, _. by left.
  - eapply Forall_impl; [exact Hevs|]. intros e He.
    exists [], None. left. by apply tableRead_event.
Qed.

Lemma insertRcvFile_transfer fileID :
  emits (λ e, oneRow e ∧ transferEvent w e) (insertRcvFile w fileID).
Proof.
  apply emits_of_trace. intros s.
  destruct (insertRcvFile_trace fileID s) as (evs & Hlog & Hone & Hevs).
  exists evs. split; [done|]. apply Forall_and. split; [done|].
  destruct Hevs as [(T & _ & Hevs)|Hevs].
  - eapply Forall_impl; [exact Hevs|]. intros e He. eexists _, _. by right.
  - eapply Forall_impl; [exact Hevs|]. intros e He.
    exists [], None. right. by apply tableRead_event.
Qed.

(** *** File rows *)

Lemma insertFileAttachment_trace attachment chatItemID isSent jsonDir
    messageType contactID simplexFilesDir s :
  ∃ evs,
    st_log (insertFileAttachment w attachment chatItemID isSent jsonDir
              messageType contactID simplexFilesDir s).2 = st_log s ++ evs
    ∧ Forall oneRow evs
    ∧ ((∃ T, (getTemplateRow w "files" "file_id" s).1 = Ok T
             ∧ Forall (λ e, tableEvent w "files" "file_id"
                              [("file_id"%string, 1)]
                              (columnsAt "files" s) T e
                            ∨ transferEvent w e) evs)
       ∨ Forall (tableRead "files" "file_id") evs).
Proof.
  unfold insertFileAttachment. destruct (negb _).
  { exists []. rewrite app_nil_r. split_and!; [done|done|by right]. }
  set (P := λ T e, oneRow e
                   ∧ (tableEvent w "files" "file_id" [("file_id"%string, 1)]
                        (columnsAt "files" s) T e
                      ∨ transferEvent w e)).
  match goal with
  | |- context [wrapErr ?p (getTemplateRow w _ _) ≫= ?rest] =>
      destruct (template_first (wrapErr p) "files" "file_id" rest P s)
        as (evs & Hlog & Hevs)
  end.
  - intros m s0. apply wrapErr_wrap.
  - intros T e He. split; [by destruct e|left; by apply tableRead_event].
  - intros T s1 Hdb. rewrite bind_run.
    destruct (queryNextID_run "files" "file_id" s1) as (Hdb2 & Hlog2 & _).
    rewrite <- (wrapErr_state "failed to get next file_id") in Hdb2, Hlog2.
    assert (P T (EvCoalesceMax "files" "file_id" 1)) as Hq.
    { split; [done|]. left. split; [done|list_mem]. }
    destruct (wrapErr "failed to get next file_id"
                (queryNextID "files" "file_id") s1) as [[next| | |] s2];
      cbn [fst snd] in *;
      try (exists [EvCoalesceMax "files" "file_id" 1]; split; [done|];
           by constructor).
    match goal with
    | |- context [(getTableColumns "files" ≫= ?rest) s2] =>
        destruct (columns_first "files" rest (P T) s2) as (evs & Hlog & Hevs)
    end.
    { split; [done|by left]. }
    { rewrite (columnsAt_db _ _ _ (eq_trans Hdb2 Hdb)).
      set (cols := columnsAt "files" s).
      apply emits_bind; [apply emits_liftR|]. intros truncatedFilename.
      apply emits_bind; [apply yields_wrapErr, emits_liftR|]. intros _.
      apply emits_bind; [apply yields_timeNow|]. intros createdAt.
      apply emits_bind; [apply yields_timeNow|]. intros updatedAt.
      apply emits_bind; [apply emits_liftR|]. intros _.
      apply emits_bind.
      { apply yields_wrapErr, yields_execInsert. split; [done|]. left.
        split; [done|]. split; [done|]. constructor; [|done]. eexists.
        split; [|apply buildRowValues_followsRule]. constructor. }
      intros _. apply emits_bind; [|intros; apply emits_ret].
      case_match; [|apply emits_ret]. apply yields_wrapErr.
      destruct isSent.
      - eapply yields_mono; [| |apply insertSndFile_transfer]; [|done].
        intros e [? ?]. split; [done|by right].
      - eapply yields_mono; [| |apply insertRcvFile_transfer]; [|done].
        intros e [? ?]. split; [done|by right]. }
    exists (EvCoalesceMax "files" "file_id" 1 :: evs). split.
    + rewrite Hlog, Hlog2, <- app_assoc. done.
    + by constructor.
  - exists evs. split; [done|]. destruct Hevs as [(T & HT & Hevs)|Hevs].
    + apply Forall_and in Hevs as [H1 H2]. split; [done|]. left. by exists T.
    + split; [|by right]. eapply Forall_impl; [exact Hevs|]. by intros [].
Qed.

Lemma insertFileAttachment_fileEvent attachment chatItemID isSent jsonDir
    messageType contactID simplexFilesDir :
  emits (fileEvent w)
    (insertFileAttachment w attachment chatItemID isSent jsonDir messageType
       contactID simplexFilesDir).
Proof.
  apply emits_of_trace. intros s.
  destruct (insertFileAttachment_trace attachment chatItemID isSent jsonDir
              messageType contactID simplexFilesDir s)
    as (evs & Hlog & Hone & Hevs).
  exists evs. split; [done|]. apply Forall_and. split; [done|].
  destruct Hevs as [(T & _ & Hevs)|Hevs].
  - eapply Forall_impl; [exact Hevs|]. intros e [He|He]; [left|by right].
    by eexists _, _.
  - eapply Forall_impl; [exact Hevs|]. intros e He. left.
    exists [], None. by apply tableRead_event.
Qed.

(** *** Chat item rows *)

Lemma chatItemsRowValues_ruleWith jsonDir contactID cols T msgData row :
  chatItemsRowValues w jsonDir contactID cols T msgData = Ok row →
  ruleRowWith w "chat_items" cols T row.
Proof.
  unfold chatItemsRowValues.
  destruct (w_jsonMarshal w (itemContentJSON _ _ _)) as [|bytes]; [done|].
  destruct (m_QuotedMessage _) as [q|].
  - destruct (w_jsonMarshal w (quotedContentJSON q)) as [|qbytes]; [done|].
    intros Hrow.
    assert (row = buildRowValues
                    (chatItemsOverrides w msgData contactID bytes
                       (Some (q, qbytes))) T cols) as -> by congruence.
    eexists (chatItemsOverrides w msgData contactID bytes (Some (q, qbytes))).
    split; [apply op_chat_items|apply buildRowValues_followsRule].
  - intros Hrow.
    assert (row = buildRowValues
                    (chatItemsOverrides w msgData contactID bytes None)
                    T cols) as -> by congruence.
    eexists (chatItemsOverrides w msgData contactID bytes None).
    split; [apply op_chat_items|apply buildRowValues_followsRule].
Qed.

Lemma bulkInsertChatItems_trace data jsonDir contactID simplexFilesDir s :
  ∃ evs,
    st_log (bulkInsertChatItems w data jsonDir contactID simplexFilesDir s).2
    = st_log s ++ evs
    ∧ ((∃ T, (getTemplateRow w "chat_items" "chat_item_id" s).1 = Ok T
             ∧ Forall (λ e, tableEvent w "chat_items" "chat_item_id" []
                              (columnsAt "chat_items" s) T e
                            ∨ fileEvent w e) evs)
       ∨ Forall (tableRead "chat_items" "chat_item_id") evs).
Proof.
  unfold bulkInsertChatItems.
  apply (template_first (wrapErr "failed to get template row") _ _ _
           (λ T e, tableEvent w "chat_items" "chat_item_id" []
                     (columnsAt "chat_items" s) T e
                   ∨ fileEvent w e)).
  - intros m s0. apply wrapErr_wrap.
  - intros T e He. left. by apply tableRead_event.
  - intros T s1 Hdb. apply columns_first; [by left|].
    rewrite (columnsAt_db _ _ _ Hdb). set (cols := columnsAt "chat_items" s).
    apply emits_bind; [apply emits_liftR|]. intros chunkSize.
    apply yields_forChunks. intros i e chunk _.
    eapply yields_bind.
    + apply yields_forRows. intros _ msgData _. unfold chatItemsRow.
      eapply yields_bind with (Q := λ _, True).
      * case_match; [apply emits_ret|].
        apply emits_bind; [|intros; apply emits_ret].
        apply yields_attempt.
        eapply yields_mono; [| |apply insertFileAttachment_fileEvent];
          [|done].
        intros e' He'. by right.
      * intros _ _. apply yields_liftR. intros row.
        apply chatItemsRowValues_ruleWith.
    + intros rows Hrows. apply yields_wrapErr, yields_execInsert.
      left. done.
Qed.

(** *** Link rows and delivery rows *)

Lemma bulkInsertChatItemMessages_trace data s :
  ∃ evs,
    st_log (bulkInsertChatItemMessages w data s).2 = st_log s ++ evs
    ∧ ((∃ T, (getTemplateRow w "chat_item_messages" "rowid" s).1 = Ok T
             ∧ Forall (tableEvent w "chat_item_messages" "rowid"
                         [("rowid"%string, 1)]
                         (columnsAt "chat_item_messages" s) T) evs)
       ∨ Forall (tableRead "chat_item_messages" "rowid") evs).
Proof.
  unfold bulkInsertChatItemMessages.
  apply (template_first (wrapErr "failed to get template row") _ _ _
           (λ T, tableEvent w "chat_item_messages" "rowid"
                   [("rowid"%string, 1)]
                   (columnsAt "chat_item_messages" s) T)).
  - intros m s0. apply wrapErr_wrap.
  - intros T e. apply tableRead_event.
  - intros T s1 Hdb. apply columns_first; [done|].
    rewrite (columnsAt_db _ _ _ Hdb).
    set (cols := columnsAt "chat_item_messages" s).
    apply emits_bind.
    { apply yields_wrapErr, yields_queryNextID_ev. split; [done|list_mem]. }
    intros nextRowID.
    apply emits_bind; [apply emits_liftR|]. intros chunkSize.
    apply yields_forChunks. intros i e chunk _.
    eapply yields_bind
      with (Q := Forall (ruleRowWith w "chat_item_messages" cols T)).
    + apply yields_forRows. intros j msgData _. apply yields_ret.
      eexists. split; [|apply buildRowValues_followsRule]. constructor.
    + intros rows Hrows. apply yields_wrapErr, yields_execInsert. done.
Qed.

Lemma bulkInsertMsgDeliveries_trace data s :
  ∃ evs,
    st_log (bulkInsertMsgDeliveries w data s).2 = st_log s ++ evs
    ∧ ((∃ T, (getTemplateRow w "msg_deliveries" "msg_delivery_id" s).1 = Ok T
             ∧ Forall (tableEvent w "msg_deliveries" "msg_delivery_id"
                         [("agent_msg_id"%string, 0)]
                         (columnsAt "msg_deliveries" s) T) evs)
       ∨ Forall (tableRead "msg_deliveries" "msg_delivery_id") evs).
Proof.
  unfold bulkInsertMsgDeliveries.
  apply (template_first (wrapErr "failed to get template row") _ _ _
           (λ T, tableEvent w "msg_deliveries" "msg_delivery_id"
                   [("agent_msg_id"%string, 0)]
                   (columnsAt "msg_deliveries" s) T)).
  - intros m s0. apply wrapErr_wrap.
  - intros T e. apply tableRead_event.
  - intros T s1 Hdb. apply columns_first; [done|].
    rewrite (columnsAt_db _ _ _ Hdb).
    set (cols := columnsAt "msg_deliveries" s).
    apply emits_bind.
    { apply yields_wrapErr, yields_queryMaxOrZero_ev. split; [done|list_mem]. }
    intros maxAgentMsgID.
    apply emits_bind; [apply emits_liftR|]. intros chunkSize.
    apply yields_forChunks. intros i e chunk _.
    eapply yields_bind
      with (Q := Forall (ruleRowWith w "msg_deliveries" cols T)).
    + apply yields_forRows. intros j msgData _. apply yields_ret.
      eexists. split; [|apply buildRowValues_followsRule]. constructor.
    + intros rows Hrows. apply yields_wrapErr, yields_execInsert. done.
Qed.

(** *** Reaction rows *)

Lemma bulkInsertReactions_reactionEvent data contactID :
  emits (reactionEvent w) (bulkInsertReactions w data contactID).
Proof.
  unfold bulkInsertReactions.
  apply emits_bind; [by apply yields_wrapErr, yields_queryNextID_ev|].
  intros nextReactionID.
  apply emits_bind; [|intros; apply emits_ret].
  apply yields_forEachAcc. intros counter msgData _.
  apply yields_forEachAcc. intros counter' reaction _.
  apply emits_bind; [|intros; apply emits_ret].
  apply yields_wrapErr, yields_execInsert.
  split_and!; [done..|]. by exists msgData, contactID, reaction, counter'.
Qed.

(** From the statements of a run to its insert statements into the table. *)
Lemma trace_synthesizes {A} tbl idColumn keys (m : M A) s (other : event → Prop) :
  (∀ e, other e → notInsertInto tbl e) →
  (∃ evs,
     st_log (m s).2 = st_log s ++ evs
     ∧ ((∃ T, (getTemplateRow w tbl idColumn s).1 = Ok T
              ∧ Forall (λ e, tableEvent w tbl idColumn keys (columnsAt tbl s) T e
                             ∨ other e) evs)
        ∨ Forall (tableRead tbl idColumn) evs)) →
  ∀ cols rows,
    EvInsert tbl cols rows ∈ drop (length (st_log s)) (st_log (m s).2) →
    ∃ templateRow,
      (getTemplateRow w tbl idColumn s).1 = Ok templateRow
      ∧ cols = columnsAt tbl s
      ∧ Forall (ruleRowWith w tbl cols templateRow) rows.
Proof.
  intros Hother (evs & Hlog & Hevs) cols rows Hin.
  rewrite Hlog, drop_app_length in Hin.
  destruct Hevs as [(T & HT & Hevs)|Hevs].
  - rewrite Forall_forall in Hevs. destruct (Hevs _ Hin) as [He|He].
    + destruct He as (_ & -> & Hrows). by exists T.
    + by destruct (Hother _ He).
  - rewrite Forall_forall in Hevs. by destruct (Hevs _ Hin).
Qed.

End Traces.


(** ** The claim about the values of a row *)

Lemma trace_plain {A} (w : World) tbl idColumn keys (m : M A) s :
  (∃ evs,
     st_log (m s).2 = st_log s ++ evs
     ∧ ((∃ T, (getTemplateRow w tbl idColumn s).1 = Ok T
              ∧ Forall (tableEvent w tbl idColumn keys (columnsAt tbl s) T) evs)
        ∨ Forall (tableRead tbl idColumn) evs)) →
  ∃ evs,
    st_log (m s).2 = st_log s ++ evs
    ∧ ((∃ T, (getTemplateRow w tbl idColumn s).1 = Ok T
             ∧ Forall (λ e, tableEvent w tbl idColumn keys (columnsAt tbl s) T e
                            ∨ False) evs)
       ∨ Forall (tableRead tbl idColumn) evs).
Proof.
  intros (evs & Hlog & [(T & HT & Hevs)|Hevs]); exists evs; (split; [done|]).
  - left. exists T. split; [done|]. eapply Forall_impl; [exact Hevs|]. tauto.
  - by right.
Qed.

Lemma transferEvent_notInsertInto w tbl e :
  tbl ≠ "snd_files"%string → tbl ≠ "rcv_files"%string →
  transferEvent w e → notInsertInto tbl e.
Proof.
  intros Hs Hr (cols & T & [He|He]); destruct e; try done;
    destruct He as (-> & _); cbn; congruence.
Qed.

Lemma fileEvent_notInsertInto w tbl e :
  tbl ∉ ["files"; "snd_files"; "rcv_files"]%string →
  fileEvent w e → notInsertInto tbl e.
Proof.
  intros Hn [_ [(cols & T & He)|He]].
  - destruct e; try done. destruct He as (-> & _). cbn. intros <-.
    apply Hn. list_mem.
  - apply (transferEvent_notInsertInto w); [| |done]; intros ->; apply Hn;
      list_mem.
Qed.

(** C1, as the specification states it, fails on the reactions table: its
    rows are inserted with a fixed list of nine columns, so a further column
    of the table gets no value from the template row, which holds one. *)
Lemma reaction_row_ignores_template :
  from_option t_columns [] (exampleDb !! "chat_item_reactions"%string)
  = reactionColumns ++ ["group_id"%string]
  ∧ match (getTemplateRow exampleWorld "chat_item_reactions"
             "chat_item_reaction_id"
             exampleStart).1 with
    | Ok (Some t) => t !! "group_id"%string
    | _ => None
    end = Some (VInt 7)
  ∧ (∃ row, insertedInto "chat_item_reactions" (st_log exampleRun.2) = [[row]]
            ∧ length row = 9%nat)
  ∧ ((λ t, (λ r, r !! "group_id"%string) <$> t_rows t)
       <$> st_db exampleRun.2 !! "chat_item_reactions"%string)
    = Some [Some (VInt 7); Some VNull].
Proof.
  split_and!.
  - vm_compute. reflexivity.
  - vm_compute. reflexivity.
  - eexists. split; vm_compute; reflexivity.
  - vm_compute. reflexivity.
Qed.

(** C1, amended. For each of the seven tables filled from a template
    (messages, chat_items, chat_item_messages, msg_deliveries, files,
    snd_files, rcv_files), in every run of the function that fills it,
    every insert statement into the table carries the column list
    introspected from the table in the state in which the function
    started, and for every row of the statement and every column of that
    list the value in the row is: the override value when the synthesizer
    has an explicit opinion for that column; otherwise the value that the
    template row holds for the column, the template row being the one
    [getTemplateRow] samples in the state in which the function started
    (the stored values as the driver returns them); otherwise null.  The
    rows of the reactions table are inserted one by one with the fixed
    nine columns, each value given explicitly ([reactionRow]), without
    introspection or template. *)
Theorem rows_follow_override_template_null (w : World) :
  (∀ data jsonDir contactID,
     synthesizes w "messages" "message_id"
       (bulkInsertMessages w data jsonDir contactID))
  ∧ (∀ data jsonDir contactID simplexFilesDir,
       synthesizes w "chat_items" "chat_item_id"
         (bulkInsertChatItems w data jsonDir contactID simplexFilesDir))
  ∧ (∀ data,
       synthesizes w "chat_item_messages" "rowid"
         (bulkInsertChatItemMessages w data))
  ∧ (∀ data,
       synthesizes w "msg_deliveries" "msg_delivery_id"
         (bulkInsertMsgDeliveries w data))
  ∧ (∀ attachment chatItemID isSent jsonDir messageType contactID
       simplexFilesDir,
       synthesizes w "files" "file_id"
         (insertFileAttachment w attachment chatItemID isSent jsonDir
            messageType contactID simplexFilesDir))
  ∧ (∀ fileID, synthesizes w "snd_files" "file_id" (insertSndFile w fileID))
  ∧ (∀ fileID, synthesizes w "rcv_files" "file_id" (insertRcvFile w fileID))
  ∧ (∀ data contactID,
       emits (reactionEvent w) (bulkInsertReactions w data contactID)).
Proof.
  split_and!.
  - intros data jsonDir contactID s.
    apply (trace_synthesizes w _ _ [] _ s (λ _, False)); [done|].
    apply trace_plain, bulkInsertMessages_trace.
  - intros data jsonDir contactID simplexFilesDir s.
    apply (trace_synthesizes w _ _ [] _ s (fileEvent w)).
    + intros e. apply fileEvent_notInsertInto. intros Hin.
      repeat (apply elem_of_cons in Hin as [?|Hin]; [done|]).
      by apply elem_of_nil in Hin.
    + apply bulkInsertChatItems_trace.
  - intros data s.
    apply (trace_synthesizes w _ _ [("rowid"%string, 1)] _ s (λ _, False));
      [done|].
    apply trace_plain, bulkInsertChatItemMessages_trace.
  - intros data s.
    apply (trace_synthesizes w _ _ [("agent_msg_id"%string, 0)] _ s
             (λ _, False)); [done|].
    apply trace_plain, bulkInsertMsgDeliveries_trace.
  - intros attachment chatItemID isSent jsonDir messageType contactID
      simplexFilesDir s.
    apply (trace_synthesizes w _ _ [("file_id"%string, 1)] _ s
             (transferEvent w)).
    + intros e. by apply transferEvent_notInsertInto.
    + destruct (insertFileAttachment_trace w attachment chatItemID isSent
                  jsonDir messageType contactID simplexFilesDir s)
        as (evs & Hlog & _ & Hevs).
      by exists evs.
  - intros fileID s.
    apply (trace_synthesizes w _ _
             [("last_inline_msg_delivery_id"%string, 1)] _ s (λ _, False));
      [done|].
    apply trace_plain.
    destruct (insertSndFile_trace w fileID s) as (evs & Hlog & _ & Hevs).
    by exists evs.
  - intros fileID s.
    apply (trace_synthesizes w _ _ [] _ s (λ _, False)); [done|].
    apply trace_plain.
    destruct (insertRcvFile_trace w fileID s) as (evs & Hlog & _ & Hevs).
    by exists evs.
  - apply bulkInsertReactions_reactionEvent.
Qed.


(** ** The claims about key allocation *)

Lemma calculateChunkSize_900 numColumns chunkSize :
  0 ≤ numColumns →
  calculateChunkSize numColumns 900 = Ok chunkSize → 1 ≤ chunkSize ≤ 900.
Proof.
  intros Hn. unfold calculateChunkSize. cbn [Z.leb Z.compare].
  destruct (Z.eqb_spec numColumns 0) as [|Hne]; [done|].
  assert (0 ≤ 900 ÷ numColumns ≤ 900).
  { rewrite Z.quot_div_nonneg by lia. split; [apply Z.div_pos; lia|].
    apply Z.div_le_upper_bound; lia. }
  destruct (Z.ltb_spec (900 ÷ numColumns) 1); intros [= <-]; lia.
Qed.

Lemma agent_msg_id_override w msgData maxAgentMsgID i j :
  msgDeliveriesOverrides w msgData maxAgentMsgID i j !! "agent_msg_id"%string
  = Some (VInt (wrap (maxAgentMsgID + 1 + i + j))).
Proof.
  unfold msgDeliveriesOverrides. cbv zeta.
  cbn [list_to_map foldr uncurry fst snd].
  rewrite lookup_insert_ne, lookup_insert_ne, lookup_insert_ne by done.
  by rewrite lookup_insert_eq, addInt_assoc3.
Qed.

Section Keys.
Context (w : World).

(** The rows of one chunk of [bulkInsertMsgDeliveries]. *)
Lemma deliveries_chunk_log columns templateRow maxAgentMsgID
    (c : Z * Z * list MessageInsertData) s :
  st_log
    ((rows ← forRows 0 c.2 (λ j msgData,
                mret (buildRowValues
                        (msgDeliveriesOverrides w msgData maxAgentMsgID c.1.1 j)
                        templateRow columns));
      wrapErr (chunkError c.1.1 c.1.2)
        (execInsert w "msg_deliveries" columns rows)) s).2
  = st_log s
    ++ [EvInsert "msg_deliveries" columns
          (imap (λ j msgData,
                   buildRowValues
                     (msgDeliveriesOverrides w msgData maxAgentMsgID c.1.1
                        (Z.of_nat j)) templateRow columns) c.2)].
Proof.
  rewrite bind_run, forRows_pure, wrapErr_state, execInsert_log. done.
Qed.

Lemma bulkInsertMsgDeliveries_ok data s s' :
  bulkInsertMsgDeliveries w data s = (Ok tt, s') →
  len (Messages data) < 2 ^ 62 →
  ∃ t templateRow columns chunkSize evsTemplate,
    st_db s !! "msg_deliveries"%string = Some t
    ∧ Forall templateRead evsTemplate
    ∧ 1 ≤ chunkSize
    ∧ st_log s'
      = st_log s ++ evsTemplate
        ++ [EvColumns "msg_deliveries";
            EvCoalesceMax "msg_deliveries" "agent_msg_id" 0]
        ++ ((λ c : Z * Z * list MessageInsertData,
               EvInsert "msg_deliveries" columns
                 (imap (λ j msgData,
                          buildRowValues
                            (msgDeliveriesOverrides w msgData
                               (default 0 (colMax "agent_msg_id" (t_rows t)))
                               c.1.1 (Z.of_nat j)) templateRow columns) c.2))
            <$> chunksOf (Messages data) chunkSize).
Proof.
  intros Hrun Hlen. unfold bulkInsertMsgDeliveries in Hrun.
  apply bind_ok_inv in Hrun as (templateRow & s1 & Ht%wrapErr_ok_inv & Hrun).
  destruct (run_log _ _ _ _ _ (getTemplateRow_reads _ _ _) Ht)
    as (evsTemplate & Hlog1 & HevsT).
  pose proof (run_db _ _ _ _ (preservesDb_getTemplateRow _ _ _) Ht) as Hdb1.
  apply bind_ok_inv in Hrun as (columns & s2 & Hc & Hrun).
  rewrite getTableColumns_run in Hc. injection Hc as <- <-.
  set (columns := from_option t_columns [] (st_db s1 !! "msg_deliveries"%string))
    in *.
  apply bind_ok_inv in Hrun as (maxAgentMsgID & s3 & Hm%wrapErr_ok_inv & Hrun).
  destruct (queryMaxOrZero_run "msg_deliveries" "agent_msg_id"
              {| st_db := st_db s1;
                 st_log := st_log s1 ++ [EvColumns "msg_deliveries"] |})
    as (Hdb3 & Hlog3 & Hmax).
  rewrite Hm in Hdb3, Hlog3, Hmax. cbn [fst snd st_db st_log] in *.
  destruct (Hmax _ eq_refl) as (t & Ht' & ->). rewrite Hdb1 in Ht'.
  apply bind_ok_inv in Hrun as (chunkSize & s4 & Hcs & Hrun).
  apply liftR_ok_inv in Hcs as [Hcs ->].
  apply calculateChunkSize_900 in Hcs; [|unfold len; lia].
  rewrite forChunks_chunks in Hrun; [|unfold maxInt; lia|done].
  eapply forEach_ok_log in Hrun;
    [|intros c s0; apply (deliveries_chunk_log columns templateRow
                            (default 0 (colMax "agent_msg_id" (t_rows t))) c s0)].
  exists t, templateRow, columns, chunkSize, evsTemplate.
  split_and!; [done|done|lia|].
  rewrite Hrun, Hlog3, Hlog1, <- !app_assoc. done.
Qed.

Lemma insertSndFile_notFileKey fileID :
  emits notFileKeyQuery (insertSndFile w fileID).
Proof.
  unfold insertSndFile.
  apply emits_bind.
  { eapply yields_mono; [| |apply getTemplateRow_reads]; [|done].
    intros []; done. }
  intros templateRow.
  apply emits_bind; [by apply yields_getTableColumns_ev|]. intros columns.
  apply emits_bind; [by apply yields_wrapErr, yields_queryNextID_ev|].
  intros nextDeliveryID.
  apply emits_bind; [apply yields_timeNow|]. intros createdAt.
  apply emits_bind; [apply yields_timeNow|]. intros updatedAt.
  apply emits_bind; [apply emits_liftR|]. intros _.
  by apply yields_execInsert.
Qed.

Lemma insertRcvFile_notFileKey fileID :
  emits notFileKeyQuery (insertRcvFile w fileID).
Proof.
  unfold insertRcvFile.
  apply emits_bind.
  { eapply yields_mono; [| |apply getTemplateRow_reads]; [|done].
    intros []; done. }
  intros templateRow.
  apply emits_bind; [by apply yields_getTableColumns_ev|]. intros columns.
  apply emits_bind; [apply yields_timeNow|]. intros createdAt.
  apply emits_bind; [apply yields_timeNow|]. intros updatedAt.
  apply emits_bind; [apply emits_liftR|]. intros _.
  by apply yields_execInsert.
Qed.

Lemma insertFileAttachment_ok attachment chatItemID isSent jsonDir messageType
    contactID simplexFilesDir s nextFileID s' :
  insertFileAttachment w attachment chatItemID isSent jsonDir messageType
    contactID simplexFilesDir s = (Ok nextFileID, s') →
  ∃ t evsTemplate evsRest,
    st_db s !! "files"%string = Some t
    ∧ nextFileID = default 0 (colMax "file_id" (t_rows t)) + 1
    ∧ Forall templateRead evsTemplate
    ∧ Forall notFileKeyQuery evsRest
    ∧ st_log s'
      = st_log s ++ evsTemplate
        ++ EvCoalesceMax "files" "file_id" 1 :: evsRest.
Proof.
  unfold insertFileAttachment. destruct (negb _); [done|]. intros Hrun.
  apply bind_ok_inv in Hrun as (templateRow & s1 & Ht%wrapErr_ok_inv & Hrun).
  destruct (run_log _ _ _ _ _ (getTemplateRow_reads _ _ _) Ht)
    as (evsTemplate & Hlog1 & HevsT).
  pose proof (run_db _ _ _ _ (preservesDb_getTemplateRow _ _ _) Ht) as Hdb1.
  apply bind_ok_inv in Hrun as (next & s2 & Hn%wrapErr_ok_inv & Hrun).
  destruct (queryNextID_run "files" "file_id" s1) as (Hdb2 & Hlog2 & Hnext).
  rewrite Hn in Hdb2, Hlog2, Hnext. cbn [fst snd] in *.
  destruct (Hnext _ eq_refl) as (t & Ht' & ->). rewrite Hdb1 in Ht'.
  set (next := default 0 (colMax "file_id" (t_rows t)) + 1) in *.
  assert (emits notFileKeyQuery
    (columns ← getTableColumns "files";
     truncatedFilename ← liftR (truncateFilename w (att_Filename attachment));
     wrapErr "failed to copy file to SimpleX directory"
       (liftR (match w_copyFileToSimplexDir w
                       (w_filepathJoin w jsonDir (att_URL attachment))
                       (att_Filename attachment) simplexFilesDir with
               | Some e => Err e
               | None => Ok tt
               end));;
     createdAt ← timeNow w 0;
     updatedAt ← timeNow w 1;
     let rowValues :=
       buildRowValues
         (filesOverrides w attachment chatItemID isSent messageType contactID
            next truncatedFilename createdAt updatedAt)
         templateRow columns in
     liftR (placeholderGroup columns);;
     wrapErr "failed to insert file" (execInsert w "files" columns [rowValues]);;
     (if bool_decide (messageType ≠ "video"%string) then
        wrapErr "failed to insert file transfer record"
          (if isSent then insertSndFile w next else insertRcvFile w next)
      else mret tt);;
     mret next)) as Hrest.
  { apply emits_bind; [by apply yields_getTableColumns_ev|]. intros columns.
    apply emits_bind; [apply emits_liftR|]. intros truncatedFilename.
    apply emits_bind; [apply yields_wrapErr, emits_liftR|]. intros _.
    apply emits_bind; [apply yields_timeNow|]. intros createdAt.
    apply emits_bind; [apply yields_timeNow|]. intros updatedAt.
    apply emits_bind; [apply emits_liftR|]. intros _.
    apply emits_bind; [by apply yields_wrapErr, yields_execInsert|]. intros _.
    apply emits_bind; [|intros; apply emits_ret].
    case_match; [|apply emits_ret]. apply yields_wrapErr.
    destruct isSent;
      [apply insertSndFile_notFileKey|apply insertRcvFile_notFileKey]. }
  destruct (run_log _ _ _ _ _ Hrest Hrun) as (evsRest & Hlog3 & HevsR).
  assert (nextFileID = next) as ->.
  { clear -Hrun. 
    apply bind_ok_inv in Hrun as (? & ? & _ & Hrun).
    apply bind_ok_inv in Hrun as (? & ? & _ & Hrun).
    apply bind_ok_inv in Hrun as (? & ? & _ & Hrun).
    apply bind_ok_inv in Hrun as (? & ? & _ & Hrun).
    apply bind_ok_inv in Hrun as (? & ? & _ & Hrun).
    apply bind_ok_inv in Hrun as (? & ? & _ & Hrun).
    apply bind_ok_inv in Hrun as (? & ? & _ & Hrun).
    apply bind_ok_inv in Hrun as (? & ? & _ & Hrun).
    by injection Hrun as ->. }
  exists t, evsTemplate, evsRest. split_and!; try done.
  rewrite Hlog3, Hlog2, Hlog1, <- !app_assoc. done.
Qed.

End Keys.


(** ** The claims about chunking *)

(** C10. For every column count [numColumns >= 1] and every [maxParams]
    (an [int]; [maxParams <= 0] is read as 900), [calculateChunkSize]
    returns an integer [>= 1] (exactly 1 when the table has more columns
    than the ceiling), so a chunking loop that advances its index by that
    size never uses up the bound on its iterations, whatever the batch: it
    ends after at most one iteration per element. *)
Theorem chunk_size_positive_and_loop_terminates (numColumns maxParams : Z) :
  1 ≤ numColumns → maxParams ≤ maxInt →
  ∃ chunkSize,
    calculateChunkSize numColumns maxParams = Ok chunkSize
    ∧ 1 ≤ chunkSize
    ∧ ((if maxParams <=? 0 then 900 else maxParams) < numColumns →
       chunkSize = 1)
    ∧ ∀ (A : Type) (data : list A) (body : Z → Z → list A → M unit) s,
        len data ≤ maxInt →
        (∀ i e chunk s', (body i e chunk s').1 ≠ OutOfFuel) →
        (forChunks data chunkSize body s).1 ≠ OutOfFuel.
Proof.
  intros Hn Hp. eexists. split; [by apply calculateChunkSize_eq|].
  pose proof (effective_quot_le numColumns maxParams Hn Hp) as Hq.
  split_and!.
  - lia.
  - intros Hwide. rewrite Z.quot_small; [lia|].
    destruct (maxParams <=? 0) eqn:E; lia.
  - intros A data body s Hlen Hbody. unfold forChunks.
    apply chunkLoop_terminates; try done;
      [unfold maxInt in *; lia|unfold len; lia].
Qed.

Lemma chunk_size_positive_and_loop_terminates_witness :
  1 ≤ 901 ∧ 900 ≤ maxInt
  ∧ ∃ chunkSize,
      calculateChunkSize 901 900 = Ok chunkSize
      ∧ 1 ≤ chunkSize
      ∧ ((if 900 <=? 0 then 900 else 900) < 901 → chunkSize = 1)
      ∧ ∀ (A : Type) (data : list A) (body : Z → Z → list A → M unit) s,
          len data ≤ maxInt →
          (∀ i e chunk s', (body i e chunk s').1 ≠ OutOfFuel) →
          (forChunks data chunkSize body s).1 ≠ OutOfFuel.
Proof.
  split; [lia|]. split; [by vm_compute|].
  apply (chunk_size_positive_and_loop_terminates 901 900); [lia|by vm_compute].
Defined.


Section Transaction.
Context (w : World).

(** The transaction around the steps: the log and the outcome. *)
Lemma bulkInsertUniversalMessages_run messages startMessageID jsonDir
    contactID simplexFilesDir s :
  let tx := {| st_db := st_db s; st_log := st_log s ++ [EvBegin] |} in
  let steps :=
    batchSteps w messages startMessageID jsonDir contactID simplexFilesDir tx in
  let out :=
    bulkInsertUniversalMessages w messages startMessageID jsonDir contactID
      simplexFilesDir s in
  (w_beginError w (st_db s) = None
   ∧ steps.1 = Ok tt ∧ w_commitError w (st_db steps.2) = None
   ∧ out = (Ok tt, {| st_db := st_db steps.2;
                      st_log := st_log steps.2 ++ [EvCommit] |}))
  ∨ (w_beginError w (st_db s) = None
     ∧ (steps.1 ≠ Ok tt ∨ w_commitError w (st_db steps.2) ≠ None)
     ∧ out.1 ≠ Ok tt ∧ st_db out.2 = st_db s
     ∧ (st_log out.2 = st_log steps.2 ++ [EvRollback]
        ∨ st_log out.2 = st_log steps.2 ++ [EvCommit; EvRollback]))
  ∨ (w_beginError w (st_db s) ≠ None
     ∧ out.1 ≠ Ok tt ∧ out.2 = tx).
Proof.
  intros tx steps out. subst out. unfold bulkInsertUniversalMessages.
  fold tx. destruct (w_beginError w (st_db s)) as [e|] eqn:Hb.
  { right. right. by split_and!. }
  fold steps. destruct steps as [[[]| | |] tx']; cbn [fst snd].
  - destruct (w_commitError w (st_db tx')) as [e|] eqn:Hc.
    + right. left. split_and!; [done|by right|done|done|by right].
    + left. by split_and!.
  - right. left. split_and!; [done|by left|done|done|by left].
  - right. left. split_and!; [done|by left|done|done|by left].
  - right. left. split_and!; [done|by left|done|done|by left].
Qed.

Lemma batchSteps_ok_iff messages startMessageID jsonDir contactID
    simplexFilesDir tx tx' :
  batchSteps w messages startMessageID jsonDir contactID simplexFilesDir tx
  = (Ok tt, tx') ↔
  ∃ maxChatItemID s0 s1 s2 s3 s4,
    let bulkData := prepareBulkData messages startMessageID maxChatItemID in
    queryMaxOrZero "chat_items" "chat_item_id" tx = (Ok maxChatItemID, s0)
    ∧ bulkInsertMessages w bulkData jsonDir contactID s0 = (Ok tt, s1)
    ∧ bulkInsertChatItems w bulkData jsonDir contactID simplexFilesDir s1
      = (Ok tt, s2)
    ∧ bulkInsertChatItemMessages w bulkData s2 = (Ok tt, s3)
    ∧ bulkInsertMsgDeliveries w bulkData s3 = (Ok tt, s4)
    ∧ bulkInsertReactions w bulkData contactID s4 = (Ok tt, tx').
Proof.
  unfold batchSteps. split.
  - intros H.
    apply bind_ok_inv in H as (maxChatItemID & s0 & H0%wrapErr_ok_inv & H).
    apply bind_ok_inv in H as ([] & s1 & H1%wrapErr_ok_inv & H).
    apply bind_ok_inv in H as ([] & s2 & H2%wrapErr_ok_inv & H).
    apply bind_ok_inv in H as ([] & s3 & H3%wrapErr_ok_inv & H).
    apply bind_ok_inv in H as ([] & s4 & H4%wrapErr_ok_inv & H).
    apply wrapErr_ok_inv in H. by exists maxChatItemID, s0, s1, s2, s3, s4.
  - intros (maxChatItemID & s0 & s1 & s2 & s3 & s4 & H0 & H1 & H2 & H3 & H4
            & H5). cbv zeta in *.
    rewrite bind_run. unfold wrapErr at 1. rewrite H0.
    rewrite bind_run. unfold wrapErr at 1. rewrite H1.
    rewrite bind_run. unfold wrapErr at 1. rewrite H2.
    rewrite bind_run. unfold wrapErr at 1. rewrite H3.
    rewrite bind_run. unfold wrapErr at 1. rewrite H4.
    unfold wrapErr. by rewrite H5.
Qed.

End Transaction.

(** ** The order of the tables *)

(** C8, as the specification states it, fails: the file rows of an
    attachment are written while the chat items are being built, before the
    chat-item rows of their chunk and long before the delivery rows. *)
Lemma file_rows_precede_chat_item_rows :
  populated (st_log exampleRun.2)
  = [ "messages"; "files"; "snd_files"; "files"; "rcv_files"; "chat_items";
      "chat_item_messages"; "msg_deliveries"; "chat_item_reactions" ]%string
  ∧ ¬ StronglySorted (λ t1 t2, (specStepOf t1 ≤ specStepOf t2)%nat)
        (populated (st_log exampleRun.2)).
Proof.
  assert (populated (st_log exampleRun.2)
          = [ "messages"; "files"; "snd_files"; "files"; "rcv_files";
              "chat_items"; "chat_item_messages"; "msg_deliveries";
              "chat_item_reactions" ]%string) as Hpop by (by vm_compute).
  split; [done|]. rewrite Hpop. intros Hsorted.
  apply StronglySorted_cons in Hsorted as [_ Hsorted].
  apply StronglySorted_cons in Hsorted as [Hfiles _].
  rewrite Forall_forall in Hfiles.
  specialize (Hfiles "chat_items"%string ltac:(list_mem)).
  vm_compute in Hfiles. lia.
Qed.

(** C8, amended. For every batch, between the begin and the end of the
    transaction the tables are populated in the order: message rows; then
    chat-item rows, among which the file rows ([files], [snd_files],
    [rcv_files]) of their attachments are written; then link
    ([chat_item_messages]) rows; then delivery rows; then reaction rows.
    The commit comes after all of them, and only when the steps returned
    without error; otherwise the transaction ends with a rollback, or was
    never begun and nothing was written. *)
Theorem tables_populated_in_step_order (w : World)
    (messages : list UniversalMessage) (startMessageID : Z) (jsonDir : string)
    (contactID : Z) (simplexFilesDir : string) (s : dbstate) :
  let out :=
    bulkInsertUniversalMessages w messages startMessageID jsonDir contactID
      simplexFilesDir s in
  ∃ evs closing,
    st_log out.2 = st_log s ++ EvBegin :: evs ++ closing
    ∧ Forall (λ e, e ∉ [EvBegin; EvCommit; EvRollback]) evs
    ∧ StronglySorted (λ t1 t2, (stepOf t1 ≤ stepOf t2)%nat) (populated evs)
    ∧ (out.1 = Ok tt ∧ closing = [EvCommit]
       ∨ out.1 ≠ Ok tt
         ∧ (closing = [EvRollback] ∨ closing = [EvCommit; EvRollback]
            ∨ evs = [] ∧ closing = [])).
Proof.
  intros out.
  pose proof (bulkInsertUniversalMessages_run w messages startMessageID jsonDir
                contactID simplexFilesDir s) as Hrun.
  cbv zeta in Hrun. fold out in Hrun.
  destruct (batchSteps_inSteps w messages startMessageID jsonDir contactID
              simplexFilesDir
              {| st_db := st_db s; st_log := st_log s ++ [EvBegin] |})
    as (evs & Hlog & Hctl & _ & Hsorted).
  cbn [st_log] in Hlog. rewrite <- app_assoc in Hlog. cbn [app] in Hlog.
  destruct Hrun
    as [(_ & _ & _ & Hout)|[(_ & _ & Hne & _ & [Hl|Hl])|(_ & Hne & Hout)]].
  - exists evs, [EvCommit]. rewrite Hout. cbn [fst snd st_log].
    rewrite Hlog. split_and!; [|done|done|by left].
    by rewrite <- !app_assoc.
  - exists evs, [EvRollback]. rewrite Hl, Hlog.
    split_and!; [|done|done|right; by auto]. by rewrite <- !app_assoc.
  - exists evs, [EvCommit; EvRollback]. rewrite Hl, Hlog.
    split_and!; [|done|done|right; by auto]. by rewrite <- !app_assoc.
  - exists [], []. rewrite Hout. cbn [st_log].
    split_and!; [done|constructor|constructor|right; by auto].
Qed.


(** ** The claims about quotes *)

Lemma messageParams_quote w jsonDir msg q :
  m_QuotedMessage msg = Some q →
  messageParams w jsonDir msg !! "quote"%string = Some (quoteJSON w q).
Proof.
  intros Hq. unfold messageParams.
  destruct (messageContent w jsonDir msg) as [content fileInfo].
  rewrite Hq. apply lookup_insert_eq.
Qed.

Lemma ruleValue_override overrideFields templateRow col v :
  overrideFields !! col = Some v →
  ruleValue overrideFields templateRow col = v.
Proof. unfold ruleValue. by intros ->. Qed.

(** C9. For every message with a resolved quoted message, the [sent] flag
    of the quote's [msgRef] in the document serialized into [msg_body] is
    [false] whoever sent the quoted message, while the [quoted_sent] column
    of the chat-item row is 1 exactly when the quoted message was sent by
    the importing user (its author's name is the user's name): for a quote
    of the user's own message the two disagree. *)
Theorem quote_direction_differs_between_tables (w : World) (jsonDir : string)
    (contactID : Z) (columns : list string)
    (templateRow : option (gmap string value)) (msgData : MessageInsertData)
    (q : QuotedMessage) :
  m_QuotedMessage (Message msgData) = Some q →
  jpath ["params"; "quote"; "msgRef"; "sent"]%string
    (msgBodyJSON w jsonDir (Message msgData))
  = Some (JBool false)
  ∧ (∀ row k,
       messagesRow w jsonDir columns templateRow msgData = Ok row →
       columns !! k = Some "msg_body"%string →
       ∃ bytes,
         w_jsonMarshal w (msgBodyJSON w jsonDir (Message msgData)) = inr bytes
         ∧ row !! k = Some (VBlob bytes))
  ∧ (∀ row k,
       chatItemsRowValues w jsonDir contactID columns templateRow msgData
       = Ok row →
       columns !! k = Some "quoted_sent"%string →
       row !! k = Some (VInt (if q_IsSent q then 1 else 0)))
  ∧ (∀ discordMsg myUsername discordToSharedMsgID discordMessages,
       (resolveReply w discordMsg myUsername discordToSharedMsgID
          discordMessages).2 = Some q →
       ∃ reference quotedDiscordMsg,
         d_Reference discordMsg = Some reference
         ∧ discordMessages !! dr_MessageID reference = Some quotedDiscordMsg
         ∧ q_IsSent q
           = bool_decide (da_Name (d_Author quotedDiscordMsg) = myUsername)).
Proof.
  intros Hq. split_and!.
  - unfold jpath, msgBodyJSON. cbn [foldl mbind option_bind jfield].
    rewrite lookup_insert_ne, lookup_insert_ne, lookup_insert_ne by done.
    rewrite lookup_singleton_eq. cbn [mbind option_bind jfield].
    rewrite (messageParams_quote _ _ _ _ Hq). unfold quoteJSON.
    cbn [mbind option_bind jfield].
    rewrite lookup_insert_ne, lookup_singleton_eq by done.
    cbn [mbind option_bind jfield].
    rewrite lookup_insert_ne, lookup_insert_eq by done. done.
  - intros row k Hrow Hk. unfold messagesRow in Hrow.
    destruct (w_jsonMarshal w _) as [e|bytes]; [done|].
    assert (row = buildRowValues (messagesOverrides w msgData bytes)
                    templateRow columns) as -> by congruence.
    exists bytes. split; [done|].
    destruct (buildRowValues_followsRule (messagesOverrides w msgData bytes)
                templateRow columns) as [_ Hrule].
    rewrite (Hrule _ _ Hk).
    rewrite (ruleValue_override _ _ _ (VBlob bytes)); [done|].
    unfold messagesOverrides. cbv zeta.
    destruct (_ =? 1); (rewrite lookup_insert_ne by done);
      cbn [list_to_map foldr uncurry fst snd];
      rewrite lookup_insert_ne, lookup_insert_ne, lookup_insert_ne by done;
      apply lookup_insert_eq.
  - intros row k Hrow Hk. unfold chatItemsRowValues in Hrow.
    destruct (w_jsonMarshal w (itemContentJSON _ _ _)) as [|bytes]; [done|].
    rewrite Hq in Hrow.
    destruct (w_jsonMarshal w (quotedContentJSON q)) as [|qbytes]; [done|].
    assert (row = buildRowValues
                    (chatItemsOverrides w msgData contactID bytes
                       (Some (q, qbytes))) templateRow columns) as ->
      by congruence.
    destruct (buildRowValues_followsRule
                (chatItemsOverrides w msgData contactID bytes
                   (Some (q, qbytes))) templateRow columns) as [_ Hrule].
    rewrite (Hrule _ _ Hk).
    rewrite (ruleValue_override _ _ _ (VInt (if q_IsSent q then 1 else 0)));
      [done|].
    unfold chatItemsOverrides, quoteOverrides. cbv zeta.
    apply lookup_insert_eq.
  - intros discordMsg myUsername m1 m2. unfold resolveReply.
    destruct (d_Reference discordMsg) as [reference|]; [|done].
    destruct (m1 !! dr_MessageID reference) as [sharedMsgID|]; [|done].
    destruct (m2 !! dr_MessageID reference) as [quoted|] eqn:E; [|done].
    cbn [snd]. intros [= <-]. by exists reference, quoted.
Qed.

Lemma quote_direction_differs_between_tables_witness :
  let q := {| q_SharedMsgID := "1"; q_SentAt := 0; q_Content := "hello";
              q_IsSent := true |} in
  let columns := ["chat_item_id"; "quoted_sent"; "msg_body"]%string in
  m_QuotedMessage (Message exampleReply) = Some q
  ∧ jpath ["params"; "quote"; "msgRef"; "sent"]%string
      (msgBodyJSON exampleWorld "export" (Message exampleReply))
    = Some (JBool false)
  ∧ (∀ row k,
       chatItemsRowValues exampleWorld "export" 5 columns (Some ∅) exampleReply
       = Ok row →
       columns !! k = Some "quoted_sent"%string →
       row !! k = Some (VInt (if q_IsSent q then 1 else 0))).
Proof.
  intros q columns.
  assert (m_QuotedMessage (Message exampleReply) = Some q) as Hq
    by reflexivity.
  split; [exact Hq|].
  destruct (quote_direction_differs_between_tables exampleWorld "export" 5
              columns (Some ∅) exampleReply q Hq) as (Hsent & _ & Hcol & _).
  split; [exact Hsent|exact Hcol].
Defined.


(** ** The claims about reply resolution *)

Lemma buildMappings_snoc messages discordMsg :
  buildMappings (messages ++ [discordMsg])
  = (<[d_ID discordMsg := d_ID discordMsg]> (buildMappings messages).1,
     <[d_ID discordMsg := discordMsg]> (buildMappings messages).2).
Proof. unfold buildMappings. by rewrite foldl_app. Qed.

Lemma buildMappings_ids_inv messages id v :
  (buildMappings messages).1 !! id = Some v →
  v = id ∧ ∃ N, N ∈ messages ∧ d_ID N = id.
Proof.
  induction messages as [|M messages IH] using rev_ind; [done|].
  rewrite buildMappings_snoc. cbn [fst]. rewrite lookup_insert.
  case_decide as Hid.
  - intros [= <-]. split; [done|]. exists M. split; [|done].
    apply elem_of_app. right. list_mem.
  - intros (-> & N & HN & HidN)%IH. split; [done|]. exists N.
    split; [|done]. apply elem_of_app. by left.
Qed.

Lemma buildMappings_ids messages N :
  N ∈ messages → (buildMappings messages).1 !! d_ID N = Some (d_ID N).
Proof.
  induction messages as [|M messages IH] using rev_ind;
    [by intros ?%elem_of_nil|].
  rewrite buildMappings_snoc. cbn [fst]. rewrite lookup_insert.
  intros [HN|HN%list_elem_of_singleton]%elem_of_app.
  - case_decide as Hid; [by rewrite Hid|by apply IH].
  - subst N. by rewrite decide_True.
Qed.

Lemma buildMappings_messages_inv messages id N :
  (buildMappings messages).2 !! id = Some N → N ∈ messages ∧ d_ID N = id.
Proof.
  induction messages as [|M messages IH] using rev_ind; [done|].
  rewrite buildMappings_snoc. cbn [snd]. rewrite lookup_insert.
  case_decide as Hid.
  - intros [= <-]. split; [|done]. apply elem_of_app. right. list_mem.
  - intros [HN HidN]%IH. split; [|done]. apply elem_of_app. by left.
Qed.

Lemma buildMappings_messages messages N :
  N ∈ messages → is_Some ((buildMappings messages).2 !! d_ID N).
Proof.
  induction messages as [|M messages IH] using rev_ind;
    [by intros ?%elem_of_nil|].
  rewrite buildMappings_snoc. cbn [snd]. rewrite lookup_insert.
  intros [HN|HN%list_elem_of_singleton]%elem_of_app.
  - case_decide; [by eexists|by apply IH].
  - subst N. rewrite decide_True by done. by eexists.
Qed.

Lemma ConvertDiscordMessage_reply w discordMsg myUsername discordToSharedMsgID
    discordMessages jsonDir u :
  ConvertDiscordMessage w discordMsg myUsername discordToSharedMsgID
    discordMessages jsonDir = Ok u →
  (m_ReplyToID u, m_QuotedMessage u)
  = resolveReply w discordMsg myUsername discordToSharedMsgID discordMessages.
Proof.
  unfold ConvertDiscordMessage.
  destruct (convertAttachments _ _ _ _) as [[attachments messageType]| | |];
    try done.
  destruct (convertReactions _ _ _) as [reactions| | |]; try done.
  destruct (resolveReply _ _ _ _ _) as [replyToID quotedMessage].
  by intros [= <-].
Qed.

Lemma convertMessages_lookup w myUsername discordToSharedMsgID discordMessages
    jsonDir :
  ∀ todo us k M u,
    convertMessages w todo myUsername discordToSharedMsgID discordMessages
      jsonDir = Ok us →
    todo !! k = Some M → us !! k = Some u →
    ConvertDiscordMessage w M myUsername discordToSharedMsgID discordMessages
      jsonDir = Ok u.
Proof.
  induction todo as [|M' todo IH]; intros us k M u Hus HM Hu; [done|].
  cbn [convertMessages] in Hus.
  destruct (ConvertDiscordMessage w M' _ _ _ _) as [u'| | |] eqn:E; try done.
  destruct (convertMessages w todo _ _ _ _) as [us'| | |] eqn:E'; try done.
  injection Hus as <-. destruct k as [|k]; cbn in HM, Hu.
  - by simplify_eq.
  - by eapply IH.
Qed.

(** C4, as the specification states it, fails: the maps that resolve a
    reply are filled from the whole export before any message is
    converted, so a reply to a message later in the stream resolves. *)
Lemma reply_to_later_message_resolves :
  d_ID <$> exampleExport = ["1"; "2"]%string
  ∧ (dr_MessageID <$> (exampleExport !! 0%nat ≫= d_Reference))
    = Some "2"%string
  ∧ ∃ us u q,
      convertExport exampleWorld exampleExport "me" "export" = Ok us
      ∧ us !! 0%nat = Some u
      ∧ m_QuotedMessage u = Some q
      ∧ q_SharedMsgID q = "2"%string.
Proof.
  split; [done|]. split; [done|].
  eexists _, _, _. split_and!; by vm_compute.
Qed.

(** C4, amended. For every message M of the export whose reply reference
    names the identifier of a message N, the reference resolves to a quote
    exactly when a message with that identifier appears anywhere in the
    export, before or after M; the quote then carries that identifier as
    its shared message id and the content of a message of the export with
    that identifier.  When no message of the export has the identifier,
    there is no quote and the original identifier is kept as the reply
    reference. *)
Theorem reply_resolves_against_whole_export (w : World)
    (messages : list DiscordMessage) (myUsername jsonDir : string)
    (us : list UniversalMessage) (k : nat) (M : DiscordMessage)
    (u : UniversalMessage) (reference : DiscordReference) :
  convertExport w messages myUsername jsonDir = Ok us →
  messages !! k = Some M → us !! k = Some u →
  d_Reference M = Some reference →
  (is_Some (m_QuotedMessage u)
   ↔ ∃ N, N ∈ messages ∧ d_ID N = dr_MessageID reference)
  ∧ (∀ q, m_QuotedMessage u = Some q →
          q_SharedMsgID q = dr_MessageID reference
          ∧ ∃ N, N ∈ messages ∧ d_ID N = dr_MessageID reference
                 ∧ q_Content q = d_Content N)
  ∧ (m_QuotedMessage u = None → m_ReplyToID u = Some (dr_MessageID reference)).
Proof.
  intros Hus HM Hu Href. unfold convertExport in Hus. cbv zeta in Hus.
  pose proof (convertMessages_lookup _ _ _ _ _ _ _ _ _ _ Hus HM Hu) as Hconv.
  apply ConvertDiscordMessage_reply in Hconv.
  unfold resolveReply in Hconv. rewrite Href in Hconv.
  destruct ((buildMappings messages).1 !! dr_MessageID reference)
    as [sharedMsgID|] eqn:E1.
  - apply buildMappings_ids_inv in E1 as (-> & N & HN & HidN).
    destruct (buildMappings_messages messages N HN) as [N' E2].
    rewrite HidN in E2. rewrite E2 in Hconv.
    injection Hconv as Hreply Hquote. rewrite Hquote.
    apply buildMappings_messages_inv in E2 as [HN' HidN'].
    split_and!.
    + split; [by exists N|by eexists].
    + intros q [= <-]. split; [done|]. by exists N'.
    + done.
  - injection Hconv as Hreply Hquote. rewrite Hquote. split_and!.
    + split; [by intros []|]. intros (N & HN & HidN).
      by rewrite <- HidN, buildMappings_ids in E1.
    + done.
    + done.
Qed.

Lemma reply_resolves_against_whole_export_witness :
  ∃ us M u reference,
    convertExport exampleWorld exampleExport "me" "export" = Ok us
    ∧ exampleExport !! 0%nat = Some M
    ∧ us !! 0%nat = Some u
    ∧ d_Reference M = Some reference
    ∧ (is_Some (m_QuotedMessage u)
       ↔ ∃ N, N ∈ exampleExport ∧ d_ID N = dr_MessageID reference).
Proof.
  assert (convertExport exampleWorld exampleExport "me" "export"
          = Ok exampleBatch) as Hus by (vm_compute; reflexivity).
  assert (exampleExport !! 0%nat
          = Some (exampleMessage "1" "me" (Some "2"%string)
                    [exampleAttachment "a.png"]
                    [RObj {[ "emoji" := RObj {[ "name" := RStr "+" ]};
                             "count" := RNum 1 ]}])) as HM by reflexivity.
  assert (is_Some (exampleBatch !! 0%nat)) as [u Hu]
    by (vm_compute; eexists; reflexivity).
  eexists exampleBatch, _, u, _.
  split; [exact Hus|]. split; [exact HM|]. split; [exact Hu|].
  split; [reflexivity|].
  exact (proj1 (reply_resolves_against_whole_export exampleWorld exampleExport
                  "me" "export" exampleBatch 0 _ u _ Hus HM Hu eq_refl)).
Defined.


(** C6 does not hold of the code: the delivery rows take the message key
    as their row identifier, whatever the delivery table already holds.
    Here the table holds the delivery 10 and the run assigns 1 and 2. *)
Lemma delivery_id_not_above_existing_maximum :
  exampleRun.1 = Ok tt
  ∧ (colMax "msg_delivery_id" <$> (t_rows <$> exampleDb !! "msg_deliveries"%string))
    = Some (Some 10)
  ∧ concat (insertedInto "msg_deliveries" (st_log exampleRun.2))
    = [[VInt 1; VInt 1; VInt 8]; [VInt 2; VInt 2; VInt 9]]
  ∧ ((λ t, (λ r, r !! "msg_delivery_id"%string) <$> t_rows t)
       <$> st_db exampleRun.2 !! "msg_deliveries"%string)
    = Some [Some (VInt 10); Some (VInt 1); Some (VInt 2)]
  ∧ ∀ w msgData maxAgentMsgID i j,
      msgDeliveriesOverrides w msgData maxAgentMsgID i j
        !! "msg_delivery_id"%string
      = Some (VInt (MessageID msgData)).
Proof.
  split_and!; [by vm_compute..|].
  intros w msgData maxAgentMsgID i j. unfold msgDeliveriesOverrides.
  cbv zeta. cbn [list_to_map foldr uncurry fst snd]. apply lookup_insert_eq.
Qed.


(** ** Failures of serialization *)

Lemma prepareMessages_elem messages startMessageID maxChatItemID msg :
  msg ∈ messages →
  ∀ i, ∃ msgData,
    msgData ∈ prepareMessages messages startMessageID maxChatItemID i
    ∧ Message msgData = msg.
Proof.
  induction messages as [|m messages IH]; intros Hmsg i;
    [by apply elem_of_nil in Hmsg|].
  cbn [prepareMessages]. apply elem_of_cons in Hmsg as [->|Hmsg].
  - eexists. split; [apply list_elem_of_here|done].
  - destruct (IH Hmsg (i + 1)) as (msgData & Hin & HM).
    exists msgData. split; [by apply list_elem_of_further|done].
Qed.

Section Failures.
Context (w : World).

Lemma messagesRow_ok_marshal jsonDir columns templateRow msgData row :
  messagesRow w jsonDir columns templateRow msgData = Ok row →
  ∃ bytes,
    w_jsonMarshal w (msgBodyJSON w jsonDir (Message msgData)) = inr bytes.
Proof.
  unfold messagesRow. destruct (w_jsonMarshal w _) as [|bytes]; [done|].
  by exists bytes.
Qed.

Lemma chatItemsRowValues_ok_marshal jsonDir contactID columns templateRow
    msgData row :
  chatItemsRowValues w jsonDir contactID columns templateRow msgData = Ok row →
  (∃ bytes,
     w_jsonMarshal w (itemContentJSON w jsonDir (Message msgData)) = inr bytes)
  ∧ ∀ q, m_QuotedMessage (Message msgData) = Some q →
         ∃ bytes, w_jsonMarshal w (quotedContentJSON q) = inr bytes.
Proof.
  unfold chatItemsRowValues.
  destruct (w_jsonMarshal w (itemContentJSON _ _ _)) as [|bytes]; [done|].
  intros Hrow. split; [by exists bytes|]. intros q Hq. rewrite Hq in Hrow.
  destruct (w_jsonMarshal w (quotedContentJSON q)) as [|qbytes]; [done|].
  by exists qbytes.
Qed.

Lemma chatItemsRow_ok jsonDir contactID simplexFilesDir columns templateRow
    msgData s row s' :
  chatItemsRow w jsonDir contactID simplexFilesDir columns templateRow msgData s
  = (Ok row, s') →
  chatItemsRowValues w jsonDir contactID columns templateRow msgData = Ok row.
Proof.
  unfold chatItemsRow. intros (_ & s1 & _ & Hrow)%bind_ok_inv.
  by apply liftR_ok_inv in Hrow as [-> _].
Qed.

Lemma chatItemsRow_err jsonDir contactID simplexFilesDir columns templateRow
    msgData s e :
  (chatItemsRow w jsonDir contactID simplexFilesDir columns templateRow
     msgData s).1 = Err e →
  chatItemsRowValues w jsonDir contactID columns templateRow msgData = Err e.
Proof.
  unfold chatItemsRow. rewrite bind_run.
  destruct (m_Attachments (Message msgData)) as [|attachment ?]; [done|].
  rewrite bind_run. unfold attempt.
  by destruct (insertFileAttachment w _ _ _ _ _ _ _ s) as [[| | |] s1].
Qed.

Lemma bulkInsertMessages_ok_marshal data jsonDir contactID s s' msgData :
  bulkInsertMessages w data jsonDir contactID s = (Ok tt, s') →
  msgData ∈ Messages data →
  ∃ bytes,
    w_jsonMarshal w (msgBodyJSON w jsonDir (Message msgData)) = inr bytes.
Proof.
  unfold bulkInsertMessages. intros Hrun Hin.
  apply bind_ok_inv in Hrun as (templateRow & s1 & _ & Hrun).
  apply bind_ok_inv in Hrun as (columns & s2 & _ & Hrun).
  apply bind_ok_inv in Hrun as (chunkSize & s3 & _ & Hrun).
  destruct (forChunks_ok_all _ _ _ _ _ Hrun msgData Hin)
    as (i & e & chunk & s4 & s5 & Hchunk & Hbody).
  apply bind_ok_inv in Hbody as (rows & s6 & Hrows & _).
  destruct (forRows_ok_all _ _ _ _ _ _ Hrows msgData Hchunk)
    as (j & s7 & row & s8 & Hrow).
  apply liftR_ok_inv in Hrow as [Hrow _].
  by eapply messagesRow_ok_marshal.
Qed.

Lemma bulkInsertChatItems_ok_marshal data jsonDir contactID simplexFilesDir
    s s' msgData :
  bulkInsertChatItems w data jsonDir contactID simplexFilesDir s = (Ok tt, s') →
  msgData ∈ Messages data →
  (∃ bytes,
     w_jsonMarshal w (itemContentJSON w jsonDir (Message msgData)) = inr bytes)
  ∧ ∀ q, m_QuotedMessage (Message msgData) = Some q →
         ∃ bytes, w_jsonMarshal w (quotedContentJSON q) = inr bytes.
Proof.
  unfold bulkInsertChatItems. intros Hrun Hin.
  apply bind_ok_inv in Hrun as (templateRow & s1 & _ & Hrun).
  apply bind_ok_inv in Hrun as (columns & s2 & _ & Hrun).
  apply bind_ok_inv in Hrun as (chunkSize & s3 & _ & Hrun).
  destruct (forChunks_ok_all _ _ _ _ _ Hrun msgData Hin)
    as (i & e & chunk & s4 & s5 & Hchunk & Hbody).
  apply bind_ok_inv in Hbody as (rows & s6 & Hrows & _).
  destruct (forRows_ok_all _ _ _ _ _ _ Hrows msgData Hchunk)
    as (j & s7 & row & s8 & Hrow).
  apply chatItemsRow_ok in Hrow. by eapply chatItemsRowValues_ok_marshal.
Qed.

End Failures.


(** ** An error of the file step *)

Lemma bind_err_inv {A B} (m : M A) (f : A → M B) s e s' :
  (m ≫= f) s = (Err e, s') →
  m s = (Err e, s') ∨ ∃ a s1, m s = (Ok a, s1) ∧ f a s1 = (Err e, s').
Proof.
  rewrite bind_run. destruct (m s) as [[a| | |] s1]; intros H;
    [right; by exists a, s1|injection H as <- <-; by left|done|done].
Qed.

Lemma wrapErr_err_inv {A} prefix (m : M A) s e s' :
  wrapErr prefix m s = (Err e, s') →
  ∃ e', m s = (Err e', s') ∧ e = errorf prefix e'.
Proof.
  unfold wrapErr. destruct (m s) as [[a|e'| |] s1]; intros H; try done.
  injection H as <- <-. by exists e'.
Qed.

Lemma preservesDb_timeNow w k : preservesDb (timeNow w k).
Proof. by intros s. Qed.

Lemma preservesDb_queryNextID tbl col : preservesDb (queryNextID tbl col).
Proof. intros s. apply queryNextID_run. Qed.

(** A refused insert statement leaves the rows as they were; an accepted
    one appends its rows to the table. *)
Lemma execInsert_err w tbl columns rows s e s' :
  execInsert w tbl columns rows s = (Err e, s') → st_db s' = st_db s.
Proof.
  unfold execInsert. rewrite bind_run. cbn [logEv]. rewrite bind_run.
  cbn [getDb st_db].
  destruct (w_execError w (st_db s) tbl columns rows) as [e0|].
  { by intros [= _ <-]. }
  destruct (st_db s !! tbl) as [t|]; [done|]. by intros [= _ <-].
Qed.

Lemma execInsert_ok w tbl columns rows s s' :
  execInsert w tbl columns rows s = (Ok tt, s') →
  ∃ t, st_db s !! tbl = Some t
       ∧ st_db s' = <[tbl := insertRows t columns rows]> (st_db s).
Proof.
  unfold execInsert. rewrite bind_run. cbn [logEv]. rewrite bind_run.
  cbn [getDb st_db].
  destruct (w_execError w (st_db s) tbl columns rows) as [e0|]; [done|].
  destruct (st_db s !! tbl) as [t|]; [|done]. intros [= <-]. by exists t.
Qed.

Section FileStep.
Context (w : World).

Lemma insertSndFile_err fileID s e s' :
  insertSndFile w fileID s = (Err e, s') → st_db s' = st_db s.
Proof.
  unfold insertSndFile. intros H.
  apply bind_err_inv in H as [H|(T & s1 & H1 & H)].
  { by apply (run_db _ _ _ _ (preservesDb_getTemplateRow _ _ _)) in H. }
  apply (run_db _ _ _ _ (preservesDb_getTemplateRow _ _ _)) in H1.
  apply bind_err_inv in H as [H|(columns & s2 & H2 & H)].
  { apply (run_db _ _ _ _ (preservesDb_getTableColumns _)) in H. congruence. }
  apply (run_db _ _ _ _ (preservesDb_getTableColumns _)) in H2.
  apply bind_err_inv in H as [H|(nextDeliveryID & s3 & H3 & H)].
  { apply (run_db _ _ _ _
             (preservesDb_wrapErr _ _ (preservesDb_queryNextID _ _))) in H.
    congruence. }
  apply (run_db _ _ _ _
           (preservesDb_wrapErr _ _ (preservesDb_queryNextID _ _))) in H3.
  apply bind_err_inv in H as [H|(createdAt & s4 & [_ ->]%timeNow_ok_inv & H)];
    [done|].
  apply bind_err_inv in H as [H|(updatedAt & s5 & [_ ->]%timeNow_ok_inv & H)];
    [done|].
  apply bind_err_inv in H as [H|([] & s6 & [_ ->]%liftR_ok_inv & H)].
  { unfold liftR in H. injection H as _ <-. congruence. }
  apply execInsert_err in H. congruence.
Qed.

Lemma insertRcvFile_err fileID s e s' :
  insertRcvFile w fileID s = (Err e, s') → st_db s' = st_db s.
Proof.
  unfold insertRcvFile. intros H.
  apply bind_err_inv in H as [H|(T & s1 & H1 & H)].
  { by apply (run_db _ _ _ _ (preservesDb_getTemplateRow _ _ _)) in H. }
  apply (run_db _ _ _ _ (preservesDb_getTemplateRow _ _ _)) in H1.
  apply bind_err_inv in H as [H|(columns & s2 & H2 & H)].
  { apply (run_db _ _ _ _ (preservesDb_getTableColumns _)) in H. congruence. }
  apply (run_db _ _ _ _ (preservesDb_getTableColumns _)) in H2.
  apply bind_err_inv in H as [H|(createdAt & s4 & [_ ->]%timeNow_ok_inv & H)];
    [done|].
  apply bind_err_inv in H as [H|(updatedAt & s5 & [_ ->]%timeNow_ok_inv & H)];
    [done|].
  apply bind_err_inv in H as [H|([] & s6 & [_ ->]%liftR_ok_inv & H)].
  { unfold liftR in H. injection H as _ <-. congruence. }
  apply execInsert_err in H. congruence.
Qed.

(** When [insertFileAttachment] returns an error, either nothing was
    written, or the row of [files] was written and the insertion of its
    transfer record is what failed. *)
Lemma insertFileAttachment_err attachment chatItemID isSent jsonDir
    messageType contactID simplexFilesDir s e s' :
  insertFileAttachment w attachment chatItemID isSent jsonDir messageType
    contactID simplexFilesDir s = (Err e, s') →
  st_db s' = st_db s
  ∨ (messageType ≠ "video"%string
     ∧ (∃ e', e = errorf "failed to insert file transfer record" e')
     ∧ ∃ t templateRow row,
         st_db s !! "files"%string = Some t
         ∧ (getTemplateRow w "files" "file_id" s).1 = Ok templateRow
         ∧ ruleRowWith w "files" (t_columns t) templateRow row
         ∧ st_db s'
           = <["files"%string := insertRows t (t_columns t) [row]]> (st_db s)).
Proof.
  unfold insertFileAttachment. intros H.
  destruct (negb (w_fileExists w _)); [left; by injection H as _ <-|].
  apply bind_err_inv in H as [H|(T & s1 & H1 & H)].
  { left. by apply (run_db _ _ _ _
                      (preservesDb_wrapErr _ _
                         (preservesDb_getTemplateRow _ _ _))) in H. }
  apply wrapErr_ok_inv in H1. pose proof H1 as HT.
  apply (run_db _ _ _ _ (preservesDb_getTemplateRow _ _ _)) in H1.
  apply bind_err_inv in H as [H|(nextFileID & s2 & H2 & H)].
  { left. apply (run_db _ _ _ _
                   (preservesDb_wrapErr _ _ (preservesDb_queryNextID _ _)))
      in H. congruence. }
  apply (run_db _ _ _ _
           (preservesDb_wrapErr _ _ (preservesDb_queryNextID _ _))) in H2.
  apply bind_err_inv in H as [H|(columns & s3 & H3 & H)].
  { left. apply (run_db _ _ _ _ (preservesDb_getTableColumns _)) in H.
    congruence. }
  rewrite getTableColumns_run in H3. injection H3 as <- <-.
  cbn [st_db] in H.
  apply bind_err_inv in H as [H|(name & s4 & [_ ->]%liftR_ok_inv & H)].
  { left. unfold liftR in H. injection H as _ <-. cbn. congruence. }
  apply bind_err_inv in H as [H|([] & s5 & H5 & H)].
  { left. apply wrapErr_err_inv in H as (e' & H & _). unfold liftR in H.
    injection H as _ <-. cbn. congruence. }
  apply wrapErr_ok_inv, liftR_ok_inv in H5 as [_ ->].
  apply bind_err_inv in H as [H|(createdAt & s6 & [_ ->]%timeNow_ok_inv & H)];
    [done|].
  apply bind_err_inv in H as [H|(updatedAt & s7 & [_ ->]%timeNow_ok_inv & H)];
    [done|].
  apply bind_err_inv in H as [H|([] & s8 & [_ ->]%liftR_ok_inv & H)].
  { left. unfold liftR in H. injection H as _ <-. cbn. congruence. }
  apply bind_err_inv in H as [H|([] & s9 & H9 & H)].
  { left. apply wrapErr_err_inv in H as (e' & H & _).
    apply execInsert_err in H. cbn in H. congruence. }
  apply wrapErr_ok_inv, execInsert_ok in H9 as (t & Ht & Hdb9).
  cbn [st_db] in Ht, Hdb9. rewrite H2, H1 in Ht.
  rewrite H2, H1, Ht in Hdb9. cbn [from_option] in Hdb9.
  apply bind_err_inv in H as [H|([] & s10 & _ & H)]; [|done].
  case_bool_decide as Hvideo; [|done]. right. split; [done|].
  apply wrapErr_err_inv in H as (e' & H & ->). split; [by exists e'|].
  eexists t, T, _. split; [done|]. split; [by rewrite HT|]. split.
  - eexists. split; [constructor|]. apply buildRowValues_followsRule.
  - assert (st_db s' = st_db s9) as ->; [|exact Hdb9].
    destruct isSent; [by eapply insertSndFile_err|by eapply insertRcvFile_err].
Qed.

(** The row of the chat item does not depend on the outcome of the file
    step: its error is dropped. *)
Lemma chatItemsRow_attachment jsonDir contactID simplexFilesDir columns
    templateRow msgData attachment rest s e s' :
  m_Attachments (Message msgData) = attachment :: rest →
  insertFileAttachment w attachment (ChatItemID msgData)
    (m_IsSent (Message msgData)) jsonDir (m_MessageType (Message msgData))
    contactID simplexFilesDir s = (Err e, s') →
  chatItemsRow w jsonDir contactID simplexFilesDir columns templateRow msgData s
  = (chatItemsRowValues w jsonDir contactID columns templateRow msgData, s').
Proof.
  intros Hatt Hfile. unfold chatItemsRow. rewrite Hatt.
  rewrite !bind_run. unfold attempt. by rewrite Hfile.
Qed.

End FileStep.

(** ** The claim about the transaction *)

(** C2, as the specification states it, fails for the file step: here the
    engine refuses the transfer record of the first attachment, so
    [insertFileAttachment] returns an error after the row of [files] was
    written; the error is dropped, the batch is committed, and the
    database holds the row of [files] without a row of [snd_files]. *)
Lemma file_row_committed_without_transfer_record :
  let out :=
    bulkInsertUniversalMessages exampleWorldNoTransfer exampleBatch 1 "export"
      5 "files" exampleStart in
  (insertFileAttachment exampleWorldNoTransfer exampleImage 1 true "export"
     "image" 5 "files" exampleStart).1
  = Err "failed to insert file transfer record: FOREIGN KEY constraint failed"
  ∧ out.1 = Ok tt
  ∧ last (st_log out.2) = Some EvCommit
  ∧ ((λ t, (λ r, r !! "file_id"%string) <$> t_rows t)
       <$> st_db out.2 !! "files"%string)
    = Some [Some (VInt 1); Some (VInt 2)]
  ∧ (t_rows <$> st_db out.2 !! "snd_files"%string) = Some []
  ∧ ((λ t, (λ r, r !! "file_id"%string) <$> t_rows t)
       <$> st_db out.2 !! "rcv_files"%string)
    = Some [Some (VInt 2)].
Proof. intros out. split_and!; by vm_compute. Qed.

(** C2, amended. Every statement of a batch is issued between the begin
    and the end of one transaction.  The batch returns without error
    exactly when the transaction could be begun, each of its five steps
    (message rows, chat-item rows, link rows, delivery rows, reaction rows)
    returned without error, one after the other, and the commit went
    through; only then is the database the one the steps produced.  In
    every other case (a transaction that could not be begun, an error or a
    panic returned by a step, a failed commit) the database is the one from
    before the batch.  An error of the insertion of a file attachment is
    not an error of the chat-item step: the step drops it and builds the
    row of the chat item all the same, so it does not roll the batch back;
    after such an error either nothing of the attachment was written, or
    the row of [files] was written and the insertion of its transfer
    record failed, and that row is committed with the batch. *)
Theorem batch_is_all_or_nothing (w : World) (messages : list UniversalMessage)
    (startMessageID : Z) (jsonDir : string) (contactID : Z)
    (simplexFilesDir : string) (s : dbstate) :
  let tx := {| st_db := st_db s; st_log := st_log s ++ [EvBegin] |} in
  let out :=
    bulkInsertUniversalMessages w messages startMessageID jsonDir contactID
      simplexFilesDir s in
  (out.1 = Ok tt ↔
   ∃ maxChatItemID s0 s1 s2 s3 s4 s5,
     let bulkData := prepareBulkData messages startMessageID maxChatItemID in
     w_beginError w (st_db s) = None
     ∧ queryMaxOrZero "chat_items" "chat_item_id" tx = (Ok maxChatItemID, s0)
     ∧ bulkInsertMessages w bulkData jsonDir contactID s0 = (Ok tt, s1)
     ∧ bulkInsertChatItems w bulkData jsonDir contactID simplexFilesDir s1
       = (Ok tt, s2)
     ∧ bulkInsertChatItemMessages w bulkData s2 = (Ok tt, s3)
     ∧ bulkInsertMsgDeliveries w bulkData s3 = (Ok tt, s4)
     ∧ bulkInsertReactions w bulkData contactID s4 = (Ok tt, s5)
     ∧ w_commitError w (st_db s5) = None
     ∧ st_db out.2 = st_db s5)
  ∧ (out.1 ≠ Ok tt → st_db out.2 = st_db s)
  ∧ (∃ evs closing,
       st_log out.2 = st_log s ++ EvBegin :: evs ++ closing
       ∧ Forall (λ e, e ∉ [EvBegin; EvCommit; EvRollback]) evs
       ∧ (out.1 = Ok tt ∧ closing = [EvCommit]
          ∨ out.1 ≠ Ok tt
            ∧ (closing = [EvRollback] ∨ closing = [EvCommit; EvRollback]
               ∨ evs = [] ∧ closing = [])))
  ∧ (∀ columns templateRow msgData attachment rest s0 e s0',
       m_Attachments (Message msgData) = attachment :: rest →
       insertFileAttachment w attachment (ChatItemID msgData)
         (m_IsSent (Message msgData)) jsonDir (m_MessageType (Message msgData))
         contactID simplexFilesDir s0 = (Err e, s0') →
       chatItemsRow w jsonDir contactID simplexFilesDir columns templateRow
         msgData s0
       = (chatItemsRowValues w jsonDir contactID columns templateRow msgData,
          s0')
       ∧ (st_db s0' = st_db s0
          ∨ (m_MessageType (Message msgData) ≠ "video"%string
             ∧ (∃ e', e = errorf "failed to insert file transfer record" e')
             ∧ ∃ t fileTemplate row,
                 st_db s0 !! "files"%string = Some t
                 ∧ (getTemplateRow w "files" "file_id" s0).1 = Ok fileTemplate
                 ∧ ruleRowWith w "files" (t_columns t) fileTemplate row
                 ∧ st_db s0'
                   = <["files"%string := insertRows t (t_columns t) [row]]>
                       (st_db s0)))).
Proof.
  intros tx out.
  pose proof (bulkInsertUniversalMessages_run w messages startMessageID jsonDir
                contactID simplexFilesDir s) as Hrun.
  cbv zeta in Hrun. fold tx out in Hrun.
  set (steps := batchSteps w messages startMessageID jsonDir contactID
                  simplexFilesDir tx) in *.
  pose proof (λ tx', batchSteps_ok_iff w messages startMessageID jsonDir
                       contactID simplexFilesDir tx tx') as Hsteps.
  fold steps in Hsteps.
  split; [split|split; [|split]].
  - intros Hok.
    destruct Hrun as [(Hb & Hs & Hc & Hout)|[(_ & _ & Hne & _)|(_ & Hne & _)]];
      [|done..].
    destruct steps as [r s5] eqn:Est. cbn [fst snd] in *. subst r.
    destruct (proj1 (Hsteps s5) eq_refl)
      as (maxChatItemID & s0 & s1 & s2 & s3 & s4 & H).
    exists maxChatItemID, s0, s1, s2, s3, s4, s5. cbv zeta in *.
    rewrite Hout. cbn [fst snd st_db].
    destruct H as (H0 & H1 & H2 & H3 & H4 & H5). by split_and!.
  - intros (maxChatItemID & s0 & s1 & s2 & s3 & s4 & s5 & Hb & H0 & H1 & H2
            & H3 & H4 & H5 & Hc & _). cbv zeta in *.
    assert (steps = (Ok tt, s5)) as Est
      by (apply Hsteps; by exists maxChatItemID, s0, s1, s2, s3, s4).
    rewrite Est in Hrun. cbn [fst snd] in Hrun.
    destruct Hrun as [(_ & _ & _ & ->)|[(_ & [|] & _)|(Hnb & _)]]; done.
  - intros Hne.
    destruct Hrun as [(_ & _ & _ & Hout)|[(_ & _ & _ & Hdb & _)|(_ & _ & Hout)]].
    + by rewrite Hout in Hne.
    + done.
    + by rewrite Hout.
  - destruct (batchSteps_inSteps w messages startMessageID jsonDir contactID
                simplexFilesDir tx) as (evs & Hlog & Hctl & _).
    fold steps in Hlog. subst tx. cbn [st_log] in Hlog.
    rewrite <- app_assoc in Hlog. cbn [app] in Hlog.
    destruct Hrun
      as [(_ & _ & _ & Hout)|[(_ & _ & Hne & _ & [Hl|Hl])|(_ & Hne & Hout)]].
    + exists evs, [EvCommit]. rewrite Hout. cbn [fst snd st_log].
      rewrite Hlog. split_and!; [|done|by left].
      by rewrite <- !app_assoc.
    + exists evs, [EvRollback]. rewrite Hl, Hlog.
      split_and!; [|done|right; by auto]. by rewrite <- !app_assoc.
    + exists evs, [EvCommit; EvRollback]. rewrite Hl, Hlog.
      split_and!; [|done|right; by auto]. by rewrite <- !app_assoc.
    + exists [], []. rewrite Hout. cbn [st_log].
      split_and!; [done|constructor|right; by auto].
  - intros columns templateRow msgData attachment rest s0 e s0' Hatt Hfile.
    split; [by eapply chatItemsRow_attachment|].
    by apply insertFileAttachment_err in Hfile.
Qed.


(** ** The claim about failures *)

(** C7, as the specification states it, fails for the media step: when the
    image cannot be encoded the message row is built with a text fallback,
    and when the attachment cannot be inserted the chat item is built
    without it; the batch is committed in both cases. *)
Lemma media_failure_does_not_abort :
  (∃ e, encodeImageToBase64 exampleWorld
          (w_filepathJoin exampleWorld "export" "a.png") = inl e)
  ∧ (bulkInsertUniversalMessages exampleWorld exampleBatch 1 "export" 5
       "files" exampleStart).1 = Ok tt
  ∧ (∃ e, (insertFileAttachment exampleWorldNoFiles exampleImage 1 true
             "export" "image" 5 "files" exampleStart).1 = Err e)
  ∧ (bulkInsertUniversalMessages exampleWorldNoFiles exampleBatch 1 "export" 5
       "files" exampleStart).1 = Ok tt
  ∧ populated
      (st_log (bulkInsertUniversalMessages exampleWorldNoFiles exampleBatch 1
                 "export" 5 "files" exampleStart).2)
    = [ "messages"; "chat_items"; "chat_item_messages"; "msg_deliveries";
        "chat_item_reactions" ]%string.
Proof.
  split_and!; [eexists; by vm_compute|by vm_compute|eexists; by vm_compute
              |by vm_compute|by vm_compute].
Qed.

(** C7, amended. For every batch, a failure to serialize a payload of any
    of its messages (the message body, the item content, the quoted
    content) aborts the synthesis: the batch returns without success and
    its transaction is rolled back, the database being the one from before
    the batch.  The synthesis of a message row or of a chat-item row
    returns an error only for such a serialization failure, with an error
    that names the payload.  An error of the media step is not returned:
    when the image cannot be encoded, the content of the message and of the
    chat item is the text fallback that names the image, and the message
    carries no file information; when the thumbnail of a video cannot be
    generated, the content is that of a file; when the insertion of the
    file attachment returns an error, the row of the chat item is built
    exactly as without the error, and either nothing of the attachment was
    written or the row of [files] was written and the insertion of its
    transfer record failed. *)
Theorem serialization_failure_aborts_batch (w : World)
    (messages : list UniversalMessage) (startMessageID : Z) (jsonDir : string)
    (contactID : Z) (simplexFilesDir : string) (s : dbstate) :
  let out :=
    bulkInsertUniversalMessages w messages startMessageID jsonDir contactID
      simplexFilesDir s in
  (∀ msg e,
     msg ∈ messages →
     w_jsonMarshal w (msgBodyJSON w jsonDir msg) = inl e
     ∨ w_jsonMarshal w (itemContentJSON w jsonDir msg) = inl e
     ∨ (∃ q, m_QuotedMessage msg = Some q
             ∧ w_jsonMarshal w (quotedContentJSON q) = inl e) →
     out.1 ≠ Ok tt ∧ st_db out.2 = st_db s)
  ∧ (∀ columns templateRow msgData e,
       messagesRow w jsonDir columns templateRow msgData = Err e →
       ∃ e', w_jsonMarshal w (msgBodyJSON w jsonDir (Message msgData)) = inl e'
             ∧ e = errorf "failed to marshal message body" e')
  ∧ (∀ columns templateRow msgData s0 e,
       (chatItemsRow w jsonDir contactID simplexFilesDir columns templateRow
          msgData s0).1 = Err e →
       ∃ e',
         (w_jsonMarshal w (itemContentJSON w jsonDir (Message msgData)) = inl e'
          ∧ e = errorf "failed to marshal item_content" e')
         ∨ (∃ q, m_QuotedMessage (Message msgData) = Some q
                 ∧ w_jsonMarshal w (quotedContentJSON q) = inl e'
                 ∧ e = errorf "failed to marshal quoted_content" e'))
  ∧ (∀ msg attachment rest e,
       m_Attachments msg = attachment :: rest →
       m_MessageType msg = "image"%string →
       encodeImageToBase64 w (w_filepathJoin w jsonDir (att_URL attachment))
       = inl e →
       messageContent w jsonDir msg
       = (JObject {[ "text"%string :=
                       JString (imageFallbackText attachment msg);
                     "type"%string := JString "text" ]}, None)
       ∧ chatItemContent w jsonDir msg
         = JObject {[ "type"%string := JString "text";
                      "text"%string :=
                        JString (imageFallbackText attachment msg) ]})
  ∧ (∀ msg attachment rest e,
       m_Attachments msg = attachment :: rest →
       m_MessageType msg = "video"%string →
       w_generateVideoThumbnail w
         (w_filepathJoin w jsonDir (att_URL attachment)) = inl e →
       messageContent w jsonDir msg
       = (JObject {[ "type"%string := JString "file";
                     "text"%string := JString (m_Content msg) ]},
          Some (fileInfoJSON attachment))
       ∧ chatItemContent w jsonDir msg
         = JObject {[ "type"%string := JString "file";
                      "text"%string := JString (m_Content msg) ]})
  ∧ (∀ columns templateRow msgData attachment rest s0 e s0',
       m_Attachments (Message msgData) = attachment :: rest →
       insertFileAttachment w attachment (ChatItemID msgData)
         (m_IsSent (Message msgData)) jsonDir (m_MessageType (Message msgData))
         contactID simplexFilesDir s0 = (Err e, s0') →
       chatItemsRow w jsonDir contactID simplexFilesDir columns templateRow
         msgData s0
       = (chatItemsRowValues w jsonDir contactID columns templateRow msgData,
          s0')
       ∧ (st_db s0' = st_db s0
          ∨ (m_MessageType (Message msgData) ≠ "video"%string
             ∧ (∃ e', e = errorf "failed to insert file transfer record" e')
             ∧ ∃ t fileTemplate row,
                 st_db s0 !! "files"%string = Some t
                 ∧ (getTemplateRow w "files" "file_id" s0).1 = Ok fileTemplate
                 ∧ ruleRowWith w "files" (t_columns t) fileTemplate row
                 ∧ st_db s0'
                   = <["files"%string := insertRows t (t_columns t) [row]]>
                       (st_db s0)))).
Proof.
  intros out. split_and!.
  - intros msg e Hmsg Hfail.
    pose proof (bulkInsertUniversalMessages_run w messages startMessageID
                  jsonDir contactID simplexFilesDir s) as Hrun.
    cbv zeta in Hrun. fold out in Hrun.
    destruct Hrun
      as [(_ & Hsteps & _ & _)|[(_ & _ & Hne & Hdb & _)|(_ & Hne & Hout)]];
      [exfalso|by split|by rewrite Hout].
    destruct (batchSteps w messages startMessageID jsonDir contactID
                simplexFilesDir _) as [r tx'] eqn:Est.
    cbn [fst] in Hsteps. subst r.
    apply batchSteps_ok_iff in Est
      as (maxChatItemID & s0 & s1 & s2 & s3 & s4 & _ & Hm & Hc & _).
    cbv zeta in Hm, Hc.
    destruct (prepareMessages_elem messages startMessageID maxChatItemID msg
                Hmsg 0) as (msgData & Hin & <-).
    destruct (bulkInsertMessages_ok_marshal w _ _ _ _ _ msgData Hm Hin)
      as [bytes Hbody].
    destruct (bulkInsertChatItems_ok_marshal w _ _ _ _ _ _ msgData Hc Hin)
      as [[bytes' Hitem] Hquoted].
    destruct Hfail as [Hf|[Hf|(q & Hq & Hf)]]; [congruence..|].
    destruct (Hquoted q Hq) as [qbytes Hqb]. congruence.
  - intros columns templateRow msgData e. unfold messagesRow.
    destruct (w_jsonMarshal w _) as [e'|bytes] eqn:Hb; [|done].
    intros [= <-]. by exists e'.
  - intros columns templateRow msgData s0 e Herr%chatItemsRow_err.
    unfold chatItemsRowValues in Herr.
    destruct (w_jsonMarshal w (itemContentJSON _ _ _)) as [e'|bytes] eqn:Hi.
    { injection Herr as <-. exists e'. by left. }
    destruct (m_QuotedMessage (Message msgData)) as [q|] eqn:Hq; [|done].
    destruct (w_jsonMarshal w (quotedContentJSON q)) as [e'|qbytes] eqn:Hqb;
      [|done].
    injection Herr as <-. exists e'. right. by exists q.
  - intros msg attachment rest e Hatt Htype Henc.
    unfold messageContent, chatItemContent. rewrite Hatt, Htype.
    rewrite !bool_decide_eq_true_2 by done. cbv zeta. by rewrite Henc.
  - intros msg attachment rest e Hatt Htype Hthumb.
    unfold messageContent, chatItemContent. rewrite Hatt, Htype.
    rewrite !(bool_decide_eq_false_2 ("video"%string = "image"%string))
      by done.
    rewrite !bool_decide_eq_true_2 by done. cbv zeta. by rewrite Hthumb.
  - intros columns templateRow msgData attachment rest s0 e s0' Hatt Hfile.
    split; [by eapply chatItemsRow_attachment|].
    by apply insertFileAttachment_err in Hfile.
Qed.

Lemma serialization_failure_aborts_batch_witness :
  let out :=
    bulkInsertUniversalMessages exampleWorldNoJson [Message exampleReply] 3
      "export" 5 "files" exampleStart in
  Message exampleReply ∈ [Message exampleReply]
  ∧ w_jsonMarshal exampleWorldNoJson
      (msgBodyJSON exampleWorldNoJson "export" (Message exampleReply))
    = inl "json: unsupported value"%string
  ∧ out.1 ≠ Ok tt ∧ st_db out.2 = st_db exampleStart.
Proof.
  intros out.
  assert (Message exampleReply ∈ [Message exampleReply]) as Hin
    by apply list_elem_of_here.
  split; [exact Hin|]. split; [reflexivity|].
  exact (proj1 (serialization_failure_aborts_batch exampleWorldNoJson
                  [Message exampleReply] 3 "export" 5 "files" exampleStart)
           (Message exampleReply) "json: unsupported value"%string Hin
           (or_introl eq_refl)).
Defined.


(** ** The converter *)

Lemma messageTypeOfExt_cases ext :
  messageTypeOfExt ext ∈ ["image"; "video"; "voice"; "file"]%string.
Proof.
  unfold messageTypeOfExt. repeat case_bool_decide; list_mem.
Qed.

Lemma messageTypeOfExt_not_text ext : messageTypeOfExt ext ≠ "text"%string.
Proof. unfold messageTypeOfExt. by repeat case_bool_decide. Qed.

Section Converter.
Context (w : World).

(** The attachment loop: it panics exactly when an attachment object has
    no numeric size; otherwise it appends one attachment per object, in
    order, and leaves the type of the last object. *)
Lemma convertAttachments_run atts :
  ∀ attachments messageType,
    match convertAttachments w atts attachments messageType with
    | Ok (attachments', messageType') =>
        forallb (isNumber "fileSizeBytes") (objectsOf atts) = true
        ∧ att_Filename <$> attachments'
          = (att_Filename <$> attachments)
            ++ (attachmentName w <$> objectsOf atts)
        ∧ messageType'
          = from_option (λ fields, messageTypeOfName w (attachmentName w fields))
              messageType (last (objectsOf atts))
    | Panic _ => forallb (isNumber "fileSizeBytes") (objectsOf atts) = false
    | _ => False
    end.
Proof.
  induction atts as [|att atts IH]; intros attachments messageType.
  - cbn. by rewrite app_nil_r.
  - destruct att as [| | | | |fields];
      try (cbn [convertAttachments objectsOf omap]; apply IH).
    cbn [convertAttachments objectsOf omap list_omap forallb].
    fold (objectsOf atts). unfold isNumber at 1 3.
    destruct (fields !! "fileSizeBytes"%string) as [[| |size| | |]|];
      try done.
    cbn [andb].
    match goal with
    | |- context [convertAttachments w atts ?a ?t] => specialize (IH a t)
    end.
    destruct (convertAttachments w atts _ _) as [[attachments' messageType']| | |];
      try done.
    destruct IH as (Hnum & Hnames & Hty). split_and!; [done| |].
    + rewrite Hnames, fmap_app, <- app_assoc. done.
    + rewrite Hty. unfold messageTypeOfName, attachmentName.
      destruct (objectsOf atts) as [|o os]; [done|].
      change (last (fields :: o :: os)) with (last (o :: os)).
      assert (is_Some (last (o :: os))) as [x ->] by (by apply last_is_Some).
      done.
Qed.

(** Every attachment object gives one attachment, with its four fields. *)
Lemma convertAttachments_all atts :
  ∀ attachments messageType attachments' messageType',
    convertAttachments w atts attachments messageType
    = Ok (attachments', messageType') →
    Some <$> attachments'
    = (Some <$> attachments) ++ (attachmentOf w <$> objectsOf atts).
Proof.
  induction atts as [|att atts IH];
    intros attachments messageType attachments' messageType' Hrun.
  - injection Hrun as <- <-. by rewrite app_nil_r.
  - destruct att as [| | | | |fields];
      try (cbn [convertAttachments objectsOf omap] in Hrun |- *;
           by eapply IH).
    cbn [convertAttachments objectsOf omap list_omap] in Hrun |- *.
    fold (objectsOf atts). cbn [fmap list_fmap]. unfold attachmentOf at 1.
    destruct (fields !! "fileSizeBytes"%string) as [[| |size| | |]|];
      try done.
    rewrite (IH _ _ _ _ Hrun), fmap_app, <- app_assoc. done.
Qed.

Lemma convertReactions_run reacts :
  ∀ reactions,
    match convertReactions w reacts reactions with
    | Ok reactions' =>
        forallb (isNumber "count")
          (filter (λ fields, hasEmoji fields = true) (objectsOf reacts)) = true
    | Panic _ =>
        forallb (isNumber "count")
          (filter (λ fields, hasEmoji fields = true) (objectsOf reacts)) = false
    | _ => False
    end.
Proof.
  induction reacts as [|react reacts IH]; intros reactions; [done|].
  destruct react as [| | | | |fields];
    try (cbn [convertReactions objectsOf omap]; apply IH).
  cbn [convertReactions objectsOf omap list_omap]. fold (objectsOf reacts).
  rewrite filter_cons.
  destruct (decide (hasEmoji fields = true)) as [Hh|Hh]; unfold hasEmoji in Hh;
    destruct (fields !! "emoji"%string) as [[| | | | |emojiMap]|];
    try done; try apply IH.
  cbn [forallb]. unfold isNumber at 1 3.
  destruct (fields !! "count"%string) as [[| |count| | |]|]; try done.
  cbn [andb]. apply IH.
Qed.

(** One message: converted, or a panic of a type assertion. *)
Lemma ConvertDiscordMessage_run discordMsg myUsername discordToSharedMsgID
    discordMessages jsonDir :
  match ConvertDiscordMessage w discordMsg myUsername discordToSharedMsgID
          discordMessages jsonDir with
  | Ok u =>
      assertionsHold discordMsg = true
      ∧ m_ID u = d_ID discordMsg
      ∧ m_Content u = d_Content discordMsg
      ∧ m_IsSent u = bool_decide (da_Name (d_Author discordMsg) = myUsername)
      ∧ att_Filename <$> m_Attachments u
        = attachmentName w <$> objectsOf (d_Attachments discordMsg)
      ∧ m_MessageType u
        = from_option (λ fields, messageTypeOfName w (attachmentName w fields))
            "text"%string (last (objectsOf (d_Attachments discordMsg)))
  | Panic _ => assertionsHold discordMsg = false
  | _ => False
  end.
Proof.
  unfold ConvertDiscordMessage, assertionsHold.
  pose proof (convertAttachments_run (d_Attachments discordMsg) [] "text"%string)
    as Hatt.
  destruct (convertAttachments w _ _ _) as [[attachments messageType]| | |];
    try done; [|by rewrite Hatt].
  destruct Hatt as (Hnum & Hnames & Hty). rewrite Hnum. cbn [andb].
  pose proof (convertReactions_run (d_Reactions discordMsg) []) as Hre.
  destruct (convertReactions w _ _) as [reactions| | |]; try done.
  destruct (resolveReply _ _ _ _ _) as [replyToID quotedMessage].
  cbn [m_ID m_Content m_IsSent m_Attachments m_MessageType].
  split_and!; try done.
  rewrite Hty.
  destruct (last (objectsOf (d_Attachments discordMsg))) as [fields|] eqn:Hl;
    cbn.
  - rewrite bool_decide_eq_false_2; [done|].
    apply messageTypeOfExt_not_text.
  - apply last_None in Hl. rewrite Hl in Hnames. cbn in Hnames.
    apply fmap_nil_inv in Hnames. subst attachments. done.
Qed.

Lemma convertMessages_run myUsername discordToSharedMsgID discordMessages
    jsonDir todo :
  match convertMessages w todo myUsername discordToSharedMsgID discordMessages
          jsonDir with
  | Ok us =>
      forallb assertionsHold todo = true
      ∧ m_ID <$> us = d_ID <$> todo
      ∧ m_IsSent <$> us
        = (λ N, bool_decide (da_Name (d_Author N) = myUsername)) <$> todo
  | Panic _ => forallb assertionsHold todo = false
  | _ => False
  end.
Proof.
  induction todo as [|M todo IH]; [done|].
  cbn [convertMessages forallb].
  pose proof (ConvertDiscordMessage_run M myUsername discordToSharedMsgID
                discordMessages jsonDir) as HM.
  destruct (ConvertDiscordMessage w M _ _ _ _) as [u| | |]; try done;
    [|by rewrite HM].
  destruct HM as (Hok & Hid & _ & Hsent & _). rewrite Hok. cbn [andb].
  destruct (convertMessages w todo _ _ _ _) as [us| | |]; try done.
  destruct IH as (Hall & Hids & Hsents). split_and!; [done| |].
  - cbn. by rewrite Hid, Hids.
  - cbn. by rewrite Hsent, Hsents.
Qed.

End Converter.

(** X1. A converted message has one of the five types text, image, video,
    voice and file, and its type is text exactly when it carries no
    attachment: the rows built later, which look at the attachments first
    and at the type second, never see a text message with an attachment. *)
Theorem message_type_text_iff_no_attachment (w : World)
    (discordMsg : DiscordMessage) (myUsername : string)
    (discordToSharedMsgID : gmap string string)
    (discordMessages : gmap string DiscordMessage) (jsonDir : string)
    (u : UniversalMessage) :
  ConvertDiscordMessage w discordMsg myUsername discordToSharedMsgID
    discordMessages jsonDir = Ok u →
  m_MessageType u ∈ ["text"; "image"; "video"; "voice"; "file"]%string
  ∧ (m_MessageType u = "text"%string ↔ m_Attachments u = []).
Proof.
  intros Hu.
  pose proof (ConvertDiscordMessage_run w discordMsg myUsername
                discordToSharedMsgID discordMessages jsonDir) as Hrun.
  rewrite Hu in Hrun. destruct Hrun as (_ & _ & _ & _ & Hnames & Hty).
  destruct (objectsOf (d_Attachments discordMsg)) as [|o os] eqn:E.
  - cbn in Hnames, Hty. apply fmap_nil_inv in Hnames. rewrite Hty, Hnames.
    split; [list_mem|done].
  - assert (is_Some (last (o :: os))) as [x Hx] by (by apply last_is_Some).
    rewrite Hx in Hty. cbn in Hty. rewrite Hty. split.
    + pose proof (messageTypeOfExt_cases
                    (w_toLower w (w_filepathExt w (attachmentName w x)))) as H.
      unfold messageTypeOfName.
      repeat (apply elem_of_cons in H as [->|H]; [list_mem|]).
      by apply elem_of_nil in H.
    + split.
      * intros H. by apply messageTypeOfExt_not_text in H.
      * intros H. rewrite H in Hnames. done.
Qed.

Lemma message_type_text_iff_no_attachment_witness :
  ∃ u, exampleBatch !! 0%nat = Some u
       ∧ m_MessageType u ∈ ["text"; "image"; "video"; "voice"; "file"]%string
       ∧ (m_MessageType u = "text"%string ↔ m_Attachments u = []).
Proof.
  eexists. split; [reflexivity|].
  apply (message_type_text_iff_no_attachment exampleWorld
           (exampleMessage "1" "me" (Some "2"%string)
              [exampleAttachment "a.png"]
              [RObj {[ "emoji" := RObj {[ "name" := RStr "+" ]};
                       "count" := RNum 1 ]}])
           "me" (buildMappings exampleExport).1 (buildMappings exampleExport).2
           "export").
  vm_compute. reflexivity.
Defined.

(** X2. The attachments of a converted message are made of the
    attachment objects of the export message, one of each, in order,
    entries that are not objects being skipped: the identifier, the file
    name and the URL are what [%v] prints of the fields [id], [fileName]
    and [url], and the size is the number in [fileSizeBytes].  The type of
    the message is read off the file name of the last attachment, whereas
    the image embedded in the body of a message of type image is the file
    at the URL of its first attachment. *)
Theorem message_type_follows_last_attachment (w : World)
    (discordMsg : DiscordMessage) (myUsername : string)
    (discordToSharedMsgID : gmap string string)
    (discordMessages : gmap string DiscordMessage) (jsonDir : string)
    (u : UniversalMessage) :
  ConvertDiscordMessage w discordMsg myUsername discordToSharedMsgID
    discordMessages jsonDir = Ok u →
  Some <$> m_Attachments u
  = attachmentOf w <$> objectsOf (d_Attachments discordMsg)
  ∧ (∀ a, last (m_Attachments u) = Some a →
          m_MessageType u = messageTypeOfName w (att_Filename a))
  ∧ (∀ fields others imageBase64,
       objectsOf (d_Attachments discordMsg) = fields :: others →
       m_MessageType u = "image"%string →
       encodeImageToBase64 w
         (w_filepathJoin w jsonDir (w_sprintV w (fields !! "url"%string)))
       = inr imageBase64 →
       jpath ["params"; "content"; "image"] (msgBodyJSON w jsonDir u)
       = Some (JString imageBase64)).
Proof.
  intros Hu.
  pose proof (ConvertDiscordMessage_run w discordMsg myUsername
                discordToSharedMsgID discordMessages jsonDir) as Hrun.
  rewrite Hu in Hrun. destruct Hrun as (_ & _ & _ & _ & Hnames & Hty).
  assert (Some <$> m_Attachments u
          = attachmentOf w <$> objectsOf (d_Attachments discordMsg)) as Hall.
  { unfold ConvertDiscordMessage in Hu.
    destruct (convertAttachments w _ _ _) as [[attachments messageType]| | |]
      eqn:Hatt; try done.
    apply convertAttachments_all in Hatt. cbn [fmap list_fmap app] in Hatt.
    destruct (convertReactions w _ _) as [reactions| | |]; try done.
    destruct (resolveReply _ _ _ _ _) as [replyToID quotedMessage].
    injection Hu as <-. exact Hatt. }
  split; [done|]. split.
  - intros a Ha. rewrite Hty.
    assert (last (att_Filename <$> m_Attachments u) = Some (att_Filename a))
      as Hlast by (by rewrite fmap_last, Ha).
    rewrite Hnames, fmap_last in Hlast.
    destruct (last (objectsOf (d_Attachments discordMsg))) as [fields|];
      [|done].
    cbn in *. by injection Hlast as ->.
  - intros fields others imageBase64 Hobjs Himage Henc.
    rewrite Hobjs in Hall. cbn [fmap list_fmap] in Hall.
    destruct (m_Attachments u) as [|a rest] eqn:Ha; [done|].
    cbn [fmap list_fmap] in Hall. injection Hall as Hfirst _.
    assert (att_URL a = w_sprintV w (fields !! "url"%string)) as Hurl.
    { unfold attachmentOf in Hfirst.
      destruct (fields !! "fileSizeBytes"%string) as [[| |size| | |]|];
        try done.
      by injection Hfirst as ->. }
    rewrite <- Hurl in Henc.
    unfold msgBodyJSON, jpath. cbn [foldl mbind option_bind jfield].
    rewrite lookup_insert_ne, lookup_insert_ne, lookup_insert_ne by done.
    rewrite lookup_singleton_eq. cbn [mbind option_bind jfield].
    unfold messageParams, messageContent. rewrite Ha, Himage, Henc.
    rewrite bool_decide_eq_true_2 by done.
    destruct (m_QuotedMessage u);
      rewrite ?lookup_insert_ne by done; rewrite lookup_singleton_eq;
      cbn [mbind option_bind jfield]; by rewrite lookup_insert_eq.
Qed.

Lemma message_type_follows_last_attachment_witness :
  ∃ u, convertExport exampleWorld
         [exampleMessage "1" "me" None
            [exampleAttachment "a.png"; exampleAttachment "b.bin"] []]
         "me" "export" = Ok [u]
       ∧ Some <$> m_Attachments u
         = [ Some {| att_ID := "a.png"; att_Filename := "a.png";
                     att_URL := "a.png"; att_MimeType := ""; att_Size := 3 |};
             Some {| att_ID := "b.bin"; att_Filename := "b.bin";
                     att_URL := "b.bin"; att_MimeType := ""; att_Size := 3 |} ]
       ∧ m_MessageType u = "file"%string.
Proof.
  eexists. split; [vm_compute; reflexivity|].
  destruct (message_type_follows_last_attachment exampleWorld
              (exampleMessage "1" "me" None
                 [exampleAttachment "a.png"; exampleAttachment "b.bin"] [])
              "me" ∅ ∅ "export" _ eq_refl) as (Hall & Hlast & _).
  split; [exact Hall|]. exact (Hlast _ eq_refl).
Defined.

(** X3. Converting an export never returns an error: it either gives one
    universal message per export message, in the order of the export, with
    the identifier of the export message and marked as sent exactly when
    its author's name is the name given with [-me]; or it panics, which it
    does exactly when some attachment object has no numeric
    [fileSizeBytes] or some reaction with an emoji object has no numeric
    [count]. *)
Theorem conversion_succeeds_or_panics (w : World)
    (messages : list DiscordMessage) (myUsername jsonDir : string) :
  match convertExport w messages myUsername jsonDir with
  | Ok universalMessages =>
      forallb assertionsHold messages = true
      ∧ m_ID <$> universalMessages = d_ID <$> messages
      ∧ m_IsSent <$> universalMessages
        = (λ N, bool_decide (da_Name (d_Author N) = myUsername)) <$> messages
  | Panic _ => forallb assertionsHold messages = false
  | Err _ | OutOfFuel => False
  end.
Proof. apply convertMessages_run. Qed.


(** ** The rows of a chunked insert *)

Lemma allowsReads_notInsertInto tbl : allowsReads (notInsertInto tbl).
Proof. by repeat split. Qed.

Lemma insertedRows_app tbl evs evs' :
  insertedRows tbl (evs ++ evs') = insertedRows tbl evs ++ insertedRows tbl evs'.
Proof. unfold insertedRows. apply bind_app. Qed.

Lemma insertedRows_none tbl evs :
  Forall (notInsertInto tbl) evs → insertedRows tbl evs = [].
Proof.
  induction 1 as [|e evs He _ IH]; [done|].
  change (e :: evs) with ([e] ++ evs). rewrite insertedRows_app, IH, app_nil_r.
  destruct e; try done. cbn in *. rewrite bool_decide_eq_false_2 by done. done.
Qed.

Lemma insertedRows_insert tbl cols rows :
  insertedRows tbl [EvInsert tbl cols rows] = (λ row, (cols, row)) <$> rows.
Proof.
  cbn. rewrite bool_decide_eq_true_2 by done. by rewrite app_nil_r.
Qed.

Lemma insertedInto_app tbl evs evs' :
  insertedInto tbl (evs ++ evs') = insertedInto tbl evs ++ insertedInto tbl evs'.
Proof. unfold insertedInto. apply omap_app. Qed.

Lemma insertedInto_none tbl evs :
  Forall (notInsertInto tbl) evs → insertedInto tbl evs = [].
Proof.
  induction 1 as [|e evs He _ IH]; [done|].
  change (e :: evs) with ([e] ++ evs). rewrite insertedInto_app, IH, app_nil_r.
  destruct e; try done. cbn in *. rewrite bool_decide_eq_false_2 by done. done.
Qed.

Lemma insertedInto_insert tbl cols rows :
  insertedInto tbl [EvInsert tbl cols rows] = [rows].
Proof. cbn. by rewrite bool_decide_eq_true_2. Qed.

(** The rows of the statements, one after the other. *)
Lemma insertedRows_concat tbl evs :
  snd <$> insertedRows tbl evs = concat (insertedInto tbl evs).
Proof.
  induction evs as [|e evs IH]; [done|].
  change (e :: evs) with ([e] ++ evs).
  rewrite insertedRows_app, insertedInto_app, fmap_app, concat_app, IH.
  f_equal. destruct e; try done. cbn. case_bool_decide; [|done].
  cbn. rewrite !app_nil_r, <- list_fmap_compose. apply list_fmap_id.
Qed.

Lemma stepEvent_notInsertInto w tables tbl e :
  tbl ∉ tables → stepEvent w tables e → notInsertInto tbl e.
Proof.
  intros Hnot. destruct e; try done. cbn. intros [Hin _] ->. done.
Qed.

Lemma take_chunk {A} (data : list A) cs i :
  0 ≤ i → 1 ≤ cs →
  take (Z.to_nat (Z.min (i + cs) (len data) - i)) (drop (Z.to_nat i) data)
  = take (Z.to_nat cs) (drop (Z.to_nat i) data).
Proof.
  intros Hi Hcs. unfold len.
  destruct (Z_le_gt_dec (i + cs) (Z.of_nat (length data))) as [Hle|Hgt].
  - f_equal. lia.
  - rewrite Z.min_r by lia.
    rewrite !take_ge; [done| |]; rewrite length_drop; lia.
Qed.

Section ChunkedRows.
Context (w : World) {A : Type} (tbl : string) (columns : list string).
Context (rowOf : Z → Z → A → M (list value)) (R : Z → A → list value → Prop).
Hypothesis Hrow :
  ∀ i j d, yields (notInsertInto tbl) (R (i + j) d) (rowOf i j d).

Lemma forRows_rows i :
  ∀ chunk j s rows s',
    forRows j chunk (rowOf i) s = (Ok rows, s') →
    (∃ evs, st_log s' = st_log s ++ evs ∧ Forall (notInsertInto tbl) evs)
    ∧ length rows = length chunk
    ∧ ∀ n d, chunk !! n = Some d →
             ∃ row, rows !! n = Some row ∧ R (i + (j + Z.of_nat n)) d row.
Proof.
  induction chunk as [|x chunk IH]; intros j s rows s' Hrun.
  - injection Hrun as <- <-. split_and!; [|done|done].
    exists []. by rewrite app_nil_r.
  - cbn [forRows] in Hrun.
    apply bind_ok_inv in Hrun as (b & s1 & Hx & Hrun).
    apply bind_ok_inv in Hrun as (bs & s2 & Hrest & Hrun).
    injection Hrun as <- <-.
    destruct (Hrow i j x s) as [(evs1 & Hlog1 & Hevs1) HR].
    rewrite Hx in Hlog1, HR. cbn [fst snd] in *.
    destruct (IH _ _ _ _ Hrest) as ((evs2 & Hlog2 & Hevs2) & Hlen & Hrows).
    split_and!.
    + exists (evs1 ++ evs2). rewrite Hlog2, Hlog1, <- app_assoc.
      split; [done|]. by apply Forall_app.
    + cbn. by rewrite Hlen.
    + intros [|n] d Hd; cbn in Hd.
      * injection Hd as <-. exists b. split; [done|].
        rewrite Z.add_0_r. by apply HR.
      * destruct (Hrows n d Hd) as (row & Hr & HRr). exists row.
        split; [done|]. replace (j + Z.of_nat (S n)) with (j + 1 + Z.of_nat n)
          by lia. done.
Qed.

Lemma chunk_rows i e chunk s s' :
  (rows ← forRows 0 chunk (rowOf i);
   wrapErr (chunkError i e) (execInsert w tbl columns rows)) s = (Ok tt, s') →
  ∃ evs rows,
    st_log s' = st_log s ++ evs
    ∧ insertedRows tbl evs = (λ row, (columns, row)) <$> rows
    ∧ length rows = length chunk
    ∧ (∀ n d, chunk !! n = Some d →
              ∃ row, rows !! n = Some row ∧ R (i + Z.of_nat n) d row)
    ∧ insertedInto tbl evs = [rows].
Proof.
  intros Hrun.
  apply bind_ok_inv in Hrun as (rows & s1 & Hrows & Hins%wrapErr_ok_inv).
  destruct (forRows_rows _ _ _ _ _ _ Hrows)
    as ((evs & Hlog & Hevs) & Hlen & HR).
  pose proof (execInsert_log w tbl columns rows s1) as Hlog'.
  rewrite Hins in Hlog'. cbn [snd] in Hlog'.
  exists (evs ++ [EvInsert tbl columns rows]), rows. split_and!.
  - by rewrite Hlog', Hlog, <- app_assoc.
  - by rewrite insertedRows_app, insertedRows_none, insertedRows_insert.
  - done.
  - intros n d Hd. destruct (HR n d Hd) as (row & Hr & HRr).
    exists row. split; [done|]. by rewrite Z.add_0_l in HRr.
  - by rewrite insertedInto_app, insertedInto_none, insertedInto_insert.
Qed.

Lemma chunks_rows (data : list A) cs :
  1 ≤ cs →
  ∀ n k s s',
    forEach (chunkAt data cs <$> seq k n)
      (λ c, rows ← forRows 0 c.2 (rowOf c.1.1);
            wrapErr (chunkError c.1.1 c.1.2) (execInsert w tbl columns rows))
      s = (Ok tt, s') →
    ∃ evs,
      st_log s' = st_log s ++ evs
      ∧ length (insertedRows tbl evs)
        = length (take (n * Z.to_nat cs) (drop (k * Z.to_nat cs) data))
      ∧ (∀ m d,
           take (n * Z.to_nat cs) (drop (k * Z.to_nat cs) data) !! m = Some d →
           ∃ row, insertedRows tbl evs !! m = Some (columns, row)
                  ∧ R (Z.of_nat (k * Z.to_nat cs + m)) d row)
      ∧ length <$> insertedInto tbl evs
        = (λ c : Z * Z * list A, length c.2) <$> (chunkAt data cs <$> seq k n).
Proof.
  intros Hcs. induction n as [|n IH]; intros k s s' Hrun.
  - injection Hrun as <-. exists []. rewrite app_nil_r. done.
  - cbn [seq fmap list_fmap forEach] in Hrun |- *.
    apply bind_ok_inv in Hrun as ([] & s1 & Hchunk & Hrest).
    apply chunk_rows
      in Hchunk as (evs1 & rows & Hlog1 & Hins & Hlen & HR & Hst).
    destruct (IH _ _ _ Hrest) as (evs2 & Hlog2 & Hlen2 & HR2 & Hst2).
    assert (length <$> insertedInto tbl (evs1 ++ evs2)
            = (λ c : Z * Z * list A, length c.2)
              <$> (chunkAt data cs k :: (chunkAt data cs <$> seq (S k) n)))
      as Hsizes.
    { rewrite insertedInto_app, fmap_app, Hst, Hst2. cbn. by rewrite Hlen. }
    unfold chunkAt in Hlen, HR. cbn [fst snd] in Hlen, HR.
    rewrite take_chunk in Hlen, HR by lia.
    replace (Z.to_nat (Z.of_nat k * cs)) with (k * Z.to_nat cs)%nat
      in Hlen, HR by lia.
    assert (take (S n * Z.to_nat cs) (drop (k * Z.to_nat cs) data)
            = take (Z.to_nat cs) (drop (k * Z.to_nat cs) data)
              ++ take (n * Z.to_nat cs) (drop (S k * Z.to_nat cs) data))
      as Hsplit.
    { replace (S n * Z.to_nat cs)%nat with (Z.to_nat cs + n * Z.to_nat cs)%nat
        by lia.
      rewrite <- take_take_drop, drop_drop. do 3 f_equal. lia. }
    exists (evs1 ++ evs2). split_and!.
    + by rewrite Hlog2, Hlog1, <- app_assoc.
    + rewrite insertedRows_app, Hsplit, !length_app, Hlen2, Hins, length_fmap.
      by rewrite Hlen.
    + intros m d. rewrite Hsplit, insertedRows_app, Hins.
      intros [Hd|[Hm Hd]]%lookup_app_Some.
      * destruct (HR m d Hd) as (row & Hr & HRr). exists row. split.
        -- rewrite lookup_app_l
             by (rewrite length_fmap, Hlen; by eapply lookup_lt_Some).
           by rewrite list_lookup_fmap, Hr.
        -- replace (Z.of_nat (k * Z.to_nat cs + m))
             with (Z.of_nat k * cs + Z.of_nat m) by lia. done.
      * destruct (HR2 _ d Hd) as (row & Hr & HRr). exists row.
        assert (length (take (Z.to_nat cs) (drop (k * Z.to_nat cs) data))
                = Z.to_nat cs) as Hfull.
        { apply lookup_take_Some in Hd as [Hd _].
          apply lookup_lt_Some in Hd. rewrite length_drop in Hd.
          rewrite length_take, length_drop. lia. }
        rewrite Hfull in Hm, Hr, HRr. split.
        -- rewrite lookup_app_r by (rewrite length_fmap, Hlen, Hfull; lia).
           rewrite length_fmap, Hlen, Hfull. done.
        -- replace (k * Z.to_nat cs + m)%nat
             with (S k * Z.to_nat cs + (m - Z.to_nat cs))%nat by lia. done.
    + exact Hsizes.
Qed.

(** A chunked insert that succeeds has inserted one row per element of the
    batch, in the order of the batch, the row at each position being the
    one the row builder made for the element at that position. *)
Lemma forChunks_rows (data : list A) cs s s' :
  1 ≤ cs ≤ maxInt → len data < 2 ^ 62 →
  forChunks data cs
    (λ i e chunk,
       rows ← forRows 0 chunk (rowOf i);
       wrapErr (chunkError i e) (execInsert w tbl columns rows)) s
  = (Ok tt, s') →
  ∃ evs,
    st_log s' = st_log s ++ evs
    ∧ length (insertedRows tbl evs) = length data
    ∧ (∀ g d, data !! g = Some d →
              ∃ row, insertedRows tbl evs !! g = Some (columns, row)
                     ∧ R (Z.of_nat g) d row)
    ∧ length <$> insertedInto tbl evs
      = (λ c : Z * Z * list A, length c.2) <$> chunksOf data cs.
Proof.
  intros Hcs Hlen Hrun. rewrite forChunks_chunks in Hrun by done.
  unfold chunksOf in Hrun.
  apply (chunks_rows data cs (proj1 Hcs))
    in Hrun as (evs & Hlog & Hl & HR & Hsizes).
  assert (take (chunkCount (len data) cs * Z.to_nat cs) (drop (0 * Z.to_nat cs) data)
          = data) as Hall.
  { cbn [Nat.mul drop]. apply take_ge.
    pose proof (chunkCount_covers (len data) cs (proj1 Hcs)
                  ltac:(unfold len; lia)). unfold len in *. lia. }
  rewrite Hall in Hl, HR. exists evs. split_and!; [done..| |done].
  intros g d Hd. destruct (HR g d Hd) as (row & Hr & HRr). by exists row.
Qed.

End ChunkedRows.


(** ** The key columns of the rows of a batch *)

Lemma holds_override overrideFields templateRow columns col v :
  overrideFields !! col = Some v →
  holds (columns, buildRowValues overrideFields templateRow columns) col v.
Proof.
  intros Hv.
  destruct (buildRowValues_followsRule overrideFields templateRow columns)
    as [Hlen Hrule].
  split; [done|]. cbn [fst snd]. intros idx Hidx.
  rewrite (Hrule _ _ Hidx). f_equal. by apply ruleValue_override.
Qed.

Ltac override_lookup :=
  cbv zeta; cbn [list_to_map foldr uncurry fst snd Z.eqb Pos.eqb];
  repeat (rewrite lookup_insert_ne by done);
  rewrite lookup_insert_eq.

Lemma messagesOverrides_keys w d bytes :
  messagesOverrides w d bytes !! "message_id"%string = Some (VInt (MessageID d))
  ∧ messagesOverrides w d bytes !! "shared_msg_id"%string
    = Some (VBlob (SharedMsgID d))
  ∧ messagesOverrides w d bytes !! "msg_body"%string = Some (VBlob bytes).
Proof.
  unfold messagesOverrides. destruct (m_IsSent (Message d));
    split_and!; by override_lookup.
Qed.

Lemma chatItemsOverrides_keys w d contactID bytes quoted :
  chatItemsOverrides w d contactID bytes quoted !! "chat_item_id"%string
  = Some (VInt (ChatItemID d))
  ∧ chatItemsOverrides w d contactID bytes quoted !! "created_by_msg_id"%string
    = Some (VInt (MessageID d))
  ∧ chatItemsOverrides w d contactID bytes quoted !! "shared_msg_id"%string
    = Some (VBlob (SharedMsgID d))
  ∧ chatItemsOverrides w d contactID bytes quoted !! "contact_id"%string
    = Some (VInt contactID).
Proof.
  unfold chatItemsOverrides, quoteOverrides. destruct quoted as [[q c]|];
    split_and!; by override_lookup.
Qed.

Lemma chatItemMessagesOverrides_keys w d nextRowID i j :
  chatItemMessagesOverrides w d nextRowID i j !! "rowid"%string
  = Some (VInt (wrap (nextRowID + i + j)))
  ∧ chatItemMessagesOverrides w d nextRowID i j !! "chat_item_id"%string
    = Some (VInt (ChatItemID d))
  ∧ chatItemMessagesOverrides w d nextRowID i j !! "message_id"%string
    = Some (VInt (MessageID d)).
Proof.
  unfold chatItemMessagesOverrides. rewrite addInt_assoc2.
  split_and!; by override_lookup.
Qed.

Lemma msgDeliveriesOverrides_keys w d maxAgentMsgID i j :
  msgDeliveriesOverrides w d maxAgentMsgID i j !! "msg_delivery_id"%string
  = Some (VInt (MessageID d))
  ∧ msgDeliveriesOverrides w d maxAgentMsgID i j !! "message_id"%string
    = Some (VInt (MessageID d))
  ∧ msgDeliveriesOverrides w d maxAgentMsgID i j !! "agent_msg_id"%string
    = Some (VInt (wrap (maxAgentMsgID + 1 + i + j))).
Proof.
  unfold msgDeliveriesOverrides. rewrite addInt_assoc3.
  split_and!; by override_lookup.
Qed.

Lemma prepareMessages_lookup messages startMessageID maxChatItemID :
  ∀ i g msg,
    messages !! g = Some msg →
    prepareMessages messages startMessageID maxChatItemID i !! g
    = Some {| MessageID := addInt startMessageID (i + Z.of_nat g);
              ChatItemID := addInt (addInt maxChatItemID 1) (i + Z.of_nat g);
              SharedMsgID := m_ID msg;
              Message := msg |}.
Proof.
  induction messages as [|m messages IH]; intros i g msg Hg; [done|].
  destruct g as [|g]; cbn in Hg |- *.
  - injection Hg as ->. by rewrite Z.add_0_r.
  - rewrite (IH _ _ _ Hg).
    by replace (i + Z.of_nat (S g)) with (i + 1 + Z.of_nat g) by lia.
Qed.

Lemma prepareMessages_length messages startMessageID maxChatItemID :
  ∀ i, length (prepareMessages messages startMessageID maxChatItemID i)
       = length messages.
Proof. induction messages as [|m messages IH]; intros i; cbn; [done|]. by rewrite IH. Qed.

Section Rows.
Context (w : World).

Lemma insertSndFile_notInsertInto tbl fileID :
  tbl ≠ "snd_files"%string → emits (notInsertInto tbl) (insertSndFile w fileID).
Proof.
  intros Hne. pose proof (allowsReads_notInsertInto tbl) as HR.
  unfold insertSndFile.
  apply emits_bind; [by apply yields_getTemplateRow|]. intros templateRow.
  apply emits_bind; [by apply yields_getTableColumns|]. intros columns.
  apply emits_bind; [by apply yields_wrapErr, yields_queryNextID|].
  intros nextDeliveryID.
  apply emits_bind; [apply yields_timeNow|]. intros createdAt.
  apply emits_bind; [apply yields_timeNow|]. intros updatedAt.
  apply emits_bind; [apply emits_liftR|]. intros _.
  apply yields_execInsert. cbn. congruence.
Qed.

Lemma insertRcvFile_notInsertInto tbl fileID :
  tbl ≠ "rcv_files"%string → emits (notInsertInto tbl) (insertRcvFile w fileID).
Proof.
  intros Hne. pose proof (allowsReads_notInsertInto tbl) as HR.
  unfold insertRcvFile.
  apply emits_bind; [by apply yields_getTemplateRow|]. intros templateRow.
  apply emits_bind; [by apply yields_getTableColumns|]. intros columns.
  apply emits_bind; [apply yields_timeNow|]. intros createdAt.
  apply emits_bind; [apply yields_timeNow|]. intros updatedAt.
  apply emits_bind; [apply emits_liftR|]. intros _.
  apply yields_execInsert. cbn. congruence.
Qed.

Lemma insertFileAttachment_notInsertInto tbl attachment chatItemID isSent
    jsonDir messageType contactID simplexFilesDir :
  tbl ∉ ["files"; "snd_files"; "rcv_files"]%string →
  emits (notInsertInto tbl)
    (insertFileAttachment w attachment chatItemID isSent jsonDir messageType
       contactID simplexFilesDir).
Proof.
  intros Hnot. pose proof (allowsReads_notInsertInto tbl) as HR.
  assert (tbl ≠ "files"%string) by (intros ->; apply Hnot; list_mem).
  assert (tbl ≠ "snd_files"%string) by (intros ->; apply Hnot; list_mem).
  assert (tbl ≠ "rcv_files"%string) by (intros ->; apply Hnot; list_mem).
  unfold insertFileAttachment. case_match; [apply yields_fail|].
  apply emits_bind; [by apply yields_wrapErr, yields_getTemplateRow|].
  intros templateRow.
  apply emits_bind; [by apply yields_wrapErr, yields_queryNextID|].
  intros nextFileID.
  apply emits_bind; [by apply yields_getTableColumns|]. intros columns.
  apply emits_bind; [apply emits_liftR|]. intros truncatedFilename.
  apply emits_bind; [apply yields_wrapErr, emits_liftR|]. intros _.
  apply emits_bind; [apply yields_timeNow|]. intros createdAt.
  apply emits_bind; [apply yields_timeNow|]. intros updatedAt.
  apply emits_bind; [apply emits_liftR|]. intros _.
  apply emits_bind.
  { apply yields_wrapErr, yields_execInsert. cbn. congruence. }
  intros _.
  apply emits_bind; [|intros; apply emits_ret].
  case_match; [|apply emits_ret]. apply yields_wrapErr.
  destruct isSent;
    [by apply insertSndFile_notInsertInto|by apply insertRcvFile_notInsertInto].
Qed.

(** The events of a step before its chunk loop, and the table it reads. *)
Lemma getTemplateRow_table tbl idColumn s templateRow s' :
  getTemplateRow w tbl idColumn s = (Ok templateRow, s') →
  ∃ t, st_db s !! tbl = Some t.
Proof.
  unfold getTemplateRow. intros Hrun.
  apply bind_ok_inv in Hrun as (templateID & s1 & Hq%wrapErr_ok_inv & _).
  unfold queryMax in Hq.
  apply bind_ok_inv in Hq as ([] & s0 & Hl & Hq).
  injection Hl as <-.
  destruct (selectMax_run tbl idColumn
              {| st_db := st_db s; st_log := st_log s ++ [EvMax tbl idColumn] |})
    as [_ Hm].
  rewrite Hq in Hm. destruct (Hm _ eq_refl) as (t & Ht & _). by exists t.
Qed.

Lemma bulkInsertMessages_sized data jsonDir contactID s s' :
  bulkInsertMessages w data jsonDir contactID s = (Ok tt, s') →
  len (Messages data) < 2 ^ 62 →
  ∃ t templateRow evs,
    st_db s !! "messages"%string = Some t
    ∧ (getTemplateRow w "messages" "message_id" s).1 = Ok templateRow
    ∧ st_log s' = st_log s ++ evs
    ∧ length (insertedRows "messages" evs) = length (Messages data)
    ∧ (∀ g d, Messages data !! g = Some d →
        ∃ msgBodyBytes,
          w_jsonMarshal w (msgBodyJSON w jsonDir (Message d))
          = inr msgBodyBytes
          ∧ insertedRows "messages" evs !! g
            = Some (t_columns t,
                    buildRowValues (messagesOverrides w d msgBodyBytes)
                      templateRow (t_columns t)))
    ∧ ∃ chunkSize,
        calculateChunkSize (len (t_columns t)) 900 = Ok chunkSize
        ∧ length <$> insertedInto "messages" evs
          = (λ c : Z * Z * list MessageInsertData, length c.2)
            <$> chunksOf (Messages data) chunkSize.
Proof.
  intros Hrun Hlen. unfold bulkInsertMessages in Hrun.
  apply bind_ok_inv in Hrun as (templateRow & s1 & Ht%wrapErr_ok_inv & Hrun).
  destruct (getTemplateRow_table _ _ _ _ _ Ht) as (t & Htbl).
  destruct (run_log _ _ _ _ _
              (yields_getTemplateRow w (notInsertInto "messages") _ _
                 (allowsReads_notInsertInto _)) Ht)
    as (evs1 & Hlog1 & Hevs1).
  pose proof (run_db _ _ _ _ (preservesDb_getTemplateRow _ _ _) Ht) as Hdb1.
  apply bind_ok_inv in Hrun as (columns & s2 & Hc & Hrun).
  rewrite getTableColumns_run in Hc. injection Hc as <- <-.
  rewrite Hdb1, Htbl in Hrun. cbn [from_option] in Hrun.
  apply bind_ok_inv in Hrun as (chunkSize & s4 & Hcs & Hrun).
  apply liftR_ok_inv in Hcs as [Hcs ->].
  pose proof Hcs as Hcs0.
  apply calculateChunkSize_900 in Hcs; [|unfold len; lia].
  apply (forChunks_rows w "messages" (t_columns t)
           (λ _ _ msgData,
              liftR (messagesRow w jsonDir (t_columns t) templateRow msgData))
           (λ _ d row,
              ∃ msgBodyBytes,
                w_jsonMarshal w (msgBodyJSON w jsonDir (Message d))
                = inr msgBodyBytes
                ∧ row = buildRowValues (messagesOverrides w d msgBodyBytes)
                          templateRow (t_columns t))) in Hrun;
    [|intros i j d; apply yields_liftR; unfold messagesRow;
      intros row; destruct (w_jsonMarshal w _) as [e|bytes]; [done|];
      intros Hrow; exists bytes; split; [done|congruence]
     |unfold maxInt; lia|done].
  destruct Hrun as (evs2 & Hlog2 & Hl & HR & Hsz). cbn [st_log] in Hlog2.
  exists t, templateRow, (evs1 ++ [EvColumns "messages"] ++ evs2). split_and!.
  - done.
  - by rewrite Ht.
  - rewrite Hlog2, Hlog1, <- !app_assoc. done.
  - rewrite !insertedRows_app, (insertedRows_none _ evs1) by done. done.
  - intros g d Hd. destruct (HR g d Hd) as (row & Hr & bytes & Hb & ->).
    exists bytes. split; [done|].
    rewrite !insertedRows_app, (insertedRows_none _ evs1) by done. done.
  - exists chunkSize. split; [done|].
    by rewrite !insertedInto_app, (insertedInto_none _ evs1) by done.
Qed.

Lemma bulkInsertMessages_rows data jsonDir contactID s s' :
  bulkInsertMessages w data jsonDir contactID s = (Ok tt, s') →
  len (Messages data) < 2 ^ 62 →
  ∃ t evs,
    st_db s !! "messages"%string = Some t
    ∧ st_log s' = st_log s ++ evs
    ∧ length (insertedRows "messages" evs) = length (Messages data)
    ∧ ∀ g d, Messages data !! g = Some d →
        ∃ templateRow msgBodyBytes,
          w_jsonMarshal w (msgBodyJSON w jsonDir (Message d))
          = inr msgBodyBytes
          ∧ insertedRows "messages" evs !! g
            = Some (t_columns t,
                    buildRowValues (messagesOverrides w d msgBodyBytes)
                      templateRow (t_columns t)).
Proof.
  intros Hrun Hlen.
  pose proof Hrun as Hsized. apply bulkInsertMessages_sized in Hsized; [|done].
  destruct Hsized as (t & T & evs & ? & _ & ? & ? & HR & _).
  exists t, evs. split_and!; [done..|].
  intros g d Hd. destruct (HR g d Hd) as (bytes & ? & ?).
  by exists T, bytes.
Qed.

Lemma chatItemsRow_yields jsonDir contactID simplexFilesDir columns templateRow d :
  yields (notInsertInto "chat_items")
    (λ row, ∃ itemContentBytes quoted,
       row = buildRowValues
               (chatItemsOverrides w d contactID itemContentBytes quoted)
               templateRow columns)
    (chatItemsRow w jsonDir contactID simplexFilesDir columns templateRow d).
Proof.
  unfold chatItemsRow.
  eapply yields_bind with (Q := λ _, True).
  - destruct (m_Attachments (Message d)) as [|attachment rest];
      [by apply yields_ret|].
    apply emits_bind; [|intros; apply emits_ret].
    apply yields_attempt, insertFileAttachment_notInsertInto.
    intros Hin. repeat (apply elem_of_cons in Hin as [?|Hin]; [done|]).
    by apply elem_of_nil in Hin.
  - intros _ _. apply yields_liftR. intros row. unfold chatItemsRowValues.
    destruct (w_jsonMarshal w _) as [e|bytes]; [done|].
    destruct (m_QuotedMessage (Message d)) as [q|].
    + destruct (w_jsonMarshal w _) as [e|qbytes]; [done|].
      intros Hrow. exists bytes, (Some (q, qbytes)). congruence.
    + intros Hrow. exists bytes, None. congruence.
Qed.

Lemma chatItemsRow_values jsonDir contactID simplexFilesDir columns templateRow d :
  yields (notInsertInto "chat_items")
    (λ row,
       chatItemsRowValues w jsonDir contactID columns templateRow d = Ok row)
    (chatItemsRow w jsonDir contactID simplexFilesDir columns templateRow d).
Proof.
  unfold chatItemsRow.
  eapply yields_bind with (Q := λ _, True).
  - destruct (m_Attachments (Message d)) as [|attachment rest];
      [by apply yields_ret|].
    apply emits_bind; [|intros; apply emits_ret].
    apply yields_attempt, insertFileAttachment_notInsertInto.
    intros Hin. repeat (apply elem_of_cons in Hin as [?|Hin]; [done|]).
    by apply elem_of_nil in Hin.
  - intros _ _. by apply yields_liftR.
Qed.

Lemma chatItemsRowValues_overrides jsonDir contactID columns templateRow d row :
  chatItemsRowValues w jsonDir contactID columns templateRow d = Ok row →
  ∃ itemContentBytes quoted,
    row = buildRowValues
            (chatItemsOverrides w d contactID itemContentBytes quoted)
            templateRow columns.
Proof.
  unfold chatItemsRowValues.
  destruct (w_jsonMarshal w _) as [e|bytes]; [done|].
  destruct (m_QuotedMessage (Message d)) as [q|].
  - destruct (w_jsonMarshal w _) as [e|qbytes]; [done|].
    intros Hrow. exists bytes, (Some (q, qbytes)). congruence.
  - intros Hrow. exists bytes, None. congruence.
Qed.

Lemma bulkInsertChatItems_sized data jsonDir contactID simplexFilesDir s s' :
  bulkInsertChatItems w data jsonDir contactID simplexFilesDir s = (Ok tt, s') →
  len (Messages data) < 2 ^ 62 →
  ∃ t templateRow evs,
    st_db s !! "chat_items"%string = Some t
    ∧ (getTemplateRow w "chat_items" "chat_item_id" s).1 = Ok templateRow
    ∧ st_log s' = st_log s ++ evs
    ∧ length (insertedRows "chat_items" evs) = length (Messages data)
    ∧ (∀ g d, Messages data !! g = Some d →
        ∃ row,
          chatItemsRowValues w jsonDir contactID (t_columns t) templateRow d
          = Ok row
          ∧ insertedRows "chat_items" evs !! g = Some (t_columns t, row))
    ∧ ∃ chunkSize,
        calculateChunkSize (len (t_columns t)) 900 = Ok chunkSize
        ∧ length <$> insertedInto "chat_items" evs
          = (λ c : Z * Z * list MessageInsertData, length c.2)
            <$> chunksOf (Messages data) chunkSize.
Proof.
  intros Hrun Hlen. unfold bulkInsertChatItems in Hrun.
  apply bind_ok_inv in Hrun as (templateRow & s1 & Ht%wrapErr_ok_inv & Hrun).
  destruct (getTemplateRow_table _ _ _ _ _ Ht) as (t & Htbl).
  destruct (run_log _ _ _ _ _
              (yields_getTemplateRow w (notInsertInto "chat_items") _ _
                 (allowsReads_notInsertInto _)) Ht)
    as (evs1 & Hlog1 & Hevs1).
  pose proof (run_db _ _ _ _ (preservesDb_getTemplateRow _ _ _) Ht) as Hdb1.
  apply bind_ok_inv in Hrun as (columns & s2 & Hc & Hrun).
  rewrite getTableColumns_run in Hc. injection Hc as <- <-.
  rewrite Hdb1, Htbl in Hrun. cbn [from_option] in Hrun.
  apply bind_ok_inv in Hrun as (chunkSize & s4 & Hcs & Hrun).
  apply liftR_ok_inv in Hcs as [Hcs ->].
  pose proof Hcs as Hcs0.
  apply calculateChunkSize_900 in Hcs; [|unfold len; lia].
  apply (forChunks_rows w "chat_items" (t_columns t)
           (λ _ _ msgData,
              chatItemsRow w jsonDir contactID simplexFilesDir (t_columns t)
                templateRow msgData)
           (λ _ d row,
              chatItemsRowValues w jsonDir contactID (t_columns t) templateRow
                d = Ok row)) in Hrun;
    [|intros i j d; apply chatItemsRow_values|unfold maxInt; lia|done].
  destruct Hrun as (evs2 & Hlog2 & Hl & HR & Hsz). cbn [st_log] in Hlog2.
  exists t, templateRow, (evs1 ++ [EvColumns "chat_items"] ++ evs2). split_and!.
  - done.
  - by rewrite Ht.
  - rewrite Hlog2, Hlog1, <- !app_assoc. done.
  - rewrite !insertedRows_app, (insertedRows_none _ evs1) by done. done.
  - intros g d Hd. destruct (HR g d Hd) as (row & Hr & Hrow).
    exists row. split; [done|].
    rewrite !insertedRows_app, (insertedRows_none _ evs1) by done. done.
  - exists chunkSize. split; [done|].
    by rewrite !insertedInto_app, (insertedInto_none _ evs1) by done.
Qed.

Lemma bulkInsertChatItems_rows data jsonDir contactID simplexFilesDir s s' :
  bulkInsertChatItems w data jsonDir contactID simplexFilesDir s = (Ok tt, s') →
  len (Messages data) < 2 ^ 62 →
  ∃ t evs,
    st_db s !! "chat_items"%string = Some t
    ∧ st_log s' = st_log s ++ evs
    ∧ length (insertedRows "chat_items" evs) = length (Messages data)
    ∧ ∀ g d, Messages data !! g = Some d →
        ∃ templateRow itemContentBytes quoted,
          insertedRows "chat_items" evs !! g
          = Some (t_columns t,
                  buildRowValues
                    (chatItemsOverrides w d contactID itemContentBytes quoted)
                    templateRow (t_columns t)).
Proof.
  intros Hrun Hlen.
  pose proof Hrun as Hsized. apply bulkInsertChatItems_sized in Hsized; [|done].
  destruct Hsized as (t & T & evs & ? & _ & ? & ? & HR & _).
  exists t, evs. split_and!; [done..|].
  intros g d Hd. destruct (HR g d Hd) as (row & Hrow & ?).
  apply chatItemsRowValues_overrides in Hrow as (bytes & quoted & ->).
  by exists T, bytes, quoted.
Qed.

Lemma bulkInsertChatItemMessages_sized data s s' :
  bulkInsertChatItemMessages w data s = (Ok tt, s') →
  len (Messages data) < 2 ^ 62 →
  ∃ t templateRow evs,
    st_db s !! "chat_item_messages"%string = Some t
    ∧ (getTemplateRow w "chat_item_messages" "rowid" s).1 = Ok templateRow
    ∧ st_log s' = st_log s ++ evs
    ∧ length (insertedRows "chat_item_messages" evs) = length (Messages data)
    ∧ (∀ g d, Messages data !! g = Some d →
          insertedRows "chat_item_messages" evs !! g
          = Some (t_columns t,
                  buildRowValues
                    (chatItemMessagesOverrides w d
                       (default 0 (colMax "rowid" (t_rows t)) + 1)
                       (Z.of_nat g) 0)
                    templateRow (t_columns t)))
    ∧ ∃ chunkSize,
        calculateChunkSize (len (t_columns t)) 900 = Ok chunkSize
        ∧ length <$> insertedInto "chat_item_messages" evs
          = (λ c : Z * Z * list MessageInsertData, length c.2)
            <$> chunksOf (Messages data) chunkSize.
Proof.
  intros Hrun Hlen. unfold bulkInsertChatItemMessages in Hrun.
  apply bind_ok_inv in Hrun as (templateRow & s1 & Ht%wrapErr_ok_inv & Hrun).
  destruct (getTemplateRow_table _ _ _ _ _ Ht) as (t & Htbl).
  destruct (run_log _ _ _ _ _
              (yields_getTemplateRow w (notInsertInto "chat_item_messages") _ _
                 (allowsReads_notInsertInto _)) Ht)
    as (evs1 & Hlog1 & Hevs1).
  pose proof (run_db _ _ _ _ (preservesDb_getTemplateRow _ _ _) Ht) as Hdb1.
  apply bind_ok_inv in Hrun as (columns & s2 & Hc & Hrun).
  rewrite getTableColumns_run in Hc. injection Hc as <- <-.
  rewrite Hdb1, Htbl in Hrun. cbn [from_option] in Hrun.
  apply bind_ok_inv in Hrun as (nextRowID & s3 & Hn%wrapErr_ok_inv & Hrun).
  match type of Hn with queryNextID _ _ ?s0 = _ =>
    destruct (queryNextID_run "chat_item_messages" "rowid" s0)
      as (Hdb3 & Hlog3 & Hnext)
  end.
  rewrite Hn in Hdb3, Hlog3, Hnext. cbn [fst snd st_db st_log] in *.
  destruct (Hnext _ eq_refl) as (t' & Ht' & ->). rewrite Htbl in Ht'.
  injection Ht' as <-.
  apply bind_ok_inv in Hrun as (chunkSize & s4 & Hcs & Hrun).
  apply liftR_ok_inv in Hcs as [Hcs ->].
  pose proof Hcs as Hcs0.
  apply calculateChunkSize_900 in Hcs; [|unfold len; lia].
  set (nextRowID := default 0 (colMax "rowid" (t_rows t)) + 1) in *.
  apply (forChunks_rows w "chat_item_messages" (t_columns t)
           (λ i j msgData,
              mret (buildRowValues
                      (chatItemMessagesOverrides w msgData nextRowID i j)
                      templateRow (t_columns t)))
           (λ g d row,
              row = buildRowValues
                      (chatItemMessagesOverrides w d nextRowID g 0)
                      templateRow (t_columns t))) in Hrun;
    [|intros i j d; apply yields_ret; unfold chatItemMessagesOverrides;
      by rewrite !addInt_assoc2, Z.add_0_r, Z.add_assoc
     |unfold maxInt; lia|done].
  destruct Hrun as (evs2 & Hlog2 & Hl & HR & Hsz).
  exists t, templateRow, (evs1 ++ [EvColumns "chat_item_messages";
                      EvCoalesceMax "chat_item_messages" "rowid" 1] ++ evs2).
  split_and!.
  - done.
  - by rewrite Ht.
  - rewrite Hlog2, Hlog3, Hlog1, <- !app_assoc. done.
  - rewrite !insertedRows_app, (insertedRows_none _ evs1) by done. done.
  - intros g d Hd. destruct (HR g d Hd) as (row & Hr & ->).
    rewrite !insertedRows_app, (insertedRows_none _ evs1) by done. done.
  - exists chunkSize. split; [done|].
    by rewrite !insertedInto_app, (insertedInto_none _ evs1) by done.
Qed.

Lemma bulkInsertChatItemMessages_rows data s s' :
  bulkInsertChatItemMessages w data s = (Ok tt, s') →
  len (Messages data) < 2 ^ 62 →
  ∃ t evs,
    st_db s !! "chat_item_messages"%string = Some t
    ∧ st_log s' = st_log s ++ evs
    ∧ length (insertedRows "chat_item_messages" evs) = length (Messages data)
    ∧ ∀ g d, Messages data !! g = Some d →
        ∃ templateRow,
          insertedRows "chat_item_messages" evs !! g
          = Some (t_columns t,
                  buildRowValues
                    (chatItemMessagesOverrides w d
                       (default 0 (colMax "rowid" (t_rows t)) + 1)
                       (Z.of_nat g) 0)
                    templateRow (t_columns t)).
Proof.
  intros Hrun Hlen.
  pose proof Hrun as Hsized. apply bulkInsertChatItemMessages_sized in Hsized; [|done].
  destruct Hsized as (t & T & evs & ? & _ & ? & ? & HR & _).
  exists t, evs. split_and!; [done..|].
  intros g d Hd. exists T. by apply HR.
Qed.

Lemma bulkInsertMsgDeliveries_sized data s s' :
  bulkInsertMsgDeliveries w data s = (Ok tt, s') →
  len (Messages data) < 2 ^ 62 →
  ∃ t templateRow evs,
    st_db s !! "msg_deliveries"%string = Some t
    ∧ (getTemplateRow w "msg_deliveries" "msg_delivery_id" s).1 = Ok templateRow
    ∧ st_log s' = st_log s ++ evs
    ∧ length (insertedRows "msg_deliveries" evs) = length (Messages data)
    ∧ (∀ g d, Messages data !! g = Some d →
          insertedRows "msg_deliveries" evs !! g
          = Some (t_columns t,
                  buildRowValues
                    (msgDeliveriesOverrides w d
                       (default 0 (colMax "agent_msg_id" (t_rows t)))
                       (Z.of_nat g) 0)
                    templateRow (t_columns t)))
    ∧ ∃ chunkSize,
        calculateChunkSize (len (t_columns t)) 900 = Ok chunkSize
        ∧ length <$> insertedInto "msg_deliveries" evs
          = (λ c : Z * Z * list MessageInsertData, length c.2)
            <$> chunksOf (Messages data) chunkSize.
Proof.
  intros Hrun Hlen. unfold bulkInsertMsgDeliveries in Hrun.
  apply bind_ok_inv in Hrun as (templateRow & s1 & Ht%wrapErr_ok_inv & Hrun).
  destruct (getTemplateRow_table _ _ _ _ _ Ht) as (t & Htbl).
  destruct (run_log _ _ _ _ _
              (yields_getTemplateRow w (notInsertInto "msg_deliveries") _ _
                 (allowsReads_notInsertInto _)) Ht)
    as (evs1 & Hlog1 & Hevs1).
  pose proof (run_db _ _ _ _ (preservesDb_getTemplateRow _ _ _) Ht) as Hdb1.
  apply bind_ok_inv in Hrun as (columns & s2 & Hc & Hrun).
  rewrite getTableColumns_run in Hc. injection Hc as <- <-.
  rewrite Hdb1, Htbl in Hrun. cbn [from_option] in Hrun.
  apply bind_ok_inv in Hrun as (maxAgentMsgID & s3 & Hn%wrapErr_ok_inv & Hrun).
  match type of Hn with queryMaxOrZero _ _ ?s0 = _ =>
    destruct (queryMaxOrZero_run "msg_deliveries" "agent_msg_id" s0)
      as (Hdb3 & Hlog3 & Hmax)
  end.
  rewrite Hn in Hdb3, Hlog3, Hmax. cbn [fst snd st_db st_log] in *.
  destruct (Hmax _ eq_refl) as (t' & Ht' & ->). rewrite Htbl in Ht'.
  injection Ht' as <-.
  apply bind_ok_inv in Hrun as (chunkSize & s4 & Hcs & Hrun).
  apply liftR_ok_inv in Hcs as [Hcs ->].
  pose proof Hcs as Hcs0.
  apply calculateChunkSize_900 in Hcs; [|unfold len; lia].
  set (maxAgentMsgID := default 0 (colMax "agent_msg_id" (t_rows t))) in *.
  apply (forChunks_rows w "msg_deliveries" (t_columns t)
           (λ i j msgData,
              mret (buildRowValues
                      (msgDeliveriesOverrides w msgData maxAgentMsgID i j)
                      templateRow (t_columns t)))
           (λ g d row,
              row = buildRowValues
                      (msgDeliveriesOverrides w d maxAgentMsgID g 0)
                      templateRow (t_columns t))) in Hrun;
    [|intros i j d; apply yields_ret; unfold msgDeliveriesOverrides;
      by rewrite !addInt_assoc3, Z.add_0_r, !Z.add_assoc
     |unfold maxInt; lia|done].
  destruct Hrun as (evs2 & Hlog2 & Hl & HR & Hsz).
  exists t, templateRow, (evs1 ++ [EvColumns "msg_deliveries";
                      EvCoalesceMax "msg_deliveries" "agent_msg_id" 0] ++ evs2).
  split_and!.
  - done.
  - by rewrite Ht.
  - rewrite Hlog2, Hlog3, Hlog1, <- !app_assoc. done.
  - rewrite !insertedRows_app, (insertedRows_none _ evs1) by done. done.
  - intros g d Hd. destruct (HR g d Hd) as (row & Hr & ->).
    rewrite !insertedRows_app, (insertedRows_none _ evs1) by done. done.
  - exists chunkSize. split; [done|].
    by rewrite !insertedInto_app, (insertedInto_none _ evs1) by done.
Qed.

Lemma bulkInsertMsgDeliveries_rows data s s' :
  bulkInsertMsgDeliveries w data s = (Ok tt, s') →
  len (Messages data) < 2 ^ 62 →
  ∃ t evs,
    st_db s !! "msg_deliveries"%string = Some t
    ∧ st_log s' = st_log s ++ evs
    ∧ length (insertedRows "msg_deliveries" evs) = length (Messages data)
    ∧ ∀ g d, Messages data !! g = Some d →
        ∃ templateRow,
          insertedRows "msg_deliveries" evs !! g
          = Some (t_columns t,
                  buildRowValues
                    (msgDeliveriesOverrides w d
                       (default 0 (colMax "agent_msg_id" (t_rows t)))
                       (Z.of_nat g) 0)
                    templateRow (t_columns t)).
Proof.
  intros Hrun Hlen.
  pose proof Hrun as Hsized. apply bulkInsertMsgDeliveries_sized in Hsized; [|done].
  destruct Hsized as (t & T & evs & ? & _ & ? & ? & HR & _).
  exists t, evs. split_and!; [done..|].
  intros g d Hd. exists T. by apply HR.
Qed.

End Rows.


(** ** The claim about chunking *)

(** From the rows a step has inserted to its statements. *)
Lemma sized_chunked tbl (data : list MessageInsertData) chunkSize evs columns
    (R : nat → MessageInsertData → list value → Prop) :
  1 ≤ chunkSize →
  length (insertedRows tbl evs) = length data →
  (∀ g d, data !! g = Some d →
          ∃ row, insertedRows tbl evs !! g = Some (columns, row) ∧ R g d row) →
  length <$> insertedInto tbl evs
  = (λ c : Z * Z * list MessageInsertData, length c.2)
    <$> chunksOf data chunkSize →
  length (insertedInto tbl evs) = chunkCount (len data) chunkSize
  ∧ length <$> insertedInto tbl evs
    = (λ c : Z * Z * list MessageInsertData, length c.2)
      <$> chunksOf data chunkSize
  ∧ Forall (λ rows, 1 ≤ len rows ≤ chunkSize) (insertedInto tbl evs)
  ∧ length (concat (insertedInto tbl evs)) = length data
  ∧ ∀ g d, data !! g = Some d →
      ∃ row, concat (insertedInto tbl evs) !! g = Some row ∧ R g d row.
Proof.
  intros Hcs Hl HR Hsz. split_and!.
  - apply (f_equal length) in Hsz. rewrite !length_fmap in Hsz.
    by rewrite Hsz, chunksOf_length.
  - done.
  - pose proof (chunksOf_sizes data chunkSize Hcs) as Hall.
    assert (Forall (λ n, 1 ≤ Z.of_nat n ≤ chunkSize)
              (length <$> insertedInto tbl evs)) as Hn.
    { rewrite Hsz. apply Forall_fmap. exact Hall. }
    apply Forall_fmap in Hn. exact Hn.
  - by rewrite <- insertedRows_concat, length_fmap.
  - intros g d Hd. destruct (HR g d Hd) as (row & Hrow & HRrow).
    exists row. split; [|done].
    by rewrite <- insertedRows_concat, list_lookup_fmap, Hrow.
Qed.

Lemma singleRow_step w tbl e :
  tbl ∉ singleRowTables → stepEvent w [tbl] e → singleRow e.
Proof.
  intros Hn He. destruct e; try done. destruct He as [Hin _].
  apply list_elem_of_singleton in Hin as ->. by intros ?.
Qed.

Lemma singleRow_fileEvent w e : fileEvent w e → singleRow e.
Proof. intros [He _]. destruct e; try done. by intros _. Qed.

Lemma singleRow_reactionEvent w e : reactionEvent w e → singleRow e.
Proof.
  destruct e; try done. intros (_ & _ & ? & ? & ? & ? & ->). by intros _.
Qed.

Section Statements.
Context (w : World).

Lemma bulkInsertMessages_chunked data jsonDir contactID :
  chunked w "messages" "message_id" (Messages data)
    (λ templateRow columns _ _ d row,
       messagesRow w jsonDir columns templateRow d = Ok row)
    (bulkInsertMessages w data jsonDir contactID).
Proof.
  intros s s' Hrun Hlen.
  apply bulkInsertMessages_sized in Hrun
    as (t & T & evs & Ht & HT & Hlog & Hl & HR & cs & Hcs & Hsz); [|done].
  exists T, cs, evs. unfold columnsAt. rewrite Ht. cbn [from_option].
  do 3 (split; [done|]).
  apply (sized_chunked _ _ _ _ (t_columns t)); [|done| |done].
  - apply calculateChunkSize_900 in Hcs; [lia|unfold len; lia].
  - intros g d Hd. destruct (HR g d Hd) as (bytes & Hb & Hrow).
    eexists. split; [exact Hrow|]. unfold messagesRow. by rewrite Hb.
Qed.

Lemma bulkInsertChatItems_chunked data jsonDir contactID simplexFilesDir :
  chunked w "chat_items" "chat_item_id" (Messages data)
    (λ templateRow columns _ _ d row,
       chatItemsRowValues w jsonDir contactID columns templateRow d = Ok row)
    (bulkInsertChatItems w data jsonDir contactID simplexFilesDir).
Proof.
  intros s s' Hrun Hlen.
  apply bulkInsertChatItems_sized in Hrun
    as (t & T & evs & Ht & HT & Hlog & Hl & HR & cs & Hcs & Hsz); [|done].
  exists T, cs, evs. unfold columnsAt. rewrite Ht. cbn [from_option].
  do 3 (split; [done|]).
  apply (sized_chunked _ _ _ _ (t_columns t)); [|done| |done].
  - apply calculateChunkSize_900 in Hcs; [lia|unfold len; lia].
  - intros g d Hd. destruct (HR g d Hd) as (row & Hrow & Hins).
    by exists row.
Qed.

Lemma bulkInsertChatItemMessages_chunked data :
  chunked w "chat_item_messages" "rowid" (Messages data)
    (λ templateRow columns s g d row,
       row = buildRowValues
               (chatItemMessagesOverrides w d
                  (default 0
                     (colMax "rowid"
                        (from_option t_rows []
                           (st_db s !! "chat_item_messages"%string))) + 1)
                  (Z.of_nat g) 0)
               templateRow columns)
    (bulkInsertChatItemMessages w data).
Proof.
  intros s s' Hrun Hlen.
  apply bulkInsertChatItemMessages_sized in Hrun
    as (t & T & evs & Ht & HT & Hlog & Hl & HR & cs & Hcs & Hsz); [|done].
  exists T, cs, evs. unfold columnsAt. rewrite Ht. cbn [from_option].
  do 3 (split; [done|]).
  apply (sized_chunked _ _ _ _ (t_columns t)); [|done| |done].
  - apply calculateChunkSize_900 in Hcs; [lia|unfold len; lia].
  - intros g d Hd. eexists. split; [by apply HR|done].
Qed.

Lemma bulkInsertMsgDeliveries_chunked data :
  chunked w "msg_deliveries" "msg_delivery_id" (Messages data)
    (λ templateRow columns s g d row,
       row = buildRowValues
               (msgDeliveriesOverrides w d
                  (default 0
                     (colMax "agent_msg_id"
                        (from_option t_rows []
                           (st_db s !! "msg_deliveries"%string))))
                  (Z.of_nat g) 0)
               templateRow columns)
    (bulkInsertMsgDeliveries w data).
Proof.
  intros s s' Hrun Hlen.
  apply bulkInsertMsgDeliveries_sized in Hrun
    as (t & T & evs & Ht & HT & Hlog & Hl & HR & cs & Hcs & Hsz); [|done].
  exists T, cs, evs. unfold columnsAt. rewrite Ht. cbn [from_option].
  do 3 (split; [done|]).
  apply (sized_chunked _ _ _ _ (t_columns t)); [|done| |done].
  - apply calculateChunkSize_900 in Hcs; [lia|unfold len; lia].
  - intros g d Hd. eexists. split; [by apply HR|done].
Qed.

(** The statements of a batch into the tables that are not chunked carry
    one row each. *)
Lemma batchSteps_singleRow messages startMessageID jsonDir contactID
    simplexFilesDir :
  emits singleRow
    (batchSteps w messages startMessageID jsonDir contactID simplexFilesDir).
Proof.
  assert (∀ tbl, tbl ∈ ["messages"; "chat_items"; "chat_item_messages";
                        "msg_deliveries"]%string → tbl ∉ singleRowTables)
    as Hchunked.
  { intros tbl Hin Hs.
    repeat (apply elem_of_cons in Hin as [->|Hin];
            [by repeat (apply elem_of_cons in Hs as [?|Hs]; [done|]);
                apply elem_of_nil in Hs|]).
    by apply elem_of_nil in Hin. }
  unfold batchSteps.
  apply emits_bind; [by apply yields_wrapErr, yields_queryMaxOrZero_ev|].
  intros maxChatItemID. cbv zeta.
  apply emits_bind.
  { apply yields_wrapErr.
    eapply yields_mono; [| |apply bulkInsertMessages_events]; [|done].
    intros e. apply singleRow_step, Hchunked. list_mem. }
  intros _. apply emits_bind.
  { apply yields_wrapErr, emits_of_trace. intros s.
    destruct (bulkInsertChatItems_trace w
                (prepareBulkData messages startMessageID maxChatItemID)
                jsonDir contactID simplexFilesDir s)
      as (evs & Hlog & [(T & _ & Hevs)|Hevs]); exists evs; (split; [done|]).
    - eapply Forall_impl; [exact Hevs|]. intros e [He|He].
      + destruct e; try done. destruct He as (-> & _). intros Hs.
        by apply (Hchunked "chat_items"%string) in Hs; [|list_mem].
      + by eapply singleRow_fileEvent.
    - eapply Forall_impl; [exact Hevs|]. intros e He. by destruct e. }
  intros _. apply emits_bind.
  { apply yields_wrapErr.
    eapply yields_mono; [| |apply bulkInsertChatItemMessages_events]; [|done].
    intros e. apply singleRow_step, Hchunked. list_mem. }
  intros _. apply emits_bind.
  { apply yields_wrapErr.
    eapply yields_mono; [| |apply bulkInsertMsgDeliveries_events]; [|done].
    intros e. apply singleRow_step, Hchunked. list_mem. }
  intros _. apply yields_wrapErr.
  eapply yields_mono; [| |apply bulkInsertReactions_reactionEvent]; [|done].
  apply singleRow_reactionEvent.
Qed.

Lemma bulkInsertUniversalMessages_emits (P : event → Prop) messages
    startMessageID jsonDir contactID simplexFilesDir :
  P EvBegin → P EvCommit → P EvRollback →
  emits P
    (batchSteps w messages startMessageID jsonDir contactID simplexFilesDir) →
  emits P
    (bulkInsertUniversalMessages w messages startMessageID jsonDir contactID
       simplexFilesDir).
Proof.
  intros Hb Hc Hr Hsteps s. split; [|done].
  pose proof (bulkInsertUniversalMessages_run w messages startMessageID jsonDir
                contactID simplexFilesDir s) as Hrun. cbv zeta in Hrun.
  destruct (Hsteps {| st_db := st_db s; st_log := st_log s ++ [EvBegin] |})
    as [(evs & Hlog & Hevs) _]. cbn [st_log] in Hlog.
  destruct Hrun
    as [(_ & _ & _ & Hout)|[(_ & _ & _ & _ & [Hl|Hl])|(_ & _ & Hout)]].
  - exists ([EvBegin] ++ evs ++ [EvCommit]). rewrite Hout. cbn [snd st_log].
    rewrite Hlog, <- !app_assoc. split; [done|].
    repeat (apply Forall_app; split); by repeat constructor.
  - exists ([EvBegin] ++ evs ++ [EvRollback]).
    rewrite Hl, Hlog, <- !app_assoc. split; [done|].
    repeat (apply Forall_app; split); by repeat constructor.
  - exists ([EvBegin] ++ evs ++ [EvCommit; EvRollback]).
    rewrite Hl, Hlog, <- !app_assoc. split; [done|].
    repeat (apply Forall_app; split); by repeat constructor.
  - exists [EvBegin]. rewrite Hout. cbn [st_log]. split; [done|].
    by repeat constructor.
Qed.

End Statements.

(** C3, as the specification states it, fails for a table with more
    columns than the ceiling: with 901 columns and the ceiling 900 the
    chunk size is 1, so a statement binds 901 parameters, and the divisor
    [floor(P/C)] of the claimed count is zero.  It also fails for a table
    that is not filled in chunks: the two rows of [files], a table of two
    columns, go in two statements, where the claimed count is one. *)
Lemma wide_table_chunk_exceeds_ceiling :
  calculateChunkSize 901 900 = Ok 1
  ∧ ¬ (1 * 901 ≤ 900)
  ∧ 900 / 901 = 0
  ∧ length (chunksOf [VInt 1; VInt 2] 1) = 2%nat
  ∧ calculateChunkSize 2 900 = Ok 450
  ∧ length <$> insertedInto "files" (st_log exampleRun.2) = [1; 1]%nat.
Proof. split_and!; [done|lia|done|done|done|by vm_compute]. Qed.

(** C3, amended. For [C >= 1] columns and a ceiling [P >= 1] the chunk
    size is [max(1, floor(P/C))]: [chunkSize * C] does not exceed [P]
    provided [C <= P], and when [C > P] the chunk size is 1 and a statement
    carries [C > P] parameters.  Each of the four tables filled in chunks
    (messages, chat_items, chat_item_messages, msg_deliveries; the ceiling
    of the code is 900 and [C] the number of introspected columns) gets,
    from a step that returns without error on a batch of [N] messages,
    exactly [ceil(N / chunkSize)] insert statements, statement [k] carrying
    as many rows as chunk [k] of the batch has messages, at least one and
    at most [chunkSize]; the rows of the statements, one after the other,
    are [N], row [g] being the row built for message [g] of the batch.
    The rows of files, snd_files, rcv_files and chat_item_reactions are
    not chunked: every insert statement of a batch into one of them
    carries exactly one row. *)
Theorem chunking_covers_the_batch (w : World) :
  (∀ C P,
     1 ≤ C → 1 ≤ P →
     ∃ chunkSize,
       calculateChunkSize C P = Ok chunkSize
       ∧ chunkSize = Z.max 1 (P / C)
       ∧ (C ≤ P → chunkSize * C ≤ P)
       ∧ (P < C → chunkSize = 1 ∧ P < chunkSize * C))
  ∧ (∀ data jsonDir contactID,
       chunked w "messages" "message_id" (Messages data)
         (λ templateRow columns _ _ d row,
            messagesRow w jsonDir columns templateRow d = Ok row)
         (bulkInsertMessages w data jsonDir contactID))
  ∧ (∀ data jsonDir contactID simplexFilesDir,
       chunked w "chat_items" "chat_item_id" (Messages data)
         (λ templateRow columns _ _ d row,
            chatItemsRowValues w jsonDir contactID columns templateRow d
            = Ok row)
         (bulkInsertChatItems w data jsonDir contactID simplexFilesDir))
  ∧ (∀ data,
       chunked w "chat_item_messages" "rowid" (Messages data)
         (λ templateRow columns s g d row,
            row = buildRowValues
                    (chatItemMessagesOverrides w d
                       (default 0
                          (colMax "rowid"
                             (from_option t_rows []
                                (st_db s !! "chat_item_messages"%string))) + 1)
                       (Z.of_nat g) 0)
                    templateRow columns)
         (bulkInsertChatItemMessages w data))
  ∧ (∀ data,
       chunked w "msg_deliveries" "msg_delivery_id" (Messages data)
         (λ templateRow columns s g d row,
            row = buildRowValues
                    (msgDeliveriesOverrides w d
                       (default 0
                          (colMax "agent_msg_id"
                             (from_option t_rows []
                                (st_db s !! "msg_deliveries"%string))))
                       (Z.of_nat g) 0)
                    templateRow columns)
         (bulkInsertMsgDeliveries w data))
  ∧ (∀ messages startMessageID jsonDir contactID simplexFilesDir s tbl cols
       rows,
       EvInsert tbl cols rows
         ∈ drop (length (st_log s))
             (st_log (bulkInsertUniversalMessages w messages startMessageID
                        jsonDir contactID simplexFilesDir s).2) →
       tbl ∈ singleRowTables →
       length rows = 1%nat).
Proof.
  split_and!.
  - intros C P HC HP.
    assert ((if P <=? 0 then 900 else P) = P) as HPeff
      by (destruct (P <=? 0) eqn:E; lia).
    exists (Z.max 1 (P / C)). split_and!.
    + rewrite calculateChunkSize_eq, HPeff, Z.quot_div_nonneg by lia. done.
    + done.
    + intros HCP. assert (1 ≤ P / C) by (apply Z.div_le_lower_bound; lia).
      rewrite Z.max_r by done. rewrite Z.mul_comm. apply Z.mul_div_le. lia.
    + intros HPC. rewrite Z.div_small by lia. lia.
  - apply bulkInsertMessages_chunked.
  - apply bulkInsertChatItems_chunked.
  - apply bulkInsertChatItemMessages_chunked.
  - apply bulkInsertMsgDeliveries_chunked.
  - intros messages startMessageID jsonDir contactID simplexFilesDir s tbl
      cols rows Hin Htbl.
    destruct (bulkInsertUniversalMessages_emits w singleRow messages
                startMessageID jsonDir contactID simplexFilesDir I I I
                (batchSteps_singleRow w messages startMessageID jsonDir
                   contactID simplexFilesDir) s) as [(evs & Hlog & Hevs) _].
    rewrite Hlog, drop_app_length in Hin.
    rewrite Forall_forall in Hevs. by apply (Hevs _ Hin).
Qed.


Section BatchRows.
Context (w : World).

Lemma step_rows_none {A} (m : M A) tables tbl s r s' evs :
  emits (stepEvent w tables) m → tbl ∉ tables →
  m s = (r, s') → st_log s' = st_log s ++ evs →
  insertedRows tbl evs = [].
Proof.
  intros Hm Hnot Hrun Hlog.
  destruct (run_log _ _ _ _ _ Hm Hrun) as (evs' & Hlog' & Hevs).
  rewrite Hlog in Hlog'. apply app_inv_head in Hlog'. subst evs'.
  apply insertedRows_none. eapply Forall_impl; [exact Hevs|].
  intros e. by apply stepEvent_notInsertInto.
Qed.

(** The rows of the four per-message tables after a batch whose steps all
    succeeded. *)
Lemma batchSteps_rows messages startMessageID jsonDir contactID
    simplexFilesDir s s' :
  batchSteps w messages startMessageID jsonDir contactID simplexFilesDir s
  = (Ok tt, s') →
  len messages < 2 ^ 62 →
  ∃ t evs,
    st_db s !! "chat_items"%string = Some t
    ∧ st_log s' = st_log s ++ evs
    ∧ length (insertedRows "messages" evs) = length messages
    ∧ ∀ g msg, messages !! g = Some msg →
        let d := {| MessageID := wrap (startMessageID + Z.of_nat g);
                    ChatItemID :=
                      wrap (default 0 (colMax "chat_item_id" (t_rows t)) + 1
                            + Z.of_nat g);
                    SharedMsgID := m_ID msg;
                    Message := msg |} in
        (∃ columns templateRow msgBodyBytes,
           insertedRows "messages" evs !! g
           = Some (columns,
                   buildRowValues (messagesOverrides w d msgBodyBytes)
                     templateRow columns))
        ∧ (∃ columns templateRow itemContentBytes quoted,
             insertedRows "chat_items" evs !! g
             = Some (columns,
                     buildRowValues
                       (chatItemsOverrides w d contactID itemContentBytes
                          quoted) templateRow columns))
        ∧ (∃ columns templateRow nextRowID,
             insertedRows "chat_item_messages" evs !! g
             = Some (columns,
                     buildRowValues
                       (chatItemMessagesOverrides w d nextRowID (Z.of_nat g) 0)
                       templateRow columns))
        ∧ (∃ columns templateRow maxAgentMsgID,
             insertedRows "msg_deliveries" evs !! g
             = Some (columns,
                     buildRowValues
                       (msgDeliveriesOverrides w d maxAgentMsgID (Z.of_nat g) 0)
                       templateRow columns)).
Proof.
  intros Hrun Hlen.
  apply batchSteps_ok_iff in Hrun
    as (maxChatItemID & s0 & s1 & s2 & s3 & s4 & H0 & H1 & H2 & H3 & H4 & H5).
  cbv zeta in *.
  destruct (queryMaxOrZero_run "chat_items" "chat_item_id" s)
    as (Hdb0 & Hlog0 & Hmax).
  rewrite H0 in Hdb0, Hlog0, Hmax. cbn [fst snd] in *.
  destruct (Hmax _ eq_refl) as (t & Ht & ->).
  set (maxChatItemID := default 0 (colMax "chat_item_id" (t_rows t))) in *.
  set (data := prepareBulkData messages startMessageID maxChatItemID) in *.
  assert (len (Messages data) < 2 ^ 62) as Hlen'.
  { unfold data, len. cbn [Messages prepareBulkData].
    rewrite prepareMessages_length. exact Hlen. }
  destruct (bulkInsertMessages_rows w _ _ _ _ _ H1 Hlen')
    as (t1 & evs1 & _ & Hlog1 & Hlen1 & Hrows1).
  destruct (bulkInsertChatItems_rows w _ _ _ _ _ _ H2 Hlen')
    as (t2 & evs2 & _ & Hlog2 & _ & Hrows2).
  destruct (bulkInsertChatItemMessages_rows w _ _ _ H3 Hlen')
    as (t3 & evs3 & _ & Hlog3 & _ & Hrows3).
  destruct (bulkInsertMsgDeliveries_rows w _ _ _ H4 Hlen')
    as (t4 & evs4 & _ & Hlog4 & _ & Hrows4).
  destruct (run_log _ _ _ _ _ (bulkInsertReactions_events w _ _) H5)
    as (evs5 & Hlog5 & Hevs5).
  pose proof (λ tbl Hnot, step_rows_none _ _ tbl _ _ _ _
                (bulkInsertMessages_events w _ _ _) Hnot H1 Hlog1) as N1.
  pose proof (λ tbl Hnot, step_rows_none _ _ tbl _ _ _ _
                (bulkInsertChatItems_events w _ _ _ _) Hnot H2 Hlog2) as N2.
  pose proof (λ tbl Hnot, step_rows_none _ _ tbl _ _ _ _
                (bulkInsertChatItemMessages_events w _) Hnot H3 Hlog3) as N3.
  pose proof (λ tbl Hnot, step_rows_none _ _ tbl _ _ _ _
                (bulkInsertMsgDeliveries_events w _) Hnot H4 Hlog4) as N4.
  pose proof (λ tbl Hnot, step_rows_none _ _ tbl _ _ _ _
                (bulkInsertReactions_events w _ _) Hnot H5 Hlog5) as N5.
  exists t,
    ([EvCoalesceMax "chat_items" "chat_item_id" 0]
     ++ evs1 ++ evs2 ++ evs3 ++ evs4 ++ evs5).
  split; [done|]. split.
  { rewrite Hlog5, Hlog4, Hlog3, Hlog2, Hlog1, Hlog0, <- !app_assoc. done. }
  assert (∀ tbl, insertedRows tbl
                   [EvCoalesceMax "chat_items" "chat_item_id" 0] = [])
    as Hq by done.
  unfold fileTables in N2.
  split.
  { rewrite !insertedRows_app, Hq, N2, N3, N4, N5, !app_nil_r, app_nil_l;
      [|intros Hin; clear -Hin; repeat
         (apply elem_of_cons in Hin as [?|Hin]; [done|]);
       by apply elem_of_nil in Hin..].
    rewrite Hlen1. unfold data. cbn [Messages prepareBulkData].
    apply prepareMessages_length. }
  intros g msg Hg.
  assert (Messages data !! g
          = Some {| MessageID := wrap (startMessageID + Z.of_nat g);
                    ChatItemID := wrap (maxChatItemID + 1 + Z.of_nat g);
                    SharedMsgID := m_ID msg;
                    Message := msg |}) as Hd.
  { unfold data. cbn [Messages prepareBulkData].
    rewrite (prepareMessages_lookup _ _ _ 0 g msg Hg).
    rewrite Z.add_0_l, addInt_assoc2. done. }
  split_and!.
  - destruct (Hrows1 _ _ Hd) as (templateRow & bytes & _ & Hr).
    exists (t_columns t1), templateRow, bytes.
    rewrite !insertedRows_app, Hq, N2, N3, N4, N5, !app_nil_r, app_nil_l;
      [done|intros Hin; clear -Hin; repeat
         (apply elem_of_cons in Hin as [?|Hin]; [done|]);
       by apply elem_of_nil in Hin..].
  - destruct (Hrows2 _ _ Hd) as (templateRow & bytes & quoted & Hr).
    exists (t_columns t2), templateRow, bytes, quoted.
    rewrite !insertedRows_app, Hq, N1, N3, N4, N5, !app_nil_r, !app_nil_l;
      [done|intros Hin; clear -Hin; repeat
         (apply elem_of_cons in Hin as [?|Hin]; [done|]);
       by apply elem_of_nil in Hin..].
  - destruct (Hrows3 _ _ Hd) as (templateRow & Hr).
    eexists (t_columns t3), templateRow, _.
    rewrite !insertedRows_app, Hq, N1, N2, N4, N5, !app_nil_r, !app_nil_l;
      [exact Hr|intros Hin; clear -Hin; repeat
         (apply elem_of_cons in Hin as [?|Hin]; [done|]);
       by apply elem_of_nil in Hin..].
  - destruct (Hrows4 _ _ Hd) as (templateRow & Hr).
    eexists (t_columns t4), templateRow, _.
    rewrite !insertedRows_app, Hq, N1, N2, N3, N5, !app_nil_r, !app_nil_l;
      [exact Hr|intros Hin; clear -Hin; repeat
         (apply elem_of_cons in Hin as [?|Hin]; [done|]);
       by apply elem_of_nil in Hin..].
Qed.

End BatchRows.

(** X4. In a batch whose steps all succeed, the message at position [g] of
    the batch gets exactly one row at position [g] of each of the tables
    [messages], [chat_items], [chat_item_messages] and [msg_deliveries], and
    these rows are linked: the message key [startMessageID + g] is the
    [message_id] of the message row, the [created_by_msg_id] of the chat
    item, the [message_id] of the link row and of the delivery row; the chat
    item key, [g + 1] above the largest [chat_item_id] before the batch, is
    the [chat_item_id] of the chat item and of the link row; and message
    row and chat item carry the Discord identifier of the message as their
    [shared_msg_id]. *)
Theorem rows_of_a_message_share_its_keys (w : World)
    (messages : list UniversalMessage) (startMessageID : Z) (jsonDir : string)
    (contactID : Z) (simplexFilesDir : string) (s s' : dbstate) :
  batchSteps w messages startMessageID jsonDir contactID simplexFilesDir s
  = (Ok tt, s') →
  len messages < 2 ^ 62 →
  ∃ t evs,
    st_db s !! "chat_items"%string = Some t
    ∧ st_log s' = st_log s ++ evs
    ∧ ∀ g msg, messages !! g = Some msg →
        let messageID := VInt (wrap (startMessageID + Z.of_nat g)) in
        let chatItemID :=
          VInt (wrap (default 0 (colMax "chat_item_id" (t_rows t)) + 1
                      + Z.of_nat g)) in
        (∃ cr, insertedRows "messages" evs !! g = Some cr
               ∧ holds cr "message_id" messageID
               ∧ holds cr "shared_msg_id" (VBlob (m_ID msg)))
        ∧ (∃ cr, insertedRows "chat_items" evs !! g = Some cr
                 ∧ holds cr "chat_item_id" chatItemID
                 ∧ holds cr "created_by_msg_id" messageID
                 ∧ holds cr "shared_msg_id" (VBlob (m_ID msg)))
        ∧ (∃ cr, insertedRows "chat_item_messages" evs !! g = Some cr
                 ∧ holds cr "chat_item_id" chatItemID
                 ∧ holds cr "message_id" messageID)
        ∧ (∃ cr, insertedRows "msg_deliveries" evs !! g = Some cr
                 ∧ holds cr "message_id" messageID).
Proof.
  intros Hrun Hlen.
  destruct (batchSteps_rows w _ _ _ _ _ _ _ Hrun Hlen)
    as (t & evs & Ht & Hlog & _ & Hrows).
  exists t, evs. split; [done|]. split; [done|].
  intros g msg Hg. cbv zeta.
  destruct (Hrows g msg Hg) as (Hm & Hc & Hl & Hd). cbv zeta in *.
  split_and!.
  - destruct Hm as (columns & templateRow & bytes & ->).
    eexists. split; [done|].
    split; apply holds_override, messagesOverrides_keys.
  - destruct Hc as (columns & templateRow & bytes & quoted & ->).
    eexists. split; [done|].
    split_and!; apply holds_override, chatItemsOverrides_keys.
  - destruct Hl as (columns & templateRow & next & ->).
    eexists. split; [done|].
    split; apply holds_override, chatItemMessagesOverrides_keys.
  - destruct Hd as (columns & templateRow & maxAgent & ->).
    eexists. split; [done|].
    apply holds_override, msgDeliveriesOverrides_keys.
Qed.

Lemma rows_of_a_message_share_its_keys_witness :
  ∃ cr,
    insertedRows "messages"
      (st_log (batchSteps exampleWorld exampleBatch 1 "export" 5 "files"
                 exampleStart).2) !! 0%nat = Some cr
    ∧ holds cr "message_id" (VInt 1)
    ∧ holds cr "shared_msg_id" (VBlob "1").
Proof.
  destruct (rows_of_a_message_share_its_keys exampleWorld exampleBatch 1
              "export" 5 "files" exampleStart
              (batchSteps exampleWorld exampleBatch 1 "export" 5 "files"
                 exampleStart).2)
    as (t & evs & _ & Hlog & Hrows);
    [vm_compute; reflexivity|vm_compute; reflexivity|].
  change (st_log exampleStart) with (@nil event) in Hlog.
  cbn [app] in Hlog. rewrite Hlog.
  destruct (Hrows 0%nat _ eq_refl) as ((cr & Hcr & Hid & Hshared) & _).
  exists cr. split; [exact Hcr|]. split; [exact Hid|exact Hshared].
Defined.


(** ** Reaction rows *)

Lemma wrap_idem a : wrap (wrap a) = wrap a.
Proof. pose proof (wrap_wrap_add a 0) as H. by rewrite !Z.add_0_r in H. Qed.

Section Reactions.
Context (w : World).

Lemma reactions_of_message msgData contactID :
  ∀ reactions c s c' s',
    forEachAcc reactions c
      (λ reactionIDCounter reaction,
         wrapErr "failed to insert reaction"
           (execInsert w "chat_item_reactions" reactionColumns
              [reactionRow w msgData contactID reaction reactionIDCounter]);;
         mret (addInt reactionIDCounter 1)) s = (Ok c', s') →
    wrap c = c →
    c' = wrap (c + len reactions)
    ∧ st_log s'
      = st_log s
        ++ imap (λ k reaction,
                   EvInsert "chat_item_reactions" reactionColumns
                     [reactionRow w msgData contactID reaction
                        (wrap (c + Z.of_nat k))]) reactions.
Proof.
  induction reactions as [|r reactions IH]; intros c s c' s' Hrun Hc.
  - injection Hrun as <- <-. unfold len. cbn. rewrite Z.add_0_r, app_nil_r.
    done.
  - cbn [forEachAcc] in Hrun.
    apply bind_ok_inv in Hrun as (c1 & s1 & Hbody & Hrest).
    apply bind_ok_inv in Hbody as ([] & s0 & Hins%wrapErr_ok_inv & Hret).
    injection Hret as <- <-.
    pose proof (execInsert_log w "chat_item_reactions" reactionColumns
                  [reactionRow w msgData contactID r c] s) as Hlog.
    rewrite Hins in Hlog. cbn [snd] in Hlog.
    destruct (IH _ _ _ _ Hrest) as [-> Hlog']; [apply wrap_idem|].
    unfold addInt in *. split.
    + rewrite wrap_wrap_add. f_equal. unfold len. cbn [length]. lia.
    + rewrite Hlog', Hlog, <- app_assoc. cbn [imap app]. f_equal. f_equal.
      * by rewrite Z.add_0_r, Hc.
      * apply imap_ext. intros k r' _. cbn.
        rewrite wrap_wrap_add. do 4 f_equal. lia.
Qed.

Lemma reactions_of_batch contactID :
  ∀ msgs c s c' s',
    forEachAcc msgs c
      (λ reactionIDCounter msgData,
         forEachAcc (m_Reactions (Message msgData)) reactionIDCounter
           (λ reactionIDCounter reaction,
              wrapErr "failed to insert reaction"
                (execInsert w "chat_item_reactions" reactionColumns
                   [reactionRow w msgData contactID reaction
                      reactionIDCounter]);;
              mret (addInt reactionIDCounter 1))) s = (Ok c', s') →
    wrap c = c →
    st_log s'
    = st_log s
      ++ imap (λ k (p : MessageInsertData * UniversalReaction),
                 EvInsert "chat_item_reactions" reactionColumns
                   [reactionRow w p.1 contactID p.2 (wrap (c + Z.of_nat k))])
           (msgs ≫= (λ msgData, (λ reaction, (msgData, reaction))
                                  <$> m_Reactions (Message msgData))).
Proof.
  induction msgs as [|d msgs IH]; intros c s c' s' Hrun Hc.
  - injection Hrun as <- <-. by rewrite app_nil_r.
  - cbn [forEachAcc] in Hrun.
    apply bind_ok_inv in Hrun as (c1 & s1 & Hd & Hrest).
    destruct (reactions_of_message _ _ _ _ _ _ _ Hd Hc) as [-> Hlog1].
    rewrite (IH _ _ _ _ Hrest), Hlog1, <- app_assoc by apply wrap_idem.
    f_equal. cbn [mbind list_bind]. rewrite imap_app, imap_fmap.
    f_equal. rewrite length_fmap. apply imap_ext. intros k p _. cbn.
    rewrite wrap_wrap_add. do 4 f_equal. unfold len. lia.
Qed.

End Reactions.

(** X5. When the reaction step succeeds, it has inserted exactly one row
    per reaction of each message of the batch, whatever the count of the
    reaction, in the order of the messages and of their reactions; the
    rows carry consecutive keys that start one above the largest
    [chat_item_reaction_id] of the table, the identifier of their message,
    and the nine fixed columns. *)
Theorem one_row_per_reaction (w : World) (data : BulkInsertData)
    (contactID : Z) (s s' : dbstate) (t : table) :
  st_db s !! "chat_item_reactions"%string = Some t →
  - 2 ^ 63 ≤ default 0 (colMax "chat_item_reaction_id" (t_rows t)) < maxInt →
  bulkInsertReactions w data contactID s = (Ok tt, s') →
  insertedRows "chat_item_reactions" (drop (length (st_log s)) (st_log s'))
  = imap (λ k (p : MessageInsertData * UniversalReaction),
            (reactionColumns,
             reactionRow w p.1 contactID p.2
               (wrap (default 0 (colMax "chat_item_reaction_id" (t_rows t))
                      + 1 + Z.of_nat k))))
      (reactionsOf data).
Proof.
  intros Ht Hmax Hrun. unfold bulkInsertReactions in Hrun.
  apply bind_ok_inv in Hrun as (next & s1 & Hn%wrapErr_ok_inv & Hrun).
  destruct (queryNextID_run "chat_item_reactions" "chat_item_reaction_id" s)
    as (Hdb1 & Hlog1 & Hnext).
  rewrite Hn in Hdb1, Hlog1, Hnext. cbn [fst snd] in *.
  destruct (Hnext _ eq_refl) as (t' & Ht' & ->). rewrite Ht in Ht'.
  injection Ht' as <-.
  apply bind_ok_inv in Hrun as (c' & s2 & Hloop & Hret).
  injection Hret as <-.
  apply reactions_of_batch in Hloop;
    [|apply wrap_small; unfold maxInt in Hmax; lia].
  rewrite Hloop, Hlog1, <- app_assoc, drop_app_length.
  change (?a :: ?l) with ([a] ++ l). rewrite insertedRows_app.
  cbn [insertedRows mbind list_bind app]. unfold reactionsOf.
  generalize (Messages data ≫= (λ msgData, (λ reaction, (msgData, reaction))
                                  <$> m_Reactions (Message msgData))).
  intros pairs.
  generalize (default 0 (colMax "chat_item_reaction_id" (t_rows t)) + 1).
  intros c. clear. revert c.
  induction pairs as [|p pairs IH]; intros c; [done|].
  cbn [imap]. change (?a :: ?l) with ([a] ++ l) at 1.
  rewrite insertedRows_app, insertedRows_insert. cbn [fmap list_fmap app].
  f_equal.
  rewrite (imap_ext _ (λ k (p0 : MessageInsertData * UniversalReaction),
                         EvInsert "chat_item_reactions" reactionColumns
                           [reactionRow w p0.1 contactID p0.2
                              (wrap (c + 1 + Z.of_nat k))]) pairs)
    by (intros k q _; cbn; do 4 f_equal; lia).
  rewrite IH. apply imap_ext. intros k q _. cbn. do 3 f_equal. lia.
Qed.

Lemma one_row_per_reaction_witness :
  ∃ row,
    insertedRows "chat_item_reactions"
      (st_log (bulkInsertReactions exampleWorld
                 (prepareBulkData exampleBatch 1 0) 5 exampleStart).2)
    = [(reactionColumns, row)]
    ∧ row !! 0%nat = Some (VInt 2).
Proof.
  eexists. split; [|shelve].
  refine (eq_trans
            (one_row_per_reaction exampleWorld
               (prepareBulkData exampleBatch 1 0) 5 exampleStart
               (bulkInsertReactions exampleWorld
                  (prepareBulkData exampleBatch 1 0) 5 exampleStart).2
               {| t_columns := reactionColumns ++ ["group_id"%string];
                  t_rows := [ {[ "chat_item_reaction_id"%string := VInt 1;
                                 "group_id"%string := VInt 7 ]} ] |}
               _ _ _) _).
  - vm_compute. reflexivity.
  - vm_compute. split; [discriminate|reflexivity].
  - vm_compute. reflexivity.
  - vm_compute. reflexivity.
  Unshelve. vm_compute. reflexivity.
Defined.


(** ** File rows *)

Lemma filesOverrides_keys w attachment chatItemID isSent messageType contactID
    nextFileID name createdAt updatedAt :
  let o := filesOverrides w attachment chatItemID isSent messageType contactID
             nextFileID name createdAt updatedAt in
  o !! "file_id"%string = Some (VInt nextFileID)
  ∧ o !! "chat_item_id"%string = Some (VInt chatItemID)
  ∧ o !! "contact_id"%string = Some (VInt contactID)
  ∧ o !! "file_name"%string = Some (VText name)
  ∧ o !! "file_path"%string = Some (VText name)
  ∧ o !! "file_size"%string = Some (VInt (att_Size attachment)).
Proof.
  unfold filesOverrides. destruct (fileStatusProtocol _ _) as [st pr].
  split_and!; by override_lookup.
Qed.

Lemma sndFilesOverrides_keys w fileID nextDeliveryID createdAt updatedAt :
  sndFilesOverrides w fileID nextDeliveryID createdAt updatedAt
    !! "file_id"%string
  = Some (VInt fileID).
Proof. unfold sndFilesOverrides. by override_lookup. Qed.

Lemma rcvFilesOverrides_keys w fileID createdAt updatedAt :
  rcvFilesOverrides w fileID createdAt updatedAt !! "file_id"%string
  = Some (VInt fileID).
Proof. unfold rcvFilesOverrides. by override_lookup. Qed.

Section FileRows.
Context (w : World).

(** The events a computation added, told from those of a coarser
    reading of the same run. *)
Lemma run_none {A} (m : M A) tbl s r s' evs :
  emits (notInsertInto tbl) m → m s = (r, s') →
  st_log s' = st_log s ++ evs → insertedRows tbl evs = [].
Proof.
  intros Hm Hrun Hlog.
  destruct (run_log _ _ _ _ _ Hm Hrun) as (evs' & Hlog' & Hevs).
  rewrite Hlog in Hlog'. apply app_inv_head in Hlog'. subst evs'.
  by apply insertedRows_none.
Qed.

Lemma insertSndFile_rows fileID s s' :
  insertSndFile w fileID s = (Ok tt, s') →
  ∃ evs cr,
    st_log s' = st_log s ++ evs
    ∧ insertedRows "snd_files" evs = [cr]
    ∧ holds cr "file_id" (VInt fileID).
Proof.
  intros Hrun. unfold insertSndFile in Hrun.
  apply bind_ok_inv in Hrun as (templateRow & s1 & Ht & Hrun).
  destruct (run_log _ _ _ _ _
              (yields_getTemplateRow w (notInsertInto "snd_files") _ _
                 (allowsReads_notInsertInto _)) Ht)
    as (evs1 & Hlog1 & Hevs1).
  apply bind_ok_inv in Hrun as (columns & s2 & Hc & Hrun).
  rewrite getTableColumns_run in Hc. injection Hc as <- <-.
  apply bind_ok_inv in Hrun as (next & s3 & Hn%wrapErr_ok_inv & Hrun).
  match type of Hn with queryNextID _ _ ?s0 = _ =>
    destruct (queryNextID_run "snd_files" "last_inline_msg_delivery_id" s0)
      as (_ & Hlog3 & _)
  end.
  rewrite Hn in Hlog3. cbn [fst snd st_log] in Hlog3.
  apply bind_ok_inv in Hrun as (createdAt & ? & [-> ->]%timeNow_ok_inv & Hrun).
  apply bind_ok_inv in Hrun as (updatedAt & ? & [-> ->]%timeNow_ok_inv & Hrun).
  apply bind_ok_inv in Hrun as ([] & s4 & Hp & Hins).
  apply liftR_ok_inv in Hp as [_ ->].
  match type of Hins with execInsert _ _ ?cols ?rows _ = _ =>
    pose proof (execInsert_log w "snd_files" cols rows s3) as Hlog4
  end.
  rewrite Hins in Hlog4. cbn [snd] in Hlog4.
  eexists (evs1 ++ [EvColumns "snd_files";
                    EvCoalesceMax "snd_files" "last_inline_msg_delivery_id" 1]
           ++ [EvInsert "snd_files" _ [_]]), _.
  split_and!.
  - rewrite Hlog4, Hlog3, Hlog1, <- !app_assoc. reflexivity.
  - rewrite !insertedRows_app, (insertedRows_none _ evs1) by done.
    rewrite insertedRows_insert. reflexivity.
  - apply holds_override, sndFilesOverrides_keys.
Qed.

Lemma insertRcvFile_rows fileID s s' :
  insertRcvFile w fileID s = (Ok tt, s') →
  ∃ evs cr,
    st_log s' = st_log s ++ evs
    ∧ insertedRows "rcv_files" evs = [cr]
    ∧ holds cr "file_id" (VInt fileID).
Proof.
  intros Hrun. unfold insertRcvFile in Hrun.
  apply bind_ok_inv in Hrun as (templateRow & s1 & Ht & Hrun).
  destruct (run_log _ _ _ _ _
              (yields_getTemplateRow w (notInsertInto "rcv_files") _ _
                 (allowsReads_notInsertInto _)) Ht)
    as (evs1 & Hlog1 & Hevs1).
  apply bind_ok_inv in Hrun as (columns & s2 & Hc & Hrun).
  rewrite getTableColumns_run in Hc. injection Hc as <- <-.
  apply bind_ok_inv in Hrun as (createdAt & ? & [-> ->]%timeNow_ok_inv & Hrun).
  apply bind_ok_inv in Hrun as (updatedAt & ? & [-> ->]%timeNow_ok_inv & Hrun).
  apply bind_ok_inv in Hrun as ([] & s4 & Hp & Hins).
  apply liftR_ok_inv in Hp as [_ ->].
  match type of Hins with execInsert _ _ ?cols ?rows ?s0 = _ =>
    pose proof (execInsert_log w "rcv_files" cols rows s0) as Hlog4
  end.
  rewrite Hins in Hlog4. cbn [snd st_log] in Hlog4.
  eexists (evs1 ++ [EvColumns "rcv_files"]
           ++ [EvInsert "rcv_files" _ [_]]), _.
  split_and!.
  - rewrite Hlog4, Hlog1, <- !app_assoc. reflexivity.
  - rewrite !insertedRows_app, (insertedRows_none _ evs1) by done.
    rewrite insertedRows_insert. reflexivity.
  - apply holds_override, rcvFilesOverrides_keys.
Qed.

End FileRows.

(** X6. When the insertion of a file attachment succeeds, it has inserted
    exactly one row into [files], which carries the key the function
    returns, the chat item it was called for, the contact, the size of the
    attachment and, as [file_name] and [file_path], the file name cut to
    200 bytes; besides, for a video no transfer record; for any other type
    exactly one row in [snd_files] when the message was sent, exactly one
    row in [rcv_files] when it was received, and none in the other of the
    two tables; the transfer record carries the key of the file row. *)
Theorem file_row_and_transfer_record (w : World)
    (attachment : UniversalAttachment) (chatItemID : Z) (isSent : bool)
    (jsonDir messageType : string) (contactID : Z) (simplexFilesDir : string)
    (s s' : dbstate) (nextFileID : Z) :
  insertFileAttachment w attachment chatItemID isSent jsonDir messageType
    contactID simplexFilesDir s = (Ok nextFileID, s') →
  let evs := drop (length (st_log s)) (st_log s') in
  (∃ cr name,
     insertedRows "files" evs = [cr]
     ∧ truncateFilename w (att_Filename attachment) = Ok name
     ∧ holds cr "file_id" (VInt nextFileID)
     ∧ holds cr "chat_item_id" (VInt chatItemID)
     ∧ holds cr "contact_id" (VInt contactID)
     ∧ holds cr "file_size" (VInt (att_Size attachment))
     ∧ holds cr "file_name" (VText name)
     ∧ holds cr "file_path" (VText name))
  ∧ (if bool_decide (messageType = "video"%string)
     then insertedRows "snd_files" evs = []
          ∧ insertedRows "rcv_files" evs = []
     else if isSent
     then (∃ cr, insertedRows "snd_files" evs = [cr]
                 ∧ holds cr "file_id" (VInt nextFileID))
          ∧ insertedRows "rcv_files" evs = []
     else (∃ cr, insertedRows "rcv_files" evs = [cr]
                 ∧ holds cr "file_id" (VInt nextFileID))
          ∧ insertedRows "snd_files" evs = []).
Proof.
  intros Hrun evs. subst evs. unfold insertFileAttachment in Hrun.
  destruct (negb _); [done|].
  apply bind_ok_inv in Hrun as (templateRow & s1 & Ht%wrapErr_ok_inv & Hrun).
  pose proof (λ tbl, run_log _ _ _ _ _
                (yields_getTemplateRow w (notInsertInto tbl) "files" "file_id"
                   (allowsReads_notInsertInto _)) Ht) as Hlog1.
  destruct (Hlog1 "files"%string) as (evs1 & Hlog1f & _).
  assert (∀ tbl, insertedRows tbl evs1 = []) as Hnone1.
  { intros tbl. destruct (Hlog1 tbl) as (evs' & Hlog' & Hevs').
    rewrite Hlog1f in Hlog'. apply app_inv_head in Hlog'. subst evs'.
    by apply insertedRows_none. }
  clear Hlog1.
  apply bind_ok_inv in Hrun as (next & s2 & Hn%wrapErr_ok_inv & Hrun).
  destruct (queryNextID_run "files" "file_id" s1) as (_ & Hlog2 & _).
  rewrite Hn in Hlog2. cbn [fst snd] in Hlog2.
  apply bind_ok_inv in Hrun as (columns & s3 & Hc & Hrun).
  rewrite getTableColumns_run in Hc. injection Hc as <- <-.
  apply bind_ok_inv in Hrun as (name & s4 & Hname & Hrun).
  apply liftR_ok_inv in Hname as [Hname ->].
  apply bind_ok_inv in Hrun as ([] & s5 & Hcopy%wrapErr_ok_inv & Hrun).
  apply liftR_ok_inv in Hcopy as [_ ->].
  apply bind_ok_inv in Hrun as (createdAt & ? & [-> ->]%timeNow_ok_inv & Hrun).
  apply bind_ok_inv in Hrun as (updatedAt & ? & [-> ->]%timeNow_ok_inv & Hrun).
  set (createdAt := w_now w _ 0) in *. set (updatedAt := w_now w _ 1) in *.
  apply bind_ok_inv in Hrun as ([] & s6 & Hp & Hrun).
  apply liftR_ok_inv in Hp as [_ ->].
  apply bind_ok_inv in Hrun as ([] & s7 & Hins%wrapErr_ok_inv & Hrun).
  match type of Hins with execInsert _ _ ?cols ?rows ?s0 = _ =>
    pose proof (execInsert_log w "files" cols rows s0) as Hlog7
  end.
  rewrite Hins in Hlog7. cbn [snd st_log] in Hlog7.
  apply bind_ok_inv in Hrun as ([] & s8 & Htr & Hret).
  injection Hret as <- <-.
  assert (∃ evs8, st_log s8 = st_log s7 ++ evs8
                  ∧ insertedRows "files" evs8 = []
                  ∧ (if bool_decide (messageType = "video"%string)
                     then insertedRows "snd_files" evs8 = []
                          ∧ insertedRows "rcv_files" evs8 = []
                     else if isSent
                     then (∃ cr, insertedRows "snd_files" evs8 = [cr]
                                 ∧ holds cr "file_id" (VInt next))
                          ∧ insertedRows "rcv_files" evs8 = []
                     else (∃ cr, insertedRows "rcv_files" evs8 = [cr]
                                 ∧ holds cr "file_id" (VInt next))
                          ∧ insertedRows "snd_files" evs8 = []))
    as (evs8 & Hlog8 & Hf8 & Htr8).
  { destruct (decide (messageType = "video"%string)) as [Hvideo|Hvideo].
    - rewrite bool_decide_eq_true_2 by done.
      rewrite bool_decide_eq_false_2 in Htr by (by intros ?).
      injection Htr as <-. exists []. by rewrite app_nil_r.
    - rewrite bool_decide_eq_false_2 by done.
      rewrite bool_decide_eq_true_2 in Htr by done.
      apply wrapErr_ok_inv in Htr. destruct isSent.
      + destruct (insertSndFile_rows w _ _ _ Htr) as (evs8 & cr & Hl & Hr & Hh).
        exists evs8. split; [done|]. split_and!.
        * eapply run_none; [|exact Htr|exact Hl].
          by apply insertSndFile_notInsertInto.
        * by exists cr.
        * eapply run_none; [|exact Htr|exact Hl].
          by apply insertSndFile_notInsertInto.
      + destruct (insertRcvFile_rows w _ _ _ Htr) as (evs8 & cr & Hl & Hr & Hh).
        exists evs8. split; [done|]. split_and!.
        * eapply run_none; [|exact Htr|exact Hl].
          by apply insertRcvFile_notInsertInto.
        * by exists cr.
        * eapply run_none; [|exact Htr|exact Hl].
          by apply insertRcvFile_notInsertInto. }
  assert (st_log s8
          = st_log s
            ++ (evs1 ++ [EvCoalesceMax "files" "file_id" 1; EvColumns "files"]
                ++ [EvInsert "files"
                      (from_option t_columns [] (st_db s2 !! "files"%string))
                      [buildRowValues
                         (filesOverrides w attachment chatItemID isSent
                            messageType contactID next name createdAt updatedAt)
                         templateRow
                         (from_option t_columns []
                            (st_db s2 !! "files"%string))]]
                ++ evs8)) as Hlog.
  { rewrite Hlog8, Hlog7, Hlog2, Hlog1f, <- !app_assoc. done. }
  rewrite Hlog, drop_app_length. split.
  - eexists _, name. split.
    { rewrite !insertedRows_app, Hnone1, Hf8, insertedRows_insert, app_nil_r.
      reflexivity. }
    split; [done|].
    pose proof (filesOverrides_keys w attachment chatItemID isSent messageType
                  contactID next name createdAt updatedAt) as Hk.
    cbv zeta in Hk.
    destruct Hk as (K1 & K2 & K3 & K4 & K5 & K6).
    split_and!; by apply holds_override.
  - assert (∀ tbl, tbl ≠ "files"%string →
              insertedRows tbl
                (evs1 ++ [EvCoalesceMax "files" "file_id" 1; EvColumns "files"]
                 ++ [EvInsert "files"
                       (from_option t_columns [] (st_db s2 !! "files"%string))
                       [buildRowValues
                          (filesOverrides w attachment chatItemID isSent
                             messageType contactID next name createdAt updatedAt)
                         templateRow
                          (from_option t_columns []
                             (st_db s2 !! "files"%string))]]
                 ++ evs8)
              = insertedRows tbl evs8) as Hother.
    { intros tbl Hne. rewrite !insertedRows_app, Hnone1.
      cbn [insertedRows mbind list_bind app].
      rewrite bool_decide_eq_false_2 by congruence. done. }
    rewrite !Hother by done. exact Htr8.
Qed.

Lemma file_row_and_transfer_record_witness :
  let run :=
    insertFileAttachment exampleWorld exampleImage 1 true "export" "image" 5
      "files" exampleStart in
  run.1 = Ok 1
  ∧ (∃ cr, insertedRows "files" (st_log run.2) = [cr]
           ∧ holds cr "file_id" (VInt 1)
           ∧ holds cr "file_name" (VText "a.png"))
  ∧ (∃ cr, insertedRows "snd_files" (st_log run.2) = [cr]
           ∧ holds cr "file_id" (VInt 1)).
Proof.
  cbv zeta. split; [vm_compute; reflexivity|].
  destruct (file_row_and_transfer_record exampleWorld exampleImage 1 true
              "export" "image" 5 "files" exampleStart
              (insertFileAttachment exampleWorld exampleImage 1 true "export"
                 "image" 5 "files" exampleStart).2 1)
    as [(cr & name & Hf & Hname & Hid & _ & _ & _ & Hn & _) Htr];
    [vm_compute; reflexivity|].
  split.
  - exists cr. split; [exact Hf|]. split; [exact Hid|].
    assert (name = "a.png"%string) as <-; [|exact Hn].
    vm_compute in Hname. by injection Hname as <-.
  - rewrite bool_decide_eq_false_2 in Htr by discriminate.
    exact (proj1 Htr).
Defined.

Lemma length_append s1 s2 :
  String.length (s1 +:+ s2) = (String.length s1 + String.length s2)%nat.
Proof. induction s1 as [|c s1 IH]; simpl; [done|]. by f_equal. Qed.

Lemma length_substring_0 n s :
  (n ≤ String.length s)%nat → String.length (substring 0 n s) = n.
Proof.
  revert s. induction n as [|n IH]; intros [|c s] Hn; cbn in *; try done;
    [lia|]. rewrite IH; [done|lia].
Qed.

(** X7. The file name stored for an attachment is the attachment's own
    name when that is at most 200 bytes long; a longer name is cut to
    exactly 200 bytes, its extension kept and its base shortened; and when
    the extension alone is longer than 200 bytes the slice expression
    panics.  No error is returned in any case. *)
Theorem stored_file_name_is_at_most_200_bytes (w : World) (filename : string) :
  match truncateFilename w filename with
  | Ok name =>
      (String.length name ≤ 200)%nat
      ∧ ((String.length filename ≤ 200)%nat → name = filename)
      ∧ ((200 < String.length filename)%nat →
         String.length name = 200%nat
         ∧ name
           = substring 0 (200 - String.length (w_filepathExt w filename))
               filename +:+ w_filepathExt w filename)
  | Panic _ =>
      (200 < String.length filename)%nat
      ∧ (200 < String.length (w_filepathExt w filename))%nat
  | Err _ | OutOfFuel => False
  end.
Proof.
  unfold truncateFilename.
  destruct (Z.ltb_spec 200 (Z.of_nat (String.length filename))) as [Hlong|Hshort].
  - destruct (Z.ltb_spec (200 - Z.of_nat (String.length (w_filepathExt w filename)))
                0) as [Hext|Hext]; [lia|].
    replace (Z.to_nat (200 - Z.of_nat (String.length (w_filepathExt w filename))))
      with (200 - String.length (w_filepathExt w filename))%nat by lia.
    cbv beta iota. rewrite length_append, length_substring_0 by lia.
    split_and!; [lia|lia|]. intros _. split; [lia|done].
  - split_and!; [lia|done|lia].
Qed.


(** ** The claim about the queries for the keys *)

Lemma keyQueries_app evs evs' :
  keyQueries (evs ++ evs') = keyQueries evs ++ keyQueries evs'.
Proof. unfold keyQueries. apply omap_app. Qed.

Lemma keyQueries_Forall (Q : string * string * Z → Prop) evs :
  Forall (λ e, Forall Q (keyQueries [e])) evs → Forall Q (keyQueries evs).
Proof.
  induction 1 as [|e evs He _ IH]; [constructor|].
  change (e :: evs) with ([e] ++ evs). rewrite keyQueries_app.
  by apply Forall_app.
Qed.

Lemma keyQueries_none evs :
  Forall (λ e, keyQueries [e] = []) evs → keyQueries evs = [].
Proof.
  induction 1 as [|e evs He _ IH]; [done|].
  change (e :: evs) with ([e] ++ evs). by rewrite keyQueries_app, He, IH.
Qed.

Lemma keyQueries_templateRead evs :
  Forall templateRead evs → keyQueries evs = [].
Proof.
  intros Hevs. apply keyQueries_none. eapply Forall_impl; [exact Hevs|].
  intros e He. by destruct e.
Qed.

Lemma tableRead_noKey tbl idColumn e :
  tableRead tbl idColumn e → keyQueries [e] = [].
Proof. by destruct e. Qed.

(** What a statement of a function that fills a table may query. *)
Lemma tableEvent_keyQueries w (P : event → Prop) tbl idColumn keys cols T e :
  (∀ e, keyQueries [e] = [] → P e) →
  (∀ col plus, (col, plus) ∈ keys → P (EvCoalesceMax tbl col plus)) →
  tableEvent w tbl idColumn keys cols T e → P e.
Proof.
  intros Hnone Hkeys He. destruct e; try (by apply Hnone).
  destruct He as [-> Hin]. by apply Hkeys.
Qed.

Lemma transferEvent_keyQueries w (P : event → Prop) e :
  (∀ e, keyQueries [e] = [] → P e) →
  P (EvCoalesceMax "snd_files" "last_inline_msg_delivery_id" 1) →
  transferEvent w e → P e.
Proof.
  intros Hnone Hsnd (cols & T & [He|He]);
    (eapply tableEvent_keyQueries; [exact Hnone| |exact He]);
    intros col plus Hin.
  - by apply list_elem_of_singleton in Hin as [= -> ->].
  - by apply elem_of_nil in Hin.
Qed.

Lemma fileEvent_keyQueries w (P : event → Prop) e :
  (∀ e, keyQueries [e] = [] → P e) →
  P (EvCoalesceMax "files" "file_id" 1) →
  P (EvCoalesceMax "snd_files" "last_inline_msg_delivery_id" 1) →
  fileEvent w e → P e.
Proof.
  intros Hnone Hfiles Hsnd [_ [(cols & T & He)|He]].
  - eapply tableEvent_keyQueries; [exact Hnone| |exact He].
    intros col plus Hin.
    by apply list_elem_of_singleton in Hin as [= -> ->].
  - by eapply transferEvent_keyQueries.
Qed.

Section Keys.
Context (w : World).

(** The keys a batch may query, whatever its outcome. *)
Lemma batchSteps_keys (P : event → Prop) messages startMessageID jsonDir
    contactID simplexFilesDir :
  (∀ e, keyQueries [e] = [] → P e) →
  P (EvCoalesceMax "chat_items" "chat_item_id" 0) →
  P (EvCoalesceMax "files" "file_id" 1) →
  P (EvCoalesceMax "snd_files" "last_inline_msg_delivery_id" 1) →
  P (EvCoalesceMax "chat_item_messages" "rowid" 1) →
  P (EvCoalesceMax "msg_deliveries" "agent_msg_id" 0) →
  P (EvCoalesceMax "chat_item_reactions" "chat_item_reaction_id" 1) →
  emits P
    (batchSteps w messages startMessageID jsonDir contactID simplexFilesDir).
Proof.
  intros Hnone Hitems Hfiles Hsnd Hlinks Hdeliveries Hreactions.
  unfold batchSteps.
  apply emits_bind; [by apply yields_wrapErr, yields_queryMaxOrZero_ev|].
  intros maxChatItemID. cbv zeta.
  apply emits_bind.
  { apply yields_wrapErr, emits_of_trace. intros s.
    destruct (bulkInsertMessages_trace w
                (prepareBulkData messages startMessageID maxChatItemID)
                jsonDir contactID s)
      as (evs & Hlog & [(T & _ & Hevs)|Hevs]); exists evs; (split; [done|]);
      (eapply Forall_impl; [exact Hevs|]); intros e He.
    - eapply tableEvent_keyQueries; [exact Hnone| |exact He].
      intros col plus Hin. by apply elem_of_nil in Hin.
    - by eapply Hnone, tableRead_noKey. }
  intros _. apply emits_bind.
  { apply yields_wrapErr, emits_of_trace. intros s.
    destruct (bulkInsertChatItems_trace w
                (prepareBulkData messages startMessageID maxChatItemID)
                jsonDir contactID simplexFilesDir s)
      as (evs & Hlog & [(T & _ & Hevs)|Hevs]); exists evs; (split; [done|]);
      (eapply Forall_impl; [exact Hevs|]); intros e He.
    - destruct He as [He|He]; [|by eapply fileEvent_keyQueries].
      eapply tableEvent_keyQueries; [exact Hnone| |exact He].
      intros col plus Hin. by apply elem_of_nil in Hin.
    - by eapply Hnone, tableRead_noKey. }
  intros _. apply emits_bind.
  { apply yields_wrapErr, emits_of_trace. intros s.
    destruct (bulkInsertChatItemMessages_trace w
                (prepareBulkData messages startMessageID maxChatItemID) s)
      as (evs & Hlog & [(T & _ & Hevs)|Hevs]); exists evs; (split; [done|]);
      (eapply Forall_impl; [exact Hevs|]); intros e He.
    - eapply tableEvent_keyQueries; [exact Hnone| |exact He].
      intros col plus Hin.
      by apply list_elem_of_singleton in Hin as [= -> ->].
    - by eapply Hnone, tableRead_noKey. }
  intros _. apply emits_bind.
  { apply yields_wrapErr, emits_of_trace. intros s.
    destruct (bulkInsertMsgDeliveries_trace w
                (prepareBulkData messages startMessageID maxChatItemID) s)
      as (evs & Hlog & [(T & _ & Hevs)|Hevs]); exists evs; (split; [done|]);
      (eapply Forall_impl; [exact Hevs|]); intros e He.
    - eapply tableEvent_keyQueries; [exact Hnone| |exact He].
      intros col plus Hin.
      by apply list_elem_of_singleton in Hin as [= -> ->].
    - by eapply Hnone, tableRead_noKey. }
  intros _. apply yields_wrapErr.
  eapply yields_mono; [| |apply bulkInsertReactions_reactionEvent]; [|done].
  intros e He. destruct e; try done; [|by apply Hnone].
  by destruct He as (-> & -> & ->).
Qed.

(** The chunks of a step query no key. *)
Lemma forChunks_noKey {A} (data : list A) cs tbl columns
    (rowOf : Z → Z → A → list value) :
  emits (λ e, keyQueries [e] = [])
    (forChunks data cs (λ i end_ chunk,
       rows ← forRows 0 chunk (λ j d, mret (rowOf i j d));
       wrapErr (chunkError i end_) (execInsert w tbl columns rows))).
Proof.
  apply yields_forChunks. intros i e chunk _.
  eapply yields_bind with (Q := Forall (λ _ : list value, True)).
  - apply yields_forRows. intros j d _. by apply yields_ret.
  - intros rows _. by apply yields_wrapErr, yields_execInsert.
Qed.

Lemma bulkInsertChatItemMessages_key data s s' :
  bulkInsertChatItemMessages w data s = (Ok tt, s') →
  ∃ pre post,
    st_log s'
    = st_log s ++ pre ++ EvCoalesceMax "chat_item_messages" "rowid" 1 :: post
    ∧ Forall templateRead pre
    ∧ keyQueries post = [].
Proof.
  intros Hrun. unfold bulkInsertChatItemMessages in Hrun.
  apply bind_ok_inv in Hrun as (templateRow & s1 & Ht%wrapErr_ok_inv & Hrun).
  destruct (run_log _ _ _ _ _ (getTemplateRow_reads _ _ _) Ht)
    as (evs1 & Hlog1 & Hevs1).
  apply bind_ok_inv in Hrun as (columns & s2 & Hc & Hrun).
  rewrite getTableColumns_run in Hc. injection Hc as <- <-.
  apply bind_ok_inv in Hrun as (nextRowID & s3 & Hn%wrapErr_ok_inv & Hrun).
  match type of Hn with queryNextID _ _ ?s0 = _ =>
    destruct (queryNextID_run "chat_item_messages" "rowid" s0)
      as (_ & Hlog3 & _)
  end.
  rewrite Hn in Hlog3. cbn [fst snd st_log] in Hlog3.
  apply bind_ok_inv in Hrun as (chunkSize & s4 & [_ ->]%liftR_ok_inv & Hrun).
  destruct (run_log _ _ _ _ _ (forChunks_noKey _ _ _ _ _) Hrun)
    as (evs2 & Hlog2 & Hevs2).
  exists (evs1 ++ [EvColumns "chat_item_messages"]), evs2. split_and!.
  - rewrite Hlog2, Hlog3, Hlog1, <- !app_assoc. done.
  - apply Forall_app. split; [done|]. by repeat constructor.
  - by apply keyQueries_none.
Qed.

Lemma bulkInsertMsgDeliveries_key data s s' :
  bulkInsertMsgDeliveries w data s = (Ok tt, s') →
  ∃ pre post,
    st_log s'
    = st_log s ++ pre ++ EvCoalesceMax "msg_deliveries" "agent_msg_id" 0 :: post
    ∧ Forall templateRead pre
    ∧ keyQueries post = [].
Proof.
  intros Hrun. unfold bulkInsertMsgDeliveries in Hrun.
  apply bind_ok_inv in Hrun as (templateRow & s1 & Ht%wrapErr_ok_inv & Hrun).
  destruct (run_log _ _ _ _ _ (getTemplateRow_reads _ _ _) Ht)
    as (evs1 & Hlog1 & Hevs1).
  apply bind_ok_inv in Hrun as (columns & s2 & Hc & Hrun).
  rewrite getTableColumns_run in Hc. injection Hc as <- <-.
  apply bind_ok_inv in Hrun as (maxAgentMsgID & s3 & Hn%wrapErr_ok_inv & Hrun).
  match type of Hn with queryMaxOrZero _ _ ?s0 = _ =>
    destruct (queryMaxOrZero_run "msg_deliveries" "agent_msg_id" s0)
      as (_ & Hlog3 & _)
  end.
  rewrite Hn in Hlog3. cbn [fst snd st_log] in Hlog3.
  apply bind_ok_inv in Hrun as (chunkSize & s4 & [_ ->]%liftR_ok_inv & Hrun).
  destruct (run_log _ _ _ _ _ (forChunks_noKey _ _ _ _ _) Hrun)
    as (evs2 & Hlog2 & Hevs2).
  exists (evs1 ++ [EvColumns "msg_deliveries"]), evs2. split_and!.
  - rewrite Hlog2, Hlog3, Hlog1, <- !app_assoc. done.
  - apply Forall_app. split; [done|]. by repeat constructor.
  - by apply keyQueries_none.
Qed.

Lemma bulkInsertReactions_key data contactID s s' :
  bulkInsertReactions w data contactID s = (Ok tt, s') →
  ∃ post,
    st_log s'
    = st_log s
      ++ EvCoalesceMax "chat_item_reactions" "chat_item_reaction_id" 1 :: post
    ∧ keyQueries post = [].
Proof.
  intros Hrun. unfold bulkInsertReactions in Hrun.
  apply bind_ok_inv in Hrun as (next & s1 & Hn%wrapErr_ok_inv & Hrun).
  destruct (queryNextID_run "chat_item_reactions" "chat_item_reaction_id" s)
    as (_ & Hlog1 & _).
  rewrite Hn in Hlog1. cbn [snd] in Hlog1.
  assert (emits (λ e, keyQueries [e] = [])
            (forEachAcc (Messages data) next
               (λ reactionIDCounter msgData,
                  forEachAcc (m_Reactions (Message msgData)) reactionIDCounter
                    (λ reactionIDCounter reaction,
                       wrapErr "failed to insert reaction"
                         (execInsert w "chat_item_reactions" reactionColumns
                            [reactionRow w msgData contactID reaction
                               reactionIDCounter]);;
                       mret (addInt reactionIDCounter 1)));;
             mret tt)) as Hloop.
  { apply emits_bind; [|intros; apply emits_ret].
    apply yields_forEachAcc. intros counter msgData _.
    apply yields_forEachAcc. intros counter' reaction _.
    apply emits_bind; [|intros; apply emits_ret].
    by apply yields_wrapErr, yields_execInsert. }
  destruct (run_log _ _ _ _ _ Hloop Hrun) as (evs2 & Hlog2 & Hevs2).
  exists evs2. split; [by rewrite Hlog2, Hlog1, <- app_assoc|].
  by apply keyQueries_none.
Qed.

(** The key queries of a batch whose steps return without error. *)
Lemma batchSteps_keyQueries messages startMessageID jsonDir contactID
    simplexFilesDir tx tx' :
  batchSteps w messages startMessageID jsonDir contactID simplexFilesDir tx
  = (Ok tt, tx') →
  ∃ evs fileQueries,
    st_log tx' = st_log tx ++ evs
    ∧ keyQueries evs
      = ("chat_items", "chat_item_id", 0) :: fileQueries
        ++ [ ("chat_item_messages", "rowid", 1);
             ("msg_deliveries", "agent_msg_id", 0);
             ("chat_item_reactions", "chat_item_reaction_id", 1) ]%string
    ∧ Forall (λ q, q ∈ [ ("files", "file_id", 1);
                         ("snd_files", "last_inline_msg_delivery_id", 1)
                       ]%string) fileQueries.
Proof.
  intros (maxChatItemID & s0 & s1 & s2 & s3 & s4 & H0 & H1 & H2 & H3 & H4 & H5)
           %batchSteps_ok_iff. cbv zeta in *.
  destruct (queryMaxOrZero_run "chat_items" "chat_item_id" tx)
    as (_ & Hlog0 & _). rewrite H0 in Hlog0. cbn [snd] in Hlog0.
  destruct (bulkInsertMessages_trace w
              (prepareBulkData messages startMessageID maxChatItemID)
              jsonDir contactID s0) as (evs1 & Hlog1 & Hevs1).
  rewrite H1 in Hlog1. cbn [snd] in Hlog1.
  assert (keyQueries evs1 = []) as Hk1.
  { apply keyQueries_none.
    destruct Hevs1 as [(T & _ & Hevs)|Hevs];
      (eapply Forall_impl; [exact Hevs|]); intros e He.
    - eapply (tableEvent_keyQueries w (λ e, keyQueries [e] = []));
        [done| |exact He].
      intros col plus Hin. by apply elem_of_nil in Hin.
    - by eapply tableRead_noKey. }
  destruct (bulkInsertChatItems_trace w
              (prepareBulkData messages startMessageID maxChatItemID)
              jsonDir contactID simplexFilesDir s1) as (evs2 & Hlog2 & Hevs2).
  rewrite H2 in Hlog2. cbn [snd] in Hlog2.
  set (fileKeys := [ ("files", "file_id", 1);
                     ("snd_files", "last_inline_msg_delivery_id", 1)
                   ]%string).
  assert (Forall (λ q, q ∈ fileKeys) (keyQueries evs2)) as Hk2.
  { apply keyQueries_Forall.
    assert (∀ e, keyQueries [e] = [] →
                 Forall (λ q, q ∈ fileKeys) (keyQueries [e])) as Hnone
      by (by intros e ->).
    destruct Hevs2 as [(T & _ & Hevs)|Hevs];
      (eapply Forall_impl; [exact Hevs|]); intros e He.
    - destruct He as [He|He].
      + eapply (tableEvent_keyQueries w
                  (λ e, Forall (λ q, q ∈ fileKeys) (keyQueries [e])));
          [exact Hnone| |exact He].
        intros col plus Hin. by apply elem_of_nil in Hin.
      + eapply (fileEvent_keyQueries w
                  (λ e, Forall (λ q, q ∈ fileKeys) (keyQueries [e])));
          [exact Hnone| | |exact He];
          repeat constructor; subst fileKeys; list_mem.
    - by eapply Hnone, tableRead_noKey. }
  apply bulkInsertChatItemMessages_key in H3
    as (pre3 & post3 & Hlog3 & Hpre3%keyQueries_templateRead & Hpost3).
  apply bulkInsertMsgDeliveries_key in H4
    as (pre4 & post4 & Hlog4 & Hpre4%keyQueries_templateRead & Hpost4).
  apply bulkInsertReactions_key in H5 as (post5 & Hlog5 & Hpost5).
  eexists _, (keyQueries evs2). split_and!.
  - rewrite Hlog5, Hlog4, Hlog3, Hlog2, Hlog1, Hlog0, <- !app_assoc.
    reflexivity.
  - change (?a :: ?l) with ([a] ++ l).
    rewrite !keyQueries_app, Hk1, Hpre3, Hpost3, Hpre4, Hpost4, Hpost5.
    cbn. try rewrite !app_nil_r. done.
  - done.
Qed.

(** [main] asks for the next message key once, before everything else. *)
Lemma main_message_key messages myUsername jsonDir contactID simplexFilesDir
    s :
  ∃ evs,
    st_log (main w messages myUsername jsonDir contactID simplexFilesDir s).2
    = st_log s ++ EvCoalesceMax "messages" "message_id" 1 :: evs
    ∧ ("messages", "message_id", 1)%string ∉ keyQueries evs.
Proof.
  set (P := λ e : event,
         Forall (λ q, q ≠ ("messages", "message_id", 1)%string)
           (keyQueries [e])).
  assert (∀ startMessageID,
            emits P
              (universalMessages ← liftR (convertExport w messages myUsername
                                            jsonDir);
               forChunks universalMessages batchSize (λ i end_ batch,
                 let batchStartID := addInt startMessageID i in
                 wrapErr ("Failed to insert batch " +:+ pretty (i + 1) +:+ "-"
                          +:+ pretty end_)
                   (bulkInsertUniversalMessages w batch batchStartID jsonDir
                      contactID simplexFilesDir)))) as Hrest.
  { intros startMessageID. apply emits_bind; [apply emits_liftR|].
    intros universalMessages. apply yields_forChunks. intros i e batch _.
    apply yields_wrapErr. cbv zeta.
    apply bulkInsertUniversalMessages_emits; [by constructor..|].
    apply batchSteps_keys; subst P; cbv beta;
      [by intros e0 ->|by repeat constructor..]. }
  unfold main. rewrite bind_run.
  destruct (queryNextID_run "messages" "message_id" s) as (_ & Hlog & _).
  rewrite <- (wrapErr_state "Failed to get starting message ID") in Hlog.
  destruct (wrapErr _ (queryNextID _ _) s) as [[startMessageID| | |] s1];
    cbn [snd] in Hlog |- *; try (exists []; split; [done|]; by intros ?%elem_of_nil).
  destruct (Hrest startMessageID s1) as [(evs & Hlog' & Hevs) _].
  cbv zeta in Hlog'.
  exists evs. split; [by rewrite Hlog', Hlog, <- app_assoc|].
  apply keyQueries_Forall in Hevs. rewrite Forall_forall in Hevs.
  intros Hin. by apply (Hevs _ Hin).
Qed.

Lemma sndFilesOverrides_delivery fileID nextDeliveryID createdAt updatedAt :
  sndFilesOverrides w fileID nextDeliveryID createdAt updatedAt
    !! "last_inline_msg_delivery_id"%string
  = Some (VInt nextDeliveryID).
Proof. unfold sndFilesOverrides. by override_lookup. Qed.

Lemma insertSndFile_key fileID s s' :
  insertSndFile w fileID s = (Ok tt, s') →
  ∃ t pre cols row,
    st_db s !! "snd_files"%string = Some t
    ∧ st_log s'
      = st_log s ++ pre
        ++ [ EvCoalesceMax "snd_files" "last_inline_msg_delivery_id" 1;
             EvInsert "snd_files" cols [row] ]
    ∧ Forall templateRead pre
    ∧ holds (cols, row) "last_inline_msg_delivery_id"
        (VInt (default 0
                 (colMax "last_inline_msg_delivery_id" (t_rows t)) + 1)).
Proof.
  intros Hrun. unfold insertSndFile in Hrun.
  apply bind_ok_inv in Hrun as (templateRow & s1 & Ht & Hrun).
  destruct (run_log _ _ _ _ _ (getTemplateRow_reads _ _ _) Ht)
    as (evs1 & Hlog1 & Hevs1).
  pose proof (run_db _ _ _ _ (preservesDb_getTemplateRow _ _ _) Ht) as Hdb1.
  apply bind_ok_inv in Hrun as (columns & s2 & Hc & Hrun).
  rewrite getTableColumns_run in Hc. injection Hc as <- <-.
  apply bind_ok_inv in Hrun as (next & s3 & Hn%wrapErr_ok_inv & Hrun).
  match type of Hn with queryNextID _ _ ?s0 = _ =>
    destruct (queryNextID_run "snd_files" "last_inline_msg_delivery_id" s0)
      as (_ & Hlog3 & Hnext)
  end.
  rewrite Hn in Hlog3, Hnext. cbn [fst snd st_log st_db] in Hlog3, Hnext.
  destruct (Hnext _ eq_refl) as (t & Htbl & ->). rewrite Hdb1 in Htbl.
  apply bind_ok_inv in Hrun as (createdAt & ? & [-> ->]%timeNow_ok_inv & Hrun).
  apply bind_ok_inv in Hrun as (updatedAt & ? & [-> ->]%timeNow_ok_inv & Hrun).
  apply bind_ok_inv in Hrun as ([] & s4 & Hp & Hins).
  apply liftR_ok_inv in Hp as [_ ->].
  match type of Hins with execInsert _ _ ?cols ?rows _ = _ =>
    pose proof (execInsert_log w "snd_files" cols rows s3) as Hlog4
  end.
  rewrite Hins in Hlog4. cbn [snd] in Hlog4.
  eexists t, (evs1 ++ [EvColumns "snd_files"]), _, _. split_and!.
  - done.
  - rewrite Hlog4, Hlog3, Hlog1, <- !app_assoc. reflexivity.
  - apply Forall_app. split; [done|]. by repeat constructor.
  - apply holds_override, sndFilesOverrides_delivery.
Qed.

Lemma bulkInsertReactions_log data contactID s s' t :
  bulkInsertReactions w data contactID s = (Ok tt, s') →
  st_db s !! "chat_item_reactions"%string = Some t →
  - 2 ^ 63 ≤ default 0 (colMax "chat_item_reaction_id" (t_rows t)) →
  default 0 (colMax "chat_item_reaction_id" (t_rows t)) < maxInt
  ∧ st_log s'
      = st_log s
        ++ EvCoalesceMax "chat_item_reactions" "chat_item_reaction_id" 1
        :: imap (λ k (p : MessageInsertData * UniversalReaction),
                   EvInsert "chat_item_reactions" reactionColumns
                     [reactionRow w p.1 contactID p.2
                        (wrap (default 0
                                 (colMax "chat_item_reaction_id" (t_rows t))
                               + 1 + Z.of_nat k))])
             (reactionsOf data).
Proof.
  intros Hrun Ht Hlow. unfold bulkInsertReactions in Hrun.
  apply bind_ok_inv in Hrun as (next & s1 & Hn%wrapErr_ok_inv & Hrun).
  destruct (queryNextID_run "chat_item_reactions" "chat_item_reaction_id" s)
    as (_ & Hlog1 & Hnext).
  pose proof (queryNextID_bound "chat_item_reactions" "chat_item_reaction_id"
                s next) as Hbound.
  rewrite Hn in Hlog1, Hnext, Hbound. cbn [fst snd] in *.
  specialize (Hbound eq_refl).
  destruct (Hnext _ eq_refl) as (t' & Ht' & ->). rewrite Ht in Ht'.
  injection Ht' as <-.
  apply bind_ok_inv in Hrun as (c' & s2 & Hloop & Hret).
  injection Hret as <-.
  apply reactions_of_batch in Hloop;
    [|apply wrap_small; unfold maxInt in Hbound; lia].
  split; [lia|]. rewrite Hloop, Hlog1, <- app_assoc. done.
Qed.

End Keys.




(** ** The template row *)

Lemma colMax_cases col rows :
  match colMax col rows with
  | Some id =>
      (∃ r, r ∈ rows ∧ r !! col = Some (VInt id))
      ∧ ∀ r n, r ∈ rows → r !! col = Some (VInt n) → n ≤ id
  | None => ∀ r n, r ∈ rows → r !! col ≠ Some (VInt n)
  end.
Proof.
  induction rows as [|r0 rows IH]; cbn [colMax foldr].
  - intros r n Hr. by apply elem_of_nil in Hr.
  - fold (colMax col rows).
    destruct (r0 !! col) as [[|n0| |]|] eqn:E0; cbn [mbind option_bind intOf];
      destruct (colMax col rows) as [m|]; cbn.
    all: try (destruct IH as [(r & Hr & Hid) Hle]; split;
              [exists r; split; [by apply list_elem_of_further|done]
              |intros r' n [->|Hr']%elem_of_cons Hn; [congruence|by eapply Hle]]).
    all: try (intros r' n [->|Hr']%elem_of_cons; [congruence|by apply IH]).
    + destruct IH as [(r & Hr & Hid) Hle]. split.
      * destruct (Z.max_spec n0 m) as [[_ ->]|[_ ->]].
        -- exists r. split; [by apply list_elem_of_further|done].
        -- exists r0. split; [apply list_elem_of_here|done].
      * intros r' n [->|Hr']%elem_of_cons Hn.
        -- rewrite E0 in Hn. injection Hn as <-. lia.
        -- specialize (Hle _ _ Hr' Hn). lia.
    + split.
      * exists r0. split; [apply list_elem_of_here|done].
      * intros r' n [->|Hr']%elem_of_cons Hn.
        -- rewrite E0 in Hn. injection Hn as <-. lia.
        -- by apply IH in Hn.
Qed.

Lemma filter_first {A} (P : A → Prop) `{∀ x, Decision (P x)} (l : list A) x :
  x ∈ l → P x → ∃ y rest, filter P l = y :: rest ∧ y ∈ l ∧ P y.
Proof.
  intros Hx HP.
  assert (x ∈ filter P l) as Hin by (by apply list_elem_of_filter).
  destruct (filter P l) as [|y rest] eqn:E; [by apply elem_of_nil in Hin|].
  exists y, rest. split; [done|].
  assert (y ∈ filter P l) as Hy by (rewrite E; apply list_elem_of_here).
  apply list_elem_of_filter in Hy as [? ?]. done.
Qed.

Lemma template_map_lookup (f : string → value) (columns : list string) :
  ∀ (m : gmap string value) col,
    foldl (λ (m : gmap string value) cv, <[cv.1 := cv.2]> m) m
      (zip columns (f <$> columns)) !! col
    = if bool_decide (col ∈ columns) then Some (f col) else m !! col.
Proof.
  induction columns as [|c columns IH]; intros m col; cbn [zip zip_with fmap list_fmap foldl].
  - rewrite bool_decide_eq_false_2; [done|]. intros H. by apply elem_of_nil in H.
  - rewrite IH. cbn [fst snd].
    destruct (decide (col ∈ columns)) as [Hin|Hnin].
    + rewrite !bool_decide_eq_true_2; [done| |done].
      by apply list_elem_of_further.
    + rewrite (bool_decide_eq_false_2 (col ∈ columns)) by done.
      destruct (decide (col = c)) as [->|Hne].
      * rewrite lookup_insert_eq, bool_decide_eq_true_2; [done|].
        apply list_elem_of_here.
      * rewrite lookup_insert_ne by done.
        rewrite bool_decide_eq_false_2; [done|].
        intros [?|?]%elem_of_cons; done.
Qed.

(** The head of a filtered list is the first element that passes. *)
Lemma filter_head_split {A} (P : A → Prop) `{∀ x, Decision (P x)} (l : list A)
    y rest :
  filter P l = y :: rest →
  ∃ before after, l = before ++ y :: after
                  ∧ P y ∧ ∀ x, x ∈ before → ¬ P x.
Proof.
  induction l as [|x l IH]; [done|]. rewrite filter_cons.
  destruct (decide (P x)) as [HP|HP].
  - intros [= -> <-]. exists [], l. split_and!; [done|done|].
    intros x' Hx'. by apply elem_of_nil in Hx'.
  - intros Hf. destruct (IH Hf) as (before & after & -> & Hy & Hbefore).
    exists (x :: before), after. split_and!; [done|done|].
    intros x' [->|Hx']%elem_of_cons; [done|by apply Hbefore].
Qed.

Lemma queryMax_ok tbl col s t :
  st_db s !! tbl = Some t → hasColumn t col = true →
  integerColumn col (t_rows t) = true →
  queryMax tbl col s
  = (Ok (colMax col (t_rows t)),
     {| st_db := st_db s; st_log := st_log s ++ [EvMax tbl col] |}).
Proof.
  intros Ht Hc Hi.
  unfold queryMax, selectMax, logEv, getDb, mbind, M_bind, mret, M_ret.
  cbn [st_db]. by rewrite Ht, Hc, Hi.
Qed.

Lemma queryMax_text tbl col s t :
  st_db s !! tbl = Some t → hasColumn t col = true →
  integerColumn col (t_rows t) = false →
  queryMax tbl col s
  = (Err scanError,
     {| st_db := st_db s; st_log := st_log s ++ [EvMax tbl col] |}).
Proof.
  intros Ht Hc Hi.
  unfold queryMax, selectMax, logEv, getDb, mbind, M_bind, mret, M_ret, fail.
  cbn [st_db]. by rewrite Ht, Hc, Hi.
Qed.

Lemma querySelectRow_ok w tbl columns idColumn id s t r rest :
  st_db s !! tbl = Some t →
  filter (λ r, r !! idColumn = Some (VInt id)) (t_rows t) = r :: rest →
  querySelectRow w tbl columns idColumn id s
  = (Ok ((λ c, w_driverValue w tbl c (default VNull (r !! c))) <$> columns),
     {| st_db := st_db s;
        st_log := st_log s ++ [EvSelect tbl idColumn id] |}).
Proof.
  intros Ht Hf.
  unfold querySelectRow, logEv, getDb, mbind, M_bind, mret, M_ret.
  cbn [st_db]. by rewrite Ht, Hf.
Qed.

(** What [getTemplateRow] returns for a table that has the key column,
    as a function of the table. *)
Lemma getTemplateRow_result w tableName idColumn s t :
  st_db s !! tableName = Some t →
  hasColumn t idColumn = true →
  let out := getTemplateRow w tableName idColumn s in
  if integerColumn idColumn (t_rows t) then
    match colMax idColumn (t_rows t) with
    | None => out.1 = Ok (Some ∅)
    | Some id =>
        ∃ before r after templateRow,
          t_rows t = before ++ r :: after
          ∧ r !! idColumn = Some (VInt id)
          ∧ (∀ r', r' ∈ before → r' !! idColumn ≠ Some (VInt id))
          ∧ (∀ r' n, r' ∈ t_rows t → r' !! idColumn = Some (VInt n) → n ≤ id)
          ∧ out.1 = Ok (Some templateRow)
          ∧ ∀ col, templateRow !! col
                   = if bool_decide (col ∈ t_columns t)
                     then Some (w_driverValue w tableName col
                                  (default VNull (r !! col)))
                     else None
    end
  else out.1 = Err (errorf ("failed to get template " +:+ idColumn) scanError).
Proof.
  intros Ht Hcol out. subst out. unfold getTemplateRow.
  rewrite bind_run. unfold wrapErr.
  destruct (integerColumn idColumn (t_rows t)) eqn:Hint.
  2: { by rewrite (queryMax_text _ _ _ _ Ht Hcol Hint). }
  rewrite (queryMax_ok _ _ _ _ Ht Hcol Hint).
  pose proof (colMax_cases idColumn (t_rows t)) as Hmax.
  destruct (colMax idColumn (t_rows t)) as [id|]; [|done].
  destruct Hmax as [(r & Hr & Hid) Hle].
  rewrite bind_run, getTableColumns_run. cbn [st_db]. rewrite Ht.
  cbn [from_option]. rewrite bind_run.
  destruct (filter_first (λ r, r !! idColumn = Some (VInt id)) (t_rows t) r
              Hr Hid) as (y & rest & Hfilter & Hy & Hyid).
  destruct (filter_head_split _ _ _ _ Hfilter)
    as (before & after & Hsplit & _ & Hbefore).
  cbn [st_log].
  rewrite (querySelectRow_ok w tableName (t_columns t) idColumn id
             {| st_db := st_db s;
                st_log := (st_log s ++ [EvMax tableName idColumn])
                          ++ [EvColumns tableName] |} t y rest Ht Hfilter).
  unfold mret, M_ret. cbn [fst].
  eexists before, y, after, _.
  split_and!; [done|done|done|done|reflexivity|].
  intros col.
  rewrite (template_map_lookup
             (λ c, w_driverValue w tableName c (default VNull (y !! c)))).
  by rewrite lookup_empty.
Qed.




(** ** The batches of an import *)

Section Batches.
Context {A : Type} (tbl : string) (cs : Z).
Context (body : Z → Z → list A → M unit).
Context (R : Z → A → list string * list value → Prop).
Hypothesis Hcs : 1 ≤ cs.
Hypothesis Hbody :
  ∀ i e chunk s s',
    0 ≤ i → (length chunk ≤ Z.to_nat cs)%nat →
    body i e chunk s = (Ok tt, s') →
    ∃ evs,
      st_log s' = st_log s ++ evs
      ∧ length (insertedRows tbl evs) = length chunk
      ∧ ∀ n d, chunk !! n = Some d →
               ∃ cr, insertedRows tbl evs !! n = Some cr
                     ∧ R (i + Z.of_nat n) d cr.

Lemma batches_rows (data : list A) :
  ∀ n k s s',
    forEach (chunkAt data cs <$> seq k n) (λ c, body c.1.1 c.1.2 c.2) s
    = (Ok tt, s') →
    ∃ evs,
      st_log s' = st_log s ++ evs
      ∧ length (insertedRows tbl evs)
        = length (take (n * Z.to_nat cs) (drop (k * Z.to_nat cs) data))
      ∧ ∀ m d,
          take (n * Z.to_nat cs) (drop (k * Z.to_nat cs) data) !! m = Some d →
          ∃ cr, insertedRows tbl evs !! m = Some cr
                ∧ R (Z.of_nat (k * Z.to_nat cs + m)) d cr.
Proof.
  induction n as [|n IH]; intros k s s' Hrun.
  - injection Hrun as <-. exists []. rewrite app_nil_r. done.
  - cbn [seq fmap list_fmap forEach] in Hrun.
    apply bind_ok_inv in Hrun as ([] & s1 & Hchunk & Hrest).
    unfold chunkAt in Hchunk at 1 2 3. cbn [fst snd] in Hchunk.
    rewrite take_chunk in Hchunk by lia.
    apply Hbody in Hchunk as (evs1 & Hlog1 & Hlen & HR);
      [|lia|rewrite length_take; lia].
    destruct (IH _ _ _ Hrest) as (evs2 & Hlog2 & Hlen2 & HR2).
    replace (Z.to_nat (Z.of_nat k * cs)) with (k * Z.to_nat cs)%nat
      in Hlen, HR by lia.
    assert (take (S n * Z.to_nat cs) (drop (k * Z.to_nat cs) data)
            = take (Z.to_nat cs) (drop (k * Z.to_nat cs) data)
              ++ take (n * Z.to_nat cs) (drop (S k * Z.to_nat cs) data))
      as Hsplit.
    { replace (S n * Z.to_nat cs)%nat with (Z.to_nat cs + n * Z.to_nat cs)%nat
        by lia.
      rewrite <- take_take_drop, drop_drop. do 3 f_equal. lia. }
    exists (evs1 ++ evs2). split_and!.
    + by rewrite Hlog2, Hlog1, <- app_assoc.
    + by rewrite insertedRows_app, Hsplit, !length_app, Hlen2, Hlen.
    + intros m d. rewrite Hsplit, insertedRows_app.
      intros [Hd|[Hm Hd]]%lookup_app_Some.
      * destruct (HR m d Hd) as (cr & Hr & HRr). exists cr. split.
        -- rewrite lookup_app_l; [done|].
           rewrite Hlen. by eapply lookup_lt_Some.
        -- replace (Z.of_nat (k * Z.to_nat cs + m))
             with (Z.of_nat k * cs + Z.of_nat m) by lia. done.
      * destruct (HR2 _ d Hd) as (cr & Hr & HRr). exists cr.
        assert (length (take (Z.to_nat cs) (drop (k * Z.to_nat cs) data))
                = Z.to_nat cs) as Hfull.
        { apply lookup_take_Some in Hd as [Hd _].
          apply lookup_lt_Some in Hd. rewrite length_drop in Hd.
          rewrite length_take, length_drop. lia. }
        rewrite Hfull in Hm, Hr, HRr. split.
        -- rewrite lookup_app_r by (rewrite Hlen, Hfull; lia).
           rewrite Hlen, Hfull. done.
        -- replace (k * Z.to_nat cs + m)%nat
             with (S k * Z.to_nat cs + (m - Z.to_nat cs))%nat by lia. done.
Qed.

Lemma forChunks_batches (data : list A) s s' :
  cs ≤ maxInt → len data < 2 ^ 62 →
  forChunks data cs body s = (Ok tt, s') →
  ∃ evs,
    st_log s' = st_log s ++ evs
    ∧ length (insertedRows tbl evs) = length data
    ∧ ∀ g d, data !! g = Some d →
             ∃ cr, insertedRows tbl evs !! g = Some cr ∧ R (Z.of_nat g) d cr.
Proof.
  intros Hmax Hlen Hrun. rewrite forChunks_chunks in Hrun by done.
  unfold chunksOf in Hrun.
  apply batches_rows in Hrun as (evs & Hlog & Hl & HR).
  assert (take (chunkCount (len data) cs * Z.to_nat cs) (drop (0 * Z.to_nat cs) data)
          = data) as Hall.
  { cbn [Nat.mul drop]. apply take_ge.
    pose proof (chunkCount_covers (len data) cs Hcs ltac:(unfold len; lia)).
    unfold len in *. lia. }
  rewrite Hall in Hl, HR. exists evs. split_and!; [done..|].
  intros g d Hd. destruct (HR g d Hd) as (cr & Hr & HRr). by exists cr.
Qed.

End Batches.

(** X9. When an import succeeds, the table [messages] has received exactly
    one row per message of the export, in the order of the export and
    across all batches: the row at position [g] carries the key
    [start + g], where [start], read once before the first batch, is one
    above the largest [message_id] the table held, and it carries the
    Discord identifier of the message at position [g] as its
    [shared_msg_id]. *)
Theorem message_keys_follow_export_order (w : World)
    (messages : list DiscordMessage) (myUsername jsonDir : string)
    (contactID : Z) (simplexFilesDir : string) (s s' : dbstate) (t : table) :
  st_db s !! "messages"%string = Some t →
  len messages < 2 ^ 62 →
  main w messages myUsername jsonDir contactID simplexFilesDir s = (Ok tt, s') →
  let start := default 0 (colMax "message_id" (t_rows t)) + 1 in
  let rows :=
    insertedRows "messages" (drop (length (st_log s)) (st_log s')) in
  length rows = length messages
  ∧ ∀ g N, messages !! g = Some N →
      ∃ cr, rows !! g = Some cr
            ∧ holds cr "message_id" (VInt (wrap (start + Z.of_nat g)))
            ∧ holds cr "shared_msg_id" (VBlob (d_ID N)).
Proof.
  intros Ht Hlen Hrun start rows. subst rows. unfold main in Hrun.
  apply bind_ok_inv in Hrun as (start' & s1 & Hn%wrapErr_ok_inv & Hrun).
  destruct (queryNextID_run "messages" "message_id" s) as (_ & Hlog1 & Hnext).
  rewrite Hn in Hlog1, Hnext. cbn [fst snd] in *.
  destruct (Hnext _ eq_refl) as (t' & Ht' & ->). rewrite Ht in Ht'.
  injection Ht' as <-. fold start in Hrun.
  apply bind_ok_inv in Hrun as (us & s2 & Hus & Hrun).
  apply liftR_ok_inv in Hus as [Hus ->].
  pose proof (convertMessages_run w myUsername (buildMappings messages).1
                (buildMappings messages).2 jsonDir messages) as Hconv.
  unfold convertExport in Hus. cbv zeta in Hus. rewrite Hus in Hconv.
  destruct Hconv as (_ & Hids & _).
  assert (length us = length messages) as Hlenus.
  { by rewrite <- (length_fmap m_ID), Hids, length_fmap. }
  apply (forChunks_batches "messages" batchSize _
           (λ g (u : UniversalMessage) cr,
              holds cr "message_id" (VInt (wrap (start + g)))
              ∧ holds cr "shared_msg_id" (VBlob (m_ID u)))) in Hrun;
    [|done| |done|unfold len; rewrite Hlenus; exact Hlen].
  - destruct Hrun as (evs & Hlog & Hl & HR).
    rewrite Hlog, Hlog1, <- app_assoc, drop_app_length.
    change (?a :: ?l) with ([a] ++ l). rewrite insertedRows_app.
    cbn [insertedRows mbind list_bind app].
    split; [by rewrite Hl|]. intros g N HN.
    assert (∃ u, us !! g = Some u ∧ m_ID u = d_ID N) as (u & Hu & Hid).
    { assert ((d_ID <$> messages) !! g = Some (d_ID N)) as H
        by (by rewrite list_lookup_fmap, HN).
      rewrite <- Hids, list_lookup_fmap in H.
      destruct (us !! g) as [u|]; [|done]. exists u.
      split; [done|]. by injection H. }
    destruct (HR g u Hu) as (cr & Hcr & H1 & H2). exists cr.
    rewrite <- Hid. done.
  - intros i e batch s0 s0' Hi Hbatch Hb. apply wrapErr_ok_inv in Hb.
    pose proof (bulkInsertUniversalMessages_run w batch (addInt start i)
                  jsonDir contactID simplexFilesDir s0) as Hrun'.
    cbv zeta in Hrun'. rewrite Hb in Hrun'.
    destruct Hrun' as [(_ & Hsteps & _ & Hout)|[(_ & _ & ? & _)|(_ & ? & _)]];
      [|done..].
    injection Hout as ->.
    destruct (batchSteps w batch (addInt start i) jsonDir contactID
                simplexFilesDir
                {| st_db := st_db s0; st_log := st_log s0 ++ [EvBegin] |})
      as [r tx'] eqn:Esteps.
    cbn [fst snd] in *. subst r.
    destruct (batchSteps_rows w _ _ _ _ _ _ _ Esteps) as
      (tc & evs & _ & Hlog & Hl & Hrows).
    { unfold len, batchSize in *. lia. }
    cbn [st_log] in Hlog |- *.
    exists ([EvBegin] ++ evs ++ [EvCommit]). split_and!.
    + rewrite Hlog, <- !app_assoc. done.
    + rewrite !insertedRows_app. cbn [insertedRows mbind list_bind app].
      by rewrite app_nil_r.
    + intros n u Hu.
      destruct (Hrows n u Hu) as ((columns & templateRow & bytes & Hr) & _).
      eexists. split.
      { rewrite !insertedRows_app. cbn [insertedRows mbind list_bind app].
        rewrite app_nil_r. exact Hr. }
      pose proof (messagesOverrides_keys w
                    {| MessageID := wrap (addInt start i + Z.of_nat n);
                       ChatItemID :=
                         wrap (default 0 (colMax "chat_item_id" (t_rows tc))
                               + 1 + Z.of_nat n);
                       SharedMsgID := m_ID u;
                       Message := u |} bytes) as (K1 & K2 & _).
      cbn [MessageID SharedMsgID] in K1, K2.
      split; [|by apply holds_override].
      apply holds_override. rewrite K1. unfold addInt.
      by rewrite wrap_wrap_add, <- Z.add_assoc.
Qed.

Lemma message_keys_follow_export_order_witness :
  ∃ cr,
    insertedRows "messages" (st_log exampleRun.2) !! 1%nat = Some cr
    ∧ holds cr "message_id" (VInt 2)
    ∧ holds cr "shared_msg_id" (VBlob "2").
Proof.
  destruct (message_keys_follow_export_order exampleWorld exampleExport "me"
              "export" 5 "files" exampleStart exampleRun.2
              (emptyTable ["message_id"; "msg_sent"; "msg_body"]%string))
    as [_ Hrows];
    [vm_compute; reflexivity|vm_compute; reflexivity|vm_compute; reflexivity|].
  destruct (Hrows 1%nat _ eq_refl) as (cr & Hcr & Hid & Hshared).
  exists cr. split; [exact Hcr|]. split; [exact Hid|exact Hshared].
Defined.


(** ** The copy of an attachment *)

Lemma mkdirs_lookup dirs :
  ∀ disk path,
    mkdirs dirs disk !! path
    = if bool_decide (path ∈ dirs) then Some Directory else disk !! path.
Proof.
  unfold mkdirs. induction dirs as [|d dirs IH]; intros disk path; cbn [foldl].
  - rewrite bool_decide_eq_false_2; [done|]. intros H. by apply elem_of_nil in H.
  - rewrite IH. destruct (decide (path ∈ dirs)) as [Hin|Hnin].
    + rewrite !bool_decide_eq_true_2; [done| |done].
      by apply list_elem_of_further.
    + rewrite (bool_decide_eq_false_2 (path ∈ dirs)) by done.
      destruct (decide (path = d)) as [->|Hne].
      * rewrite lookup_insert_eq, bool_decide_eq_true_2; [done|].
        apply list_elem_of_here.
      * rewrite lookup_insert_ne by done.
        rewrite bool_decide_eq_false_2; [done|].
        intros [?|?]%elem_of_cons; done.
Qed.

(** The directories [os.MkdirAll] makes did not exist. *)
Lemma missingDirs_absent disk :
  ∀ chain dirs path,
    missingDirs disk chain = Some dirs → path ∈ dirs → disk !! path = None.
Proof.
  induction chain as [|p above IH]; intros dirs path; cbn [missingDirs].
  - intros [= <-] H. by apply elem_of_nil in H.
  - destruct (disk !! p) as [[|]|] eqn:Ep.
    + done.
    + intros [= <-] H. by apply elem_of_nil in H.
    + destruct (missingDirs disk above) as [ds|] eqn:Eabove; [|done].
      cbn. intros [= <-] [Hin|Hin%list_elem_of_singleton]%elem_of_app.
      * by eapply IH.
      * by subst path.
Qed.

Lemma copyFileToSimplexDir_ok_inv (w : World) (os : Os)
    (sourcePath filename simplexFilesDir : string)
    (disk disk' : gmap string node) :
  copyFileToSimplexDir w os sourcePath filename simplexFilesDir disk
  = (Ok tt, disk') →
  ∃ name content dirs,
    truncateFilename w filename = Ok name
    ∧ missingDirs disk (simplexFilesDir :: os_parents os simplexFilesDir)
      = Some dirs
    ∧ is_Some (mkdirs dirs disk !! sourcePath)
    ∧ mkdirs dirs disk !! w_filepathJoin w simplexFilesDir name
      ≠ Some Directory
    ∧ <[w_filepathJoin w simplexFilesDir name := RegularFile ""]>
        (mkdirs dirs disk) !! sourcePath
      = Some (RegularFile content)
    ∧ disk'
      = <[w_filepathJoin w simplexFilesDir name := RegularFile content]>
          (<[w_filepathJoin w simplexFilesDir name := RegularFile ""]>
             (mkdirs dirs disk)).
Proof.
  unfold copyFileToSimplexDir, MkdirAll. fold (truncateFilename w filename).
  intros Hrun. repeat case_match; simplify_eq; eexists _, _, _;
    split_and!; eauto; congruence.
Qed.

(** X10. When the copy of an attachment succeeds, the source is a regular
    file, and the destination, inside the SimpleX files directory under
    the file name that [insertFileAttachment] stores in the file row (the
    name cut to 200 bytes), holds the contents of the source, whatever it
    held before.  Of the other paths, the files directory and the
    directories above it that did not exist have been made, and nothing
    else is changed.  Only when the destination is the source itself is
    the outcome different: the file is then left empty. *)
Theorem copy_lands_under_the_stored_name (w : World) (os : Os)
    (sourcePath filename simplexFilesDir : string)
    (disk disk' : gmap string node) :
  copyFileToSimplexDir w os sourcePath filename simplexFilesDir disk
  = (Ok tt, disk') →
  ∃ name content dirs,
    truncateFilename w filename = Ok name
    ∧ disk !! sourcePath = Some (RegularFile content)
    ∧ missingDirs disk (simplexFilesDir :: os_parents os simplexFilesDir)
      = Some dirs
    ∧ (∀ path, path ∈ dirs → disk !! path = None)
    ∧ let destPath := w_filepathJoin w simplexFilesDir name in
      disk' !! destPath
      = Some (RegularFile (if bool_decide (destPath = sourcePath)
                           then ""%string else content))
      ∧ ∀ path, path ≠ destPath →
                disk' !! path
                = if bool_decide (path ∈ dirs) then Some Directory
                  else disk !! path.
Proof.
  intros (name & content & dirs & Hname & Hdirs & [src Hsrc] & Hdest & Hsrc'
          & ->)%copyFileToSimplexDir_ok_inv.
  exists name. cbv zeta.
  set (destPath := w_filepathJoin w simplexFilesDir name) in *.
  pose proof (λ path, missingDirs_absent _ _ _ path Hdirs) as Habsent.
  assert (∀ c path, path ≠ destPath →
            <[destPath := RegularFile c]>
              (<[destPath := RegularFile ""]> (mkdirs dirs disk)) !! path
            = if bool_decide (path ∈ dirs) then Some Directory
              else disk !! path) as Hother.
  { intros c path ?. by rewrite !lookup_insert_ne, mkdirs_lookup. }
  destruct (decide (destPath = sourcePath)) as [Heq|Hne].
  - rewrite Heq, lookup_insert_eq in Hsrc'. injection Hsrc' as <-.
    rewrite bool_decide_eq_true_2 by done. rewrite Heq in Hdest.
    rewrite mkdirs_lookup in Hsrc, Hdest.
    case_bool_decide as Hin; [done|].
    destruct src as [content|]; [|done].
    exists content, dirs. split_and!; [done|done|done|done| |by apply Hother].
    by rewrite lookup_insert_eq.
  - rewrite bool_decide_eq_false_2 by done.
    rewrite lookup_insert_ne, mkdirs_lookup in Hsrc' by done.
    case_bool_decide as Hin; [done|].
    exists content, dirs. split_and!; [done|done|done|done| |by apply Hother].
    by rewrite lookup_insert_eq.
Qed.

Lemma copy_lands_under_the_stored_name_witness :
  let out :=
    copyFileToSimplexDir exampleWorld exampleOs "export/a.png" "a.png"
      "simplex/files" exampleDisk in
  out.1 = Ok tt
  ∧ out.2 !! "simplex/files/a.png"%string = Some (RegularFile "PNG")
  ∧ out.2 !! "simplex"%string = Some Directory.
Proof.
  cbv zeta. split; [vm_compute; reflexivity|].
  destruct (copy_lands_under_the_stored_name exampleWorld exampleOs
              "export/a.png" "a.png" "simplex/files" exampleDisk
              (copyFileToSimplexDir exampleWorld exampleOs "export/a.png"
                 "a.png" "simplex/files" exampleDisk).2)
    as (name & content & dirs & Hname & Hsrc & Hdirs & _ & Hdest & Hother);
    [vm_compute; reflexivity|].
  assert (name = "a.png"%string) as ->
    by (vm_compute in Hname; by injection Hname as <-).
  assert (content = "PNG"%string) as ->
    by (vm_compute in Hsrc; by injection Hsrc as <-).
  assert (dirs = ["simplex"; "simplex/files"]%string) as ->
    by (vm_compute in Hdirs; by injection Hdirs as <-).
  split; [exact Hdest|].
  rewrite (Hother "simplex"%string) by done. done.
Defined.


(** ** The contact lookup *)

Lemma sqlEq_true a b : sqlEq a b = true → a = b ∧ a ≠ VNull.
Proof.
  unfold sqlEq. destruct a, b; try done;
    intros ?%bool_decide_eq_true; by split.
Qed.

Lemma sqlEq_refl a : a ≠ VNull → sqlEq a a = true.
Proof. destruct a; try done; intros _; cbn; by apply bool_decide_eq_true. Qed.

Lemma cell_eq row col v : v ≠ VNull → cell row col = v ↔ row !! col = Some v.
Proof.
  intros Hv. unfold cell. destruct (row !! col) as [x|]; cbn.
  - split; [by intros ->|by intros [= ->]].
  - split; [by intros <-|done].
Qed.

Lemma joinProfiles_elem contacts profiles c ocp :
  (c, ocp) ∈ joinProfiles contacts profiles ↔
  c ∈ contacts
  ∧ match ocp with
    | Some cp =>
        cp ∈ profiles
        ∧ sqlEq (cell c "contact_profile_id") (cell cp "contact_profile_id")
          = true
    | None =>
        ∀ cp, cp ∈ profiles →
              sqlEq (cell c "contact_profile_id")
                (cell cp "contact_profile_id") ≠ true
    end.
Proof.
  unfold joinProfiles. rewrite list_elem_of_bind. split.
  - intros (c' & Hin & Hc').
    destruct (filter _ profiles) as [|cp0 cps] eqn:E.
    + apply list_elem_of_singleton in Hin. injection Hin as -> ->.
      split; [done|]. intros cp Hcp Heq.
      assert (cp ∈ filter (λ cp, sqlEq (cell c' "contact_profile_id")
                                   (cell cp "contact_profile_id") = true)
                     profiles) as Hf by (by apply list_elem_of_filter).
      rewrite E in Hf. by apply elem_of_nil in Hf.
    + apply list_elem_of_fmap in Hin as (cp & [= -> ->] & Hcp).
      split; [done|]. rewrite <- E in Hcp.
      apply list_elem_of_filter in Hcp as [? ?]. done.
  - intros [Hc Hocp]. exists c. split; [|done].
    destruct ocp as [cp|].
    + destruct Hocp as [Hcp Heq].
      assert (cp ∈ filter (λ cp, sqlEq (cell c "contact_profile_id")
                                   (cell cp "contact_profile_id") = true)
                     profiles) as Hf by (by apply list_elem_of_filter).
      destruct (filter _ profiles) as [|cp0 cps];
        [by apply elem_of_nil in Hf|].
      apply list_elem_of_fmap. by exists cp.
    + destruct (filter _ profiles) as [|cp0 cps] eqn:E; [list_mem|].
      exfalso. apply (Hocp cp0).
      * assert (cp0 ∈ filter (λ cp, sqlEq (cell c "contact_profile_id")
                                      (cell cp "contact_profile_id") = true)
                         profiles) as Hf by (rewrite E; list_mem).
        by apply list_elem_of_filter in Hf as [? ?].
      * assert (cp0 ∈ filter (λ cp, sqlEq (cell c "contact_profile_id")
                                      (cell cp "contact_profile_id") = true)
                         profiles) as Hf by (rewrite E; list_mem).
        by apply list_elem_of_filter in Hf as [? ?].
Qed.

(** A joined row passes the condition of the query exactly when its
    contact answers to the name, through this profile or by itself. *)
Lemma contactMatches_answersTo contacts profiles contactName c :
  (∃ ocp, (c, ocp) ∈ joinProfiles contacts profiles
          ∧ contactMatches contactName (c, ocp) = true)
  ↔ c ∈ contacts ∧ answersTo profiles contactName c.
Proof.
  split.
  - intros (ocp & [Hc Hocp]%joinProfiles_elem & Hm). split; [done|].
    unfold contactMatches in Hm. cbn [fst snd] in Hm.
    apply andb_true_iff in Hm as [Hdel Hname].
    apply sqlEq_true in Hdel as [Hdel _]. apply cell_eq in Hdel; [|done].
    split; [done|].
    apply orb_true_iff in Hname as [Hl|Hp].
    + left. apply sqlEq_true in Hl as [Hl _]. by apply cell_eq in Hl.
    + right. destruct ocp as [cp|]; [|done]. destruct Hocp as [Hcp Heq].
      apply sqlEq_true in Hp as [Hp _]. apply cell_eq in Hp; [|done].
      by exists cp.
  - intros [Hc [Hdel Hname]].
    assert (sqlEq (cell c "deleted") (VInt 0) = true) as Hd.
    { apply (cell_eq c "deleted" (VInt 0)) in Hdel; [|done].
      rewrite Hdel. by apply sqlEq_refl. }
    destruct Hname as [Hl|(cp & Hcp & Heq & Hp)].
    + assert (sqlEq (cell c "local_display_name") (VText contactName) = true)
        as Hl'.
      { apply (cell_eq c "local_display_name" (VText contactName)) in Hl;
          [|done]. rewrite Hl. by apply sqlEq_refl. }
      destruct (filter (λ cp, sqlEq (cell c "contact_profile_id")
                                (cell cp "contact_profile_id") = true)
                  profiles) as [|cp0 cps] eqn:E.
      * exists None. split.
        -- apply joinProfiles_elem. split; [done|]. intros cp Hcp Heq.
           assert (cp ∈ filter (λ cp, sqlEq (cell c "contact_profile_id")
                                        (cell cp "contact_profile_id") = true)
                          profiles) as Hf by (by apply list_elem_of_filter).
           rewrite E in Hf. by apply elem_of_nil in Hf.
        -- unfold contactMatches. cbn [fst snd]. by rewrite Hd, Hl'.
      * assert (cp0 ∈ filter (λ cp, sqlEq (cell c "contact_profile_id")
                                      (cell cp "contact_profile_id") = true)
                         profiles) as Hf by (rewrite E; list_mem).
        apply list_elem_of_filter in Hf as [Heq0 Hcp0].
        exists (Some cp0). split.
        -- apply joinProfiles_elem. by split.
        -- unfold contactMatches. cbn [fst snd]. by rewrite Hd, Hl'.
    + exists (Some cp). split.
      * apply joinProfiles_elem. by split.
      * unfold contactMatches. cbn [fst snd]. rewrite Hd. cbn [andb].
        apply orb_true_iff. right.
        apply (cell_eq cp "display_name" (VText contactName)) in Hp; [|done].
        rewrite Hp. by apply sqlEq_refl.
Qed.

(** X11. The contact lookup never selects a deleted contact and never
    guesses: the key it returns is the [contact_id] of a contact that is
    not deleted and whose local display name, or the display name of whose
    profile, is exactly the name asked for; and when both tables are there
    with their columns, it answers "contact '...' not found" exactly when
    no contact is such.  When several contacts answer to the name, one of
    them is taken without notice. *)
Theorem contact_lookup_finds_a_live_match (parseInt : string → string + Z)
    (db : gmap string table) (contactName : string)
    (contacts profiles : table) :
  db !! "contacts"%string = Some contacts →
  db !! "contact_profiles"%string = Some profiles →
  missingColumn contacts
    ["contact_id"; "contact_profile_id"; "deleted"; "local_display_name"]%string
  = None →
  missingColumn profiles ["contact_profile_id"; "display_name"]%string = None →
  (∀ contactID,
     getContactIDByName parseInt db contactName = Ok contactID →
     ∃ c, c ∈ t_rows contacts
          ∧ answersTo (t_rows profiles) contactName c
          ∧ scanInt parseInt (cell c "contact_id") = inr contactID)
  ∧ (getContactIDByName parseInt db contactName
     = Err ("contact '" +:+ contactName +:+ "' not found")
     ↔ ¬ ∃ c, c ∈ t_rows contacts ∧ answersTo (t_rows profiles) contactName c).
Proof.
  intros Hc Hp Hcc Hpc. unfold getContactIDByName.
  rewrite Hc, Hp, Hcc, Hpc.
  destruct (filter (λ row, contactMatches contactName row = true)
              (joinProfiles (t_rows contacts) (t_rows profiles)))
    as [|[c ocp] rest] eqn:E.
  - split; [done|]. split; [|done]. intros _ (c & Hin & Hans).
    destruct (proj2 (contactMatches_answersTo _ _ _ _) (conj Hin Hans))
      as (ocp & Hj & Hm).
    assert ((c, ocp) ∈ filter (λ row, contactMatches contactName row = true)
                         (joinProfiles (t_rows contacts) (t_rows profiles)))
      as Hf by (by apply list_elem_of_filter).
    rewrite E in Hf. by apply elem_of_nil in Hf.
  - assert ((c, ocp) ∈ filter (λ row, contactMatches contactName row = true)
                         (joinProfiles (t_rows contacts) (t_rows profiles)))
      as Hf by (rewrite E; list_mem).
    apply list_elem_of_filter in Hf as [Hm Hj].
    destruct (proj1 (contactMatches_answersTo _ _ _ _)
                (ex_intro _ ocp (conj Hj Hm))) as [Hin Hans].
    cbn [fst]. split.
    + intros contactID Hid. exists c. split; [done|]. split; [done|].
      destruct (scanInt parseInt (cell c "contact_id")); [done|].
      by injection Hid as ->.
    + split.
      * destruct (scanInt parseInt (cell c "contact_id")); [|done].
        unfold errorf. intros [=].
      * intros Hnone. exfalso. apply Hnone. by exists c.
Qed.

Lemma contact_lookup_finds_a_live_match_witness :
  getContactIDByName (λ _, inl "invalid syntax"%string) exampleContacts "bob"
  = Ok 5
  ∧ ∃ c : gmap string value, c !! "deleted"%string = Some (VInt 0)
         ∧ c !! "local_display_name"%string = Some (VText "bob_1")
         ∧ c !! "contact_id"%string = Some (VInt 5).
Proof.
  split; [vm_compute; reflexivity|].
  destruct (contact_lookup_finds_a_live_match
              (λ _, inl "invalid syntax"%string) exampleContacts "bob"
              {| t_columns := ["contact_id"; "contact_profile_id"; "deleted";
                               "local_display_name"]%string;
                 t_rows := [ {[ "contact_id"%string := VInt 3;
                                "contact_profile_id"%string := VInt 30;
                                "deleted"%string := VInt 1;
                                "local_display_name"%string := VText "bob" ]};
                             {[ "contact_id"%string := VInt 4;
                                "contact_profile_id"%string := VInt 40;
                                "deleted"%string := VInt 0;
                                "local_display_name"%string := VText "alice" ]};
                             {[ "contact_id"%string := VInt 5;
                                "contact_profile_id"%string := VInt 50;
                                "deleted"%string := VInt 0;
                                "local_display_name"%string := VText "bob_1" ]} ] |}
              {| t_columns := ["contact_profile_id"; "display_name"]%string;
                 t_rows := [ {[ "contact_profile_id"%string := VInt 50;
                                "display_name"%string := VText "bob" ]} ] |})
    as [Hsound _]; [vm_compute; reflexivity..|].
  destruct (Hsound 5) as (c & Hc & [Hdel _] & Hid); [vm_compute; reflexivity|].
  exists c. cbn [t_rows] in Hc.
  repeat (apply elem_of_cons in Hc as [->|Hc]);
    [by vm_compute in Hdel|by vm_compute in Hid| |by apply elem_of_nil in Hc].
  split_and!; vm_compute; reflexivity.
Defined.


(** ** The walk over the extracted archive *)

Lemma entry_forall_ind (P : entry → Prop) :
  (∀ name, P (FileEntry name)) →
  (∀ name children, Forall P children → P (DirEntry name children)) →
  (∀ name err, P (UnreadableDir name err)) →
  (∀ name err, P (BrokenEntry name err)) →
  ∀ e, P e.
Proof.
  intros Hfile Hdir Hunr Hbroken.
  fix IH 1. intros [name|name children|name err|name err].
  - apply Hfile.
  - apply Hdir.
    induction children as [|child children IHc]; constructor;
      [apply IH|exact IHc].
  - apply Hunr.
  - apply Hbroken.
Qed.

Lemma prefix_app_contains b :
  ∀ a s, String.prefix (a +:+ b) s = true → contains s b = true.
Proof.
  induction a as [|c a IH]; intros s Hp.
  - change (String.prefix b s = true) in Hp.
    destruct s; cbn [contains]; by rewrite Hp.
  - destruct s as [|c' s]; [done|].
    change (match ascii_dec c c' with
            | left _ => String.prefix (a +:+ b) s
            | right _ => false
            end = true) in Hp.
    destruct (ascii_dec c c'); [|done].
    cbn [contains]. rewrite (IH _ Hp). apply orb_true_r.
Qed.

(** A string that contains [a ++ b] contains [b]. *)
Lemma contains_app s a b :
  contains s (a +:+ b) = true → contains s b = true.
Proof.
  induction s as [|c s IH]; intros H; cbn [contains] in H.
  - rewrite orb_false_r in H. by apply prefix_app_contains in H.
  - apply orb_true_iff in H as [Hp|Hc].
    + by apply prefix_app_contains in Hp.
    + cbn [contains]. rewrite (IH Hc). apply orb_true_r.
Qed.

Lemma contains_or s a b :
  contains s (a +:+ b) || contains s b = contains s b.
Proof.
  destruct (contains s b) eqn:E; [by rewrite orb_true_r|].
  rewrite orb_false_r.
  destruct (contains s (a +:+ b)) eqn:E'; [|done].
  apply contains_app in E'. congruence.
Qed.

Section Entries.
Context (join : string → string → string).

Lemma entriesOf_dir path name children p x :
  (p, x) ∈ entriesOf join path (DirEntry name children) ↔
  (p, x) = (path, DirEntry name children)
  ∨ ∃ child, child ∈ children
             ∧ (p, x) ∈ entriesOf join (join path (entryName child)) child.
Proof.
  cbn [entriesOf]. rewrite elem_of_cons.
  apply or_iff_compat_l.
  induction children as [|c children IH].
  - split; [by intros ?%elem_of_nil|].
    intros (child & ?%elem_of_nil & _). done.
  - rewrite elem_of_app, IH. split.
    + intros [Hc|(child & Hin & Hc)].
      * exists c. split; [list_mem|done].
      * exists child. split; [by apply list_elem_of_further|done].
    + intros (child & [->|Hin]%elem_of_cons & Hc); [by left|].
      right. by exists child.
Qed.

Lemma entriesOf_self path e : (path, e) ∈ entriesOf join path e.
Proof. destruct e; cbn [entriesOf]; apply list_elem_of_here. Qed.

Lemma readable_child path name children child :
  readable join path (DirEntry name children) → child ∈ children →
  readable join (join path (entryName child)) child.
Proof.
  intros Hr Hin p x Hpx. apply (Hr p x).
  apply entriesOf_dir. right. by exists child.
Qed.

End Entries.

(** *** A search *)

Section Search.
Context (join : string → string → string) (wanted : string → bool → bool).

Local Abbreviation walkS := (walk join (searchFn wanted)).
Local Abbreviation loopS := (walkNames join (searchFn wanted) walkS).
Local Abbreviation inTree path e p :=
  (∃ x, (p, x) ∈ entriesOf join path e ∧ wantedEntry wanted (p, x)).
Local Abbreviation below path children p :=
  (∃ c, c ∈ children ∧ inTree (join path (entryName c)) c p).

Lemma walk_dir path name children st :
  walkS path (DirEntry name children) st
  = if wanted name true then (Some SkipDir, path)
    else loopS path children st.
Proof. cbn [walk]. unfold searchFn at 1. by destruct (wanted name true). Qed.

Lemma loop_cons path child rest st :
  loopS path (child :: rest) st
  = match walkS (join path (entryName child)) child st with
    | (None, st') => loopS path rest st'
    | (Some SkipDir, st') =>
        if entryIsDir child then loopS path rest st' else (Some SkipDir, st')
    | (Some (WalkFailure e), st') => (Some (WalkFailure e), st')
    end.
Proof. by destruct child. Qed.

(** What a walk that started with [st] noted: nothing, or the path of a
    wanted entry; the latter whenever it returned [SkipDir]. *)
Local Abbreviation sound path e st r st' :=
  ((st' = st ∨ inTree path e st') ∧ (r = Some SkipDir → inTree path e st')).

Lemma loop_sound path children :
  (∀ c, c ∈ children → ∀ p st r st',
          walkS p c st = (r, st') → sound p c st r st') →
  ∀ st r st',
    loopS path children st = (r, st') →
    (st' = st ∨ below path children st')
    ∧ (r = Some SkipDir → below path children st').
Proof.
  induction children as [|child rest IH]; intros Hs st r st' Hrun.
  - injection Hrun as <- <-. split; [by left|done].
  - pose proof (Hs child (list_elem_of_here _ _)) as Hchild.
    specialize (IH (λ c Hc, Hs c (list_elem_of_further _ _ _ Hc))).
    assert (∀ st1, (st1 = st ∨ inTree (join path (entryName child)) child st1) →
                   (st' = st1 ∨ below path rest st') →
                   st' = st ∨ below path (child :: rest) st') as Hstep.
    { intros st1 Hst1 [->|(c & Hc & Hin)].
      - destruct Hst1 as [->|Hin]; [by left|].
        right. exists child. split; [list_mem|done].
      - right. exists c. split; [by apply list_elem_of_further|done]. }
    assert (below path rest st' → below path (child :: rest) st') as Hrest.
    { intros (c & Hc & Hin). exists c.
      split; [by apply list_elem_of_further|done]. }
    rewrite loop_cons in Hrun.
    destruct (walkS (join path (entryName child)) child st)
      as [[[|e]|] st1] eqn:E;
      destruct (Hchild _ _ _ _ E) as [Hst1 Hskip].
    + destruct (entryIsDir child).
      * destruct (IH _ _ _ Hrun) as [H1 H2].
        split; [by apply (Hstep st1)|]. intros Hr. by apply Hrest, H2.
      * injection Hrun as <- <-. split; [apply (Hstep st1); by auto|].
        intros _. exists child. split; [list_mem|by apply Hskip].
    + injection Hrun as <- <-. split; [apply (Hstep st1); by auto|done].
    + destruct (IH _ _ _ Hrun) as [H1 H2].
      split; [by apply (Hstep st1)|]. intros Hr. by apply Hrest, H2.
Qed.

Lemma walk_sound :
  ∀ e path st r st', walkS path e st = (r, st') → sound path e st r st'.
Proof.
  induction e as [name|name children IH|name err|name err]
    using entry_forall_ind; intros path st r st' Hrun.
  - cbn [walk] in Hrun. unfold searchFn in Hrun.
    destruct (wanted name false) eqn:E; injection Hrun as <- <-.
    + assert (inTree path (FileEntry name) path) as Hin.
      { exists (FileEntry name). split; [apply entriesOf_self|done]. }
      split; [by right|done].
    + split; [by left|done].
  - rewrite walk_dir in Hrun. destruct (wanted name true) eqn:E.
    + injection Hrun as <- <-.
      assert (inTree path (DirEntry name children) path) as Hin.
      { exists (DirEntry name children). split; [apply entriesOf_self|done]. }
      split; [by right|done].
    + rewrite Forall_forall in IH.
      destruct (loop_sound path children IH _ _ _ Hrun) as [H1 H2].
      assert (below path children st' → inTree path (DirEntry name children) st')
        as Hlift.
      { intros (c & Hc & x & Hx & Hw). exists x. split; [|done].
        apply entriesOf_dir. right. by exists c. }
      split; [destruct H1; by auto|]. intros Hr. by apply Hlift, H2.
  - injection Hrun as <- <-. split; [by left|done].
  - injection Hrun as <- <-. split; [by left|done].
Qed.

(** In a tree that can be read the walk does not fail, and it notes a
    wanted entry when the tree has one. *)
Local Abbreviation complete path e r st' :=
  ((∀ err, r ≠ Some (WalkFailure err))
   ∧ ((∃ p, inTree path e p) → inTree path e st')).

Lemma loop_complete path children :
  (∀ c, c ∈ children → readable join (join path (entryName c)) c) →
  (∀ c, c ∈ children → ∀ p st r st',
          readable join p c → walkS p c st = (r, st') → complete p c r st') →
  ∀ st r st',
    loopS path children st = (r, st') →
    (∀ err, r ≠ Some (WalkFailure err))
    ∧ ((∃ p, below path children p) → below path children st').
Proof.
  induction children as [|child rest IH]; intros Hread Hc st r st' Hrun.
  - injection Hrun as <- <-. split; [done|].
    intros (p & c & ?%elem_of_nil & _). done.
  - pose proof (Hread child (list_elem_of_here _ _)) as Hreadc.
    pose proof (Hc child (list_elem_of_here _ _)) as Hchild.
    specialize (IH (λ c H, Hread c (list_elem_of_further _ _ _ H))
                  (λ c H, Hc c (list_elem_of_further _ _ _ H))).
    rewrite loop_cons in Hrun.
    destruct (walkS (join path (entryName child)) child st)
      as [r1 st1] eqn:E.
    destruct (Hchild _ _ _ _ Hreadc E) as [Hok1 Hfound1].
    destruct (walk_sound _ _ _ _ _ E) as [_ Hskip].
    assert (loopS path rest st1 = (r, st') →
            (∀ err, r ≠ Some (WalkFailure err))
            ∧ ((∃ p, below path (child :: rest) p) →
               below path (child :: rest) st')) as Hcont.
    { intros Hrest. destruct (IH _ _ _ Hrest) as [Hok Hfound].
      split; [done|].
      intros (p & c & [->|Hin]%elem_of_cons & Hp).
      - specialize (Hfound1 (ex_intro _ p Hp)).
        destruct (loop_sound path rest (λ c _, walk_sound c) _ _ _ Hrest)
          as [[->|(c' & Hc' & Hin')] _].
        + exists child. split; [list_mem|done].
        + exists c'. split; [by apply list_elem_of_further|done].
      - destruct Hfound as (c' & Hc' & Hin'); [by exists p, c|].
        exists c'. split; [by apply list_elem_of_further|done]. }
    destruct r1 as [[|e]|]; [|by destruct (Hok1 e)|by apply Hcont].
    destruct (entryIsDir child); [by apply Hcont|].
    injection Hrun as <- <-. split; [done|]. intros _.
    exists child. split; [list_mem|by apply Hskip].
Qed.

Lemma walk_complete :
  ∀ e path st r st',
    readable join path e → walkS path e st = (r, st') → complete path e r st'.
Proof.
  induction e as [name|name children IH|name err|name err]
    using entry_forall_ind; intros path st r st' Hread Hrun.
  - destruct (walk_sound _ _ _ _ _ Hrun) as [Hst Hskip].
    cbn [walk] in Hrun. unfold searchFn in Hrun.
    destruct (wanted name false) eqn:E; injection Hrun as <- <-.
    + split; [done|]. intros _. by apply Hskip.
    + split; [done|]. intros (p & x & Hx & Hw). cbn in Hx.
      apply list_elem_of_singleton in Hx. injection Hx as -> ->.
      unfold wantedEntry in Hw. cbn in Hw. congruence.
  - destruct (walk_sound _ _ _ _ _ Hrun) as [Hst Hskip].
    rewrite walk_dir in Hrun. destruct (wanted name true) eqn:E.
    + injection Hrun as <- <-. split; [done|]. intros _. by apply Hskip.
    + rewrite Forall_forall in IH.
      destruct (loop_complete path children
                  (λ c Hc, readable_child join _ _ _ _ Hread Hc) IH _ _ _ Hrun)
        as [Hok Hfound].
      split; [done|]. intros (p & x & Hx & Hw).
      apply entriesOf_dir in Hx as [[= -> ->]|(child & Hin & Hx)].
      { unfold wantedEntry in Hw. cbn in Hw. congruence. }
      destruct Hfound as (c & Hc & x' & Hx' & Hw').
      { exists p, child. split; [done|]. by exists x. }
      exists x'. split; [|done]. apply entriesOf_dir. right. by exists c.
  - exfalso. apply (Hread _ _ (entriesOf_self _ _ _)).
  - exfalso. apply (Hread _ _ (entriesOf_self _ _ _)).
Qed.

(** [filepath.Walk] with a search, on the empty path noted. *)
Lemma Walk_search root e err found :
  Walk join (searchFn wanted) root e ""%string = (err, found) →
  (found = ""%string ∨ inTree root e found)
  ∧ (readable join root e →
     err = None ∧ ((∃ p, inTree root e p) → inTree root e found)).
Proof.
  unfold Walk. destruct (walkS root e ""%string) as [r st'] eqn:E.
  destruct (walk_sound _ _ _ _ _ E) as [Hst _]. intros Hrun.
  assert (found = st') as -> by (destruct r as [[|?]|]; by injection Hrun).
  split; [done|]. intros Hread.
  destruct (walk_complete _ _ _ _ _ Hread E) as [Hok Hfound].
  split; [|done]. destruct r as [[|e']|]; [by injection Hrun| |by injection Hrun].
  by destruct (Hok e').
Qed.

(** A wanted file of a directory ends the loop over it, whatever the
    directories before it hold. *)
Lemma loop_first_file path name post :
  wanted name false = true →
  ∀ pre st,
    (∀ c, c ∈ pre → readable join (join path (entryName c)) c) →
    (∀ n, FileEntry n ∈ pre → wanted n false = false) →
    loopS path (pre ++ FileEntry name :: post) st
    = (Some SkipDir, join path name).
Proof.
  intros Hw. induction pre as [|child pre IH]; intros st Hread Hfiles.
  - cbn [app]. rewrite loop_cons. cbn [walk entryName entryIsDir].
    unfold searchFn. by rewrite Hw.
  - pose proof (Hread child (list_elem_of_here _ _)) as Hreadc.
    cbn [app]. rewrite loop_cons.
    assert (∀ st1, loopS path (pre ++ FileEntry name :: post) st1
                   = (Some SkipDir, join path name)) as Hcont.
    { intros st1. apply (IH st1).
      - intros c Hc. apply Hread. by apply list_elem_of_further.
      - intros n Hn. apply Hfiles. by apply list_elem_of_further. }
    destruct (walkS (join path (entryName child)) child st)
      as [r1 st1] eqn:E.
    destruct (walk_complete _ _ _ _ _ Hreadc E) as [Hok _].
    destruct r1 as [[|e]|]; [|by destruct (Hok e)|apply Hcont].
    destruct child as [n|n children|n err|n err]; cbn [entryIsDir];
      [|apply Hcont|apply Hcont|].
    + cbn [walk] in E. unfold searchFn in E.
      rewrite (Hfiles n (list_elem_of_here _ _)) in E. done.
    + destruct (Hreadc _ _ (entriesOf_self _ _ _)).
Qed.

End Search.

(** The two searches of the program are searches. *)
Lemma findSimplexDBFn_search :
  findSimplexDBFn
  = searchFn (λ name isDir,
                negb isDir
                && (contains name "simplex_v1_chat.db" || contains name "chat.db")).
Proof. reflexivity. Qed.

Lemma findSimplexFilesDirFn_search :
  findSimplexFilesDirFn
  = searchFn (λ name isDir,
                isDir && (contains name "simplex_v1_files" || contains name "files")).
Proof. reflexivity. Qed.

Lemma wanted_database x :
  wantedEntry (λ name isDir,
                 negb isDir
                 && (contains name "simplex_v1_chat.db" || contains name "chat.db"))
    x
  ↔ isDatabaseFile x.
Proof.
  unfold wantedEntry, isDatabaseFile.
  destruct x as [p [n|n c|n e|n e]]; cbn [snd negb andb]; [|done..].
  pose proof (contains_or n "simplex_v1_" "chat.db") as H.
  change ("simplex_v1_" +:+ "chat.db")%string
    with "simplex_v1_chat.db"%string in H.
  by rewrite H.
Qed.

Lemma wanted_filesDir x :
  wantedEntry (λ name isDir,
                 isDir && (contains name "simplex_v1_files" || contains name "files"))
    x
  ↔ isFilesDir x.
Proof.
  unfold wantedEntry, isFilesDir.
  destruct x as [p [n|n c|n e|n e]]; cbn [snd negb andb]; [done| |done..].
  pose proof (contains_or n "simplex_v1_" "files") as H.
  change ("simplex_v1_" +:+ "files")%string
    with "simplex_v1_files"%string in H.
  by rewrite H.
Qed.


(** X12. In an extracted archive every part of which can be read and
    whose paths are not empty, [findSimplexDB] returns the path of a
    regular file of the archive whose name contains "chat.db" when the
    archive has such a file, and fails with "no SimpleX database found in
    ZIP" exactly when it has none. *)
Theorem database_found_iff_archive_has_one (w : World) (extractedDir : string)
    (root : entry) :
  readable (w_filepathJoin w) extractedDir root →
  (∀ p x, (p, x) ∈ entriesOf (w_filepathJoin w) extractedDir root →
          p ≠ ""%string) →
  match findSimplexDB w extractedDir root with
  | Ok dbPath =>
      ∃ x, (dbPath, x) ∈ entriesOf (w_filepathJoin w) extractedDir root
           ∧ isDatabaseFile (dbPath, x)
  | Err e =>
      e = "no SimpleX database found in ZIP"%string
      ∧ ∀ p x, (p, x) ∈ entriesOf (w_filepathJoin w) extractedDir root →
               ¬ isDatabaseFile (p, x)
  | _ => False
  end.
Proof.
  intros Hread Hpaths. unfold findSimplexDB.
  rewrite findSimplexDBFn_search.
  destruct (Walk _ _ extractedDir root ""%string) as [err dbPath] eqn:E.
  destruct (Walk_search _ _ _ _ _ _ E) as [Hsound Hcomplete].
  destruct (Hcomplete Hread) as [-> Hfound].
  case_bool_decide as Hempty.
  - split; [done|]. intros p x Hx Hdb.
    destruct Hfound as (x' & Hx' & _).
    { exists p, x. split; [done|]. by apply wanted_database. }
    subst dbPath. by apply (Hpaths _ _ Hx').
  - destruct Hsound as [?|(x & Hx & Hw)]; [done|].
    exists x. split; [done|]. by apply wanted_database.
Qed.

Lemma database_found_iff_archive_has_one_witness :
  findSimplexDB exampleWorld "tmp" exampleArchive
  = Ok "tmp/simplex_v1_chat.db"%string
  ∧ ∃ x, ("tmp/simplex_v1_chat.db"%string, x)
         ∈ entriesOf (w_filepathJoin exampleWorld) "tmp" exampleArchive
         ∧ isDatabaseFile ("tmp/simplex_v1_chat.db"%string, x).
Proof.
  split; [reflexivity|].
  assert (readable (w_filepathJoin exampleWorld) "tmp" exampleArchive) as Hread.
  { intros p x Hx. cbn in Hx.
    repeat (apply elem_of_cons in Hx as [Hx|Hx]; [by simplify_eq|]).
    by apply elem_of_nil in Hx. }
  assert (∀ p x, (p, x) ∈ entriesOf (w_filepathJoin exampleWorld) "tmp"
                             exampleArchive → p ≠ ""%string) as Hpaths.
  { intros p x Hx. cbn in Hx.
    repeat (apply elem_of_cons in Hx as [Hx|Hx]; [by simplify_eq|]).
    by apply elem_of_nil in Hx. }
  exact (database_found_iff_archive_has_one exampleWorld "tmp" exampleArchive
           Hread Hpaths).
Defined.

(** X13. A database file that lies directly in the extracted directory
    wins: when the directories before it can be read and no file before
    it has "chat.db" in its name, [findSimplexDB] returns its path,
    whatever the directories before it and the entries after it hold. *)
Theorem database_at_top_level_wins (w : World) (extractedDir rootName : string)
    (pre post : list entry) (name : string) :
  contains name "chat.db" = true →
  (∀ c, c ∈ pre →
        readable (w_filepathJoin w)
          (w_filepathJoin w extractedDir (entryName c)) c) →
  (∀ n, FileEntry n ∈ pre → contains n "chat.db" = false) →
  w_filepathJoin w extractedDir name ≠ ""%string →
  findSimplexDB w extractedDir
    (DirEntry rootName (pre ++ FileEntry name :: post))
  = Ok (w_filepathJoin w extractedDir name).
Proof.
  intros Hname Hread Hfiles Hpath. unfold findSimplexDB, Walk.
  rewrite findSimplexDBFn_search, walk_dir. cbn [negb andb].
  rewrite loop_first_file; [by rewrite bool_decide_eq_false_2| |done|].
  - cbn [negb andb]. rewrite Hname. apply orb_true_r.
  - intros n Hn. cbn [negb andb].
    pose proof (contains_or n "simplex_v1_" "chat.db") as H.
    change ("simplex_v1_" +:+ "chat.db")%string
      with "simplex_v1_chat.db"%string in H.
    rewrite H. by apply Hfiles.
Qed.

Lemma database_at_top_level_wins_witness :
  findSimplexDB exampleWorld "tmp" exampleArchive
  = Ok "tmp/simplex_v1_chat.db"%string.
Proof.
  apply (database_at_top_level_wins exampleWorld "tmp" "simplex_import_1"
           [ DirEntry "backup" [ FileEntry "simplex_v1_chat.db" ];
             FileEntry "simplex_v1_agent.db" ]
           [ DirEntry "simplex_v1_files" [ FileEntry "a.png" ] ]
           "simplex_v1_chat.db").
  - reflexivity.
  - intros c Hc p x Hx.
    repeat (apply elem_of_cons in Hc as [->|Hc];
            [cbn in Hx;
             repeat (apply elem_of_cons in Hx as [Hx|Hx]; [by simplify_eq|]);
             by apply elem_of_nil in Hx|]).
    by apply elem_of_nil in Hc.
  - intros n Hn.
    repeat (apply elem_of_cons in Hn as [Hn|Hn]; [by simplify_eq|]).
    by apply elem_of_nil in Hn.
  - done.
Defined.

(** X14. In an extracted archive every part of which can be read and
    whose paths are not empty, [findOrCreateSimplexFilesDir] returns a
    directory of the archive whose name contains "files" when there is
    one, and creates nothing; only when there is none does it call
    [os.MkdirAll], on "simplex_v1_files" in the extracted directory, and
    returns that path when the call succeeds. *)
Theorem files_dir_found_or_created (w : World) (os : Os)
    (extractedDir : string) (root : entry) :
  readable (w_filepathJoin w) extractedDir root →
  (∀ p x, (p, x) ∈ entriesOf (w_filepathJoin w) extractedDir root →
          p ≠ ""%string) →
  match findOrCreateSimplexFilesDir w os extractedDir root with
  | (Ok filesDir, None) =>
      ∃ x, (filesDir, x) ∈ entriesOf (w_filepathJoin w) extractedDir root
           ∧ isFilesDir (filesDir, x)
  | (r, Some created) =>
      created = w_filepathJoin w extractedDir "simplex_v1_files"
      ∧ (∀ p x, (p, x) ∈ entriesOf (w_filepathJoin w) extractedDir root →
                ¬ isFilesDir (p, x))
      ∧ match os_mkdirAllError os created with
        | None => r = Ok created
        | Some e => r = Err (errorf "failed to create files directory" e)
        end
  | (_, None) => False
  end.
Proof.
  intros Hread Hpaths. unfold findOrCreateSimplexFilesDir.
  rewrite findSimplexFilesDirFn_search.
  destruct (Walk _ _ extractedDir root ""%string) as [err filesDir] eqn:E.
  destruct (Walk_search _ _ _ _ _ _ E) as [Hsound Hcomplete].
  destruct (Hcomplete Hread) as [-> Hfound].
  case_bool_decide as Hempty.
  - assert (∀ p x, (p, x) ∈ entriesOf (w_filepathJoin w) extractedDir root →
                   ¬ isFilesDir (p, x)) as Hnone.
    { intros p x Hx Hdir. destruct Hfound as (x' & Hx' & _).
      { exists p, x. split; [done|]. by apply wanted_filesDir. }
      subst filesDir. by apply (Hpaths _ _ Hx'). }
    cbv zeta.
    destruct (os_mkdirAllError os _) as [e|] eqn:Em;
      (split; [done|split; [done|by rewrite Em]]).
  - destruct Hsound as [?|(x & Hx & Hw)]; [done|].
    exists x. split; [done|]. by apply wanted_filesDir.
Qed.

Lemma files_dir_found_or_created_witness :
  findOrCreateSimplexFilesDir exampleWorld exampleOs "tmp" exampleArchive
  = (Ok "tmp/simplex_v1_files"%string, None)
  ∧ ∃ x, ("tmp/simplex_v1_files"%string, x)
         ∈ entriesOf (w_filepathJoin exampleWorld) "tmp" exampleArchive
         ∧ isFilesDir ("tmp/simplex_v1_files"%string, x).
Proof.
  split; [reflexivity|].
  assert (readable (w_filepathJoin exampleWorld) "tmp" exampleArchive) as Hread.
  { intros p x Hx. cbn in Hx.
    repeat (apply elem_of_cons in Hx as [Hx|Hx]; [by simplify_eq|]).
    by apply elem_of_nil in Hx. }
  assert (∀ p x, (p, x) ∈ entriesOf (w_filepathJoin exampleWorld) "tmp"
                             exampleArchive → p ≠ ""%string) as Hpaths.
  { intros p x Hx. cbn in Hx.
    repeat (apply elem_of_cons in Hx as [Hx|Hx]; [by simplify_eq|]).
    by apply elem_of_nil in Hx. }
  exact (files_dir_found_or_created exampleWorld exampleOs "tmp" exampleArchive
           Hread Hpaths).
Defined.


(** ** Variation selectors *)

Lemma ascii_of_N_inj (n m : N) :
  (n < 256)%N → (m < 256)%N → ascii_of_N n = ascii_of_N m → n = m.
Proof.
  intros Hn Hm H.
  rewrite <- (N_ascii_embedding n Hn), <- (N_ascii_embedding m Hm).
  by rewrite H.
Qed.

Lemma normalize_other (a : ascii) (tl : string) :
  a ≠ "239"%char →
  normalizeEmojiForSimpleX (String a tl)
  = String a (normalizeEmojiForSimpleX tl).
Proof.
  intros Ha. destruct tl as [|b [|c rest]]; try reflexivity.
  change (normalizeEmojiForSimpleX (String a (String b (String c rest))))
    with (if isVariationSelector a b c then normalizeEmojiForSimpleX rest
          else String a (normalizeEmojiForSimpleX (String b (String c rest)))).
  unfold isVariationSelector. by rewrite (bool_decide_eq_false_2 _ Ha).
Qed.

Lemma normalize_byte (n : N) (tl : string) :
  (n < 256)%N → n ≠ 239%N →
  normalizeEmojiForSimpleX (String (ascii_of_N n) tl)
  = String (ascii_of_N n) (normalizeEmojiForSimpleX tl).
Proof.
  intros Hn Hne. apply normalize_other. intros H. apply Hne.
  by apply (ascii_of_N_inj n 239).
Qed.

Lemma isVariationSelector_bytes (a b c : N) :
  (a < 256)%N → (b < 256)%N → (c < 256)%N →
  isVariationSelector (ascii_of_N a) (ascii_of_N b) (ascii_of_N c)
  = (a =? 239)%N && (b =? 184)%N && ((c =? 142)%N || (c =? 143)%N).
Proof.
  intros Ha Hb Hc. unfold isVariationSelector.
  assert (∀ n m, (n < 256)%N → (m < 256)%N →
                 bool_decide (ascii_of_N n = ascii_of_N m) = (n =? m)%N) as H.
  { intros n m Hn Hm. destruct (N.eqb_spec n m) as [->|Hne].
    - by apply bool_decide_eq_true_2.
    - apply bool_decide_eq_false_2. intros E. by apply Hne, ascii_of_N_inj. }
  change "239"%char with (ascii_of_N 239).
  change "184"%char with (ascii_of_N 184).
  change "142"%char with (ascii_of_N 142).
  change "143"%char with (ascii_of_N 143).
  by rewrite !H.
Qed.

Lemma append_String (a : ascii) (x y : string) :
  (String a x +:+ y = String a (x +:+ y))%string.
Proof. reflexivity. Qed.

Lemma append_Empty (y : string) : (EmptyString +:+ y = y)%string.
Proof. reflexivity. Qed.

Lemma normalize_rune (r : N) (s : string) :
  validRune r →
  normalizeEmojiForSimpleX (encodeRune r +:+ s)
  = if negb (r =? 0xFE0E)%N && negb (r =? 0xFE0F)%N
    then encodeRune r +:+ normalizeEmojiForSimpleX s
    else normalizeEmojiForSimpleX s.
Proof.
  intros Hvalid. unfold validRune in Hvalid. unfold encodeRune.
  destruct (N.ltb_spec r 0x80) as [H1|H1];
    [|destruct (N.ltb_spec r 0x800) as [H2|H2];
      [|destruct (N.ltb_spec r 0x10000) as [H3|H3]]].
  - rewrite !append_String, !append_Empty. rewrite normalize_byte by lia.
    destruct (N.eqb_spec r 0xFE0E); [lia|].
    destruct (N.eqb_spec r 0xFE0F); [lia|]. done.
  - rewrite !append_String, !append_Empty.
    pose proof (N.Div0.div_lt_upper_bound r 64 32) as Hd.
    pose proof (N.mod_upper_bound r 64) as Hm.
    set (q := (r / 64)%N) in *. set (m := (r mod 64)%N) in *.
    rewrite (normalize_byte (192 + q)) by lia.
    rewrite (normalize_byte (128 + m)) by lia.
    destruct (N.eqb_spec r 0xFE0E); [lia|].
    destruct (N.eqb_spec r 0xFE0F); [lia|]. done.
  - rewrite !append_String, !append_Empty.
    pose proof (N.Div0.div_lt_upper_bound r 4096 16) as Hd.
    pose proof (N.mod_upper_bound (r / 64) 64) as Hm1.
    pose proof (N.mod_upper_bound r 64) as Hm.
    pose proof (N.div_mod r 4096) as E1.
    pose proof (N.div_mod r 64) as E2.
    pose proof (N.div_mod (r / 64) 64) as E3.
    rewrite N.Div0.div_div in E3. change (64 * 64)%N with 4096%N in E3.
    set (q := (r / 4096)%N) in *. set (m1 := ((r / 64) mod 64)%N) in *.
    set (m := (r mod 64)%N) in *. set (d := (r / 64)%N) in *.
    change (normalizeEmojiForSimpleX
              (String (ascii_of_N (224 + q))
                 (String (ascii_of_N (128 + m1))
                    (String (ascii_of_N (128 + m)) s))))
      with (if isVariationSelector (ascii_of_N (224 + q))
                 (ascii_of_N (128 + m1)) (ascii_of_N (128 + m))
            then normalizeEmojiForSimpleX s
            else String (ascii_of_N (224 + q))
                   (normalizeEmojiForSimpleX
                      (String (ascii_of_N (128 + m1))
                         (String (ascii_of_N (128 + m)) s)))).
    rewrite isVariationSelector_bytes by lia.
    rewrite (normalize_byte (128 + m1)) by lia.
    rewrite (normalize_byte (128 + m)) by lia.
    destruct (N.eqb_spec r 0xFE0E) as [Ea|Ea];
      destruct (N.eqb_spec r 0xFE0F) as [Eb|Eb];
      destruct (N.eqb_spec (224 + q) 239);
      destruct (N.eqb_spec (128 + m1) 184);
      destruct (N.eqb_spec (128 + m) 142);
      destruct (N.eqb_spec (128 + m) 143);
      cbn [negb andb orb]; try reflexivity; exfalso; lia.
  - rewrite !append_String, !append_Empty.
    pose proof (N.Div0.div_lt_upper_bound r 262144 8) as Hd.
    pose proof (N.mod_upper_bound (r / 4096) 64) as Hm2.
    pose proof (N.mod_upper_bound (r / 64) 64) as Hm1.
    pose proof (N.mod_upper_bound r 64) as Hm.
    set (q := (r / 262144)%N) in *. set (m2 := ((r / 4096) mod 64)%N) in *.
    set (m1 := ((r / 64) mod 64)%N) in *. set (m := (r mod 64)%N) in *.
    rewrite (normalize_byte (240 + q)) by lia.
    rewrite (normalize_byte (128 + m2)) by lia.
    rewrite (normalize_byte (128 + m1)) by lia.
    rewrite (normalize_byte (128 + m)) by lia.
    destruct (N.eqb_spec r 0xFE0E); [lia|].
    destruct (N.eqb_spec r 0xFE0F); [lia|]. done.
Qed.

Lemma append_assoc (a b c : string) : ((a +:+ b) +:+ c = a +:+ (b +:+ c))%string.
Proof.
  induction a as [|x a IH]; [done|]. rewrite !append_String. by rewrite IH.
Qed.

(** X15. On a string of valid UTF-8, [normalizeEmojiForSimpleX] removes
    the variation selectors U+FE0E and U+FE0F and nothing else: the
    result is the string of the remaining runes, in their order. *)
Theorem normalize_removes_the_variation_selectors (runes : list N) :
  Forall validRune runes →
  normalizeEmojiForSimpleX (stringOfRunes runes)
  = stringOfRunes (normalizeRunes runes).
Proof.
  induction 1 as [|r runes Hr _ IH]; [reflexivity|].
  cbn [stringOfRunes foldr normalizeRunes List.filter].
  rewrite (normalize_rune r _ Hr).
  fold (stringOfRunes runes). rewrite IH.
  by destruct (negb (r =? 0xFE0E)%N && negb (r =? 0xFE0F)%N).
Qed.

Lemma normalize_removes_the_variation_selectors_witness :
  normalizeEmojiForSimpleX (stringOfRunes [0x2764; 0xFE0F; 0x1F44D]%N)
  = stringOfRunes [0x2764; 0x1F44D]%N.
Proof.
  apply (normalize_removes_the_variation_selectors [0x2764; 0xFE0F; 0x1F44D]%N).
  repeat constructor; unfold validRune; lia.
Defined.
